(** * Remote file replicator: a shallow embedding of
      [remote_file_replicator.py] and the properties of its specification.

    The development follows the layers of the program:

    - [PosixPath]: the string functions of Python's [posixpath] that the
      replicator calls ([join], [dirname], [normpath], [abspath], [relpath]);
    - [Fs]: the [FileSystem] collaborator as an in-memory tree with a watch
      registry, a log of physical writes and a fault oracle;
    - the classes [ReplicatorSource] and [ReplicatorTarget], written in a
      state-and-exception monad so that a mutation made before an exception
      is raised stays visible, as it does for a Python object;
    - the theorems, one per claim of the specification. *)

From Stdlib Require Import String Ascii List Bool Arith Lia.
From stdpp Require Import gmap strings list.

Open Scope string_scope.

(** ** Outcomes and the state-and-exception monad *)

(** The exceptions a call can raise.  The last three stand for the
    environment failures that the specification calls "all other I/O
    failures". *)
Inductive exn : Type :=
| NotFound
| NotADirectory
| IsADirectory
| FileExists
| ValueError
| PermissionDenied
| DiskFull
| CorruptRead.

(** [Val a]: the call returned [a]; [Exn e]: it raised [e]; [Diverge]: the
    recursion budget of the model was exhausted. *)
Inductive outcome (A : Type) : Type :=
| Val (a : A)
| Exn (e : exn)
| Diverge.
Arguments Val {A} a.
Arguments Exn {A} e.
Arguments Diverge {A}.

Definition M (S A : Type) : Type := S -> outcome A * S.

Definition ret {S A} (a : A) : M S A := fun s => (Val a, s).

Definition bind {S A B} (m : M S A) (k : A -> M S B) : M S B :=
  fun s =>
    match m s with
    | (Val a, s') => k a s'
    | (Exn e, s') => (Exn e, s')
    | (Diverge, s') => (Diverge, s')
    end.

Definition raise {S A} (e : exn) : M S A := fun s => (Exn e, s).

Definition diverge {S A} : M S A := fun s => (Diverge, s).

Definition get {S} : M S S := fun s => (Val s, s).

Definition modify {S} (f : S -> S) : M S unit := fun s => (Val tt, f s).

(** Python's [try: body / except: pass]: a bare [except] absorbs every
    exception, whatever its kind; the state reached when the exception was
    raised is kept. *)
Definition try_pass {S} (body : M S unit) : M S unit :=
  fun s =>
    match body s with
    | (Exn _, s') => (Val tt, s')
    | r => r
    end.

(** Run a computation on a component of the state. *)
Definition zoom {S T A} (proj : S -> T) (upd : T -> S -> S) (m : M T A) : M S A :=
  fun s => let (r, t) := m (proj s) in (r, upd t s).

Notation "'let!' x ':=' m 'in' k" := (bind m (fun x => k))
  (at level 10, x name, m at level 100, k at level 200).
Notation "m '>>' k" := (bind m (fun _ => k))
  (at level 90, right associativity).

(** [for x in l: body x] *)
Fixpoint for_each {S A} (l : list A) (body : A -> M S unit) : M S unit :=
  match l with
  | [] => ret tt
  | x :: l' => body x >> for_each l' body
  end.

(** ** posixpath *)

Module PosixPath.

Definition is_sep (c : ascii) : bool := Ascii.eqb c "/".

(** [s.split('/')] *)
Fixpoint split (s : string) : list string :=
  match s with
  | EmptyString => [EmptyString]
  | String c r =>
      if is_sep c then EmptyString :: split r
      else match split r with
           | h :: t => String c h :: t
           | [] => [String c EmptyString]
           end
  end.

(** [sep.join(comps)] *)
Definition sep_join (comps : list string) : string := String.concat "/" comps.

(** [s.startswith(pre)] *)
Definition startswith (pre s : string) : bool := String.prefix pre s.

(** [s.endswith('/')] *)
Fixpoint endswith_sep (s : string) : bool :=
  match s with
  | EmptyString => false
  | String c EmptyString => is_sep c
  | String _ r => endswith_sep r
  end.

Definition isabs (p : string) : bool := startswith "/" p.

(** [posixpath.join(a, b)] *)
Definition join (a b : string) : string :=
  if startswith "/" b then b
  else if String.eqb a "" || endswith_sep a then a ++ b
  else a ++ "/" ++ b.

(** [posixpath.join(a, *p)] *)
Definition join_all (a : string) (p : list string) : string := fold_left join p a.

(** [s.rstrip('/')] *)
Fixpoint rstrip_sep (s : string) : string :=
  match s with
  | EmptyString => EmptyString
  | String c r =>
      match rstrip_sep r with
      | EmptyString => if is_sep c then EmptyString else String c EmptyString
      | r' => String c r'
      end
  end.

Fixpoint has_sep (s : string) : bool :=
  match s with
  | EmptyString => false
  | String c r => is_sep c || has_sep r
  end.

(** [p[:p.rfind('/') + 1]] *)
Fixpoint head_part (p : string) : string :=
  match p with
  | EmptyString => EmptyString
  | String c r => if has_sep p then String c (head_part r) else EmptyString
  end.

Fixpoint all_sep (s : string) : bool :=
  match s with
  | EmptyString => true
  | String c r => is_sep c && all_sep r
  end.

(** [posixpath.dirname(p)] *)
Definition dirname (p : string) : string :=
  let head := head_part p in
  if negb (String.eqb head "") && negb (all_sep head) then rstrip_sep head else head.

(** One turn of the loop of [normpath] over the components; the list
    [new_comps] is kept with its last element first. *)
Definition norm_step (initial_slashes : nat) (new_comps : list string) (comp : string)
  : list string :=
  if String.eqb comp "" || String.eqb comp "." then new_comps
  else if negb (String.eqb comp "..")
          || (Nat.eqb initial_slashes 0 && match new_comps with [] => true | _ => false end)
          || match new_comps with top :: _ => String.eqb top ".." | [] => false end
       then comp :: new_comps
       else match new_comps with _ :: rest => rest | [] => new_comps end.

Definition norm_comps (initial_slashes : nat) (comps : list string) : list string :=
  rev (fold_left (norm_step initial_slashes) comps []).

(** POSIX lets a path that starts with exactly two slashes keep them. *)
Definition initial_slashes (path : string) : nat :=
  if startswith "/" path then
    if startswith "//" path && negb (startswith "///" path) then 2 else 1
  else 0.

Fixpoint seps (n : nat) : string :=
  match n with 0 => EmptyString | S n' => String "/" (seps n') end.

(** [posixpath.normpath(path)] *)
Definition normpath (path : string) : string :=
  if String.eqb path "" then "."
  else
    let i := initial_slashes path in
    let p := seps i ++ sep_join (norm_comps i (split path)) in
    if String.eqb p "" then "." else p.

(** [posixpath.abspath(path)], with [cwd] the value of [os.getcwd()]. *)
Definition abspath (cwd path : string) : string :=
  normpath (if isabs path then path else join cwd path).

Definition nonempty (s : string) : bool := negb (String.eqb s "").

Fixpoint common_prefix_len (l1 l2 : list string) : nat :=
  match l1, l2 with
  | x :: l1', y :: l2' => if String.eqb x y then S (common_prefix_len l1' l2') else 0
  | _, _ => 0
  end.

(** [posixpath.relpath(path, start)]; [None] is the [ValueError] raised for
    an empty [path]. *)
Definition relpath (cwd path start : string) : option string :=
  if String.eqb path "" then None
  else
    let start_list := List.filter nonempty (split (abspath cwd start)) in
    let path_list := List.filter nonempty (split (abspath cwd path)) in
    let i := common_prefix_len start_list path_list in
    let rel_list := (repeat ".." (length start_list - i) ++ skipn i path_list)%list in
    match rel_list with
    | [] => Some "."
    | a :: p => Some (join_all a p)
    end.

End PosixPath.

(** ** The file system collaborator *)

(** Modelled from the spec: the module [file_system] ([FileSystem],
    [FileSystemEvent], [FileSystemEventType]) is imported by the program but
    is not part of its sources.  Section 6 of the specification gives its
    surface: [listdir], [isdir], [exists], [readfile], [writefile],
    [removefile], [removedir] (recursive), [makedirs] (creates ancestors),
    [watchdir], [unwatchdir].  It is modelled as an in-memory tree.
    Inspecting a path that does not exist raises a not-found condition
    (section 4.3), cancelling a watch that is not registered raises
    (section 4.1), and [makedirs] refuses an existing path, which is why the
    program guards it with [exists].  Every call first consults a fault
    oracle, which stands for the failures of the environment (permission
    denied, disk full, corrupt read: section 7 (d)). *)
Module Fs.

#[local] Unset Elimination Schemes.
Inductive node : Type :=
| File (content : string)
| Dir (entries : list (string * node)).
#[local] Set Elimination Schemes.

Definition entries : Type := list (string * node).

Fixpoint assoc (n : string) (es : entries) : option node :=
  match es with
  | [] => None
  | (m, c) :: es' => if String.eqb n m then Some c else assoc n es'
  end.

(** Replace the entry named [n], or add it at the end. *)
Fixpoint assoc_set (n : string) (v : node) (es : entries) : entries :=
  match es with
  | [] => [(n, v)]
  | (m, c) :: es' => if String.eqb n m then (m, v) :: es' else (m, c) :: assoc_set n v es'
  end.

Fixpoint assoc_del (n : string) (es : entries) : entries :=
  match es with
  | [] => []
  | (m, c) :: es' => if String.eqb n m then assoc_del n es' else (m, c) :: assoc_del n es'
  end.

Fixpoint lookup (p : list string) (t : node) : option node :=
  match p with
  | [] => Some t
  | n :: p' =>
      match t with
      | Dir es => match assoc n es with Some c => lookup p' c | None => None end
      | File _ => None
      end
  end.

(** Put [v] at path [p]; the parent of [p] has to be a directory, otherwise
    the tree is unchanged. *)
Fixpoint put (p : list string) (v : node) (t : node) : node :=
  match p with
  | [] => v
  | n :: p' =>
      match t with
      | Dir es =>
          match p' with
          | [] => Dir (assoc_set n v es)
          | _ => match assoc n es with
                 | Some c => Dir (assoc_set n (put p' v c) es)
                 | None => t
                 end
          end
      | File _ => t
      end
  end.

(** Remove whatever is at path [p]; removing the root empties it. *)
Fixpoint del (p : list string) (t : node) : node :=
  match p with
  | [] => Dir []
  | n :: p' =>
      match t with
      | Dir es =>
          match p' with
          | [] => Dir (assoc_del n es)
          | _ => match assoc n es with
                 | Some c => Dir (assoc_set n (del p' c) es)
                 | None => t
                 end
          end
      | File _ => t
      end
  end.

(** Create the chain of directories [p], keeping what exists. *)
Fixpoint mkchain (p : list string) (t : node) : node :=
  match p with
  | [] => t
  | n :: p' =>
      match t with
      | Dir es =>
          let c := match assoc n es with Some c => c | None => Dir [] end in
          Dir (assoc_set n (mkchain p' c) es)
      | File _ => t
      end
  end.

(** Does a file stand where [makedirs p] needs a directory? *)
Fixpoint blocked (p : list string) (t : node) : bool :=
  match t with
  | File _ => true
  | Dir es =>
      match p with
      | [] => false
      | n :: p' => match assoc n es with Some c => blocked p' c | None => false end
      end
  end.

Inductive fs_op : Type :=
| OpListdir | OpIsdir | OpExists | OpReadfile | OpWritefile
| OpRemovefile | OpRemovedir | OpMakedirs | OpWatchdir | OpUnwatchdir.

Record FileSystem : Type := mkFileSystem {
  fs_tree : node;
  (** the directories with a registered watch callback *)
  fs_watched : gset (list string);
  (** every [writefile] that was carried out, the latest first *)
  fs_written : list (string * string);
  (** the failure, if any, that the environment makes a call raise *)
  fs_faults : fs_op -> string -> option exn
}.

Definition no_faults : fs_op -> string -> option exn := fun _ _ => None.

Definition set_tree (t : node) (fs : FileSystem) : FileSystem :=
  mkFileSystem t (fs_watched fs) (fs_written fs) (fs_faults fs).

Definition set_watched (w : gset (list string)) (fs : FileSystem) : FileSystem :=
  mkFileSystem (fs_tree fs) w (fs_written fs) (fs_faults fs).

(** The components a path string denotes, from the root of the tree. *)
Definition resolve (path : string) : list string :=
  PosixPath.norm_comps 1 (PosixPath.split path).

Definition at_path (fs : FileSystem) (path : string) : option node :=
  lookup (resolve path) (fs_tree fs).

(** A call: the fault oracle first, then the operation itself. *)
Definition call {A} (op : fs_op) (path : string) (body : M FileSystem A) : M FileSystem A :=
  fun fs =>
    match fs_faults fs op path with
    | Some e => (Exn e, fs)
    | None => body fs
    end.

Definition exists_ (path : string) : M FileSystem bool :=
  call OpExists path (fun fs =>
    (Val (match at_path fs path with Some _ => true | None => false end), fs)).

Definition isdir (path : string) : M FileSystem bool :=
  call OpIsdir path (fun fs =>
    match at_path fs path with
    | Some (Dir _) => (Val true, fs)
    | Some (File _) => (Val false, fs)
    | None => (Exn NotFound, fs)
    end).

Definition listdir (path : string) : M FileSystem (list string) :=
  call OpListdir path (fun fs =>
    match at_path fs path with
    | Some (Dir es) => (Val (map fst es), fs)
    | Some (File _) => (Exn NotADirectory, fs)
    | None => (Exn NotFound, fs)
    end).

Definition readfile (path : string) : M FileSystem string :=
  call OpReadfile path (fun fs =>
    match at_path fs path with
    | Some (File content) => (Val content, fs)
    | Some (Dir _) => (Exn IsADirectory, fs)
    | None => (Exn NotFound, fs)
    end).

Definition writefile (path content : string) : M FileSystem unit :=
  call OpWritefile path (fun fs =>
    let p := resolve path in
    match lookup p (fs_tree fs) with
    | Some (Dir _) => (Exn IsADirectory, fs)
    | _ =>
        match lookup (removelast p) (fs_tree fs) with
        | Some (Dir _) =>
            (Val tt, mkFileSystem (put p (File content) (fs_tree fs)) (fs_watched fs)
                       ((path, content) :: fs_written fs) (fs_faults fs))
        | Some (File _) => (Exn NotADirectory, fs)
        | None => (Exn NotFound, fs)
        end
    end).

Definition removefile (path : string) : M FileSystem unit :=
  call OpRemovefile path (fun fs =>
    match at_path fs path with
    | Some (File _) => (Val tt, set_tree (del (resolve path) (fs_tree fs)) fs)
    | Some (Dir _) => (Exn IsADirectory, fs)
    | None => (Exn NotFound, fs)
    end).

Definition removedir (path : string) : M FileSystem unit :=
  call OpRemovedir path (fun fs =>
    match at_path fs path with
    | Some (Dir _) => (Val tt, set_tree (del (resolve path) (fs_tree fs)) fs)
    | Some (File _) => (Exn NotADirectory, fs)
    | None => (Exn NotFound, fs)
    end).

Definition makedirs (path : string) : M FileSystem unit :=
  call OpMakedirs path (fun fs =>
    match at_path fs path with
    | Some _ => (Exn FileExists, fs)
    | None =>
        if blocked (resolve path) (fs_tree fs) then (Exn NotADirectory, fs)
        else (Val tt, set_tree (mkchain (resolve path) (fs_tree fs)) fs)
    end).

(** The callback is always the [handle_event] of the one source, so the
    registry keeps the watched directories only. *)
Definition watchdir (path : string) : M FileSystem unit :=
  call OpWatchdir path (fun fs =>
    match at_path fs path with
    | Some (Dir _) => (Val tt, set_watched ({[resolve path]} ∪ fs_watched fs) fs)
    | Some (File _) => (Exn NotADirectory, fs)
    | None => (Exn NotFound, fs)
    end).

Definition unwatchdir (path : string) : M FileSystem unit :=
  call OpUnwatchdir path (fun fs =>
    if bool_decide (resolve path ∈ fs_watched fs)
    then (Val tt, set_watched (fs_watched fs ∖ {[resolve path]}) fs)
    else (Exn NotFound, fs)).

Inductive FileSystemEventType : Type :=
| FILE_OR_SUBDIR_ADDED
| FILE_MODIFIED
| FILE_OR_SUBDIR_REMOVED.

Record FileSystemEvent : Type := mkEvent {
  event_type : FileSystemEventType;
  path : string
}.

End Fs.

Import PosixPath.
Import Fs.

(** ** The action protocol *)

(** The request dictionaries, keyed by their ['action'] entry.  Every
    request carries a ['relative_path']; the one of [Sync] is a placeholder. *)
Inductive request : Type :=
| Write (relative_path content : string)
| MkDir (relative_path : string)
| Remove (relative_path : string)
| Sync (dirs files : gset string) (relative_path : string).

Definition request_relative_path (r : request) : string :=
  match r with
  | Write p _ | MkDir p | Remove p | Sync _ _ p => p
  end.

(** ** ReplicatorTarget *)

Record ReplicatorTarget : Type := mkTarget {
  tgt_fs : FileSystem;
  tgt_dir_path : string
}.

Definition tgt_call {A} (m : M FileSystem A) : M ReplicatorTarget A :=
  zoom tgt_fs (fun fs self => mkTarget fs (tgt_dir_path self)) m.

(** [posixpath.relpath] raises [ValueError] on an empty path. *)
Definition relpath_or_raise {S} (cwd path start : string) : M S string :=
  match relpath cwd path start with
  | Some r => ret r
  | None => raise ValueError
  end.

Section Target.

(** The working directory of the process, which [relpath] consults for
    paths that are not absolute. *)
Variable cwd : string.

(** [ReplicatorTarget._sync_directory]; [fuel] bounds the depth of the
    recursion. *)
Fixpoint sync_directory (fuel : nat) (current_path : string) (dirs files : gset string)
  : M ReplicatorTarget unit :=
  match fuel with
  | 0 => diverge
  | S fuel' =>
      let! self := get in
      let! items := tgt_call (listdir current_path) in
      for_each items (fun item =>
        let item_path := join current_path item in
        let! relative_path := relpath_or_raise cwd item_path (tgt_dir_path self) in
        let! d := tgt_call (isdir item_path) in
        if d then
          if negb (bool_decide (relative_path ∈ dirs))
          then tgt_call (removedir item_path)
          else sync_directory fuel' item_path dirs files
        else
          if negb (bool_decide (relative_path ∈ files))
          then tgt_call (removefile item_path)
          else ret tt)
  end.

(** [ReplicatorTarget.handle_request] *)
Definition handle_request (fuel : nat) (req : request) : M ReplicatorTarget unit :=
  let! self := get in
  let relative_path := request_relative_path req in
  let target_path := join (tgt_dir_path self) relative_path in
  match req with
  | Write _ content =>
      let target_dir := dirname target_path in
      let! e := tgt_call (exists_ target_dir) in
      (if negb e then tgt_call (makedirs target_dir) else ret tt) >>
      try_pass (let! d := tgt_call (isdir target_path) in
                if d then tgt_call (removedir target_path) else ret tt) >>
      let! e1 := tgt_call (exists_ target_path) in
      let! differs :=
        (if negb e1 then ret true
         else let! e2 := tgt_call (exists_ target_path) in
              if e2 then let! old := tgt_call (readfile target_path) in
                         ret (negb (String.eqb old content))
              else ret false) in
      if differs then tgt_call (writefile target_path content) else ret tt
  | MkDir _ =>
      try_pass (let! d := tgt_call (isdir target_path) in
                if negb d then tgt_call (removefile target_path) else ret tt) >>
      let! e := tgt_call (exists_ target_path) in
      if negb e then tgt_call (makedirs target_path) else ret tt
  | Remove _ =>
      let! e := tgt_call (exists_ target_path) in
      if e then
        let! d := tgt_call (isdir target_path) in
        if d then tgt_call (removedir target_path)
        else tgt_call (removefile target_path)
      else ret tt
  | Sync dirs files _ =>
      sync_directory fuel (tgt_dir_path self) dirs files
  end.

End Target.

(** ** ReplicatorSource *)

(** [peer] is whatever stands behind [rpc_handle]: the target when the two
    sides are connected, a recorder of the requests when the stream of
    actions is observed. *)
Record ReplicatorSource (R : Type) : Type := mkSource {
  src_fs : FileSystem;
  src_dir_path : string;
  src_watch_dirs : gset string;
  src_watch_files : gset string;
  src_peer : R
}.
Arguments mkSource {R}.
Arguments src_fs {R}.
Arguments src_dir_path {R}.
Arguments src_watch_dirs {R}.
Arguments src_watch_files {R}.
Arguments src_peer {R}.

Section Source.

Context {R : Type}.
Variable cwd : string.
(** The transport: a blocking call, whose exceptions reach the caller. *)
Variable rpc_handle : request -> M R unit.

Definition src_call {A} (m : M FileSystem A) : M (ReplicatorSource R) A :=
  zoom src_fs
    (fun fs self => mkSource fs (src_dir_path self) (src_watch_dirs self)
                      (src_watch_files self) (src_peer self)) m.

Definition rpc (req : request) : M (ReplicatorSource R) unit :=
  zoom src_peer
    (fun peer self => mkSource (src_fs self) (src_dir_path self) (src_watch_dirs self)
                        (src_watch_files self) peer) (rpc_handle req).

Definition watch_dirs_add (p : string) : M (ReplicatorSource R) unit :=
  modify (fun self => mkSource (src_fs self) (src_dir_path self)
                        ({[p]} ∪ src_watch_dirs self) (src_watch_files self) (src_peer self)).

Definition watch_dirs_discard (p : string) : M (ReplicatorSource R) unit :=
  modify (fun self => mkSource (src_fs self) (src_dir_path self)
                        (src_watch_dirs self ∖ {[p]}) (src_watch_files self) (src_peer self)).

Definition watch_files_add (p : string) : M (ReplicatorSource R) unit :=
  modify (fun self => mkSource (src_fs self) (src_dir_path self)
                        (src_watch_dirs self) ({[p]} ∪ src_watch_files self) (src_peer self)).

Definition watch_files_discard (p : string) : M (ReplicatorSource R) unit :=
  modify (fun self => mkSource (src_fs self) (src_dir_path self)
                        (src_watch_dirs self) (src_watch_files self ∖ {[p]}) (src_peer self)).

(** [ReplicatorSource._replicate_directory]; [fuel] bounds the depth of
    the recursion. *)
Fixpoint replicate_directory (fuel : nat) (current_path : string)
  : M (ReplicatorSource R) unit :=
  match fuel with
  | 0 => diverge
  | S fuel' =>
      let! self := get in
      let! items := src_call (listdir current_path) in
      for_each items (fun item =>
        let item_path := join current_path item in
        let! relative_path := relpath_or_raise cwd item_path (src_dir_path self) in
        let! d := src_call (isdir item_path) in
        if d then
          rpc (MkDir relative_path) >>
          watch_dirs_add relative_path >>
          src_call (watchdir item_path) >>
          replicate_directory fuel' item_path
        else
          let! content := src_call (readfile item_path) in
          rpc (Write relative_path content) >>
          watch_files_add relative_path)
  end.

(** The first loop of the removal branch of [handle_event]: over the
    watched directories [l], cancel the watch of every path that starts
    with [relative_path], whatever the cancellation raises, and collect
    those paths. *)
Fixpoint unwatch_prefixed (dir_path relative_path : string) (l remove_paths : list string)
  : M (ReplicatorSource R) (list string) :=
  match l with
  | [] => ret remove_paths
  | p :: l' =>
      if startswith relative_path p then
        let base_path := join dir_path p in
        try_pass (src_call (unwatchdir base_path)) >>
        unwatch_prefixed dir_path relative_path l' (remove_paths ++ [p])%list
      else unwatch_prefixed dir_path relative_path l' remove_paths
  end.

(** [ReplicatorSource.handle_event] *)
Definition handle_event (fuel : nat) (event : FileSystemEvent) : M (ReplicatorSource R) unit :=
  let! self := get in
  let! relative_path := relpath_or_raise cwd (path event) (src_dir_path self) in
  match event_type event with
  | FILE_OR_SUBDIR_ADDED =>
      let! d := src_call (isdir (path event)) in
      let! req :=
        (if d then
           let req := MkDir relative_path in
           watch_dirs_add relative_path >>
           src_call (watchdir (path event)) >>
           replicate_directory fuel (path event) >>
           ret req
         else
           let! content := src_call (readfile (path event)) in
           ret (Write relative_path content)) in
      rpc req >>
      watch_files_add relative_path
  | FILE_MODIFIED =>
      let! content := src_call (readfile (path event)) in
      rpc (Write relative_path content)
  | FILE_OR_SUBDIR_REMOVED =>
      let! remove_paths :=
        unwatch_prefixed (src_dir_path self) relative_path
          (elements (src_watch_dirs self)) [] in
      for_each remove_paths watch_dirs_discard >>
      (match find (String.eqb relative_path) (elements (src_watch_files self)) with
       | Some p => watch_files_discard p
       | None => ret tt
       end) >>
      rpc (Remove relative_path)
  end.

(** [ReplicatorSource.__init__], run on a fresh object. *)
Definition init (fuel : nat) : M (ReplicatorSource R) unit :=
  let! self := get in
  watch_dirs_add (src_dir_path self) >>
  src_call (watchdir (src_dir_path self)) >>
  replicate_directory fuel (src_dir_path self) >>
  let! self' := get in
  rpc (Sync (src_watch_dirs self') (src_watch_files self') "").

Definition new_source (fs : FileSystem) (dir_path : string) (peer : R) : ReplicatorSource R :=
  mkSource fs dir_path ∅ ∅ peer.

End Source.

(** ** Observing and connecting the two sides *)

(** A transport that only records the requests, in the order they are sent. *)
Definition recorder (req : request) : M (list request) unit :=
  modify (fun sent => (sent ++ [req])%list).

(** The source object as its constructor leaves it. *)
Definition construct {R} (cwd : string) (rpc_handle : request -> M R unit) (fuel : nat)
    (fs : FileSystem) (dir_path : string) (peer : R) : outcome unit * ReplicatorSource R :=
  init cwd rpc_handle fuel (new_source fs dir_path peer).

(** What the environment does between two callbacks: the tree changes under
    the source, the source object does not. *)
Definition env_change {R} (t : node) (self : ReplicatorSource R) : ReplicatorSource R :=
  mkSource (set_tree t (src_fs self)) (src_dir_path self) (src_watch_dirs self)
    (src_watch_files self) (src_peer self).

(** The request the constructor builds from the watch sets (lines 28-34). *)
Definition sync_request {R} (self : ReplicatorSource R) : request :=
  Sync (src_watch_dirs self) (src_watch_files self) "".

Module Scenario.

Definition quiet (t : node) : FileSystem := mkFileSystem t ∅ [] no_faults.

(** [/src] holds the directories [a] and [ab]. *)
Definition siblings : node := Dir [("src", Dir [("a", Dir []); ("ab", Dir [])])].
Definition siblings_after : node := Dir [("src", Dir [("ab", Dir [])])].

(** [/src] is empty at first; then [docs/a.txt] appears. *)
Definition empty_src : node := Dir [("src", Dir [])].
Definition docs_src : node :=
  Dir [("src", Dir [("docs", Dir [("a.txt", File "hello")])])].

(** The target root [/t] is empty. *)
Definition empty_tgt : node := Dir [("t", Dir [])].

(** The target root [/t] holds the file [p]. *)
Definition file_p : node := Dir [("t", Dir [("p", File "x")])].

(** The target root [/t] holds the directory [p], which is not empty. *)
Definition dir_p : node := Dir [("t", Dir [("p", Dir [("inner", File "z")])])].

(** The target root [/t] holds [a/b], the orphan directory [x] and the
    files [a/keep.txt] and [a/extra.txt]. *)
Definition drifted : node :=
  Dir [("t", Dir [("a", Dir [("b", Dir []); ("keep.txt", File "k"); ("extra.txt", File "e")]);
                  ("x", Dir [("y", File "1")])])].

(** An environment in which every [removefile] is refused. *)
Definition deny_removefile (op : fs_op) (_ : string) : option exn :=
  match op with OpRemovefile => Some PermissionDenied | _ => None end.

(** An environment in which every [isdir] is refused. *)
Definition deny_isdir (op : fs_op) (_ : string) : option exn :=
  match op with OpIsdir => Some PermissionDenied | _ => None end.

(** An environment in which every [unwatchdir] is refused. *)
Definition deny_unwatchdir (op : fs_op) (_ : string) : option exn :=
  match op with OpUnwatchdir => Some PermissionDenied | _ => None end.

End Scenario.

(** ** Canonical paths *)

(** The paths the two sides exchange are built from directory entry names.
    [abs_path] is the absolute path with the given components and
    [rel_path] the relative one, as [posixpath] prints them. *)
Module Canon.

(** A name a directory entry can bear. *)
Definition valid_name (n : string) : bool :=
  nonempty n && negb (has_sep n) && negb (String.eqb n ".") && negb (String.eqb n "..").

Definition valid_names (l : list string) : bool := forallb valid_name l.

Definition abs_path (comps : list string) : string := String "/" (sep_join comps).

Definition rel_path (comps : list string) : string :=
  match comps with
  | [] => "."
  | _ => sep_join comps
  end.

End Canon.

Import Canon.

(** ** Trees: shape and well-formedness *)

(** The depth of the deepest directory, which bounds the recursion of the
    two walkers. *)
Fixpoint height (t : node) : nat :=
  match t with
  | File _ => 0
  | Dir es => S (list_max (map (fun e => height (snd e)) es))
  end.

Fixpoint distinct (l : list string) : bool :=
  match l with
  | [] => true
  | x :: l' => negb (existsb (String.eqb x) l') && distinct l'
  end.

(** In every directory the entries bear valid names, all different. *)
Fixpoint wf (t : node) : bool :=
  match t with
  | File _ => true
  | Dir es =>
      valid_names (map fst es) && distinct (map fst es) && forallb (fun e => wf (snd e)) es
  end.

Definition is_dir (t : node) : bool :=
  match t with Dir _ => true | File _ => false end.

Definition entries_of (o : option node) : entries :=
  match o with
  | Some (Dir es) => es
  | _ => []
  end.

(** An environment that makes no call fail. *)
Definition quiet_fs (fs : FileSystem) : Prop :=
  forall op p, fs_faults fs op p = None.

(** ** What the actions do to the entries of a directory *)

(** The entries of the parent directory after [Write] of the entry [n]. *)
Definition write_entry (n content : string) (es : entries) : entries :=
  match assoc n es with
  | Some (Dir _) => assoc_set n (File content) (assoc_del n es)
  | _ => assoc_set n (File content) es
  end.

(** The entries of the parent directory after [MkDir] of the entry [n]. *)
Definition mkdir_entry (n : string) (es : entries) : entries :=
  match assoc n es with
  | Some (Dir _) => es
  | Some (File _) => assoc_set n (Dir []) (assoc_del n es)
  | None => assoc_set n (Dir []) es
  end.

(** The entries of the parent directory after [Remove] of the entry [n]. *)
Definition remove_entry (n : string) (es : entries) : entries :=
  match assoc n es with
  | Some _ => assoc_del n es
  | None => es
  end.

(** Does [Write] of the entry [n] reach [writefile]? *)
Definition write_needed (n content : string) (es : entries) : bool :=
  match assoc n es with
  | Some (File old) => negb (String.eqb old content)
  | _ => true
  end.

(** ** The target as the claims see it *)

(** The target is rooted at the canonical path [troot] and its environment
    makes no call fail. *)
Definition canonical_target (t : ReplicatorTarget) (troot : list string) : Prop :=
  tgt_dir_path t = abs_path troot /\ valid_names troot = true /\ quiet_fs (tgt_fs t).

(** What stands on the target at the relative path [p]. *)
Definition target_entry (t : ReplicatorTarget) (p : string) : option node :=
  at_path (tgt_fs t) (join (tgt_dir_path t) p).

(** ** Reconciliation, as a function on trees *)

(** What [_sync_directory] keeps of the directory [t], whose relative path
    has the components [rel]: a subdirectory stays, pruned in turn, when its
    relative path is advertised in [dirs]; a file stays when its relative
    path is advertised in [files]; everything else goes, a directory with
    all it holds. *)
Fixpoint prune (dirs files : gset string) (rel : list string) (t : node) : node :=
  match t with
  | File c => File c
  | Dir es =>
      Dir ((fix go (es : entries) : entries :=
              match es with
              | [] => []
              | (n, c) :: es' =>
                  match c with
                  | Dir _ =>
                      if bool_decide (rel_path (rel ++ [n]) ∈ dirs)
                      then (n, prune dirs files (rel ++ [n]) c) :: go es'
                      else go es'
                  | File _ =>
                      if bool_decide (rel_path (rel ++ [n]) ∈ files)
                      then (n, c) :: go es'
                      else go es'
                  end
              end) es)
  end.

Definition prune_entries (dirs files : gset string) (rel : list string) (es : entries)
  : entries :=
  entries_of (Some (prune dirs files rel (Dir es))).

(** Is the entry [v], whose relative path has the components [rel],
    advertised: among [dirs] when it is a directory, among [files] when it
    is a file? *)
Definition advertised (dirs files : gset string) (rel : list string) (v : node) : bool :=
  match v with
  | Dir _ => bool_decide (rel_path rel ∈ dirs)
  | File _ => bool_decide (rel_path rel ∈ files)
  end.

(** Is the path [q] below the directory [t] covered by the advertised sets:
    does every entry on the way from [t] down to [q], [q] included, exist
    and is it advertised for what it is? *)
Fixpoint covered (dirs files : gset string) (rel q : list string) (t : node) : bool :=
  match q with
  | [] => true
  | n :: q' =>
      match t with
      | Dir es =>
          match assoc n es with
          | Some c => advertised dirs files (rel ++ [n]) c && covered dirs files (rel ++ [n]) q' c
          | None => false
          end
      | File _ => false
      end
  end.

(** ** The walk, as a function on trees *)

(** Paths are lists of components here: [++] appends lists. *)
Open Scope list_scope.

(** The components of the relative paths of all the directories, and of all
    the files, that stand below the directory [t]; [rel] are the components
    of the relative path of [t] itself. *)
Fixpoint dir_paths (rel : list string) (t : node) : list (list string) :=
  match t with
  | File _ => []
  | Dir es =>
      flat_map (fun e => match snd e with
                         | Dir _ => (rel ++ [fst e]) :: dir_paths (rel ++ [fst e]) (snd e)
                         | File _ => []
                         end) es
  end.

Fixpoint file_paths (rel : list string) (t : node) : list (list string) :=
  match t with
  | File _ => []
  | Dir es =>
      flat_map (fun e => match snd e with
                         | Dir _ => file_paths (rel ++ [fst e]) (snd e)
                         | File _ => [rel ++ [fst e]]
                         end) es
  end.

(** The relative paths of the directories, and of the files, that stand
    below the root of the target. *)
Definition target_dirs (t : ReplicatorTarget) : gset string :=
  match at_path (tgt_fs t) (tgt_dir_path t) with
  | Some root => list_to_set (map rel_path (dir_paths [] root))
  | None => ∅
  end.

Definition target_files (t : ReplicatorTarget) : gset string :=
  match at_path (tgt_fs t) (tgt_dir_path t) with
  | Some root => list_to_set (map rel_path (file_paths [] root))
  | None => ∅
  end.

Section Walk.

Context {R : Type}.
Variable rpc_handle : request -> M R unit.

(** What [_replicate_directory] does with the entry [n] of the directory
    whose relative path has the components [rel], once the entry is known
    to be the node [c]; [inside] is the visit of [c] when it is a
    directory. *)
Definition walk_entry (sroot rel : list string) (n : string) (c : node)
    (inside : M (ReplicatorSource R) unit) : M (ReplicatorSource R) unit :=
  match c with
  | Dir _ =>
      rpc rpc_handle (MkDir (rel_path (rel ++ [n]))) >>
      watch_dirs_add (rel_path (rel ++ [n])) >>
      src_call (watchdir (abs_path ((sroot ++ rel) ++ [n]))) >>
      inside
  | File content =>
      rpc rpc_handle (Write (rel_path (rel ++ [n])) content) >>
      watch_files_add (rel_path (rel ++ [n]))
  end.

(** The visit of the directory [t], by recursion on the tree instead of on
    the listings of the file system. *)
Fixpoint walk (sroot rel : list string) (t : node) : M (ReplicatorSource R) unit :=
  match t with
  | File _ => ret tt
  | Dir es =>
      (fix go (es : entries) : M (ReplicatorSource R) unit :=
         match es with
         | [] => ret tt
         | (n, c) :: es' =>
             walk_entry sroot rel n c (walk sroot (rel ++ [n]) c) >> go es'
         end) es
  end.

End Walk.

(** ** The actions of a walk, as a function on the entries of the target *)

(** The entries of a target directory after the target has applied the
    actions that the walk of the source directory [src] sends: every file
    of the source is written, every directory of the source is made and
    overlaid in turn, everything else is left as it was. *)
Fixpoint overlay (src : node) (tes : entries) : entries :=
  match src with
  | File _ => tes
  | Dir ses =>
      (fix go (ses : entries) (tes : entries) : entries :=
         match ses with
         | [] => tes
         | (n, c) :: ses' =>
             go ses'
               (match c with
                | File content => write_entry n content tes
                | Dir _ =>
                    assoc_set n
                      (Dir (overlay c (entries_of (assoc n (mkdir_entry n tes)))))
                      (mkdir_entry n tes)
                end)
         end) ses tes
  end.

(** * Properties *)

Open Scope string_scope.

(** ** The monad *)

Section MonadFacts.

Context {S : Type}.

Lemma bind_val {A B} (m : M S A) (k : A -> M S B) s a s' :
  m s = (Val a, s') -> bind m k s = k a s'.
Proof. intros H. unfold bind. now rewrite H. Qed.

Lemma bind_exn {A B} (m : M S A) (k : A -> M S B) s e s' :
  m s = (Exn e, s') -> bind m k s = (Exn e, s').
Proof. intros H. unfold bind. now rewrite H. Qed.

Lemma bind_get {B} (k : S -> M S B) s : bind get k s = k s s.
Proof. reflexivity. Qed.

Lemma bind_ret {A B} (a : A) (k : A -> M S B) s : bind (ret a) k s = k a s.
Proof. reflexivity. Qed.

Lemma bind_val_inv {A B} (m : M S A) (k : A -> M S B) s b s2 :
  bind m k s = (Val b, s2) ->
  exists a s1, m s = (Val a, s1) /\ k a s1 = (Val b, s2).
Proof.
  unfold bind. destruct (m s) as [[a | e |] s1]; intros H; try discriminate.
  now exists a, s1.
Qed.

(** A relation between the state before and after that every step of a
    computation respects, whatever the outcome. *)
Definition preserves {A} (P : S -> S -> Prop) (m : M S A) : Prop :=
  forall s r s', m s = (r, s') -> P s s'.

Variable P : S -> S -> Prop.
Hypothesis P_refl : forall s, P s s.
Hypothesis P_trans : forall s1 s2 s3, P s1 s2 -> P s2 s3 -> P s1 s3.

Lemma preserves_ret {A} (a : A) : preserves P (ret a).
Proof. intros s r s' H. inversion H. apply P_refl. Qed.

Lemma preserves_raise {A} e : preserves P (@raise S A e).
Proof. intros s r s' H. inversion H. apply P_refl. Qed.

Lemma preserves_diverge {A} : preserves P (@diverge S A).
Proof. intros s r s' H. inversion H. apply P_refl. Qed.

Lemma preserves_get : preserves P get.
Proof. intros s r s' H. inversion H. apply P_refl. Qed.

Lemma preserves_bind {A B} (m : M S A) (k : A -> M S B) :
  preserves P m -> (forall a, preserves P (k a)) -> preserves P (bind m k).
Proof.
  intros Hm Hk s r s'. unfold bind.
  destruct (m s) as [[a | e |] s1] eqn:E; intros H.
  - eapply P_trans; [eapply Hm, E | eapply Hk, H].
  - inversion H; subst. eapply Hm, E.
  - inversion H; subst. eapply Hm, E.
Qed.

Lemma preserves_try_pass (m : M S unit) : preserves P m -> preserves P (try_pass m).
Proof.
  intros Hm s r s'. unfold try_pass.
  destruct (m s) as [[a | e |] s1] eqn:E; intros H; inversion H; subst; eapply Hm, E.
Qed.

Lemma preserves_for_each {A} (l : list A) (body : A -> M S unit) :
  (forall x, preserves P (body x)) -> preserves P (for_each l body).
Proof.
  intros Hb. induction l as [| x l IH]; simpl.
  - apply preserves_ret.
  - apply preserves_bind; [apply Hb | intros _; apply IH].
Qed.

End MonadFacts.

(** ** posixpath on canonical paths *)

Section PathFacts.

Lemma valid_name_inv n :
  valid_name n = true ->
  n <> "" /\ has_sep n = false /\ n <> "." /\ n <> "..".
Proof.
  unfold valid_name, nonempty. rewrite !andb_true_iff, !negb_true_iff.
  intros [[[H1 H2] H3] H4]. repeat split; try assumption.
  - now apply String.eqb_neq.
  - now apply String.eqb_neq.
  - now apply String.eqb_neq.
Qed.

Lemma valid_names_cons n l :
  valid_names (n :: l) = true <-> valid_name n = true /\ valid_names l = true.
Proof. unfold valid_names. simpl. apply andb_true_iff. Qed.

Lemma valid_names_app l1 l2 :
  valid_names (l1 ++ l2)%list = true <-> valid_names l1 = true /\ valid_names l2 = true.
Proof. unfold valid_names. rewrite forallb_app. apply andb_true_iff. Qed.

Lemma valid_names_In l n : valid_names l = true -> In n l -> valid_name n = true.
Proof. unfold valid_names. rewrite forallb_forall. auto. Qed.

Lemma has_sep_app a b : has_sep (a ++ b) = has_sep a || has_sep b.
Proof. induction a as [| c a IH]; simpl; [reflexivity |]. now rewrite IH, orb_assoc. Qed.

Lemma split_no_sep n : has_sep n = false -> split n = [n].
Proof.
  induction n as [| c n IH]; simpl; [reflexivity |].
  intros H. apply orb_false_iff in H as [Hc Hn]. rewrite Hc, (IH Hn). reflexivity.
Qed.

Lemma split_app_sep n r :
  has_sep n = false -> split (n ++ String "/" r) = n :: split r.
Proof.
  induction n as [| c n IH]; simpl; [reflexivity |].
  intros H. apply orb_false_iff in H as [Hc Hn]. rewrite Hc, (IH Hn). reflexivity.
Qed.

Lemma sep_join_cons2 a b l :
  sep_join (a :: b :: l) = a ++ String "/" (sep_join (b :: l)).
Proof. reflexivity. Qed.

Lemma split_sep_join l :
  valid_names l = true -> l <> [] -> split (sep_join l) = l.
Proof.
  induction l as [| a [| b l] IH]; intros Hv Hne; [contradiction | |].
  - apply valid_names_cons in Hv as [Ha _]. apply valid_name_inv in Ha as (_ & Ha & _).
    simpl. now apply split_no_sep.
  - apply valid_names_cons in Hv as [Ha Hv]. apply valid_name_inv in Ha as (_ & Ha & _).
    rewrite sep_join_cons2, (split_app_sep _ _ Ha), IH; [reflexivity | assumption | discriminate].
Qed.

Lemma split_abs_path l :
  valid_names l = true ->
  split (abs_path l) = match l with [] => [""; ""] | _ => "" :: l end.
Proof.
  intros Hv. unfold abs_path. simpl. destruct l as [| a l]; [reflexivity |].
  now rewrite split_sep_join.
Qed.

Lemma norm_step_valid i acc n :
  valid_name n = true -> norm_step i acc n = n :: acc.
Proof.
  intros H. apply valid_name_inv in H as (H1 & _ & H3 & H4).
  unfold norm_step.
  apply String.eqb_neq in H1, H3, H4. rewrite H1, H3, H4. reflexivity.
Qed.

Lemma fold_norm_step_valid i l acc :
  valid_names l = true -> fold_left (norm_step i) l acc = (rev l ++ acc)%list.
Proof.
  revert acc. induction l as [| n l IH]; intros acc Hv; simpl; [reflexivity |].
  apply valid_names_cons in Hv as [Hn Hv].
  rewrite (norm_step_valid _ _ _ Hn), (IH _ Hv), <- app_assoc. reflexivity.
Qed.

Lemma norm_comps_valid i l : valid_names l = true -> norm_comps i l = l.
Proof.
  intros Hv. unfold norm_comps. rewrite (fold_norm_step_valid _ _ _ Hv), app_nil_r.
  apply rev_involutive.
Qed.

Lemma norm_comps_skip i l : norm_comps i ("" :: l) = norm_comps i l.
Proof. reflexivity. Qed.

(** The file system finds the components of a canonical absolute path. *)
Lemma resolve_abs_path l : valid_names l = true -> resolve (abs_path l) = l.
Proof.
  intros Hv. unfold resolve. rewrite (split_abs_path _ Hv).
  destruct l as [| a l]; [reflexivity |].
  rewrite norm_comps_skip. now apply norm_comps_valid.
Qed.

Lemma string_app_assoc (a b c : string) : (a ++ b) ++ c = a ++ (b ++ c).
Proof.
  induction a as [| x a IH]; [reflexivity |].
  change (String x ((a ++ b) ++ c) = String x (a ++ (b ++ c))). now f_equal.
Qed.

Lemma string_app_nil_r (a : string) : a ++ "" = a.
Proof.
  induction a as [| x a IH]; [reflexivity |].
  change (String x (a ++ "") = String x a). now f_equal.
Qed.

Lemma is_sep_true c : is_sep c = true -> c = "/"%char.
Proof. unfold is_sep. apply Ascii.eqb_eq. Qed.

Lemma startswith_sep_cons c r : startswith "/" (String c r) = is_sep c.
Proof.
  unfold startswith, is_sep. cbn [String.prefix].
  destruct (ascii_dec "/" c) as [<- | Hne].
  - destruct r; reflexivity.
  - symmetry. apply Ascii.eqb_neq. congruence.
Qed.

Lemma valid_name_head n :
  valid_name n = true -> exists c r, n = String c r /\ is_sep c = false /\ has_sep r = false.
Proof.
  intros H. apply valid_name_inv in H as (H1 & H2 & _).
  destruct n as [| c r]; [contradiction |]. simpl in H2.
  apply orb_false_iff in H2 as [Hc Hr]. eauto.
Qed.

Lemma startswith_sep_valid n : valid_name n = true -> startswith "/" n = false.
Proof.
  intros H. destruct (valid_name_head _ H) as (c & r & -> & Hc & _).
  now rewrite startswith_sep_cons.
Qed.

Lemma endswith_sep_no_sep n : has_sep n = false -> endswith_sep n = false.
Proof.
  induction n as [| c n IH]; simpl; [reflexivity |].
  intros H. apply orb_false_iff in H as [Hc Hn]. destruct n; [assumption | now apply IH].
Qed.

Lemma endswith_sep_app a c b : endswith_sep (a ++ String c b) = endswith_sep (String c b).
Proof.
  induction a as [| x a IH]; [reflexivity |].
  change (endswith_sep (String x (a ++ String c b)) = endswith_sep (String c b)).
  rewrite <- IH.
  destruct (a ++ String c b) eqn:E; [destruct a; discriminate | reflexivity].
Qed.

Lemma sep_join_snoc l n :
  l <> [] -> sep_join (l ++ [n]) = sep_join l ++ String "/" n.
Proof.
  induction l as [| a [| b l] IH]; intros Hne; [contradiction | reflexivity |].
  change ((a :: b :: l) ++ [n])%list with (a :: (b :: l) ++ [n])%list.
  change ((b :: l) ++ [n])%list with (b :: (l ++ [n]))%list.
  rewrite sep_join_cons2.
  change (b :: (l ++ [n]))%list with ((b :: l) ++ [n])%list.
  rewrite IH by discriminate. rewrite sep_join_cons2.
  rewrite string_app_assoc. reflexivity.
Qed.

Lemma sep_join_app l1 l2 :
  l1 <> [] -> l2 <> [] -> sep_join (l1 ++ l2) = sep_join l1 ++ String "/" (sep_join l2).
Proof.
  induction l1 as [| a [| b l1] IH]; intros H1 H2; [contradiction | |].
  - destruct l2; [contradiction | reflexivity].
  - change ((a :: b :: l1) ++ l2)%list with (a :: b :: (l1 ++ l2))%list.
    rewrite sep_join_cons2.
    change (b :: (l1 ++ l2))%list with ((b :: l1) ++ l2)%list.
    rewrite IH by (assumption || discriminate). rewrite sep_join_cons2.
    rewrite string_app_assoc. reflexivity.
Qed.

Lemma endswith_sep_sep_join l :
  valid_names l = true -> endswith_sep (sep_join l) = false.
Proof.
  destruct l as [| a l] using rev_ind; [reflexivity |]. intros Hv.
  apply valid_names_app in Hv as [_ Ha]. apply valid_names_cons in Ha as [Ha _].
  destruct (valid_name_head _ Ha) as (c & r & -> & Hc & Hr).
  destruct l as [| b l].
  - change (endswith_sep (String c r) = false).
    apply endswith_sep_no_sep. cbn [has_sep]. now rewrite Hc, Hr.
  - rewrite sep_join_snoc by discriminate.
    change (String "/" (String c r)) with ("/" ++ String c r).
    rewrite <- string_app_assoc, endswith_sep_app.
    apply endswith_sep_no_sep. cbn [has_sep]. now rewrite Hc, Hr.
Qed.

Lemma endswith_sep_abs_path l :
  valid_names l = true ->
  endswith_sep (abs_path l) = match l with [] => true | _ => false end.
Proof.
  intros Hv. destruct l as [| a l]; [reflexivity |].
  unfold abs_path. pose proof (endswith_sep_sep_join _ Hv) as H.
  destruct (sep_join (a :: l)) eqn:E; [| exact H].
  apply valid_names_cons in Hv as [Ha _].
  destruct (valid_name_head _ Ha) as (c & r & -> & _).
  destruct l; discriminate.
Qed.

(** [posixpath.join] of a canonical directory and an entry name. *)
Lemma join_abs_path_name l n :
  valid_names l = true -> valid_name n = true ->
  join (abs_path l) n = abs_path (l ++ [n]).
Proof.
  intros Hl Hn. unfold join.
  rewrite (startswith_sep_valid _ Hn), (endswith_sep_abs_path _ Hl).
  destruct l as [| a l]; [reflexivity |].
  cbn [String.eqb abs_path orb]. unfold abs_path.
  rewrite sep_join_snoc by discriminate. reflexivity.
Qed.

Lemma startswith_sep_sep_join l :
  valid_names l = true -> startswith "/" (sep_join l) = false.
Proof.
  destruct l as [| a l]; [reflexivity |]. intros Hv.
  apply valid_names_cons in Hv as [Ha _].
  destruct (valid_name_head _ Ha) as (c & r & -> & Hc & _).
  destruct l as [| b l].
  - change (startswith "/" (String c r) = false). now rewrite startswith_sep_cons.
  - rewrite sep_join_cons2.
    change (String c r ++ String "/" (sep_join (b :: l)))
      with (String c (r ++ String "/" (sep_join (b :: l)))).
    now rewrite startswith_sep_cons.
Qed.

(** [posixpath.join] of a canonical directory and a relative path. *)
Lemma join_abs_path_rel root rel :
  valid_names root = true -> valid_names rel = true -> rel <> [] ->
  join (abs_path root) (rel_path rel) = abs_path (root ++ rel).
Proof.
  intros Hroot Hrel Hne. unfold join, rel_path.
  destruct rel as [| x rel]; [contradiction |].
  rewrite (startswith_sep_sep_join _ Hrel), (endswith_sep_abs_path _ Hroot).
  destruct root as [| a root]; [reflexivity |].
  cbn [String.eqb abs_path orb]. unfold abs_path.
  rewrite sep_join_app by discriminate. reflexivity.
Qed.

(** The path the target computes for the entry [n] of the directory [q]. *)
Lemma join_root_entry troot q n :
  valid_names troot = true -> valid_names q = true -> valid_name n = true ->
  join (abs_path troot) (rel_path (q ++ [n])) = abs_path ((troot ++ q) ++ [n]).
Proof.
  intros Hroot Hq Hn.
  rewrite join_abs_path_rel; [now rewrite app_assoc | assumption | | now destruct q].
  apply valid_names_app. split; [assumption |]. now apply valid_names_cons.
Qed.

(** An absolute argument makes [join] forget its first argument: this is
    how the root, kept in the watched directories as [dir_path] itself,
    is found again by the removal branch. *)
Lemma join_abs_path_abs a l : join a (abs_path l) = abs_path l.
Proof. unfold join, abs_path. now rewrite startswith_sep_cons. Qed.

Lemma initial_slashes_abs_path l :
  valid_names l = true -> initial_slashes (abs_path l) = 1.
Proof.
  intros Hv. unfold initial_slashes, abs_path. rewrite startswith_sep_cons.
  cbn [is_sep Ascii.eqb]. change (Ascii.eqb "/" "/") with true. cbv iota.
  assert (H : startswith "//" (String "/" (sep_join l)) = false).
  { pose proof (startswith_sep_sep_join _ Hv) as H.
    unfold startswith in *. cbn [String.prefix].
    destruct (ascii_dec "/" "/"); [| reflexivity].
    destruct (sep_join l); [reflexivity | exact H]. }
  now rewrite H.
Qed.

Lemma normpath_abs_path l : valid_names l = true -> normpath (abs_path l) = abs_path l.
Proof.
  intros Hv. unfold normpath.
  rewrite (initial_slashes_abs_path _ Hv), (split_abs_path _ Hv).
  change (String.eqb (abs_path l) "") with false. cbv iota.
  destruct l as [| a l]; [reflexivity |].
  rewrite norm_comps_skip, (norm_comps_valid _ _ Hv). reflexivity.
Qed.

Lemma abspath_abs_path cwd l : valid_names l = true -> abspath cwd (abs_path l) = abs_path l.
Proof.
  intros Hv. unfold abspath, isabs. unfold abs_path at 1. rewrite startswith_sep_cons.
  change (is_sep "/") with true. cbv iota. now apply normpath_abs_path.
Qed.

Lemma filter_nonempty_valid l : valid_names l = true -> List.filter nonempty l = l.
Proof.
  induction l as [| a l IH]; [reflexivity |]. intros Hv.
  apply valid_names_cons in Hv as [Ha Hv]. cbn [List.filter].
  assert (nonempty a = true) as ->.
  { unfold valid_name in Ha. now rewrite !andb_true_iff in Ha. }
  now rewrite IH.
Qed.

Lemma components_abs_path l :
  valid_names l = true -> List.filter nonempty (split (abs_path l)) = l.
Proof.
  intros Hv. rewrite (split_abs_path _ Hv). destruct l as [| a l]; [reflexivity |].
  change (List.filter nonempty ("" :: a :: l)) with (List.filter nonempty (a :: l)).
  now apply filter_nonempty_valid.
Qed.

Lemma common_prefix_len_app l r : common_prefix_len l (l ++ r) = List.length l.
Proof.
  induction l as [| a l IH]; [now destruct r |].
  cbn [common_prefix_len app List.length]. now rewrite String.eqb_refl, IH.
Qed.

Lemma join_name x n :
  x <> "" -> endswith_sep x = false -> valid_name n = true ->
  join x n = x ++ String "/" n.
Proof.
  intros Hx He Hn. unfold join. rewrite (startswith_sep_valid _ Hn), He.
  apply String.eqb_neq in Hx. now rewrite Hx.
Qed.

Lemma sep_join_nonempty l : valid_names l = true -> l <> [] -> sep_join l <> "".
Proof.
  intros Hv Hne. destruct l as [| a l]; [contradiction |].
  apply valid_names_cons in Hv as [Ha _].
  destruct (valid_name_head _ Ha) as (c & r & -> & _).
  destruct l; discriminate.
Qed.

Lemma join_all_valid a p :
  valid_names (a :: p) = true -> join_all a p = sep_join (a :: p).
Proof.
  intros Hv. unfold join_all.
  assert (G : forall done, valid_names done = true -> done <> [] ->
                valid_names p = true ->
                fold_left join p (sep_join done) = sep_join (done ++ p)).
  { clear. induction p as [| n p IH]; intros done Hd Hne Hp.
    - now rewrite app_nil_r.
    - apply valid_names_cons in Hp as [Hn Hp]. cbn [fold_left].
      rewrite join_name; [| now apply sep_join_nonempty | now apply endswith_sep_sep_join
                          | assumption].
      rewrite <- sep_join_snoc by assumption.
      rewrite IH; [now rewrite <- app_assoc | | now destruct done | assumption].
      apply valid_names_app. split; [assumption |]. now apply valid_names_cons. }
  apply valid_names_cons in Hv as [Ha Hp].
  apply (G [a]); [now apply valid_names_cons | discriminate | assumption].
Qed.

(** [posixpath.relpath] of a canonical path below a canonical root. *)
Lemma relpath_abs_path cwd root rel :
  valid_names root = true -> valid_names rel = true ->
  relpath cwd (abs_path (root ++ rel)) (abs_path root) = Some (rel_path rel).
Proof.
  intros Hroot Hrel.
  assert (Hall : valid_names (root ++ rel) = true) by now apply valid_names_app.
  unfold relpath. change (String.eqb (abs_path (root ++ rel)) "") with false. cbv iota zeta.
  rewrite !abspath_abs_path, !components_abs_path by assumption.
  rewrite common_prefix_len_app, Nat.sub_diag, skipn_app, skipn_all, Nat.sub_diag.
  cbn [repeat app skipn]. destruct rel as [| a p]; [reflexivity |].
  f_equal. exact (join_all_valid a p Hrel).
Qed.

Lemma rel_path_inj l1 l2 :
  valid_names l1 = true -> valid_names l2 = true -> rel_path l1 = rel_path l2 -> l1 = l2.
Proof.
  intros H1 H2 E.
  assert (G : forall l, valid_names l = true -> l <> [] -> rel_path l <> ".").
  { intros l Hl Hne Ed. destruct l as [| a l]; [contradiction |]. unfold rel_path in Ed.
    pose proof (split_sep_join _ Hl Hne) as Hs. rewrite Ed in Hs.
    inversion Hs; subst. discriminate. }
  destruct l1 as [| a1 l1], l2 as [| a2 l2]; [reflexivity | | |].
  - exfalso. apply (G (a2 :: l2)); [assumption | discriminate | now rewrite <- E].
  - exfalso. apply (G (a1 :: l1)); [assumption | discriminate | now rewrite E].
  - unfold rel_path in E.
    rewrite <- (split_sep_join (a1 :: l1)), <- (split_sep_join (a2 :: l2)), E
      by (assumption || discriminate).
    reflexivity.
Qed.

Lemma rel_path_not_abs l root : valid_names l = true -> rel_path l <> abs_path root.
Proof.
  intros Hv E. pose proof (startswith_sep_sep_join _ Hv) as H.
  unfold rel_path in E. destruct l as [| a l]; [discriminate |].
  rewrite E in H. unfold abs_path in H. now rewrite startswith_sep_cons in H.
Qed.

Lemma head_part_no_sep n : has_sep n = false -> head_part n = "".
Proof. destruct n as [| c n]; [reflexivity |]. intros H. cbn [head_part]. now rewrite H. Qed.

Lemma head_part_app_sep x n :
  has_sep n = false -> head_part (x ++ String "/" n) = x ++ "/".
Proof.
  intros Hn. induction x as [| c x IH].
  - change (head_part (String "/" n) = "/"). cbn [head_part has_sep is_sep].
    change (Ascii.eqb "/" "/") with true. cbn [orb]. now rewrite head_part_no_sep.
  - change (head_part (String c (x ++ String "/" n)) = String c (x ++ "/")).
    cbn [head_part]. 
    assert (has_sep (String c (x ++ String "/" n)) = true) as ->.
    { cbn [has_sep]. rewrite has_sep_app. cbn [has_sep is_sep].
      change (Ascii.eqb "/" "/") with true. now rewrite !orb_true_r. }
    now rewrite IH.
Qed.

Lemma rstrip_sep_app_sep y : rstrip_sep (y ++ "/") = rstrip_sep y.
Proof.
  induction y as [| c y IH]; [reflexivity |].
  change (rstrip_sep (String c (y ++ "/")) = rstrip_sep (String c y)).
  cbn [rstrip_sep]. now rewrite IH.
Qed.

Lemma rstrip_sep_id y : endswith_sep y = false -> rstrip_sep y = y.
Proof.
  induction y as [| c y IH]; [reflexivity |]. intros H. cbn [rstrip_sep].
  destruct y as [| d y].
  - cbn [endswith_sep] in H. cbn [rstrip_sep]. now rewrite H.
  - rewrite IH by exact H. reflexivity.
Qed.

Lemma all_sep_app_false a c b : is_sep c = false -> all_sep (a ++ String c b) = false.
Proof.
  intros Hc. induction a as [| x a IH].
  - change (all_sep (String c b) = false). cbn [all_sep]. now rewrite Hc.
  - change (all_sep (String x (a ++ String c b)) = false). cbn [all_sep].
    rewrite IH. apply andb_false_r.
Qed.

(** [posixpath.dirname] of a canonical path is the path of its parent. *)
Lemma dirname_abs_path l n :
  valid_names l = true -> valid_name n = true ->
  dirname (abs_path (l ++ [n])) = abs_path l.
Proof.
  intros Hl Hn. pose proof (valid_name_inv _ Hn) as (_ & Hs & _).
  destruct l as [| a l].
  - unfold dirname, abs_path. cbn [app sep_join String.concat].
    change (String "/" n) with ("" ++ String "/" n).
    rewrite (head_part_app_sep "" n Hs). reflexivity.
  - unfold dirname, abs_path. rewrite sep_join_snoc by discriminate.
    change (String "/" (sep_join (a :: l) ++ String "/" n))
      with (String "/" (sep_join (a :: l)) ++ String "/" n).
    rewrite (head_part_app_sep _ n Hs).
    change (String.eqb (String "/" (sep_join (a :: l)) ++ "/") "") with false.
    assert (all_sep (String "/" (sep_join (a :: l)) ++ "/") = false) as ->.
    { pose proof Hl as Hl'. apply valid_names_cons in Hl' as [Ha _].
      destruct (valid_name_head _ Ha) as (c & r & -> & Hc & _).
      destruct l as [| b l].
      - change (all_sep ("/" ++ String c (r ++ "/")) = false). now apply all_sep_app_false.
      - rewrite sep_join_cons2.
        change (String "/" (String c r ++ String "/" (sep_join (b :: l))) ++ "/")
          with ("/" ++ String c ((r ++ String "/" (sep_join (b :: l))) ++ "/")).
        now apply all_sep_app_false. }
    cbn [negb andb]. rewrite rstrip_sep_app_sep. apply rstrip_sep_id.
    change (endswith_sep (abs_path (a :: l)) = false).
    now rewrite endswith_sep_abs_path.
Qed.

End PathFacts.

(** ** Trees *)

Section TreeFacts.

Lemma node_ind (P : node -> Prop) :
  (forall c, P (File c)) ->
  (forall es, Forall (fun e => P (snd e)) es -> P (Dir es)) ->
  forall t, P t.
Proof.
  intros HF HD. fix IH 1. intros [c | es].
  - apply HF.
  - apply HD. induction es as [| [n c] es IHes]; constructor.
    + apply IH.
    + apply IHes.
Qed.

Lemma assoc_set_same n v es : assoc n (assoc_set n v es) = Some v.
Proof.
  induction es as [| [m c] es IH]; simpl.
  - now rewrite String.eqb_refl.
  - destruct (String.eqb_spec n m) as [-> | Hne]; simpl.
    + now rewrite String.eqb_refl.
    + apply String.eqb_neq in Hne. now rewrite Hne.
Qed.

Lemma assoc_set_other n m v es : n <> m -> assoc m (assoc_set n v es) = assoc m es.
Proof.
  intros Hne. induction es as [| [k c] es IH]; simpl.
  - apply not_eq_sym, String.eqb_neq in Hne. now rewrite Hne.
  - destruct (String.eqb_spec n k) as [-> | Hnk]; simpl.
    + apply not_eq_sym, String.eqb_neq in Hne. now rewrite Hne.
    + now rewrite IH.
Qed.

Lemma assoc_del_same n es : assoc n (assoc_del n es) = None.
Proof.
  induction es as [| [k c] es IH]; simpl; [reflexivity |].
  destruct (String.eqb_spec n k) as [-> | Hnk]; simpl; [assumption |].
  apply String.eqb_neq in Hnk. now rewrite Hnk.
Qed.

Lemma assoc_del_other n m es : n <> m -> assoc m (assoc_del n es) = assoc m es.
Proof.
  intros Hne. induction es as [| [k c] es IH]; simpl; [reflexivity |].
  destruct (String.eqb_spec n k) as [-> | Hnk]; simpl.
  - apply not_eq_sym, String.eqb_neq in Hne. now rewrite Hne.
  - now rewrite IH.
Qed.

Lemma assoc_set_id n v es : assoc n es = Some v -> assoc_set n v es = es.
Proof.
  induction es as [| [k c] es IH]; simpl; [discriminate |].
  destruct (String.eqb_spec n k) as [-> | Hnk].
  - now intros [= ->].
  - intros H. now rewrite IH.
Qed.

Lemma assoc_set_set n v w es : assoc_set n v (assoc_set n w es) = assoc_set n v es.
Proof.
  induction es as [| [k c] es IH]; simpl.
  - now rewrite String.eqb_refl.
  - destruct (String.eqb_spec n k) as [-> | Hnk]; simpl.
    + now rewrite String.eqb_refl.
    + apply String.eqb_neq in Hnk. now rewrite Hnk, IH.
Qed.

Lemma assoc_In n es c : assoc n es = Some c -> In (n, c) es.
Proof.
  induction es as [| [k d] es IH]; simpl; [discriminate |].
  destruct (String.eqb_spec n k) as [-> | Hnk].
  - intros [= ->]. now left.
  - intros H. right. now apply IH.
Qed.

Lemma assoc_None n es : assoc n es = None <-> ~ In n (map fst es).
Proof.
  induction es as [| [k d] es IH]; simpl; [tauto |].
  destruct (String.eqb_spec n k) as [-> | Hnk].
  - split; [discriminate | tauto].
  - rewrite IH. split; [intros H [E | Hin]; [congruence | tauto] | tauto].
Qed.

Lemma lookup_app p q t :
  lookup (p ++ q) t = match lookup p t with Some c => lookup q c | None => None end.
Proof.
  revert t. induction p as [| n p IH]; intros t; [reflexivity |].
  cbn [app lookup]. destruct t as [c | es]; [reflexivity |].
  destruct (assoc n es); [apply IH | reflexivity].
Qed.

Lemma lookup_snoc p n t :
  lookup (p ++ [n]) t =
    match lookup p t with Some (Dir es) => assoc n es | _ => None end.
Proof.
  rewrite lookup_app. destruct (lookup p t) as [[c | es] |]; try reflexivity.
  cbn [lookup]. now destruct (assoc n es).
Qed.

Lemma put_cons n p v es c :
  assoc n es = Some c -> put (n :: p) v (Dir es) = Dir (assoc_set n (put p v c) es).
Proof. intros H. cbn [put]. rewrite H. now destruct p. Qed.

Lemma lookup_cons_inv n p t x :
  lookup (n :: p) t = Some x ->
  exists es c, t = Dir es /\ assoc n es = Some c /\ lookup p c = Some x.
Proof.
  cbn [lookup]. destruct t as [c | es]; [discriminate |].
  destruct (assoc n es) as [c |] eqn:E; [| discriminate]. eauto.
Qed.

(** Reading below a path that was just written reads in what was written. *)
Lemma lookup_put p q v t x :
  lookup p t = Some x -> lookup (p ++ q) (put p v t) = lookup q v.
Proof.
  revert t. induction p as [| n p IH]; intros t H; [reflexivity |].
  apply lookup_cons_inv in H as (es & c & -> & Hn & Hp).
  rewrite (put_cons _ _ _ _ _ Hn). cbn [app lookup]. rewrite assoc_set_same.
  now apply IH.
Qed.

Lemma lookup_put_same p v t x : lookup p t = Some x -> lookup p (put p v t) = Some v.
Proof. intros H. rewrite <- (app_nil_r p) at 1. now rewrite (lookup_put _ _ _ _ _ H). Qed.

Lemma put_put p v w t x : lookup p t = Some x -> put p v (put p w t) = put p v t.
Proof.
  revert t. induction p as [| n p IH]; intros t H; [reflexivity |].
  apply lookup_cons_inv in H as (es & c & -> & Hn & Hp).
  rewrite (put_cons _ _ w _ _ Hn), (put_cons _ _ v _ _ Hn).
  rewrite (put_cons _ _ v _ (put p w c)) by apply assoc_set_same.
  now rewrite (IH _ Hp), assoc_set_set.
Qed.

Lemma put_id p v t : lookup p t = Some v -> put p v t = t.
Proof.
  revert t. induction p as [| n p IH]; intros t H; [now inversion H |].
  apply lookup_cons_inv in H as (es & c & -> & Hn & Hp).
  rewrite (put_cons _ _ _ _ _ Hn), (IH _ Hp). now rewrite assoc_set_id.
Qed.

(** An operation on the entry [n] of the directory at [p] is an operation on
    the entries of that directory. *)
Lemma put_snoc p n v t es :
  lookup p t = Some (Dir es) -> put (p ++ [n]) v t = put p (Dir (assoc_set n v es)) t.
Proof.
  revert t. induction p as [| m p IH]; intros t H.
  - inversion H; subst. reflexivity.
  - apply lookup_cons_inv in H as (es0 & c & -> & Hm & Hp).
    cbn [app]. rewrite !(put_cons _ _ _ _ _ Hm). now rewrite (IH _ Hp).
Qed.

Lemma del_cons n p es c :
  assoc n es = Some c -> p <> [] -> del (n :: p) (Dir es) = Dir (assoc_set n (del p c) es).
Proof. intros H Hp. cbn [del]. rewrite H. now destruct p. Qed.

Lemma del_snoc p n t es :
  lookup p t = Some (Dir es) -> del (p ++ [n]) t = put p (Dir (assoc_del n es)) t.
Proof.
  revert t. induction p as [| m p IH]; intros t H.
  - inversion H; subst. reflexivity.
  - apply lookup_cons_inv in H as (es0 & c & -> & Hm & Hp).
    cbn [app]. rewrite (del_cons _ _ _ _ Hm) by now destruct p.
    rewrite (put_cons _ _ _ _ _ Hm). now rewrite (IH _ Hp).
Qed.

Lemma mkchain_snoc p n t es :
  lookup p t = Some (Dir es) ->
  mkchain (p ++ [n]) t =
    put p (Dir (assoc_set n (match assoc n es with Some c => c | None => Dir [] end) es)) t.
Proof.
  revert t. induction p as [| m p IH]; intros t H.
  - inversion H; subst. cbn [app mkchain put]. now destruct (assoc n es) as [[] |].
  - apply lookup_cons_inv in H as (es0 & c & -> & Hm & Hp).
    cbn [app mkchain]. rewrite Hm, (put_cons _ _ _ _ _ Hm). now rewrite (IH _ Hp).
Qed.

Lemma blocked_snoc p n t es :
  lookup p t = Some (Dir es) ->
  blocked (p ++ [n]) t = match assoc n es with Some (File _) => true | _ => false end.
Proof.
  revert t. induction p as [| m p IH]; intros t H.
  - inversion H; subst. cbn [app blocked]. now destruct (assoc n es) as [[] |].
  - apply lookup_cons_inv in H as (es0 & c & -> & Hm & Hp).
    cbn [app blocked]. rewrite Hm. now apply IH.
Qed.

End TreeFacts.

(** ** Entries: updates in the middle of a list *)

(** From here on [++] appends lists. *)
Open Scope list_scope.

Section AssocMid.

Lemma prune_entries_nil dirs files rel : prune_entries dirs files rel [] = [].
Proof. reflexivity. Qed.

Lemma prune_entries_cons dirs files rel n c es :
  prune_entries dirs files rel ((n, c) :: es) =
    match c with
    | Dir sub =>
        if bool_decide (rel_path (rel ++ [n]) ∈ dirs)
        then (n, Dir (prune_entries dirs files (rel ++ [n]) sub)) :: prune_entries dirs files rel es
        else prune_entries dirs files rel es
    | File _ =>
        if bool_decide (rel_path (rel ++ [n]) ∈ files)
        then (n, c) :: prune_entries dirs files rel es
        else prune_entries dirs files rel es
    end.
Proof. destruct c; reflexivity. Qed.

Lemma assoc_app_l n (l1 l2 : entries) :
  ~ In n (map fst l1) -> assoc n (l1 ++ l2)%list = assoc n l2.
Proof.
  induction l1 as [| [m c] l1 IH]; intros H; [reflexivity |].
  cbn [app assoc]. cbn [map fst In] in H.
  destruct (String.eqb_spec n m) as [-> | Hne]; [tauto |]. apply IH. tauto.
Qed.

Lemma assoc_mid n c (l1 l2 : entries) :
  ~ In n (map fst l1) -> assoc n (l1 ++ (n, c) :: l2)%list = Some c.
Proof. intros H. rewrite (assoc_app_l _ _ _ H). cbn [assoc]. now rewrite String.eqb_refl. Qed.

Lemma assoc_set_mid n c v (l1 l2 : entries) :
  ~ In n (map fst l1) -> assoc_set n v (l1 ++ (n, c) :: l2)%list = (l1 ++ (n, v) :: l2)%list.
Proof.
  induction l1 as [| [m d] l1 IH]; intros H.
  - cbn [app assoc_set]. now rewrite String.eqb_refl.
  - cbn [app assoc_set]. cbn [map fst In] in H.
    destruct (String.eqb_spec n m) as [-> | Hne]; [tauto |]. rewrite IH; [reflexivity | tauto].
Qed.

Lemma assoc_del_absent n (l : entries) : ~ In n (map fst l) -> assoc_del n l = l.
Proof.
  induction l as [| [m d] l IH]; intros H; [reflexivity |].
  cbn [assoc_del]. cbn [map fst In] in H.
  destruct (String.eqb_spec n m) as [-> | Hne]; [tauto |]. rewrite IH; [reflexivity | tauto].
Qed.

Lemma assoc_del_mid n c (l1 l2 : entries) :
  ~ In n (map fst l1) -> ~ In n (map fst l2) ->
  assoc_del n (l1 ++ (n, c) :: l2)%list = (l1 ++ l2)%list.
Proof.
  induction l1 as [| [m d] l1 IH]; intros H1 H2.
  - cbn [app assoc_del]. rewrite String.eqb_refl. now apply assoc_del_absent.
  - cbn [app assoc_del]. cbn [map fst In] in H1.
    destruct (String.eqb_spec n m) as [-> | Hne]; [tauto |]. rewrite IH; [reflexivity | tauto | assumption].
Qed.

Lemma distinct_cons x l : distinct (x :: l) = true <-> ~ In x l /\ distinct l = true.
Proof.
  cbn [distinct]. rewrite andb_true_iff, negb_true_iff. split; intros [H1 H2]; split; try assumption.
  - intros Hin. assert (existsb (String.eqb x) l = true); [| congruence].
    apply existsb_exists. exists x. split; [assumption | apply String.eqb_refl].
  - destruct (existsb (String.eqb x) l) eqn:E; [| reflexivity].
    apply existsb_exists in E as (y & Hy & Heq). apply String.eqb_eq in Heq. now subst.
Qed.

End AssocMid.

(** ** The file system calls, seen from one directory *)

(** In a quiet environment a call on the entry [n] of the directory at the
    canonical path [dir] reads or rewrites the entries [es] of that
    directory; [base] is the rest of the tree. *)
Section FsLocal.

Variables (base : node) (dir : list string) (x : node).
Variables (w : gset (list string)) (faults : fs_op -> string -> option exn).
Hypothesis Hbase : lookup dir base = Some x.
Hypothesis Hdir : valid_names dir = true.
Hypothesis Hquiet : forall op p, faults op p = None.

Definition focused (es : entries) (wr : list (string * string)) : FileSystem :=
  mkFileSystem (put dir (Dir es) base) w wr faults.

Lemma valid_snoc n : valid_name n = true -> valid_names (dir ++ [n]) = true.
Proof. intros Hn. apply valid_names_app. split; [assumption |]. now apply valid_names_cons. Qed.

Lemma focused_dir es wr : at_path (focused es wr) (abs_path dir) = Some (Dir es).
Proof.
  unfold at_path, focused. cbn [fs_tree]. rewrite resolve_abs_path by assumption.
  now apply lookup_put_same with x.
Qed.

Lemma focused_entry es wr n :
  valid_name n = true -> at_path (focused es wr) (abs_path (dir ++ [n])) = assoc n es.
Proof.
  intros Hn. unfold at_path, focused. cbn [fs_tree].
  rewrite resolve_abs_path by now apply valid_snoc.
  rewrite (lookup_put _ _ _ _ _ Hbase). cbn [lookup]. now destruct (assoc n es).
Qed.

Lemma focused_put es wr n v :
  put (dir ++ [n]) v (fs_tree (focused es wr)) = put dir (Dir (assoc_set n v es)) base.
Proof.
  unfold focused. cbn [fs_tree].
  rewrite (put_snoc _ _ _ _ es) by now apply lookup_put_same with x.
  now apply put_put with x.
Qed.

Lemma focused_del es wr n :
  del (dir ++ [n]) (fs_tree (focused es wr)) = put dir (Dir (assoc_del n es)) base.
Proof.
  unfold focused. cbn [fs_tree].
  rewrite (del_snoc _ _ _ es) by now apply lookup_put_same with x.
  now apply put_put with x.
Qed.

Lemma exists_dir es wr : exists_ (abs_path dir) (focused es wr) = (Val true, focused es wr).
Proof. unfold exists_, call. cbn [fs_faults focused]. rewrite Hquiet. fold (focused es wr). now rewrite focused_dir. Qed.

Lemma exists_entry es wr n :
  valid_name n = true ->
  exists_ (abs_path (dir ++ [n])) (focused es wr) =
    (Val (match assoc n es with Some _ => true | None => false end), focused es wr).
Proof.
  intros Hn. unfold exists_, call. cbn [fs_faults focused]. rewrite Hquiet.
  fold (focused es wr). now rewrite focused_entry.
Qed.

Lemma isdir_entry es wr n :
  valid_name n = true ->
  isdir (abs_path (dir ++ [n])) (focused es wr) =
    (match assoc n es with
     | Some (Dir _) => Val true
     | Some (File _) => Val false
     | None => Exn NotFound
     end, focused es wr).
Proof.
  intros Hn. unfold isdir, call. cbn [fs_faults focused]. rewrite Hquiet.
  fold (focused es wr). rewrite focused_entry by assumption.
  now destruct (assoc n es) as [[] |].
Qed.

Lemma readfile_entry es wr n :
  valid_name n = true ->
  readfile (abs_path (dir ++ [n])) (focused es wr) =
    (match assoc n es with
     | Some (File content) => Val content
     | Some (Dir _) => Exn IsADirectory
     | None => Exn NotFound
     end, focused es wr).
Proof.
  intros Hn. unfold readfile, call. cbn [fs_faults focused]. rewrite Hquiet.
  fold (focused es wr). rewrite focused_entry by assumption.
  now destruct (assoc n es) as [[] |].
Qed.

Lemma listdir_entry es wr n :
  valid_name n = true ->
  listdir (abs_path (dir ++ [n])) (focused es wr) =
    (match assoc n es with
     | Some (Dir sub) => Val (map fst sub)
     | Some (File _) => Exn NotADirectory
     | None => Exn NotFound
     end, focused es wr).
Proof.
  intros Hn. unfold listdir, call. cbn [fs_faults focused]. rewrite Hquiet.
  fold (focused es wr). rewrite focused_entry by assumption.
  now destruct (assoc n es) as [[] |].
Qed.

Lemma listdir_dir es wr :
  listdir (abs_path dir) (focused es wr) = (Val (map fst es), focused es wr).
Proof.
  unfold listdir, call. cbn [fs_faults focused]. rewrite Hquiet.
  fold (focused es wr). now rewrite focused_dir.
Qed.

Lemma writefile_entry es wr n content :
  valid_name n = true ->
  writefile (abs_path (dir ++ [n])) content (focused es wr) =
    match assoc n es with
    | Some (Dir _) => (Exn IsADirectory, focused es wr)
    | _ => (Val tt, focused (assoc_set n (File content) es)
                      ((abs_path (dir ++ [n]), content) :: wr))
    end.
Proof.
  intros Hn. unfold writefile, call. cbn [fs_faults focused]. rewrite Hquiet.
  fold (focused es wr). rewrite resolve_abs_path by now apply valid_snoc.
  pose proof (focused_entry es wr n Hn) as He. unfold at_path in He.
  rewrite resolve_abs_path in He by now apply valid_snoc. rewrite He.
  rewrite removelast_last.
  pose proof (focused_dir es wr) as Hd. unfold at_path in Hd.
  rewrite resolve_abs_path in Hd by assumption. rewrite Hd.
  rewrite focused_put. cbn [fs_watched fs_written fs_faults focused].
  now destruct (assoc n es) as [[] |].
Qed.

Lemma removefile_entry es wr n :
  valid_name n = true ->
  removefile (abs_path (dir ++ [n])) (focused es wr) =
    match assoc n es with
    | Some (File _) => (Val tt, focused (assoc_del n es) wr)
    | Some (Dir _) => (Exn IsADirectory, focused es wr)
    | None => (Exn NotFound, focused es wr)
    end.
Proof.
  intros Hn. unfold removefile, call. cbn [fs_faults focused]. rewrite Hquiet.
  fold (focused es wr). rewrite focused_entry by assumption.
  rewrite resolve_abs_path by now apply valid_snoc.
  unfold set_tree. rewrite focused_del. cbn [fs_watched fs_written fs_faults focused].
  now destruct (assoc n es) as [[] |].
Qed.

Lemma removedir_entry es wr n :
  valid_name n = true ->
  removedir (abs_path (dir ++ [n])) (focused es wr) =
    match assoc n es with
    | Some (Dir _) => (Val tt, focused (assoc_del n es) wr)
    | Some (File _) => (Exn NotADirectory, focused es wr)
    | None => (Exn NotFound, focused es wr)
    end.
Proof.
  intros Hn. unfold removedir, call. cbn [fs_faults focused]. rewrite Hquiet.
  fold (focused es wr). rewrite focused_entry by assumption.
  rewrite resolve_abs_path by now apply valid_snoc.
  unfold set_tree. rewrite focused_del. cbn [fs_watched fs_written fs_faults focused].
  now destruct (assoc n es) as [[] |].
Qed.

Lemma makedirs_entry es wr n :
  valid_name n = true ->
  makedirs (abs_path (dir ++ [n])) (focused es wr) =
    match assoc n es with
    | Some _ => (Exn FileExists, focused es wr)
    | None => (Val tt, focused (assoc_set n (Dir []) es) wr)
    end.
Proof.
  intros Hn. unfold makedirs, call. cbn [fs_faults focused]. rewrite Hquiet.
  fold (focused es wr). rewrite focused_entry by assumption.
  rewrite resolve_abs_path by now apply valid_snoc.
  destruct (assoc n es) as [c |] eqn:E; [reflexivity |].
  assert (Hl : lookup dir (fs_tree (focused es wr)) = Some (Dir es)).
  { unfold focused. cbn [fs_tree]. now apply lookup_put_same with x. }
  rewrite (blocked_snoc _ _ _ _ Hl), E.
  unfold set_tree. rewrite (mkchain_snoc _ _ _ _ Hl), E.
  unfold focused. cbn [fs_tree fs_watched fs_written fs_faults].
  now rewrite (put_put _ _ _ _ _ Hbase).
Qed.

End FsLocal.

(** ** The target: one action on one directory *)

Section TargetSteps.

Variable cwd : string.
Variables (base : node) (troot q : list string) (x : node).
Variables (w : gset (list string)) (faults : fs_op -> string -> option exn).
Hypothesis Hbase : lookup (troot ++ q) base = Some x.
Hypothesis Hroot : valid_names troot = true.
Hypothesis Hq : valid_names q = true.
Hypothesis Hquiet : forall op p, faults op p = None.

(** The target whose directory at [troot ++ q] has the entries [es]. *)
Definition target_at (es : entries) (wr : list (string * string)) : ReplicatorTarget :=
  mkTarget (focused base (troot ++ q) w faults es wr) (abs_path troot).

Lemma valid_dir : valid_names (troot ++ q) = true.
Proof. now apply valid_names_app. Qed.

Lemma target_path_entry n :
  valid_name n = true ->
  join (abs_path troot) (rel_path (q ++ [n])) = abs_path ((troot ++ q) ++ [n]).
Proof. now apply join_root_entry. Qed.

Lemma tgt_call_run {A} (m : M FileSystem A) es wr r fs' :
  m (focused base (troot ++ q) w faults es wr) = (r, fs') ->
  tgt_call m (target_at es wr) = (r, mkTarget fs' (abs_path troot)).
Proof. intros H. unfold tgt_call, zoom, target_at. cbn [tgt_fs tgt_dir_path]. now rewrite H. Qed.

Lemma tgt_call_run_focused {A} (m : M FileSystem A) es wr r fs' :
  m (focused base (troot ++ q) w faults es wr) = (r, fs') ->
  tgt_call m (mkTarget (focused base (troot ++ q) w faults es wr) (abs_path troot)) =
    (r, mkTarget fs' (abs_path troot)).
Proof. apply tgt_call_run. Qed.

Ltac fold_targets :=
  repeat match goal with
         | |- context [mkTarget (focused base (troot ++ q) w faults ?es ?wr) (abs_path troot)] =>
             fold (target_at es wr)
         end.

Ltac facts_for es wr n Hn E :=
  pose proof (exists_entry base (troot ++ q) x w faults Hbase valid_dir Hquiet es wr n Hn);
  pose proof (isdir_entry base (troot ++ q) x w faults Hbase valid_dir Hquiet es wr n Hn);
  pose proof (readfile_entry base (troot ++ q) x w faults Hbase valid_dir Hquiet es wr n Hn);
  pose proof (removefile_entry base (troot ++ q) x w faults Hbase valid_dir Hquiet es wr n Hn);
  pose proof (removedir_entry base (troot ++ q) x w faults Hbase valid_dir Hquiet es wr n Hn);
  pose proof (makedirs_entry base (troot ++ q) x w faults Hbase valid_dir Hquiet es wr n Hn);
  repeat match goal with
         | H : _ = _ |- _ => tryif constr_eq H E then fail else rewrite E in H
         end.

Ltac run_val :=
  erewrite bind_val; [| apply tgt_call_run; eassumption];
  cbn [negb]; cbv beta iota; fold_targets.
Ltac run_exn :=
  erewrite bind_exn; [| apply tgt_call_run; eassumption];
  cbn [negb]; cbv beta iota; fold_targets.
Ltac run_last := erewrite tgt_call_run; [| eassumption]; fold_targets.

Lemma write_focus fuel n content es wr :
  valid_name n = true ->
  handle_request cwd fuel (Write (rel_path (q ++ [n])) content) (target_at es wr) =
    (Val tt,
     target_at (write_entry n content es)
       (if write_needed n content es
        then (abs_path ((troot ++ q) ++ [n]), content) :: wr else wr)).
Proof.
  intros Hn. unfold handle_request. rewrite bind_get. cbv beta.
  cbn [request_relative_path tgt_dir_path target_at].
  rewrite (target_path_entry n Hn), (dirname_abs_path _ _ valid_dir Hn).
  fold (target_at es wr).
  pose proof (exists_dir base (troot ++ q) x w faults Hbase valid_dir Hquiet es wr) as Hd.
  run_val. clear Hd. cbn [negb]. rewrite bind_ret.
  unfold write_entry, write_needed.
  destruct (assoc n es) as [[old | sub] |] eqn:E.
  - (* a file stands there *)
    facts_for es wr n Hn E.
    pose proof (writefile_entry base (troot ++ q) x w faults Hbase valid_dir Hquiet
                  es wr n content Hn) as Hw. rewrite E in Hw.
    erewrite bind_val with (a := tt) (s' := target_at es wr).
    2:{ unfold try_pass. run_val. reflexivity. }
    cbv beta. run_val. cbn [negb].
    erewrite bind_val with (a := negb (String.eqb old content)) (s' := target_at es wr).
    2:{ run_val. run_val. reflexivity. }
    cbv beta. destruct (String.eqb_spec old content) as [-> | Hne]; cbn [negb].
    + rewrite (assoc_set_id _ _ _ E). reflexivity.
    + run_last. reflexivity.
  - (* a directory stands there *)
    facts_for es wr n Hn E.
    erewrite bind_val with (a := tt) (s' := target_at (assoc_del n es) wr).
    2:{ unfold try_pass. run_val. run_last. reflexivity. }
    cbv beta. pose proof (exists_entry base (troot ++ q) x w faults Hbase valid_dir Hquiet
                  (assoc_del n es) wr n Hn) as He'.
    pose proof (writefile_entry base (troot ++ q) x w faults Hbase valid_dir Hquiet
                  (assoc_del n es) wr n content Hn) as Hw.
    rewrite assoc_del_same in He', Hw.
    erewrite bind_val; [| apply tgt_call_run; exact He'].
    cbn [negb]. rewrite bind_ret. cbv beta iota. fold_targets.
    erewrite tgt_call_run; [| exact Hw]. reflexivity.
  - (* nothing stands there *)
    facts_for es wr n Hn E.
    pose proof (writefile_entry base (troot ++ q) x w faults Hbase valid_dir Hquiet
                  es wr n content Hn) as Hw. rewrite E in Hw.
    erewrite bind_val with (a := tt) (s' := target_at es wr).
    2:{ unfold try_pass. run_exn. reflexivity. }
    cbv beta. run_val. rewrite bind_ret. cbv beta iota.
    run_last. reflexivity.
Qed.

Lemma mkdir_focus fuel n es wr :
  valid_name n = true ->
  handle_request cwd fuel (MkDir (rel_path (q ++ [n]))) (target_at es wr) =
    (Val tt, target_at (mkdir_entry n es) wr).
Proof.
  intros Hn. unfold handle_request. rewrite bind_get. cbv beta.
  cbn [request_relative_path tgt_dir_path target_at].
  rewrite (target_path_entry n Hn). fold (target_at es wr).
  unfold mkdir_entry.
  destruct (assoc n es) as [[old | sub] |] eqn:E.
  - (* a file stands there *)
    facts_for es wr n Hn E.
    erewrite bind_val with (a := tt) (s' := target_at (assoc_del n es) wr).
    2:{ unfold try_pass. run_val. run_last. reflexivity. }
    cbv beta.
    pose proof (exists_entry base (troot ++ q) x w faults Hbase valid_dir Hquiet
                  (assoc_del n es) wr n Hn) as He'.
    pose proof (makedirs_entry base (troot ++ q) x w faults Hbase valid_dir Hquiet
                  (assoc_del n es) wr n Hn) as Hm.
    rewrite assoc_del_same in He', Hm.
    erewrite bind_val; [| apply tgt_call_run; exact He'].
    cbn [negb]. cbv beta iota. fold_targets.
    erewrite tgt_call_run; [| exact Hm]. reflexivity.
  - (* a directory stands there *)
    facts_for es wr n Hn E.
    erewrite bind_val with (a := tt) (s' := target_at es wr).
    2:{ unfold try_pass. run_val. reflexivity. }
    cbv beta. run_val. reflexivity.
  - (* nothing stands there *)
    facts_for es wr n Hn E.
    erewrite bind_val with (a := tt) (s' := target_at es wr).
    2:{ unfold try_pass. run_exn. reflexivity. }
    cbv beta. run_val. run_last. reflexivity.
Qed.

Lemma remove_focus fuel n es wr :
  valid_name n = true ->
  handle_request cwd fuel (Remove (rel_path (q ++ [n]))) (target_at es wr) =
    (Val tt, target_at (remove_entry n es) wr).
Proof.
  intros Hn. unfold handle_request. rewrite bind_get. cbv beta.
  cbn [request_relative_path tgt_dir_path target_at].
  rewrite (target_path_entry n Hn). fold (target_at es wr).
  unfold remove_entry.
  destruct (assoc n es) as [[old | sub] |] eqn:E; facts_for es wr n Hn E.
  - run_val. run_val. run_last. reflexivity.
  - run_val. run_val. run_last. reflexivity.
  - run_val. reflexivity.
Qed.

End TargetSteps.

(** ** The target: one action on any tree *)

Section TargetGeneral.
Variable cwd : string.

Lemma mkchain_makes_dir p t :
  blocked p t = false -> exists es, lookup p (mkchain p t) = Some (Dir es).
Proof.
  revert t. induction p as [| n p IH]; intros t Hb.
  - destruct t as [c | es]; [discriminate |]. now exists es.
  - destruct t as [c | es]; [discriminate |].
    cbn [mkchain lookup]. rewrite assoc_set_same.
    apply IH. cbn [blocked] in Hb.
    destruct (assoc n es) as [c |]; [exact Hb |]. now destruct p.
Qed.

Lemma target_refocus (t : ReplicatorTarget) troot q es0 :
  tgt_dir_path t = abs_path troot ->
  lookup (troot ++ q) (fs_tree (tgt_fs t)) = Some (Dir es0) ->
  t = target_at (fs_tree (tgt_fs t)) troot q (fs_watched (tgt_fs t)) (fs_faults (tgt_fs t))
        es0 (fs_written (tgt_fs t)).
Proof.
  destruct t as [[tree w wr faults] dp]. cbn. intros -> H.
  unfold target_at, focused. now rewrite (put_id _ _ _ H).
Qed.

Lemma write_parent_created fuel troot q n content tree w wr faults :
  valid_names troot = true -> valid_names q = true -> valid_name n = true ->
  (forall op p, faults op p = None) ->
  lookup (troot ++ q) tree = None ->
  blocked (troot ++ q) tree = false ->
  handle_request cwd fuel (Write (rel_path (q ++ [n])) content)
    (mkTarget (mkFileSystem tree w wr faults) (abs_path troot)) =
  handle_request cwd fuel (Write (rel_path (q ++ [n])) content)
    (mkTarget (mkFileSystem (mkchain (troot ++ q) tree) w wr faults) (abs_path troot)).
Proof.
  intros Hroot Hq Hn Hf Hl Hb.
  assert (HP : valid_names (troot ++ q) = true) by now apply valid_names_app.
  destruct (mkchain_makes_dir _ _ Hb) as [es Hes].
  unfold handle_request. rewrite !bind_get. cbv beta.
  cbn [request_relative_path tgt_dir_path].
  rewrite (join_root_entry troot q n Hroot Hq Hn), (dirname_abs_path _ _ HP Hn).
  unfold bind at 1. unfold tgt_call at 1, zoom, exists_ at 1, call, at_path.
  cbn [tgt_fs fs_faults fs_tree tgt_dir_path]. rewrite Hf, resolve_abs_path, Hl by assumption.
  cbn [negb]. unfold bind at 1. unfold tgt_call at 1, zoom, makedirs, call, at_path.
  cbn [tgt_fs fs_faults fs_tree tgt_dir_path]. rewrite Hf, resolve_abs_path, Hl, Hb by assumption.
  unfold set_tree. cbn [fs_tree fs_watched fs_written fs_faults].
  symmetry.
  unfold bind at 1. unfold tgt_call at 1, zoom, exists_ at 1, call, at_path.
  cbn [tgt_fs fs_faults fs_tree tgt_dir_path]. rewrite Hf, resolve_abs_path, Hes by assumption.
  cbn [negb]. unfold bind at 1. unfold ret at 1. reflexivity.
Qed.
Lemma write_parent_blocked fuel troot q n content tree w wr faults :
  valid_names troot = true -> valid_names q = true -> valid_name n = true ->
  (forall op p, faults op p = None) ->
  lookup (troot ++ q) tree = None ->
  blocked (troot ++ q) tree = true ->
  handle_request cwd fuel (Write (rel_path (q ++ [n])) content)
    (mkTarget (mkFileSystem tree w wr faults) (abs_path troot)) =
  (Exn NotADirectory, mkTarget (mkFileSystem tree w wr faults) (abs_path troot)).
Proof.
  intros Hroot Hq Hn Hf Hl Hb.
  assert (HP : valid_names (troot ++ q) = true) by now apply valid_names_app.
  unfold handle_request. rewrite !bind_get. cbv beta.
  cbn [request_relative_path tgt_dir_path].
  rewrite (join_root_entry troot q n Hroot Hq Hn), (dirname_abs_path _ _ HP Hn).
  unfold bind at 1. unfold tgt_call at 1, zoom, exists_ at 1, call, at_path.
  cbn [tgt_fs fs_faults fs_tree tgt_dir_path]. rewrite Hf, resolve_abs_path, Hl by assumption.
  cbn [negb]. unfold bind at 1. unfold tgt_call at 1, zoom, makedirs, call, at_path.
  cbn [tgt_fs fs_faults fs_tree tgt_dir_path]. rewrite Hf, resolve_abs_path, Hl, Hb by assumption.
  reflexivity.
Qed.

Lemma write_parent_file fuel troot q n content tree w wr faults f :
  valid_names troot = true -> valid_names q = true -> valid_name n = true ->
  (forall op p, faults op p = None) ->
  lookup (troot ++ q) tree = Some (File f) ->
  handle_request cwd fuel (Write (rel_path (q ++ [n])) content)
    (mkTarget (mkFileSystem tree w wr faults) (abs_path troot)) =
  (Exn NotADirectory, mkTarget (mkFileSystem tree w wr faults) (abs_path troot)).
Proof.
  intros Hroot Hq Hn Hf Hl.
  assert (HP : valid_names (troot ++ q) = true) by now apply valid_names_app.
  assert (Hfull : valid_names ((troot ++ q) ++ [n]) = true).
  { apply valid_names_app. split; [assumption |]. now apply valid_names_cons. }
  assert (Hnone : lookup ((troot ++ q) ++ [n]) tree = None) by now rewrite lookup_snoc, Hl.
  unfold handle_request. rewrite !bind_get. cbv beta.
  cbn [request_relative_path tgt_dir_path].
  rewrite (join_root_entry troot q n Hroot Hq Hn), (dirname_abs_path _ _ HP Hn).
  unfold bind, try_pass, tgt_call, zoom, exists_, isdir, writefile, call, at_path, ret.
  cbn [tgt_fs fs_faults fs_tree tgt_dir_path]. rewrite !Hf, !resolve_abs_path by assumption.
  rewrite Hl. cbn [negb tgt_fs fs_faults fs_tree tgt_dir_path].
  rewrite !Hf, Hnone. cbn [negb tgt_fs fs_faults fs_tree tgt_dir_path].
  rewrite !Hf, Hnone. cbn [negb tgt_fs fs_faults fs_tree tgt_dir_path].
  rewrite !Hf, Hnone, removelast_last, Hl. reflexivity.
Qed.
Lemma target_entry_focus base troot q x w faults es wr n :
  lookup (troot ++ q) base = Some x ->
  valid_names troot = true -> valid_names q = true -> valid_name n = true ->
  target_entry (target_at base troot q w faults es wr) (rel_path (q ++ [n])) = assoc n es.
Proof.
  intros Hbase Hroot Hq Hn. unfold target_entry, target_at. cbn [tgt_fs tgt_dir_path].
  rewrite (join_root_entry troot q n Hroot Hq Hn).
  apply focused_entry with x; try assumption. now apply valid_names_app.
Qed.

Lemma target_entry_lookup (t : ReplicatorTarget) troot q n :
  tgt_dir_path t = abs_path troot ->
  valid_names troot = true -> valid_names q = true -> valid_name n = true ->
  target_entry t (rel_path (q ++ [n])) = lookup ((troot ++ q) ++ [n]) (fs_tree (tgt_fs t)).
Proof.
  intros Hd Hroot Hq Hn. unfold target_entry, at_path. rewrite Hd.
  rewrite (join_root_entry troot q n Hroot Hq Hn), resolve_abs_path; [reflexivity |].
  apply valid_names_app. split; [now apply valid_names_app | now apply valid_names_cons].
Qed.

Lemma write_entry_written n content es : assoc n (write_entry n content es) = Some (File content).
Proof. unfold write_entry. destruct (assoc n es) as [[] |]; apply assoc_set_same. Qed.

Lemma write_entry_twice n content es :
  write_entry n content (write_entry n content es) = write_entry n content es /\
  write_needed n content (write_entry n content es) = false.
Proof.
  pose proof (write_entry_written n content es) as H. split.
  - unfold write_entry at 1. rewrite H. now apply assoc_set_id.
  - unfold write_needed. rewrite H. now rewrite String.eqb_refl.
Qed.

Lemma mkdir_entry_made n es : exists sub, assoc n (mkdir_entry n es) = Some (Dir sub).
Proof.
  unfold mkdir_entry. destruct (assoc n es) as [[c | sub] |] eqn:E.
  - exists []. apply assoc_set_same.
  - now exists sub.
  - exists []. apply assoc_set_same.
Qed.

End TargetGeneral.

(** ** The source: what every step leaves alone *)

Section SourceFrame.

Context {R : Type}.
Variable cwd : string.
Variable rpc_handle : request -> M R unit.

(** The watch sets only grow and the root never changes. *)
Definition src_grows (s s' : ReplicatorSource R) : Prop :=
  src_dir_path s' = src_dir_path s /\
  src_watch_dirs s ⊆ src_watch_dirs s' /\
  src_watch_files s ⊆ src_watch_files s'.

Lemma src_grows_refl s : src_grows s s.
Proof. unfold src_grows. set_solver. Qed.

Lemma src_grows_trans s1 s2 s3 : src_grows s1 s2 -> src_grows s2 s3 -> src_grows s1 s3.
Proof. unfold src_grows. intros (E1 & D1 & F1) (E2 & D2 & F2). rewrite E2, E1. set_solver. Qed.

Lemma src_call_grows {A} (m : M FileSystem A) : preserves src_grows (src_call m).
Proof.
  intros s r s'. unfold src_call, zoom. destruct (m (src_fs s)) as [r0 fs'].
  intros H; inversion H; subst. unfold src_grows; simpl. set_solver.
Qed.

Lemma rpc_grows req : preserves src_grows (rpc rpc_handle req).
Proof.
  intros s r s'. unfold rpc, zoom. destruct (rpc_handle req (src_peer s)) as [r0 p'].
  intros H; inversion H; subst. unfold src_grows; simpl. set_solver.
Qed.

Lemma watch_dirs_add_grows p : preserves (@src_grows) (watch_dirs_add p).
Proof. intros s r s' H; inversion H; subst. unfold src_grows; simpl. set_solver. Qed.

Lemma watch_files_add_grows p : preserves (@src_grows) (watch_files_add p).
Proof. intros s r s' H; inversion H; subst. unfold src_grows; simpl. set_solver. Qed.

Lemma relpath_or_raise_grows a b : preserves src_grows (relpath_or_raise cwd a b).
Proof.
  unfold relpath_or_raise. destruct (relpath cwd a b).
  - apply preserves_ret, src_grows_refl.
  - apply preserves_raise, src_grows_refl.
Qed.

Create HintDb grows.
Local Hint Resolve src_grows_refl src_grows_trans src_call_grows rpc_grows
  watch_dirs_add_grows watch_files_add_grows relpath_or_raise_grows : grows.

Lemma replicate_directory_grows fuel current_path :
  preserves src_grows (replicate_directory cwd rpc_handle fuel current_path).
Proof.
  revert current_path. induction fuel as [| fuel IH]; intros current_path; simpl.
  - apply preserves_diverge, src_grows_refl.
  - apply preserves_bind; eauto with grows. { apply preserves_get, src_grows_refl. }
    intros self. apply preserves_bind; eauto with grows.
    intros items. apply preserves_for_each; eauto with grows.
    intros item. apply preserves_bind; eauto with grows.
    intros rel. apply preserves_bind; eauto with grows.
    intros [|].
    + repeat (apply preserves_bind; eauto with grows; intros _).
    + apply preserves_bind; eauto with grows. intros content.
      apply preserves_bind; eauto with grows.
Qed.

End SourceFrame.

(** ** The event handler *)

Section HandleEvent.

Context {R : Type}.
Variable cwd : string.
Variable rpc_handle : request -> M R unit.

Lemma source_eta (s : ReplicatorSource R) :
  mkSource (src_fs s) (src_dir_path s) (src_watch_dirs s) (src_watch_files s) (src_peer s) = s.
Proof. now destruct s. Qed.

Lemma fs_eta_tree (fs : FileSystem) : set_tree (fs_tree fs) fs = fs.
Proof. now destruct fs. Qed.

Lemma resolve_empty : resolve "" = [].
Proof. reflexivity. Qed.

Lemma at_path_none_nonempty fs p : at_path fs p = None -> p <> "".
Proof. intros H ->. unfold at_path in H. rewrite resolve_empty in H. discriminate. Qed.

Lemma relpath_nonempty p start : p <> "" -> exists rel, relpath cwd p start = Some rel.
Proof.
  intros Hp. unfold relpath. destruct (String.eqb_spec p ""); [contradiction |].
  destruct (_ ++ _)%list; eauto.
Qed.

Lemma unwatchdir_returns p fs :
  exists r fs', unwatchdir p fs = (r, fs') /\ r <> Diverge.
Proof.
  unfold unwatchdir, call. destruct (fs_faults fs OpUnwatchdir p); [eauto 6 |].
  destruct (bool_decide _); eauto 6.
Qed.

(** Cancelling a watch inside [try ... except: pass] returns normally,
    whatever [unwatchdir] raises. *)
Lemma try_unwatch_returns p (s : ReplicatorSource R) :
  exists fs',
    try_pass (src_call (unwatchdir p)) s =
      (Val tt, mkSource fs' (src_dir_path s) (src_watch_dirs s) (src_watch_files s)
                 (src_peer s)).
Proof.
  unfold try_pass, src_call, zoom.
  destruct (unwatchdir_returns p (src_fs s)) as (r & fs' & E & Hr). rewrite E.
  exists fs'. destruct r as [[] | e |]; [reflexivity | reflexivity | contradiction].
Qed.

(** The first loop of the removal branch always returns: it yields the
    watched paths that start with [relative_path], and touches the watch
    registry of the file system only. *)
Lemma unwatch_prefixed_spec dir_path relative_path l acc (s : ReplicatorSource R) :
  exists fs',
    unwatch_prefixed dir_path relative_path l acc s =
      (Val (acc ++ List.filter (startswith relative_path) l)%list,
       mkSource fs' (src_dir_path s) (src_watch_dirs s) (src_watch_files s) (src_peer s)).
Proof.
  revert acc s. induction l as [| p l IH]; intros acc s; simpl.
  - exists (src_fs s). unfold ret. now rewrite app_nil_r, source_eta.
  - destruct (startswith relative_path p); [| apply IH].
    destruct (try_unwatch_returns (join dir_path p) s) as [fs1 E1].
    rewrite (bind_val _ _ _ _ _ E1).
    destruct (IH (acc ++ [p])%list
                (mkSource fs1 (src_dir_path s) (src_watch_dirs s) (src_watch_files s)
                   (src_peer s))) as [fs' E].
    exists fs'. rewrite E. simpl. now rewrite <- app_assoc.
Qed.

Lemma discard_all_spec (l : list string) (s : ReplicatorSource R) :
  for_each l watch_dirs_discard s =
    (Val tt, mkSource (src_fs s) (src_dir_path s) (src_watch_dirs s ∖ list_to_set l)
               (src_watch_files s) (src_peer s)).
Proof.
  revert s. induction l as [| p l IH]; intros s; simpl.
  - unfold ret. f_equal. rewrite <- (source_eta s) at 1. f_equal. set_solver.
  - unfold bind at 1. unfold watch_dirs_discard at 1, modify. rewrite IH. simpl.
    f_equal. f_equal. set_solver.
Qed.

Lemma find_eqb_elements (x : string) (X : gset string) :
  find (String.eqb x) (elements X) = if bool_decide (x ∈ X) then Some x else None.
Proof.
  destruct (find (String.eqb x) (elements X)) as [y |] eqn:E.
  - apply find_some in E as [Hin Heq]. apply String.eqb_eq in Heq as <-.
    rewrite bool_decide_eq_true_2; [reflexivity |].
    apply elem_of_elements, list_elem_of_In, Hin.
  - rewrite bool_decide_eq_false_2; [reflexivity |]. intros Hin.
    apply elem_of_elements, list_elem_of_In in Hin.
    apply (find_none _ _ E) in Hin. now rewrite String.eqb_refl in Hin.
Qed.

(** What the removal branch does to the watch sets: a watched directory
    goes when [relative_path] is a prefix of it as a string, and the one
    file equal to [relative_path] goes. *)
Lemma handle_event_removed_sets fuel p rel (s : ReplicatorSource R) r s' :
  relpath cwd p (src_dir_path s) = Some rel ->
  handle_event cwd rpc_handle fuel (mkEvent FILE_OR_SUBDIR_REMOVED p) s = (r, s') ->
  src_watch_dirs s' = filter (fun d => startswith rel d = false) (src_watch_dirs s) /\
  src_watch_files s' = src_watch_files s ∖ {[rel]} /\
  exists fs', src_fs s' = fs' /\
    (r, src_peer s') = rpc_handle (Remove rel) (src_peer s).
Proof.
  intros Hrel. unfold handle_event. rewrite bind_get. cbv beta.
  unfold relpath_or_raise. cbn [event_type path]. rewrite Hrel, bind_ret.
  cbv beta iota.
  destruct (unwatch_prefixed_spec (src_dir_path s) rel (elements (src_watch_dirs s)) [] s)
    as [fs1 E1].
  rewrite (bind_val _ _ _ _ _ E1). simpl app.
  unfold bind at 1. rewrite discard_all_spec. simpl.
  rewrite find_eqb_elements.
  set (s1 := mkSource fs1 _ _ _ _).
  assert (Hfiles : exists s2,
    (match (if bool_decide (rel ∈ src_watch_files s) then Some rel else None) with
     | Some p0 => watch_files_discard p0
     | None => ret tt
     end) s1 = (Val tt, s2) /\ src_watch_dirs s2 = src_watch_dirs s1 /\
     src_watch_files s2 = src_watch_files s ∖ {[rel]} /\ src_peer s2 = src_peer s).
  { destruct (bool_decide (rel ∈ src_watch_files s)) eqn:Eb.
    - eexists; split; [reflexivity |]. simpl. auto.
    - exists s1. split; [reflexivity |]. simpl. repeat split.
      apply bool_decide_eq_false in Eb. set_solver. }
  destruct Hfiles as (s2 & E2 & Hd & Hf & Hp).
  rewrite (bind_val _ _ _ _ _ E2).
  unfold rpc, zoom. rewrite Hp.
  destruct (rpc_handle (Remove rel) (src_peer s)) as [r0 peer'].
  intros H; inversion H; subst. simpl. rewrite Hd, Hf. simpl.
  split; [| split; [reflexivity | eauto]].
  apply set_eq. intros x. rewrite elem_of_filter, elem_of_difference, elem_of_list_to_set.
  rewrite list_elem_of_In, filter_In, <- list_elem_of_In, elem_of_elements.
  destruct (startswith rel x); intuition congruence.
Qed.

Ltac enter_handler Hrel :=
  unfold handle_event; rewrite bind_get; cbv beta;
  unfold relpath_or_raise; cbn [event_type path]; rewrite Hrel, bind_ret; cbv beta iota.

Lemma modified_read_failure_propagates fuel p e (s : ReplicatorSource R) :
  p <> "" ->
  fs_faults (src_fs s) OpReadfile p = Some e ->
  handle_event cwd rpc_handle fuel (mkEvent FILE_MODIFIED p) s = (Exn e, s).
Proof.
  intros Hp H. destruct (relpath_nonempty p (src_dir_path s) Hp) as [rel Hrel].
  enter_handler Hrel. unfold bind, src_call, zoom, readfile, call. rewrite H.
  now rewrite source_eta.
Qed.

Lemma added_isdir_failure_propagates fuel p e (s : ReplicatorSource R) :
  p <> "" ->
  fs_faults (src_fs s) OpIsdir p = Some e ->
  handle_event cwd rpc_handle fuel (mkEvent FILE_OR_SUBDIR_ADDED p) s = (Exn e, s).
Proof.
  intros Hp H. destruct (relpath_nonempty p (src_dir_path s) Hp) as [rel Hrel].
  enter_handler Hrel. unfold bind at 1. unfold src_call, zoom, isdir, call. rewrite H.
  now rewrite source_eta.
Qed.

Lemma added_vanished_raises fuel p (s : ReplicatorSource R) :
  at_path (src_fs s) p = None ->
  handle_event cwd rpc_handle fuel (mkEvent FILE_OR_SUBDIR_ADDED p) s =
    (Exn (match fs_faults (src_fs s) OpIsdir p with Some e => e | None => NotFound end), s).
Proof.
  intros H. pose proof (at_path_none_nonempty _ _ H) as Hp.
  destruct (fs_faults (src_fs s) OpIsdir p) as [e |] eqn:Hf.
  - now apply added_isdir_failure_propagates.
  - destruct (relpath_nonempty p (src_dir_path s) Hp) as [rel Hrel].
    enter_handler Hrel. unfold bind at 1. unfold src_call, zoom, isdir, call.
    rewrite Hf, H. now rewrite source_eta.
Qed.

Lemma removed_outcome_is_rpc_outcome fuel p rel (s : ReplicatorSource R) :
  relpath cwd p (src_dir_path s) = Some rel ->
  fst (handle_event cwd rpc_handle fuel (mkEvent FILE_OR_SUBDIR_REMOVED p) s) =
    fst (rpc_handle (Remove rel) (src_peer s)).
Proof.
  intros Hrel.
  destruct (handle_event _ _ _ _ s) as [r s'] eqn:E.
  destruct (handle_event_removed_sets _ _ _ _ _ _ Hrel E) as (_ & _ & _ & _ & H).
  now rewrite <- H.
Qed.

Lemma added_directory_sets fuel p rel (s s' : ReplicatorSource R) es :
  relpath cwd p (src_dir_path s) = Some rel ->
  at_path (src_fs s) p = Some (Dir es) ->
  handle_event cwd rpc_handle fuel (mkEvent FILE_OR_SUBDIR_ADDED p) s = (Val tt, s') ->
  rel ∈ src_watch_dirs s' /\ rel ∈ src_watch_files s'.
Proof.
  intros Hrel Hdir. enter_handler Hrel. intros H.
  apply bind_val_inv in H as (d & s1 & E1 & H).
  assert (d = true /\ s1 = s) as [-> ->].
  { revert E1. unfold src_call, zoom, isdir, call.
    destruct (fs_faults _ _ _); [discriminate |]. rewrite Hdir.
    rewrite source_eta. now inversion 1. }
  apply bind_val_inv in H as (req & s2 & E2 & H).
  apply bind_val_inv in E2 as ([] & s3 & E3 & E2).
  apply bind_val_inv in E2 as ([] & s4 & E4 & E2).
  apply bind_val_inv in E2 as ([] & s5 & E5 & E2).
  inversion E2; subst req s5; clear E2.
  apply bind_val_inv in H as ([] & s6 & E6 & H).
  inversion E3; subst s3; clear E3.
  apply (src_call_grows) in E4 as (_ & D4 & _).
  apply (replicate_directory_grows) in E5 as (_ & D5 & _).
  apply (rpc_grows) in E6 as (_ & D6 & _).
  inversion H; subst s'; clear H. simpl in *. set_solver.
Qed.

End HandleEvent.

(** ** Reconciliation is [prune] *)

Section SyncSteps.

Variable cwd : string.
Variables (troot : list string).
Variables (w : gset (list string)) (faults : fs_op -> string -> option exn).
Variables (dirs files : gset string).
Hypothesis Hroot : valid_names troot = true.
Hypothesis Hquiet : forall op p, faults op p = None.

Lemma target_at_descend base q x es wr n sub :
  lookup (troot ++ q) base = Some x ->
  assoc n es = Some (Dir sub) ->
  target_at base troot q w faults es wr =
  target_at (put (troot ++ q) (Dir es) base) troot (q ++ [n]) w faults sub wr.
Proof.
  intros Hbase Hn. unfold target_at, focused. do 2 f_equal.
  symmetry. apply put_id. rewrite app_assoc, lookup_snoc.
  now rewrite (lookup_put_same _ _ _ _ Hbase).
Qed.

Lemma target_at_ascend base q x es wr n sub :
  lookup (troot ++ q) base = Some x ->
  target_at (put (troot ++ q) (Dir es) base) troot (q ++ [n]) w faults sub wr =
  target_at base troot q w faults (assoc_set n (Dir sub) es) wr.
Proof.
  intros Hbase. unfold target_at, focused. do 2 f_equal.
  rewrite app_assoc.
  rewrite (put_snoc _ _ _ _ es) by now apply lookup_put_same with x.
  now apply put_put with x.
Qed.

(** One turn of the loop of [_sync_directory], for the entry [n] that the
    listing announced. *)
Definition sync_item (fuel' : nat) (q : list string) (n : string) : M ReplicatorTarget unit :=
  let item_path := join (abs_path (troot ++ q)) n in
  let! relative_path := relpath_or_raise cwd item_path (abs_path troot) in
  let! d := tgt_call (isdir item_path) in
  if d then
    if negb (bool_decide (relative_path ∈ dirs))
    then tgt_call (removedir item_path)
    else sync_directory cwd fuel' item_path dirs files
  else
    if negb (bool_decide (relative_path ∈ files))
    then tgt_call (removefile item_path)
    else ret tt.

Lemma sync_directory_unfold fuel' q (t : ReplicatorTarget) :
  tgt_dir_path t = abs_path troot ->
  sync_directory cwd (S fuel') (abs_path (troot ++ q)) dirs files t =
    (let! items := tgt_call (listdir (abs_path (troot ++ q))) in
     for_each items (sync_item fuel' q)) t.
Proof. intros H. cbn [sync_directory]. rewrite bind_get. cbv beta. now rewrite H. Qed.

Lemma relpath_entry q n :
  valid_names q = true -> valid_name n = true ->
  relpath cwd (abs_path ((troot ++ q) ++ [n])) (abs_path troot) = Some (rel_path (q ++ [n])).
Proof.
  intros Hq Hn. rewrite <- app_assoc. apply relpath_abs_path; [assumption |].
  apply valid_names_app. split; [assumption |]. now apply valid_names_cons.
Qed.

(** A file entry: kept when advertised, removed otherwise. *)
Lemma sync_item_file fuel' base q x done rest wr n content :
  lookup (troot ++ q) base = Some x -> valid_names q = true -> valid_name n = true ->
  ~ In n (map fst done) -> ~ In n (map fst rest) ->
  sync_item fuel' q n (target_at base troot q w faults (done ++ (n, File content) :: rest) wr) =
    (Val tt,
     target_at base troot q w faults
       (done ++ (if bool_decide (rel_path (q ++ [n]) ∈ files)
                 then (n, File content) :: rest else rest)) wr).
Proof.
  intros Hbase Hq Hn Hd Hr.
  assert (Hdir : valid_names (troot ++ q) = true) by now apply valid_names_app.
  unfold sync_item, target_at. rewrite (join_abs_path_name _ _ Hdir Hn).
  unfold relpath_or_raise. rewrite (relpath_entry q n Hq Hn), bind_ret. cbv beta.
  pose proof (isdir_entry base (troot ++ q) x w faults Hbase Hdir Hquiet
                (done ++ (n, File content) :: rest) wr n Hn) as Hi.
  pose proof (removefile_entry base (troot ++ q) x w faults Hbase Hdir Hquiet
                (done ++ (n, File content) :: rest) wr n Hn) as Hrm.
  rewrite (assoc_mid _ _ _ _ Hd) in Hi, Hrm.
  erewrite bind_val; [| apply (tgt_call_run_focused base troot q w faults); exact Hi].
  cbv beta iota.
  destruct (bool_decide (rel_path (q ++ [n]) ∈ files)); cbn [negb].
  - reflexivity.
  - erewrite (tgt_call_run_focused base troot q w faults); [| exact Hrm].
    now rewrite (assoc_del_mid _ _ _ _ Hd Hr).
Qed.

(** A directory entry: removed with all it holds when it is not advertised,
    visited otherwise. *)
Lemma sync_item_dir fuel' base q x done rest wr n sub sub' :
  lookup (troot ++ q) base = Some x -> valid_names q = true -> valid_name n = true ->
  ~ In n (map fst done) -> ~ In n (map fst rest) ->
  (forall base' x', lookup (troot ++ (q ++ [n])) base' = Some x' ->
     sync_directory cwd fuel' (abs_path (troot ++ (q ++ [n]))) dirs files
       (target_at base' troot (q ++ [n]) w faults sub wr) =
     (Val tt, target_at base' troot (q ++ [n]) w faults sub' wr)) ->
  sync_item fuel' q n (target_at base troot q w faults (done ++ (n, Dir sub) :: rest) wr) =
    (Val tt,
     target_at base troot q w faults
       (done ++ (if bool_decide (rel_path (q ++ [n]) ∈ dirs)
                 then (n, Dir sub') :: rest else rest)) wr).
Proof.
  intros Hbase Hq Hn Hd Hr IH.
  assert (Hdir : valid_names (troot ++ q) = true) by now apply valid_names_app.
  unfold sync_item. rewrite (join_abs_path_name _ _ Hdir Hn).
  unfold relpath_or_raise. rewrite (relpath_entry q n Hq Hn), bind_ret. cbv beta.
  pose proof (isdir_entry base (troot ++ q) x w faults Hbase Hdir Hquiet
                (done ++ (n, Dir sub) :: rest) wr n Hn) as Hi.
  pose proof (removedir_entry base (troot ++ q) x w faults Hbase Hdir Hquiet
                (done ++ (n, Dir sub) :: rest) wr n Hn) as Hrm.
  rewrite (assoc_mid _ _ _ _ Hd) in Hi, Hrm.
  erewrite bind_val; [| apply (tgt_call_run base troot q w faults); exact Hi].
  cbv beta iota.
  destruct (bool_decide (rel_path (q ++ [n]) ∈ dirs)); cbn [negb].
  - fold (target_at base troot q w faults (done ++ (n, Dir sub) :: rest) wr).
    rewrite (target_at_descend base q x _ wr n sub Hbase (assoc_mid _ _ _ _ Hd)).
    rewrite <- app_assoc. erewrite IH.
    2:{ rewrite app_assoc, lookup_snoc, (lookup_put_same _ _ _ _ Hbase).
        apply (assoc_mid _ _ _ _ Hd). }
    rewrite (target_at_ascend base q x _ wr n sub' Hbase).
    now rewrite (assoc_set_mid _ _ _ _ _ Hd).
  - unfold target_at.
    erewrite (tgt_call_run_focused base troot q w faults); [| exact Hrm].
    now rewrite (assoc_del_mid _ _ _ _ Hd Hr).
Qed.

Lemma height_entry es e : In e es -> height (snd e) < height (Dir es).
Proof.
  intros Hin. cbn [height]. apply Nat.lt_succ_r.
  assert (H : Forall (fun k => k <= list_max (map (fun e => height (snd e)) es))
                (map (fun e => height (snd e)) es)) by now apply list_max_le.
  rewrite List.Forall_forall in H. apply H. now apply (in_map (fun e => height (snd e))).
Qed.

Lemma wf_dir_inv es :
  wf (Dir es) = true ->
  valid_names (map fst es) = true /\ distinct (map fst es) = true /\
  forall e, In e es -> wf (snd e) = true.
Proof.
  cbn [wf]. rewrite !andb_true_iff, forallb_forall. tauto.
Qed.

(** [_sync_directory] on a well-formed directory returns, and what it
    leaves of the directory is [prune]. *)
Lemma sync_directory_prunes t :
  forall sub, t = Dir sub -> wf t = true ->
  forall fuel q base x wr,
    height t <= fuel -> lookup (troot ++ q) base = Some x -> valid_names q = true ->
    sync_directory cwd fuel (abs_path (troot ++ q)) dirs files
      (target_at base troot q w faults sub wr) =
    (Val tt, target_at base troot q w faults (prune_entries dirs files q sub) wr).
Proof.
  induction t as [c | es IH] using node_ind; intros sub Et Hwf fuel q base x wr Hfuel Hbase Hq;
    [discriminate |].
  injection Et as <-.
  destruct fuel as [| fuel']; [cbn [height] in Hfuel; lia |].
  assert (Hdir : valid_names (troot ++ q) = true) by now apply valid_names_app.
  rewrite sync_directory_unfold by reflexivity.
  erewrite bind_val.
  2:{ apply (tgt_call_run base troot q w faults).
      apply (listdir_dir base (troot ++ q) x w faults Hbase Hdir Hquiet). }
  cbv beta.
  destruct (wf_dir_inv _ Hwf) as (Hnames & Hdist & Hsub).
  assert (Hheight : forall e, In e es -> height (snd e) <= fuel').
  { intros e He. pose proof (height_entry es e He). lia. }
  clear Hwf Hfuel.
  assert (Loop : forall rest done,
             Forall (fun e =>
                       forall sub, snd e = Dir sub -> wf (snd e) = true ->
                       forall fuel q base x wr,
                         height (snd e) <= fuel -> lookup (troot ++ q) base = Some x ->
                         valid_names q = true ->
                         sync_directory cwd fuel (abs_path (troot ++ q)) dirs files
                           (target_at base troot q w faults sub wr) =
                         (Val tt, target_at base troot q w faults
                                    (prune_entries dirs files q sub) wr)) rest ->
             valid_names (map fst rest) = true -> distinct (map fst rest) = true ->
             (forall e, In e rest -> wf (snd e) = true) ->
             (forall e, In e rest -> height (snd e) <= fuel') ->
             (forall n, In n (map fst rest) -> ~ In n (map fst done)) ->
             for_each (map fst rest) (sync_item fuel' q)
               (target_at base troot q w faults (done ++ rest) wr) =
             (Val tt, target_at base troot q w faults
                        (done ++ prune_entries dirs files q rest) wr)).
  2:{ apply (Loop es []); try assumption. intros n _ []. }
  clear IH Hnames Hdist Hsub Hheight es.
  induction rest as [| [n c] rest IHrest]; intros done IH Hnames Hdist Hsub Hheight Hfresh.
  - reflexivity.
  - apply valid_names_cons in Hnames as [Hn Hnames].
    apply distinct_cons in Hdist as [Hnr Hdist].
    inversion IH as [| ? ? IHc IHr]; subst.
    assert (Hnd : ~ In n (map fst done)) by (apply Hfresh; now left).
    cbn [map fst for_each].
    assert (Step : forall kept,
               sync_item fuel' q n (target_at base troot q w faults (done ++ (n, c) :: rest) wr)
                 = (Val tt, target_at base troot q w faults (done ++ kept ++ rest) wr) ->
               prune_entries dirs files q ((n, c) :: rest)
                 = kept ++ prune_entries dirs files q rest ->
               (forall m, In m (map fst kept) -> m = n) ->
               (let! _ := sync_item fuel' q n in for_each (map fst rest) (sync_item fuel' q))
                 (target_at base troot q w faults (done ++ (n, c) :: rest) wr)
               = (Val tt, target_at base troot q w faults
                            (done ++ prune_entries dirs files q ((n, c) :: rest)) wr)).
    { intros kept Hstep Hprune Hkept. rewrite (bind_val _ _ _ _ _ Hstep), Hprune.
      rewrite !app_assoc. apply IHrest; try assumption.
      - intros e He. apply Hsub. now right.
      - intros e He. apply Hheight. now right.
      - intros m Hm. rewrite map_app, in_app_iff. intros [Hin | Hin].
        + apply (Hfresh m); [now right | assumption].
        + apply Hkept in Hin. now subst. }
    destruct c as [content | sub].
    + apply (Step (if bool_decide (rel_path (q ++ [n]) ∈ files)
                   then [(n, File content)] else [])).
      * rewrite (sync_item_file fuel' base q x done rest wr n content) by assumption.
        now destruct (bool_decide _).
      * rewrite prune_entries_cons. now destruct (bool_decide _).
      * intros m. destruct (bool_decide _); cbn; intuition congruence.
    + apply (Step (if bool_decide (rel_path (q ++ [n]) ∈ dirs)
                   then [(n, Dir (prune_entries dirs files (q ++ [n]) sub))] else [])).
      * rewrite (sync_item_dir fuel' base q x done rest wr n sub
                   (prune_entries dirs files (q ++ [n]) sub)); try assumption.
        -- now destruct (bool_decide _).
        -- intros base' x' Hbase'. apply (IHc sub eq_refl) with x'.
           ++ apply (Hsub (n, Dir sub)). now left.
           ++ apply (Hheight (n, Dir sub)). now left.
           ++ assumption.
           ++ apply valid_names_app. split; [assumption |]. now apply valid_names_cons.
      * rewrite prune_entries_cons. now destruct (bool_decide _).
      * intros m. destruct (bool_decide _); cbn; intuition congruence.
Qed.

End SyncSteps.

(** ** What [prune] keeps *)

Section PruneFacts.

Variables (dirs files : gset string).

Lemma assoc_prune_entries rel es n :
  distinct (map fst es) = true ->
  assoc n (prune_entries dirs files rel es) =
    match assoc n es with
    | Some c => if advertised dirs files (rel ++ [n]) c
                then Some (prune dirs files (rel ++ [n]) c) else None
    | None => None
    end.
Proof.
  induction es as [| [m c] es IH]; intros Hd; [reflexivity |].
  apply distinct_cons in Hd as [Hm Hd]. cbn [map fst] in Hm.
  rewrite prune_entries_cons. cbn [assoc].
  assert (Hgone : n = m -> assoc n (prune_entries dirs files rel es) = None).
  { intros ->. rewrite (IH Hd). now rewrite (proj2 (assoc_None m es) Hm). }
  destruct (String.eqb_spec n m) as [-> | Hne].
  - destruct c as [content | sub]; cbn [advertised]; destruct (bool_decide _);
      cbn [assoc]; rewrite ?String.eqb_refl; try reflexivity; now apply Hgone.
  - apply String.eqb_neq in Hne.
    destruct c as [content | sub]; destruct (bool_decide _); cbn [assoc]; rewrite ?Hne;
      now apply IH.
Qed.

(** What stands at [q] after pruning. *)
Lemma lookup_prune q : forall rel t,
  wf t = true ->
  lookup q (prune dirs files rel t) =
    if covered dirs files rel q t
    then option_map (prune dirs files (rel ++ q)) (lookup q t) else None.
Proof.
  induction q as [| n q IH]; intros rel t Hwf.
  - cbn [lookup covered option_map]. now rewrite app_nil_r.
  - destruct t as [c | es]; [reflexivity |].
    destruct (wf_dir_inv _ Hwf) as (_ & Hdist & Hsub).
    change (prune dirs files rel (Dir es)) with (Dir (prune_entries dirs files rel es)).
    cbn [lookup covered]. rewrite (assoc_prune_entries _ _ _ Hdist).
    destruct (assoc n es) as [c |] eqn:E; [| reflexivity].
    destruct (advertised dirs files (rel ++ [n]) c); cbn [andb]; [| reflexivity].
    rewrite IH by (apply (Hsub (n, c)), assoc_In, E).
    now rewrite <- app_assoc.
Qed.

(** [prune] never invents an entry. *)
Lemma prune_creates_nothing q rel t :
  wf t = true -> lookup q t = None -> lookup q (prune dirs files rel t) = None.
Proof. intros Hwf H. rewrite (lookup_prune _ _ _ Hwf), H. now destruct (covered _ _ _ _ _). Qed.

(** [covered] in words: every entry on the way down to [q] exists and is
    advertised for what it is. *)
Lemma covered_spec q : forall rel t,
  covered dirs files rel q t = true <->
  (forall q1 q2, q = q1 ++ q2 -> q1 <> [] ->
     exists v, lookup q1 t = Some v /\ advertised dirs files (rel ++ q1) v = true).
Proof.
  induction q as [| n q IH]; intros rel t.
  - split; [| reflexivity]. intros _ q1 q2 E Hne. symmetry in E.
    apply app_eq_nil in E as [-> _]. contradiction.
  - cbn [covered]. split.
    + intros H q1 q2 E Hne.
      destruct t as [c | es]; [discriminate |].
      destruct (assoc n es) as [c |] eqn:En; [| discriminate].
      apply andb_true_iff in H as [Ha Hc].
      destruct q1 as [| m q1]; [contradiction |]. injection E as <- E.
      destruct q1 as [| m' q1].
      * exists c. cbn [lookup]. now rewrite En.
      * destruct (proj1 (IH _ _) Hc (m' :: q1) q2 E) as (v & Hv & Hadv); [discriminate |].
        exists v. cbn [lookup] in *. rewrite En. split; [exact Hv |].
        now rewrite <- app_assoc in Hadv.
    + intros H.
      destruct (H [n] q eq_refl) as (v & Hv & Hadv); [discriminate |].
      destruct t as [c | es]; [discriminate |]. cbn [lookup] in Hv.
      destruct (assoc n es) as [c |] eqn:En; [| discriminate]. injection Hv as ->.
      rewrite Hadv. cbn [andb]. apply IH. intros q1 q2 E Hne.
      destruct (H (n :: q1) q2) as (v' & Hv' & Hadv'); [now rewrite E | discriminate |].
      exists v'. cbn [lookup] in Hv'. rewrite En in Hv'. split; [exact Hv' |].
      now rewrite <- app_assoc.
Qed.

End PruneFacts.

(** ** The walker is [walk] *)

Section WalkRefinement.

Context {R : Type}.
Variable cwd : string.
Variable rpc_handle : request -> M R unit.

(** Nothing the walker does changes the tree, the environment or the root
    of the source. *)
Definition src_stable (s s' : ReplicatorSource R) : Prop :=
  fs_tree (src_fs s') = fs_tree (src_fs s) /\
  fs_faults (src_fs s') = fs_faults (src_fs s) /\
  src_dir_path s' = src_dir_path s.

Lemma src_stable_refl s : src_stable s s.
Proof. now unfold src_stable. Qed.

Lemma src_stable_trans s1 s2 s3 : src_stable s1 s2 -> src_stable s2 s3 -> src_stable s1 s3.
Proof. unfold src_stable. intros (T1 & F1 & D1) (T2 & F2 & D2). now rewrite T2, F2, D2. Qed.

Definition fs_stable (fs fs' : FileSystem) : Prop :=
  fs_tree fs' = fs_tree fs /\ fs_faults fs' = fs_faults fs.

Lemma src_call_stable {A} (m : M FileSystem A) :
  preserves fs_stable m -> preserves src_stable (src_call m).
Proof.
  intros Hm s r s'. unfold src_call, zoom. destruct (m (src_fs s)) as [r0 fs'] eqn:E.
  intros H; inversion H; subst. destruct (Hm _ _ _ E) as [Ht Hf]. now unfold src_stable.
Qed.

Lemma listdir_stable p : preserves fs_stable (listdir p).
Proof.
  intros fs r fs'. unfold listdir, call.
  destruct (fs_faults fs OpListdir p); [| destruct (at_path fs p) as [[] |]];
    intros H; inversion H; subst; now unfold fs_stable.
Qed.

Lemma isdir_stable p : preserves fs_stable (isdir p).
Proof.
  intros fs r fs'. unfold isdir, call.
  destruct (fs_faults fs OpIsdir p); [| destruct (at_path fs p) as [[] |]];
    intros H; inversion H; subst; now unfold fs_stable.
Qed.

Lemma readfile_stable p : preserves fs_stable (readfile p).
Proof.
  intros fs r fs'. unfold readfile, call.
  destruct (fs_faults fs OpReadfile p); [| destruct (at_path fs p) as [[] |]];
    intros H; inversion H; subst; now unfold fs_stable.
Qed.

Lemma watchdir_stable p : preserves fs_stable (watchdir p).
Proof.
  intros fs r fs'. unfold watchdir, call.
  destruct (fs_faults fs OpWatchdir p); [| destruct (at_path fs p) as [[] |]];
    intros H; inversion H; subst; now unfold fs_stable.
Qed.

Lemma rpc_stable req : preserves src_stable (rpc rpc_handle req).
Proof.
  intros s r s'. unfold rpc, zoom. destruct (rpc_handle req (src_peer s)) as [r0 p'].
  intros H; inversion H; subst. now unfold src_stable.
Qed.

Lemma watch_dirs_add_stable p : preserves (@src_stable) (watch_dirs_add p).
Proof. intros s r s' H; inversion H; subst. now unfold src_stable. Qed.

Lemma watch_files_add_stable p : preserves (@src_stable) (watch_files_add p).
Proof. intros s r s' H; inversion H; subst. now unfold src_stable. Qed.

Lemma relpath_or_raise_stable a b : preserves src_stable (relpath_or_raise cwd a b).
Proof.
  unfold relpath_or_raise. destruct (relpath cwd a b).
  - apply preserves_ret, src_stable_refl.
  - apply preserves_raise, src_stable_refl.
Qed.

Create HintDb stable.
Local Hint Resolve src_stable_refl src_stable_trans src_call_stable rpc_stable
  watch_dirs_add_stable watch_files_add_stable relpath_or_raise_stable
  listdir_stable isdir_stable readfile_stable watchdir_stable : stable.

(** One turn of the loop of [_replicate_directory]. *)
Definition replicate_item (fuel' : nat) (current_path dir_path item : string)
  : M (ReplicatorSource R) unit :=
  let item_path := join current_path item in
  let! relative_path := relpath_or_raise cwd item_path dir_path in
  let! d := src_call (isdir item_path) in
  if d then
    rpc rpc_handle (MkDir relative_path) >>
    watch_dirs_add relative_path >>
    src_call (watchdir item_path) >>
    replicate_directory cwd rpc_handle fuel' item_path
  else
    let! content := src_call (readfile item_path) in
    rpc rpc_handle (Write relative_path content) >>
    watch_files_add relative_path.

Lemma replicate_directory_unfold fuel' current_path s :
  replicate_directory cwd rpc_handle (S fuel') current_path s =
    (let! items := src_call (listdir current_path) in
     for_each items (replicate_item fuel' current_path (src_dir_path s))) s.
Proof. reflexivity. Qed.

Lemma replicate_directory_stable fuel current_path :
  preserves src_stable (replicate_directory cwd rpc_handle fuel current_path).
Proof.
  revert current_path. induction fuel as [| fuel IH]; intros current_path; simpl.
  - apply preserves_diverge, src_stable_refl.
  - apply preserves_bind; eauto with stable. { apply preserves_get, src_stable_refl. }
    intros self. apply preserves_bind; eauto with stable.
    intros items. apply preserves_for_each; eauto with stable.
    intros item. apply preserves_bind; eauto with stable.
    intros rel. apply preserves_bind; eauto with stable.
    intros [|].
    + repeat (apply preserves_bind; eauto with stable; intros _).
    + apply preserves_bind; eauto with stable. intros content.
      apply preserves_bind; eauto with stable.
Qed.

Lemma replicate_item_stable fuel' current_path dir_path item :
  preserves src_stable (replicate_item fuel' current_path dir_path item).
Proof.
  unfold replicate_item.
  apply preserves_bind; eauto with stable.
  intros rel. apply preserves_bind; eauto with stable.
  intros [|].
  - repeat (apply preserves_bind; eauto with stable; intros _).
    apply replicate_directory_stable.
  - apply preserves_bind; eauto with stable. intros content.
    apply preserves_bind; eauto with stable.
Qed.

Lemma bind_cong {S A B} (m1 m2 : M S A) (k1 k2 : A -> M S B) s :
  m1 s = m2 s ->
  (forall a s1, m1 s = (Val a, s1) -> k1 a s1 = k2 a s1) ->
  bind m1 k1 s = bind m2 k2 s.
Proof.
  intros Hm Hk. unfold bind. rewrite <- Hm.
  destruct (m1 s) as [[a | e |] s1]; [now apply Hk | reflexivity | reflexivity].
Qed.

Variables (sroot : list string) (T : node).
Hypothesis Hsroot : valid_names sroot = true.

(** The source is rooted at [sroot], its tree is [T] and its environment
    makes no call fail. *)
Definition settled (s : ReplicatorSource R) : Prop :=
  fs_tree (src_fs s) = T /\ quiet_fs (src_fs s) /\ src_dir_path s = abs_path sroot.

Lemma settled_stable s s' : settled s -> src_stable s s' -> settled s'.
Proof.
  intros (Ht & Hq & Hd) (Ht' & Hf' & Hd'). repeat split.
  - congruence.
  - intros op p. rewrite Hf'. apply Hq.
  - congruence.
Qed.

Lemma src_listdir_run s l es :
  settled s -> valid_names l = true -> lookup l T = Some (Dir es) ->
  src_call (listdir (abs_path l)) s = (Val (map fst es), s).
Proof.
  intros (Ht & Hq & Hd) Hl H. unfold src_call, zoom, listdir, call, at_path.
  rewrite Hq, resolve_abs_path, Ht, H by assumption. cbv beta iota. now rewrite source_eta.
Qed.

Lemma src_isdir_run s l c :
  settled s -> valid_names l = true -> lookup l T = Some c ->
  src_call (isdir (abs_path l)) s = (Val (is_dir c), s).
Proof.
  intros (Ht & Hq & Hd) Hl H. unfold src_call, zoom, isdir, call, at_path.
  rewrite Hq, resolve_abs_path, Ht, H by assumption. destruct c; cbv beta iota; now rewrite source_eta.
Qed.

Lemma src_readfile_run s l content :
  settled s -> valid_names l = true -> lookup l T = Some (File content) ->
  src_call (readfile (abs_path l)) s = (Val content, s).
Proof.
  intros (Ht & Hq & Hd) Hl H. unfold src_call, zoom, readfile, call, at_path.
  rewrite Hq, resolve_abs_path, Ht, H by assumption. cbv beta iota. now rewrite source_eta.
Qed.

Lemma walk_cons rel n c es :
  walk rpc_handle sroot rel (Dir ((n, c) :: es)) =
    (walk_entry rpc_handle sroot rel n c (walk rpc_handle sroot (rel ++ [n]) c) >>
     walk rpc_handle sroot rel (Dir es)).
Proof. reflexivity. Qed.

Lemma assoc_distinct n c es :
  distinct (map fst es) = true -> In (n, c) es -> assoc n es = Some c.
Proof.
  induction es as [| [m d] es IH]; intros Hd Hin; [contradiction |].
  apply distinct_cons in Hd as [Hm Hd]. cbn [assoc].
  destruct Hin as [[= -> ->] | Hin]; [now rewrite String.eqb_refl |].
  destruct (String.eqb_spec n m) as [-> | Hne]; [| now apply IH].
  exfalso. apply Hm. cbn [map fst]. now apply (in_map fst _ (m, c)).
Qed.

(** On a well-formed tree, in a quiet environment and with a recursion
    budget that covers the depth of the tree, [_replicate_directory] is the
    structural walk. *)
Lemma replicate_directory_is_walk t :
  forall es, t = Dir es -> wf t = true ->
  forall fuel q s,
    height t <= fuel -> valid_names q = true -> settled s ->
    lookup (sroot ++ q) T = Some t ->
    replicate_directory cwd rpc_handle fuel (abs_path (sroot ++ q)) s =
      walk rpc_handle sroot q t s.
Proof.
  induction t as [c | es IH] using node_ind; intros es0 Et Hwf fuel q s Hfuel Hq Hs Ht;
    [discriminate |].
  injection Et as <-.
  destruct fuel as [| fuel']; [cbn [height] in Hfuel; lia |].
  assert (Hdir : valid_names (sroot ++ q) = true) by now apply valid_names_app.
  rewrite replicate_directory_unfold.
  rewrite (bind_val _ _ _ _ _ (src_listdir_run s _ _ Hs Hdir Ht)).
  destruct (wf_dir_inv _ Hwf) as (Hnames & Hdist & Hsub).
  assert (Hheight : forall e, In e es -> height (snd e) <= fuel').
  { intros e He. pose proof (height_entry es e He). lia. }
  destruct Hs as (HsT & HsQ & HsD). rewrite HsD.
  assert (Hs : settled s) by now repeat split.
  assert (Loop : forall rest s,
             (forall e, In e rest -> In e es) -> settled s ->
             for_each (map fst rest) (replicate_item fuel' (abs_path (sroot ++ q)) (abs_path sroot)) s
             = walk rpc_handle sroot q (Dir rest) s).
  2:{ now apply Loop. }
  clear s HsT HsQ HsD Hs.
  induction rest as [| [n c] rest IHrest]; intros s Hsub' Hs; [reflexivity |].
  cbn [map fst for_each]. rewrite walk_cons.
  assert (Hin : In (n, c) es) by (apply Hsub'; now left).
  assert (Hn : valid_name n = true).
  { apply (valid_names_In _ _ Hnames). now apply (in_map fst _ (n, c)). }
  assert (Hc : lookup ((sroot ++ q) ++ [n]) T = Some c).
  { rewrite lookup_snoc, Ht. now apply assoc_distinct. }
  assert (Hfull : valid_names ((sroot ++ q) ++ [n]) = true).
  { apply valid_names_app. split; [assumption |]. now apply valid_names_cons. }
  assert (Hitem : replicate_item fuel' (abs_path (sroot ++ q)) (abs_path sroot) n s =
                  walk_entry rpc_handle sroot q n c (walk rpc_handle sroot (q ++ [n]) c) s).
  { unfold replicate_item. rewrite (join_abs_path_name _ _ Hdir Hn).
    unfold relpath_or_raise. rewrite (relpath_entry cwd sroot Hsroot q n Hq Hn), bind_ret.
    cbv beta. rewrite (bind_val _ _ _ _ _ (src_isdir_run s _ _ Hs Hfull Hc)).
    destruct c as [content | sub]; cbn [is_dir walk_entry].
    - now rewrite (bind_val _ _ _ _ _ (src_readfile_run s _ _ Hs Hfull Hc)).
    - apply bind_cong; [reflexivity |]. intros [] s1 H1.
      apply bind_cong; [reflexivity |]. intros [] s2 H2.
      apply bind_cong; [reflexivity |]. intros [] s3 H3.
      assert (Hs3 : settled s3).
      { apply (settled_stable s); [assumption |].
        eapply src_stable_trans; [eapply rpc_stable, H1 |].
        eapply src_stable_trans; [eapply watch_dirs_add_stable, H2 |].
        eapply src_call_stable; [apply watchdir_stable | exact H3]. }
      rewrite <- app_assoc in Hc |- *.
      rewrite List.Forall_forall in IH.
      apply (IH (n, Dir sub) Hin sub eq_refl); try assumption.
      + apply (Hsub (n, Dir sub) Hin).
      + apply (Hheight (n, Dir sub) Hin).
      + apply valid_names_app. split; [assumption |]. now apply valid_names_cons. }
  apply bind_cong; [exact Hitem |]. intros [] s1 H1.
  apply IHrest.
  - intros e He. apply Hsub'. now right.
  - apply (settled_stable s); [assumption |]. eapply replicate_item_stable, H1.
Qed.

End WalkRefinement.

(** ** What the walk adds to the watch sets *)

Section WalkSets.

Context {R : Type}.
Variable rpc_handle : request -> M R unit.
Variable sroot : list string.

Lemma rpc_keeps_sets req (s s' : ReplicatorSource R) r :
  rpc rpc_handle req s = (r, s') ->
  src_watch_dirs s' = src_watch_dirs s /\ src_watch_files s' = src_watch_files s.
Proof.
  unfold rpc, zoom. destruct (rpc_handle req (src_peer s)) as [r0 p'].
  intros H; inversion H; subst. now split.
Qed.

Lemma src_call_keeps_sets {A} (m : M FileSystem A) (s s' : ReplicatorSource R) r :
  src_call m s = (r, s') ->
  src_watch_dirs s' = src_watch_dirs s /\ src_watch_files s' = src_watch_files s /\
  src_peer s' = src_peer s.
Proof.
  unfold src_call, zoom. destruct (m (src_fs s)) as [r0 fs'].
  intros H; inversion H; subst. now repeat split.
Qed.

Lemma dir_paths_cons rel n c es :
  dir_paths rel (Dir ((n, c) :: es)) =
    (match c with
     | Dir _ => (rel ++ [n]) :: dir_paths (rel ++ [n]) c
     | File _ => []
     end) ++ dir_paths rel (Dir es).
Proof. reflexivity. Qed.

Lemma file_paths_cons rel n c es :
  file_paths rel (Dir ((n, c) :: es)) =
    (match c with
     | Dir _ => file_paths (rel ++ [n]) c
     | File _ => [rel ++ [n]]
     end) ++ file_paths rel (Dir es).
Proof. reflexivity. Qed.

(** When the walk of [t] returns, it has added to the watch sets the
    relative paths of the directories and of the files below [t]. *)
Lemma walk_sets t : forall rel (s s' : ReplicatorSource R),
  walk rpc_handle sroot rel t s = (Val tt, s') ->
  src_watch_dirs s' = src_watch_dirs s ∪ list_to_set (map rel_path (dir_paths rel t)) /\
  src_watch_files s' = src_watch_files s ∪ list_to_set (map rel_path (file_paths rel t)).
Proof.
  induction t as [c | es IH] using node_ind; intros rel s s' H.
  - inversion H; subst. cbn. split; set_solver.
  - revert s H. induction es as [| [n c] es IHes]; intros s H.
    + inversion H; subst. cbn. split; set_solver.
    + rewrite walk_cons in H. apply bind_val_inv in H as ([] & s1 & H1 & H2).
      inversion IH as [| ? ? IHc IHrest]; subst.
      destruct (IHes IHrest _ H2) as [Ed Ef]. rewrite Ed, Ef.
      rewrite dir_paths_cons, file_paths_cons, !map_app, !list_to_set_app_L.
      clear Ed Ef H2 IHes IHrest IH.
      destruct c as [content | sub]; cbn [walk_entry] in H1.
      * apply bind_val_inv in H1 as ([] & s2 & H1 & H3).
        apply rpc_keeps_sets in H1 as [Ed Ef].
        inversion H3; subst s1. cbn [src_watch_dirs src_watch_files map list_to_set].
        rewrite Ed, Ef. split; set_solver.
      * apply bind_val_inv in H1 as ([] & s2 & H1 & H3).
        apply bind_val_inv in H3 as ([] & s3 & H3 & H4).
        apply bind_val_inv in H4 as ([] & s4 & H4 & H5).
        apply rpc_keeps_sets in H1 as [Ed1 Ef1].
        inversion H3; subst s3. cbn [src_watch_dirs src_watch_files] in *.
        apply src_call_keeps_sets in H4 as (Ed4 & Ef4 & _).
        cbn [src_watch_dirs src_watch_files] in *.
        destruct (IHc _ _ _ H5) as [Ed5 Ef5]. cbn [snd] in *.
        rewrite Ed5, Ef5, Ed4, Ef4, Ed1, Ef1. cbn [map list_to_set].
        split; set_solver.
Qed.

End WalkSets.

(** ** The shape of the paths of a tree *)

Section TreePaths.


End TreePaths.


(** ** The walk, seen from the target *)

Section WalkMirrors.

Variables (cwd : string) (tfuel : nat).
Variables (sroot : list string) (T : node).
Variables (troot : list string) (tw : gset (list string)).
Variable tfaults : fs_op -> string -> option exn.
Hypothesis Hsroot : valid_names sroot = true.
Hypothesis Htroot : valid_names troot = true.
Hypothesis Htquiet : forall op p, tfaults op p = None.

Local Abbreviation target_rpc := (handle_request cwd tfuel).

Definition with_peer (s : ReplicatorSource ReplicatorTarget) (p : ReplicatorTarget)
  : ReplicatorSource ReplicatorTarget :=
  mkSource (src_fs s) (src_dir_path s) (src_watch_dirs s) (src_watch_files s) p.

Lemma rpc_run req (s : ReplicatorSource ReplicatorTarget) r p' :
  target_rpc req (src_peer s) = (r, p') ->
  rpc target_rpc req s = (r, with_peer s p').
Proof. intros H. unfold rpc, zoom. now rewrite H. Qed.

Lemma settled_with_peer s p : settled sroot T s -> settled sroot T (with_peer s p).
Proof. intros (Ht & Hq & Hd). now repeat split. Qed.

Lemma src_watchdir_run (s : ReplicatorSource ReplicatorTarget) l es :
  settled sroot T s -> valid_names l = true -> lookup l T = Some (Dir es) ->
  exists s', src_call (watchdir (abs_path l)) s = (Val tt, s') /\
             settled sroot T s' /\ src_peer s' = src_peer s.
Proof.
  intros (Ht & Hq & Hd) Hl H. unfold src_call, zoom, watchdir, call, at_path.
  rewrite Hq, resolve_abs_path, Ht, H by assumption. cbv beta iota.
  eexists. split; [reflexivity |]. split; [| reflexivity].
  repeat split; assumption.
Qed.

Lemma overlay_cons n c ses tes :
  overlay (Dir ((n, c) :: ses)) tes =
    overlay (Dir ses)
      (match c with
       | File content => write_entry n content tes
       | Dir _ =>
           assoc_set n (Dir (overlay c (entries_of (assoc n (mkdir_entry n tes)))))
             (mkdir_entry n tes)
       end).
Proof. reflexivity. Qed.

(** The walk of a well-formed source directory, sent to a target whose
    corresponding directory exists, returns; the target directory ends as
    the overlay of the source directory on what it held. *)
Lemma walk_mirrors t :
  forall ses, t = Dir ses -> wf t = true ->
  forall q s tbase x tes twr,
    valid_names q = true -> settled sroot T s ->
    lookup (sroot ++ q) T = Some t ->
    lookup (troot ++ q) tbase = Some x ->
    src_peer s = target_at tbase troot q tw tfaults tes twr ->
    exists s' twr',
      walk target_rpc sroot q t s = (Val tt, s') /\
      settled sroot T s' /\
      src_peer s' = target_at tbase troot q tw tfaults (overlay t tes) twr'.
Proof.
  induction t as [c | ses IH] using node_ind;
    intros ses0 Et Hwf q s tbase x tes twr Hq Hs Ht Hbase Hpeer; [discriminate |].
  injection Et as <-.
  destruct (wf_dir_inv _ Hwf) as (Hnames & Hdist & Hsub).
  assert (Hdir : valid_names (sroot ++ q) = true) by now apply valid_names_app.
  assert (Loop : forall rest s tes twr,
             (forall e, In e rest -> In e ses) -> settled sroot T s ->
             src_peer s = target_at tbase troot q tw tfaults tes twr ->
             exists s' twr',
               walk target_rpc sroot q (Dir rest) s = (Val tt, s') /\
               settled sroot T s' /\
               src_peer s' = target_at tbase troot q tw tfaults (overlay (Dir rest) tes) twr').
  2:{ now apply (Loop ses s tes twr). }
  clear s tes twr Hs Hpeer.
  induction rest as [| [n c] rest IHrest]; intros s tes twr Hsub' Hs Hpeer.
  { exists s, twr. split; [reflexivity | split; assumption]. }
  assert (Hin : In (n, c) ses) by (apply Hsub'; now left).
  assert (Hn : valid_name n = true).
  { apply (valid_names_In _ _ Hnames). now apply (in_map fst _ (n, c)). }
  assert (Hc : lookup ((sroot ++ q) ++ [n]) T = Some c).
  { rewrite lookup_snoc, Ht. now apply assoc_distinct. }
  assert (Hfull : valid_names ((sroot ++ q) ++ [n]) = true).
  { apply valid_names_app. split; [assumption |]. now apply valid_names_cons. }
  rewrite walk_cons, overlay_cons.
  assert (Entry : exists s1 twr1,
             walk_entry target_rpc sroot q n c (walk target_rpc sroot (q ++ [n]) c) s
               = (Val tt, s1) /\
             settled sroot T s1 /\
             src_peer s1 =
               target_at tbase troot q tw tfaults
                 (match c with
                  | File content => write_entry n content tes
                  | Dir _ =>
                      assoc_set n (Dir (overlay c (entries_of (assoc n (mkdir_entry n tes)))))
                        (mkdir_entry n tes)
                  end) twr1).
  { destruct c as [content | sub]; cbn [walk_entry].
    - pose proof (write_focus cwd tbase troot q x tw tfaults Hbase Htroot Hq Htquiet
                    tfuel n content tes twr Hn) as Hw.
      rewrite <- Hpeer in Hw. apply rpc_run in Hw.
      eexists. eexists. split; [| split].
      + rewrite (bind_val _ _ _ _ _ Hw). reflexivity.
      + destruct Hs as (? & ? & ?). now repeat split.
      + reflexivity.
    - destruct (mkdir_entry_made n tes) as [tsub Htsub].
      pose proof (src_watchdir_run
                    (mkSource (src_fs s) (src_dir_path s)
                       ({[rel_path (q ++ [n])]} ∪ src_watch_dirs s) (src_watch_files s)
                       (target_at tbase troot q tw tfaults (mkdir_entry n tes) twr))
                    ((sroot ++ q) ++ [n]) sub) as (s3 & H3 & Hs3 & Hp3);
        [destruct Hs as (? & ? & ?); now repeat split | assumption | assumption |].
      cbn [src_peer] in Hp3.
      rewrite (target_at_descend troot tw tfaults tbase q x _ twr n tsub Hbase Htsub) in Hp3.
      rewrite List.Forall_forall in IH.
      destruct (IH (n, Dir sub) Hin sub eq_refl (Hsub (n, Dir sub) Hin) (q ++ [n]) s3
                  (put (troot ++ q) (Dir (mkdir_entry n tes)) tbase) (Dir tsub) tsub twr)
        as (s4 & twr4 & H4 & Hs4 & Hp4).
      + apply valid_names_app. split; [assumption |]. now apply valid_names_cons.
      + assumption.
      + now rewrite app_assoc.
      + rewrite app_assoc, lookup_snoc, (lookup_put_same _ _ _ _ Hbase). exact Htsub.
      + exact Hp3.
      + exists s4, twr4. split; [| split; [assumption |]].
        * erewrite bind_val.
          2:{ apply rpc_run. rewrite Hpeer.
              apply (mkdir_focus cwd tbase troot q x tw tfaults Hbase Htroot Hq Htquiet
                       tfuel n tes twr Hn). }
          erewrite bind_val; [| reflexivity].
          erewrite bind_val; [| exact H3].
          exact H4.
        * rewrite Hp4, Htsub. cbn [entries_of].
          apply (target_at_ascend troot tw tfaults tbase q x _ twr4 n _ Hbase). }
  destruct Entry as (s1 & twr1 & H1 & Hs1 & Hp1).
  destruct (IHrest s1 _ twr1 (fun e He => Hsub' e (or_intror He)) Hs1 Hp1)
    as (s' & twr' & H' & Hs' & Hp').
  exists s', twr'. split; [| split; assumption].
  now rewrite (bind_val _ _ _ _ _ H1).
Qed.

End WalkMirrors.

(** ** Failures: what propagates and what is absorbed *)

Section Failures.

Variable cwd : string.

Ltac fs_unfold :=
  unfold handle_request, bind, try_pass, tgt_call, src_call, zoom, get, ret,
    exists_, isdir, listdir, readfile, writefile, removefile, removedir, makedirs, call;
  cbn [tgt_fs tgt_dir_path request_relative_path fs_faults set_tree fs_tree].

Ltac fs_step :=
  match goal with
  | H : ?x = _ |- context [match ?x with _ => _ end] => rewrite H
  | |- context [match fs_faults ?a ?b ?c with _ => _ end] =>
      destruct (fs_faults a b c) eqn:?
  | |- context [match at_path ?a ?b with _ => _ end] =>
      destruct (at_path a b) as [[? | ?] |] eqn:?
  end.

Ltac fs_crush := fs_unfold; simpl; repeat (fs_step; unfold set_tree; simpl).

Lemma target_eta (t : ReplicatorTarget) : mkTarget (tgt_fs t) (tgt_dir_path t) = t.
Proof. now destruct t. Qed.

Lemma write_exists_failure_propagates fuel p c e (t : ReplicatorTarget) :
  fs_faults (tgt_fs t) OpExists (dirname (join (tgt_dir_path t) p)) = Some e ->
  handle_request cwd fuel (Write p c) t = (Exn e, t).
Proof. intros H. fs_unfold. rewrite H. now rewrite target_eta. Qed.

Lemma remove_exists_failure_propagates fuel p e (t : ReplicatorTarget) :
  fs_faults (tgt_fs t) OpExists (join (tgt_dir_path t) p) = Some e ->
  handle_request cwd fuel (Remove p) t = (Exn e, t).
Proof. intros H. fs_unfold. rewrite H. now rewrite target_eta. Qed.

Lemma sync_listdir_failure_propagates fuel dirs files p e (t : ReplicatorTarget) :
  fs_faults (tgt_fs t) OpListdir (tgt_dir_path t) = Some e ->
  handle_request cwd (S fuel) (Sync dirs files p) t = (Exn e, t).
Proof.
  intros H. unfold handle_request. rewrite bind_get. cbv beta iota. simpl sync_directory.
  rewrite bind_get. fs_unfold. rewrite H. now rewrite target_eta.
Qed.

Lemma mkdir_exists_failure_propagates fuel p e (t : ReplicatorTarget) :
  fs_faults (tgt_fs t) OpExists (join (tgt_dir_path t) p) = Some e ->
  fst (handle_request cwd fuel (MkDir p) t) = Exn e.
Proof.
  intros H. fs_crush; reflexivity.
Qed.

Lemma mkdir_isdir_failure_absorbed fuel p e n (t : ReplicatorTarget) :
  fs_faults (tgt_fs t) OpIsdir (join (tgt_dir_path t) p) = Some e ->
  fs_faults (tgt_fs t) OpExists (join (tgt_dir_path t) p) = None ->
  at_path (tgt_fs t) (join (tgt_dir_path t) p) = Some n ->
  handle_request cwd fuel (MkDir p) t = (Val tt, t).
Proof.
  intros H1 H2 H3. fs_unfold. rewrite H1. simpl. rewrite H2, H3. simpl.
  now rewrite target_eta.
Qed.

End Failures.
(** ** Every call of the two handlers *)

(** The handlers are cut at their calls.  The pieces below are those of the
    source text, so that a statement can speak of the state in which a call
    is made. *)

(** The [try] block of the [Write] branch of [handle_request]. *)
Definition write_try_block (target_path : string) : M ReplicatorTarget unit :=
  try_pass (let! d := tgt_call (isdir target_path) in
            if d then tgt_call (removedir target_path) else ret tt).

(** What follows it: the comparison and the write. *)
Definition write_tail (target_path content : string) : M ReplicatorTarget unit :=
  let! e1 := tgt_call (exists_ target_path) in
  let! differs :=
    (if negb e1 then ret true
     else let! e2 := tgt_call (exists_ target_path) in
          if e2 then let! old := tgt_call (readfile target_path) in
                     ret (negb (String.eqb old content))
          else ret false) in
  if differs then tgt_call (writefile target_path content) else ret tt.

(** The [try] block of the [MkDir] branch, and what follows it. *)
Definition mkdir_try_block (target_path : string) : M ReplicatorTarget unit :=
  try_pass (let! d := tgt_call (isdir target_path) in
            if negb d then tgt_call (removefile target_path) else ret tt).

Definition mkdir_tail (target_path : string) : M ReplicatorTarget unit :=
  let! e := tgt_call (exists_ target_path) in
  if negb e then tgt_call (makedirs target_path) else ret tt.

(** The first statement of the [Write] branch has run, from [t] to [t1]:
    the directory of the target path was there, or has been made. *)
Definition parent_ready (target_dir : string) (t t1 : ReplicatorTarget) : Prop :=
  tgt_call (exists_ target_dir) t = (Val true, t1) \/
  exists t0, tgt_call (exists_ target_dir) t = (Val false, t0) /\
             tgt_call (makedirs target_dir) t0 = (Val tt, t1).

(** The body of the loop of [_sync_directory], for one [item] of the
    listing of [current_path]; [root] is [self._dir_path]. *)
Definition sync_entry (cwd : string) (fuel' : nat) (root current_path : string)
    (dirs files : gset string) (item : string) : M ReplicatorTarget unit :=
  let item_path := join current_path item in
  let! relative_path := relpath_or_raise cwd item_path root in
  let! d := tgt_call (isdir item_path) in
  if d then
    if negb (bool_decide (relative_path ∈ dirs))
    then tgt_call (removedir item_path)
    else sync_directory cwd fuel' item_path dirs files
  else
    if negb (bool_decide (relative_path ∈ files))
    then tgt_call (removefile item_path)
    else ret tt.

(** The walk of the target reaches the entry [n] of the listing of
    [current_path] in the state [t1]: the listing was read, and the entries
    before [n] were dealt with. *)
Definition sync_reaches (cwd : string) (fuel' : nat) (current_path : string)
    (dirs files : gset string) (t : ReplicatorTarget) (n : string) (t1 : ReplicatorTarget)
  : Prop :=
  exists l1 l2 t0,
    tgt_call (listdir current_path) t = (Val (l1 ++ n :: l2), t0) /\
    for_each l1 (sync_entry cwd fuel' (tgt_dir_path t) current_path dirs files) t0
      = (Val tt, t1).

(** The body of the loop of [_replicate_directory]. *)
Definition replicate_entry {R : Type} (cwd : string) (rpc_handle : request -> M R unit)
    (fuel' : nat) (root current_path item : string) : M (ReplicatorSource R) unit :=
  let item_path := join current_path item in
  let! relative_path := relpath_or_raise cwd item_path root in
  let! d := src_call (isdir item_path) in
  if d then
    rpc rpc_handle (MkDir relative_path) >>
    watch_dirs_add relative_path >>
    src_call (watchdir item_path) >>
    replicate_directory cwd rpc_handle fuel' item_path
  else
    let! content := src_call (readfile item_path) in
    rpc rpc_handle (Write relative_path content) >>
    watch_files_add relative_path.

(** The walk of the source reaches the entry [n] of the listing of
    [current_path] in the state [s1]. *)
Definition walk_reaches {R : Type} (cwd : string) (rpc_handle : request -> M R unit)
    (fuel' : nat) (current_path : string) (s : ReplicatorSource R) (n : string)
    (s1 : ReplicatorSource R) : Prop :=
  exists l1 l2 s0,
    src_call (listdir current_path) s = (Val (l1 ++ n :: l2), s0) /\
    for_each l1 (replicate_entry cwd rpc_handle fuel' (src_dir_path s) current_path) s0
      = (Val tt, s1).

(** An environment in which every [writefile] fails for want of space. *)
Definition disk_full (op : fs_op) (_ : string) : option exn :=
  match op with OpWritefile => Some DiskFull | _ => None end.

Section CallSites.

Variable cwd : string.

Lemma call_fault_raises {A} op p (body : M FileSystem A) fs e :
  fs_faults fs op p = Some e -> call op p body fs = (Exn e, fs).
Proof. intros H. unfold call. now rewrite H. Qed.

Lemma tgt_call_fault_raises {A} op p (body : M FileSystem A) (t : ReplicatorTarget) e :
  fs_faults (tgt_fs t) op p = Some e -> tgt_call (call op p body) t = (Exn e, t).
Proof.
  intros H. unfold tgt_call, zoom. rewrite (call_fault_raises _ _ _ _ _ H).
  now destruct t.
Qed.

Lemma for_each_stops {S A} (body : A -> M S unit) l1 x l2 s s1 e s2 :
  for_each l1 body s = (Val tt, s1) -> body x s1 = (Exn e, s2) ->
  for_each (l1 ++ x :: l2) body s = (Exn e, s2).
Proof.
  revert s. induction l1 as [| a l1 IH]; intros s H1 H2.
  - inversion H1; subst. cbn [app for_each]. now apply bind_exn.
  - cbn [app for_each] in *. unfold bind in *.
    destruct (body a s) as [[[] | |] s0]; try discriminate. now apply IH.
Qed.

Lemma tgt_exists_keeps p (t t' : ReplicatorTarget) b :
  tgt_call (exists_ p) t = (Val b, t') -> t' = t.
Proof.
  unfold tgt_call, zoom, exists_, call.
  destruct (fs_faults (tgt_fs t) OpExists p); intros H; inversion H.
  now destruct t.
Qed.

Lemma write_try_block_returns tp (t : ReplicatorTarget) :
  write_try_block tp t = (Val tt, snd (write_try_block tp t)).
Proof.
  unfold write_try_block, try_pass, bind, tgt_call, zoom, isdir, removedir, call, ret.
  destruct (fs_faults (tgt_fs t) OpIsdir tp); [reflexivity |].
  destruct (at_path (tgt_fs t) tp) as [[c | es] |]; try reflexivity.
  cbn [tgt_fs]. destruct (fs_faults (tgt_fs t) OpRemovedir tp); [reflexivity |].
  destruct (at_path (tgt_fs t) tp) as [[c' | es'] |]; reflexivity.
Qed.

Lemma mkdir_try_block_returns tp (t : ReplicatorTarget) :
  mkdir_try_block tp t = (Val tt, snd (mkdir_try_block tp t)).
Proof.
  unfold mkdir_try_block, try_pass, bind, tgt_call, zoom, isdir, removefile, call, ret.
  destruct (fs_faults (tgt_fs t) OpIsdir tp); [reflexivity |].
  destruct (at_path (tgt_fs t) tp) as [[c | es] |]; try reflexivity.
  cbn [tgt_fs negb]. destruct (fs_faults (tgt_fs t) OpRemovefile tp); [reflexivity |].
  destruct (at_path (tgt_fs t) tp) as [[c' | es'] |]; reflexivity.
Qed.

(** *** [Write] *)

Lemma write_from_try_block fuel p c (t t1 : ReplicatorTarget) :
  let target_path := join (tgt_dir_path t) p in
  parent_ready (dirname target_path) t t1 ->
  handle_request cwd fuel (Write p c) t =
    write_tail target_path c (snd (write_try_block target_path t1)).
Proof.
  intros tp Hready. unfold handle_request, write_tail. rewrite bind_get.
  cbn [request_relative_path]. fold tp.
  fold (write_try_block tp).
  destruct Hready as [H | (t0 & H0 & H1)].
  - rewrite (bind_val _ _ _ _ _ H). cbn [negb]. rewrite bind_ret.
    now rewrite (bind_val _ _ _ _ _ (write_try_block_returns tp t1)).
  - rewrite (bind_val _ _ _ _ _ H0). cbn [negb]. rewrite (bind_val _ _ _ _ _ H1).
    now rewrite (bind_val _ _ _ _ _ (write_try_block_returns tp t1)).
Qed.

Lemma write_site_exists_parent fuel p c e (t t' : ReplicatorTarget) :
  tgt_call (exists_ (dirname (join (tgt_dir_path t) p))) t = (Exn e, t') ->
  handle_request cwd fuel (Write p c) t = (Exn e, t').
Proof.
  intros H. unfold handle_request. rewrite bind_get. cbn [request_relative_path].
  now apply bind_exn.
Qed.

Lemma write_site_makedirs fuel p c e (t t1 t' : ReplicatorTarget) :
  let target_dir := dirname (join (tgt_dir_path t) p) in
  tgt_call (exists_ target_dir) t = (Val false, t1) ->
  tgt_call (makedirs target_dir) t1 = (Exn e, t') ->
  handle_request cwd fuel (Write p c) t = (Exn e, t').
Proof.
  intros td H1 H2. unfold handle_request. rewrite bind_get. cbn [request_relative_path].
  fold td. rewrite (bind_val _ _ _ _ _ H1). cbn [negb]. now apply bind_exn.
Qed.

Lemma write_site_exists fuel p c e (t t1 t' : ReplicatorTarget) :
  let target_path := join (tgt_dir_path t) p in
  parent_ready (dirname target_path) t t1 ->
  tgt_call (exists_ target_path) (snd (write_try_block target_path t1)) = (Exn e, t') ->
  handle_request cwd fuel (Write p c) t = (Exn e, t').
Proof.
  intros tp Hready H. rewrite (write_from_try_block _ _ _ _ _ Hready). fold tp. unfold write_tail.
  now apply bind_exn.
Qed.

Lemma write_site_readfile fuel p c e (t t1 t2 t' : ReplicatorTarget) :
  let target_path := join (tgt_dir_path t) p in
  parent_ready (dirname target_path) t t1 ->
  tgt_call (exists_ target_path) (snd (write_try_block target_path t1)) = (Val true, t2) ->
  tgt_call (readfile target_path) t2 = (Exn e, t') ->
  handle_request cwd fuel (Write p c) t = (Exn e, t').
Proof.
  intros tp Hready H1 H2. rewrite (write_from_try_block _ _ _ _ _ Hready). fold tp. unfold write_tail.
  rewrite (bind_val _ _ _ _ _ H1). cbn [negb]. apply bind_exn.
  pose proof (tgt_exists_keeps _ _ _ _ H1) as ->.
  rewrite (bind_val _ _ _ _ _ H1). now apply bind_exn.
Qed.

Lemma write_site_writefile_new fuel p c e (t t1 t2 t' : ReplicatorTarget) :
  let target_path := join (tgt_dir_path t) p in
  parent_ready (dirname target_path) t t1 ->
  tgt_call (exists_ target_path) (snd (write_try_block target_path t1)) = (Val false, t2) ->
  tgt_call (writefile target_path c) t2 = (Exn e, t') ->
  handle_request cwd fuel (Write p c) t = (Exn e, t').
Proof.
  intros tp Hready H1 H2. rewrite (write_from_try_block _ _ _ _ _ Hready). fold tp. unfold write_tail.
  rewrite (bind_val _ _ _ _ _ H1). cbn [negb]. rewrite bind_ret. exact H2.
Qed.

Lemma write_site_writefile_changed fuel p c old e (t t1 t2 t3 t' : ReplicatorTarget) :
  let target_path := join (tgt_dir_path t) p in
  parent_ready (dirname target_path) t t1 ->
  tgt_call (exists_ target_path) (snd (write_try_block target_path t1)) = (Val true, t2) ->
  tgt_call (readfile target_path) t2 = (Val old, t3) ->
  old <> c ->
  tgt_call (writefile target_path c) t3 = (Exn e, t') ->
  handle_request cwd fuel (Write p c) t = (Exn e, t').
Proof.
  intros tp Hready H1 H2 Hne H3. rewrite (write_from_try_block _ _ _ _ _ Hready). fold tp. unfold write_tail.
  rewrite (bind_val _ _ _ _ _ H1). cbn [negb].
  pose proof (tgt_exists_keeps _ _ _ _ H1) as ->.
  assert (Hd : (let! e2 := tgt_call (exists_ tp) in
                if e2 then let! old := tgt_call (readfile tp) in
                           ret (negb (String.eqb old c))
                else ret false) (snd (write_try_block tp t1)) = (Val true, t3)).
  { rewrite (bind_val _ _ _ _ _ H1). rewrite (bind_val _ _ _ _ _ H2).
    apply String.eqb_neq in Hne. now rewrite Hne. }
  rewrite (bind_val _ _ _ _ _ Hd). exact H3.
Qed.

(** *** [MkDir] *)

Lemma mkdir_from_try_block fuel p (t : ReplicatorTarget) :
  let target_path := join (tgt_dir_path t) p in
  handle_request cwd fuel (MkDir p) t =
    mkdir_tail target_path (snd (mkdir_try_block target_path t)).
Proof.
  intros tp. unfold handle_request, mkdir_tail. rewrite bind_get.
  cbn [request_relative_path]. fold tp. fold (mkdir_try_block tp).
  now rewrite (bind_val _ _ _ _ _ (mkdir_try_block_returns tp t)).
Qed.

Lemma mkdir_site_exists fuel p e (t t' : ReplicatorTarget) :
  let target_path := join (tgt_dir_path t) p in
  tgt_call (exists_ target_path) (snd (mkdir_try_block target_path t)) = (Exn e, t') ->
  handle_request cwd fuel (MkDir p) t = (Exn e, t').
Proof. intros tp H. rewrite mkdir_from_try_block. unfold mkdir_tail. now apply bind_exn. Qed.

Lemma mkdir_site_makedirs fuel p e (t t1 t' : ReplicatorTarget) :
  let target_path := join (tgt_dir_path t) p in
  tgt_call (exists_ target_path) (snd (mkdir_try_block target_path t)) = (Val false, t1) ->
  tgt_call (makedirs target_path) t1 = (Exn e, t') ->
  handle_request cwd fuel (MkDir p) t = (Exn e, t').
Proof.
  intros tp H1 H2. rewrite mkdir_from_try_block. fold tp. unfold mkdir_tail.
  rewrite (bind_val _ _ _ _ _ H1). exact H2.
Qed.

(** *** [Remove] *)

Lemma remove_site_exists fuel p e (t t' : ReplicatorTarget) :
  tgt_call (exists_ (join (tgt_dir_path t) p)) t = (Exn e, t') ->
  handle_request cwd fuel (Remove p) t = (Exn e, t').
Proof.
  intros H. unfold handle_request. rewrite bind_get. cbn [request_relative_path].
  now apply bind_exn.
Qed.

Lemma remove_site_isdir fuel p e (t t1 t' : ReplicatorTarget) :
  let target_path := join (tgt_dir_path t) p in
  tgt_call (exists_ target_path) t = (Val true, t1) ->
  tgt_call (isdir target_path) t1 = (Exn e, t') ->
  handle_request cwd fuel (Remove p) t = (Exn e, t').
Proof.
  intros tp H1 H2. unfold handle_request. rewrite bind_get. cbn [request_relative_path].
  fold tp. rewrite (bind_val _ _ _ _ _ H1). now apply bind_exn.
Qed.

Lemma remove_site_removedir fuel p e (t t1 t2 t' : ReplicatorTarget) :
  let target_path := join (tgt_dir_path t) p in
  tgt_call (exists_ target_path) t = (Val true, t1) ->
  tgt_call (isdir target_path) t1 = (Val true, t2) ->
  tgt_call (removedir target_path) t2 = (Exn e, t') ->
  handle_request cwd fuel (Remove p) t = (Exn e, t').
Proof.
  intros tp H1 H2 H3. unfold handle_request. rewrite bind_get. cbn [request_relative_path].
  fold tp. rewrite (bind_val _ _ _ _ _ H1). rewrite (bind_val _ _ _ _ _ H2). exact H3.
Qed.

Lemma remove_site_removefile fuel p e (t t1 t2 t' : ReplicatorTarget) :
  let target_path := join (tgt_dir_path t) p in
  tgt_call (exists_ target_path) t = (Val true, t1) ->
  tgt_call (isdir target_path) t1 = (Val false, t2) ->
  tgt_call (removefile target_path) t2 = (Exn e, t') ->
  handle_request cwd fuel (Remove p) t = (Exn e, t').
Proof.
  intros tp H1 H2 H3. unfold handle_request. rewrite bind_get. cbn [request_relative_path].
  fold tp. rewrite (bind_val _ _ _ _ _ H1). rewrite (bind_val _ _ _ _ _ H2). exact H3.
Qed.

End CallSites.

Section SyncSites.

Variable cwd : string.

Lemma sync_directory_loop fuel cp dirs files :
  sync_directory cwd (S fuel) cp dirs files =
    (let! self := get in
     let! items := tgt_call (listdir cp) in
     for_each items (sync_entry cwd fuel (tgt_dir_path self) cp dirs files)).
Proof. reflexivity. Qed.

Lemma tgt_call_keeps_root {A} (m : M FileSystem A) (t t' : ReplicatorTarget) r :
  tgt_call m t = (r, t') -> tgt_dir_path t' = tgt_dir_path t.
Proof.
  unfold tgt_call, zoom. destruct (m (tgt_fs t)). intros H; inversion H. reflexivity.
Qed.

Lemma sync_request_is_the_walk fuel dirs files p (t : ReplicatorTarget) :
  handle_request cwd fuel (Sync dirs files p) t =
    sync_directory cwd fuel (tgt_dir_path t) dirs files t.
Proof. reflexivity. Qed.

Lemma sync_site_listdir fuel cp dirs files e (t t' : ReplicatorTarget) :
  tgt_call (listdir cp) t = (Exn e, t') ->
  sync_directory cwd (S fuel) cp dirs files t = (Exn e, t').
Proof.
  intros H. rewrite sync_directory_loop, bind_get. now apply bind_exn.
Qed.

Lemma sync_entry_raises fuel cp dirs files n e (t t1 t' : ReplicatorTarget) :
  sync_reaches cwd fuel cp dirs files t n t1 ->
  sync_entry cwd fuel (tgt_dir_path t) cp dirs files n t1 = (Exn e, t') ->
  sync_directory cwd (S fuel) cp dirs files t = (Exn e, t').
Proof.
  intros (l1 & l2 & t0 & Hl & Hpre) H.
  rewrite sync_directory_loop, bind_get. rewrite (bind_val _ _ _ _ _ Hl).
  exact (for_each_stops _ _ _ _ _ _ _ _ Hpre H).
Qed.

Lemma sync_site_isdir fuel cp dirs files n rel e (t t1 t' : ReplicatorTarget) :
  let item_path := join cp n in
  sync_reaches cwd fuel cp dirs files t n t1 ->
  relpath cwd item_path (tgt_dir_path t) = Some rel ->
  tgt_call (isdir item_path) t1 = (Exn e, t') ->
  sync_directory cwd (S fuel) cp dirs files t = (Exn e, t').
Proof.
  intros ip Hreach Hrel H. apply (sync_entry_raises _ _ _ _ _ _ _ _ _ Hreach).
  unfold sync_entry, relpath_or_raise. fold ip. rewrite Hrel, bind_ret.
  now apply bind_exn.
Qed.

Lemma sync_site_removedir fuel cp dirs files n rel e (t t1 t2 t' : ReplicatorTarget) :
  let item_path := join cp n in
  sync_reaches cwd fuel cp dirs files t n t1 ->
  relpath cwd item_path (tgt_dir_path t) = Some rel ->
  tgt_call (isdir item_path) t1 = (Val true, t2) ->
  rel ∉ dirs ->
  tgt_call (removedir item_path) t2 = (Exn e, t') ->
  sync_directory cwd (S fuel) cp dirs files t = (Exn e, t').
Proof.
  intros ip Hreach Hrel H1 Hout H2. apply (sync_entry_raises _ _ _ _ _ _ _ _ _ Hreach).
  unfold sync_entry, relpath_or_raise. fold ip. rewrite Hrel, bind_ret.
  rewrite (bind_val _ _ _ _ _ H1). now rewrite bool_decide_eq_false_2.
Qed.

Lemma sync_site_removefile fuel cp dirs files n rel e (t t1 t2 t' : ReplicatorTarget) :
  let item_path := join cp n in
  sync_reaches cwd fuel cp dirs files t n t1 ->
  relpath cwd item_path (tgt_dir_path t) = Some rel ->
  tgt_call (isdir item_path) t1 = (Val false, t2) ->
  rel ∉ files ->
  tgt_call (removefile item_path) t2 = (Exn e, t') ->
  sync_directory cwd (S fuel) cp dirs files t = (Exn e, t').
Proof.
  intros ip Hreach Hrel H1 Hout H2. apply (sync_entry_raises _ _ _ _ _ _ _ _ _ Hreach).
  unfold sync_entry, relpath_or_raise. fold ip. rewrite Hrel, bind_ret.
  rewrite (bind_val _ _ _ _ _ H1). now rewrite bool_decide_eq_false_2.
Qed.

Lemma sync_site_nested fuel cp dirs files n rel e (t t1 t2 t' : ReplicatorTarget) :
  let item_path := join cp n in
  sync_reaches cwd fuel cp dirs files t n t1 ->
  relpath cwd item_path (tgt_dir_path t) = Some rel ->
  tgt_call (isdir item_path) t1 = (Val true, t2) ->
  rel ∈ dirs ->
  sync_directory cwd fuel item_path dirs files t2 = (Exn e, t') ->
  sync_directory cwd (S fuel) cp dirs files t = (Exn e, t').
Proof.
  intros ip Hreach Hrel H1 Hin H2. apply (sync_entry_raises _ _ _ _ _ _ _ _ _ Hreach).
  unfold sync_entry, relpath_or_raise. fold ip. rewrite Hrel, bind_ret.
  rewrite (bind_val _ _ _ _ _ H1). now rewrite bool_decide_eq_true_2.
Qed.

End SyncSites.

Section EventSites.

Context {R : Type}.
Variable cwd : string.
Variable rpc_handle : request -> M R unit.

Lemma replicate_directory_loop fuel cp :
  replicate_directory cwd rpc_handle (S fuel) cp =
    (let! self := get in
     let! items := src_call (listdir cp) in
     for_each items (replicate_entry cwd rpc_handle fuel (src_dir_path self) cp)).
Proof. reflexivity. Qed.

Lemma walk_site_listdir fuel cp e (s s' : ReplicatorSource R) :
  src_call (listdir cp) s = (Exn e, s') ->
  replicate_directory cwd rpc_handle (S fuel) cp s = (Exn e, s').
Proof.
  intros H. rewrite replicate_directory_loop, bind_get. now apply bind_exn.
Qed.

Lemma replicate_entry_raises fuel cp n e (s s1 s' : ReplicatorSource R) :
  walk_reaches cwd rpc_handle fuel cp s n s1 ->
  replicate_entry cwd rpc_handle fuel (src_dir_path s) cp n s1 = (Exn e, s') ->
  replicate_directory cwd rpc_handle (S fuel) cp s = (Exn e, s').
Proof.
  intros (l1 & l2 & s0 & Hl & Hpre) H.
  rewrite replicate_directory_loop, bind_get. rewrite (bind_val _ _ _ _ _ Hl).
  exact (for_each_stops _ _ _ _ _ _ _ _ Hpre H).
Qed.

Ltac enter_entry Hreach Hrel :=
  apply (replicate_entry_raises _ _ _ _ _ _ _ Hreach);
  unfold replicate_entry, relpath_or_raise; rewrite Hrel, bind_ret.

Lemma walk_site_isdir fuel cp n rel e (s s1 s' : ReplicatorSource R) :
  let item_path := join cp n in
  walk_reaches cwd rpc_handle fuel cp s n s1 ->
  relpath cwd item_path (src_dir_path s) = Some rel ->
  src_call (isdir item_path) s1 = (Exn e, s') ->
  replicate_directory cwd rpc_handle (S fuel) cp s = (Exn e, s').
Proof. intros ip Hreach Hrel H. subst ip. enter_entry Hreach Hrel. now apply bind_exn. Qed.

Lemma walk_site_readfile fuel cp n rel e (s s1 s2 s' : ReplicatorSource R) :
  let item_path := join cp n in
  walk_reaches cwd rpc_handle fuel cp s n s1 ->
  relpath cwd item_path (src_dir_path s) = Some rel ->
  src_call (isdir item_path) s1 = (Val false, s2) ->
  src_call (readfile item_path) s2 = (Exn e, s') ->
  replicate_directory cwd rpc_handle (S fuel) cp s = (Exn e, s').
Proof.
  intros ip Hreach Hrel H1 H2. subst ip. enter_entry Hreach Hrel.
  rewrite (bind_val _ _ _ _ _ H1). now apply bind_exn.
Qed.

Lemma walk_site_write fuel cp n rel c e (s s1 s2 s3 s' : ReplicatorSource R) :
  let item_path := join cp n in
  walk_reaches cwd rpc_handle fuel cp s n s1 ->
  relpath cwd item_path (src_dir_path s) = Some rel ->
  src_call (isdir item_path) s1 = (Val false, s2) ->
  src_call (readfile item_path) s2 = (Val c, s3) ->
  rpc rpc_handle (Write rel c) s3 = (Exn e, s') ->
  replicate_directory cwd rpc_handle (S fuel) cp s = (Exn e, s').
Proof.
  intros ip Hreach Hrel H1 H2 H3. subst ip. enter_entry Hreach Hrel.
  rewrite (bind_val _ _ _ _ _ H1). rewrite (bind_val _ _ _ _ _ H2). now apply bind_exn.
Qed.

Lemma walk_site_mkdir fuel cp n rel e (s s1 s2 s' : ReplicatorSource R) :
  let item_path := join cp n in
  walk_reaches cwd rpc_handle fuel cp s n s1 ->
  relpath cwd item_path (src_dir_path s) = Some rel ->
  src_call (isdir item_path) s1 = (Val true, s2) ->
  rpc rpc_handle (MkDir rel) s2 = (Exn e, s') ->
  replicate_directory cwd rpc_handle (S fuel) cp s = (Exn e, s').
Proof.
  intros ip Hreach Hrel H1 H2. subst ip. enter_entry Hreach Hrel.
  rewrite (bind_val _ _ _ _ _ H1). now apply bind_exn.
Qed.

Lemma walk_site_watchdir fuel cp n rel e (s s1 s2 s3 s' : ReplicatorSource R) :
  let item_path := join cp n in
  walk_reaches cwd rpc_handle fuel cp s n s1 ->
  relpath cwd item_path (src_dir_path s) = Some rel ->
  src_call (isdir item_path) s1 = (Val true, s2) ->
  rpc rpc_handle (MkDir rel) s2 = (Val tt, s3) ->
  src_call (watchdir item_path) (snd (watch_dirs_add rel s3)) = (Exn e, s') ->
  replicate_directory cwd rpc_handle (S fuel) cp s = (Exn e, s').
Proof.
  intros ip Hreach Hrel H1 H2 H3. subst ip. enter_entry Hreach Hrel.
  rewrite (bind_val _ _ _ _ _ H1). rewrite (bind_val _ _ _ _ _ H2).
  rewrite (bind_val _ _ s3 tt (snd (watch_dirs_add rel s3))) by reflexivity.
  now apply bind_exn.
Qed.

Lemma walk_site_nested fuel cp n rel e (s s1 s2 s3 s4 s' : ReplicatorSource R) :
  let item_path := join cp n in
  walk_reaches cwd rpc_handle fuel cp s n s1 ->
  relpath cwd item_path (src_dir_path s) = Some rel ->
  src_call (isdir item_path) s1 = (Val true, s2) ->
  rpc rpc_handle (MkDir rel) s2 = (Val tt, s3) ->
  src_call (watchdir item_path) (snd (watch_dirs_add rel s3)) = (Val tt, s4) ->
  replicate_directory cwd rpc_handle fuel item_path s4 = (Exn e, s') ->
  replicate_directory cwd rpc_handle (S fuel) cp s = (Exn e, s').
Proof.
  intros ip Hreach Hrel H1 H2 H3 H4. subst ip. enter_entry Hreach Hrel.
  rewrite (bind_val _ _ _ _ _ H1). rewrite (bind_val _ _ _ _ _ H2).
  rewrite (bind_val _ _ s3 tt (snd (watch_dirs_add rel s3))) by reflexivity.
  rewrite (bind_val _ _ _ _ _ H3). exact H4.
Qed.

(** *** [handle_event] *)

Ltac enter_event Hrel :=
  unfold handle_event; rewrite bind_get; cbv beta;
  unfold relpath_or_raise; cbn [event_type path]; rewrite Hrel, bind_ret; cbv beta iota.

Lemma added_site_isdir fuel p rel e (s s' : ReplicatorSource R) :
  relpath cwd p (src_dir_path s) = Some rel ->
  src_call (isdir p) s = (Exn e, s') ->
  handle_event cwd rpc_handle fuel (mkEvent FILE_OR_SUBDIR_ADDED p) s = (Exn e, s').
Proof. intros Hrel H. enter_event Hrel. now apply bind_exn. Qed.

Lemma added_site_readfile fuel p rel e (s s1 s' : ReplicatorSource R) :
  relpath cwd p (src_dir_path s) = Some rel ->
  src_call (isdir p) s = (Val false, s1) ->
  src_call (readfile p) s1 = (Exn e, s') ->
  handle_event cwd rpc_handle fuel (mkEvent FILE_OR_SUBDIR_ADDED p) s = (Exn e, s').
Proof.
  intros Hrel H1 H2. enter_event Hrel. rewrite (bind_val _ _ _ _ _ H1).
  apply bind_exn. now apply bind_exn.
Qed.

Lemma added_site_write fuel p rel c e (s s1 s2 s' : ReplicatorSource R) :
  relpath cwd p (src_dir_path s) = Some rel ->
  src_call (isdir p) s = (Val false, s1) ->
  src_call (readfile p) s1 = (Val c, s2) ->
  rpc rpc_handle (Write rel c) s2 = (Exn e, s') ->
  handle_event cwd rpc_handle fuel (mkEvent FILE_OR_SUBDIR_ADDED p) s = (Exn e, s').
Proof.
  intros Hrel H1 H2 H3. enter_event Hrel. rewrite (bind_val _ _ _ _ _ H1).
  rewrite (bind_val _ _ s1 (Write rel c) s2).
  - now apply bind_exn.
  - now rewrite (bind_val _ _ _ _ _ H2).
Qed.

Lemma added_site_watchdir fuel p rel e (s s1 s' : ReplicatorSource R) :
  relpath cwd p (src_dir_path s) = Some rel ->
  src_call (isdir p) s = (Val true, s1) ->
  src_call (watchdir p) (snd (watch_dirs_add rel s1)) = (Exn e, s') ->
  handle_event cwd rpc_handle fuel (mkEvent FILE_OR_SUBDIR_ADDED p) s = (Exn e, s').
Proof.
  intros Hrel H1 H2. enter_event Hrel. rewrite (bind_val _ _ _ _ _ H1).
  apply bind_exn.
  rewrite (bind_val _ _ s1 tt (snd (watch_dirs_add rel s1))) by reflexivity.
  now apply bind_exn.
Qed.

Lemma added_site_walk fuel p rel e (s s1 s2 s' : ReplicatorSource R) :
  relpath cwd p (src_dir_path s) = Some rel ->
  src_call (isdir p) s = (Val true, s1) ->
  src_call (watchdir p) (snd (watch_dirs_add rel s1)) = (Val tt, s2) ->
  replicate_directory cwd rpc_handle fuel p s2 = (Exn e, s') ->
  handle_event cwd rpc_handle fuel (mkEvent FILE_OR_SUBDIR_ADDED p) s = (Exn e, s').
Proof.
  intros Hrel H1 H2 H3. enter_event Hrel. rewrite (bind_val _ _ _ _ _ H1).
  apply bind_exn.
  rewrite (bind_val _ _ s1 tt (snd (watch_dirs_add rel s1))) by reflexivity.
  rewrite (bind_val _ _ _ _ _ H2). now apply bind_exn.
Qed.

Lemma added_site_mkdir fuel p rel e (s s1 s2 s3 s' : ReplicatorSource R) :
  relpath cwd p (src_dir_path s) = Some rel ->
  src_call (isdir p) s = (Val true, s1) ->
  src_call (watchdir p) (snd (watch_dirs_add rel s1)) = (Val tt, s2) ->
  replicate_directory cwd rpc_handle fuel p s2 = (Val tt, s3) ->
  rpc rpc_handle (MkDir rel) s3 = (Exn e, s') ->
  handle_event cwd rpc_handle fuel (mkEvent FILE_OR_SUBDIR_ADDED p) s = (Exn e, s').
Proof.
  intros Hrel H1 H2 H3 H4. enter_event Hrel. rewrite (bind_val _ _ _ _ _ H1).
  rewrite (bind_val _ _ s1 (MkDir rel) s3).
  - now apply bind_exn.
  - rewrite (bind_val _ _ s1 tt (snd (watch_dirs_add rel s1))) by reflexivity.
    rewrite (bind_val _ _ _ _ _ H2). now rewrite (bind_val _ _ _ _ _ H3).
Qed.

Lemma modified_site_readfile fuel p rel e (s s' : ReplicatorSource R) :
  relpath cwd p (src_dir_path s) = Some rel ->
  src_call (readfile p) s = (Exn e, s') ->
  handle_event cwd rpc_handle fuel (mkEvent FILE_MODIFIED p) s = (Exn e, s').
Proof. intros Hrel H. enter_event Hrel. now apply bind_exn. Qed.

Lemma modified_site_write fuel p rel c e (s s1 s' : ReplicatorSource R) :
  relpath cwd p (src_dir_path s) = Some rel ->
  src_call (readfile p) s = (Val c, s1) ->
  rpc rpc_handle (Write rel c) s1 = (Exn e, s') ->
  handle_event cwd rpc_handle fuel (mkEvent FILE_MODIFIED p) s = (Exn e, s').
Proof.
  intros Hrel H1 H2. enter_event Hrel. now rewrite (bind_val _ _ _ _ _ H1).
Qed.

End EventSites.
Section Absorbed.

Variable cwd : string.

Ltac fs_unfold :=
  unfold handle_request, bind, try_pass, tgt_call, src_call, zoom, get, ret,
    exists_, isdir, listdir, readfile, writefile, removefile, removedir, makedirs, call;
  cbn [tgt_fs tgt_dir_path request_relative_path fs_faults set_tree fs_tree].

(** The same run, with the facts about the file system kept as they are
    stated: [at_path] and the fault oracle are not unfolded. *)
Ltac fs_norm :=
  cbn [negb fst snd tgt_fs tgt_dir_path src_fs fs_faults fs_tree fs_watched fs_written
       request_relative_path].

Ltac fs_use :=
  match goal with
  | H : ?x = _ |- context [match ?x with _ => _ end] => rewrite H
  | H : ?x = _ |- context [if ?x then _ else _] => rewrite H
  end.

Ltac fs_run := fs_unfold; fs_norm; repeat (fs_use; fs_norm).

Lemma write_isdir_failure_absorbed fuel p c e n (t : ReplicatorTarget) :
  let target_path := join (tgt_dir_path t) p in
  fs_faults (tgt_fs t) OpExists (dirname target_path) = None ->
  at_path (tgt_fs t) (dirname target_path) = Some n ->
  fs_faults (tgt_fs t) OpIsdir target_path = Some e ->
  fs_faults (tgt_fs t) OpExists target_path = None ->
  at_path (tgt_fs t) target_path = Some (File c) ->
  fs_faults (tgt_fs t) OpReadfile target_path = None ->
  handle_request cwd fuel (Write p c) t = (Val tt, t).
Proof.
  intros tp H1 H2 H3 H4 H5 H6. subst tp. fs_run. rewrite String.eqb_refl. fs_run.
  now rewrite target_eta.
Qed.

Lemma mkdir_removefile_failure_absorbed fuel p e c (t : ReplicatorTarget) :
  let target_path := join (tgt_dir_path t) p in
  fs_faults (tgt_fs t) OpIsdir target_path = None ->
  at_path (tgt_fs t) target_path = Some (File c) ->
  fs_faults (tgt_fs t) OpRemovefile target_path = Some e ->
  fs_faults (tgt_fs t) OpExists target_path = None ->
  handle_request cwd fuel (MkDir p) t = (Val tt, t).
Proof.
  intros tp H1 H2 H3 H4. subst tp. fs_run. now rewrite target_eta.
Qed.

Lemma write_try_block_absorbs tp e (t1 t' : ReplicatorTarget) :
  tgt_call (isdir tp) t1 = (Exn e, t') \/
  (exists t0, tgt_call (isdir tp) t1 = (Val true, t0) /\
              tgt_call (removedir tp) t0 = (Exn e, t')) ->
  write_try_block tp t1 = (Val tt, t').
Proof.
  unfold write_try_block, try_pass. intros [H | (t0 & H0 & H1)].
  - now rewrite (bind_exn _ _ _ _ _ H).
  - rewrite (bind_val _ _ _ _ _ H0). now rewrite H1.
Qed.

Lemma mkdir_try_block_absorbs tp e (t t' : ReplicatorTarget) :
  tgt_call (isdir tp) t = (Exn e, t') \/
  (exists t0, tgt_call (isdir tp) t = (Val false, t0) /\
              tgt_call (removefile tp) t0 = (Exn e, t')) ->
  mkdir_try_block tp t = (Val tt, t').
Proof.
  unfold mkdir_try_block, try_pass. intros [H | (t0 & H0 & H1)].
  - now rewrite (bind_exn _ _ _ _ _ H).
  - rewrite (bind_val _ _ _ _ _ H0). cbn [negb]. now rewrite H1.
Qed.

Lemma write_goes_on_after_failure fuel p c e (t t1 t' : ReplicatorTarget) :
  let target_path := join (tgt_dir_path t) p in
  parent_ready (dirname target_path) t t1 ->
  tgt_call (isdir target_path) t1 = (Exn e, t') \/
  (exists t0, tgt_call (isdir target_path) t1 = (Val true, t0) /\
              tgt_call (removedir target_path) t0 = (Exn e, t')) ->
  handle_request cwd fuel (Write p c) t = write_tail target_path c t'.
Proof.
  intros tp Hready H. rewrite (write_from_try_block cwd _ _ _ _ _ Hready). fold tp.
  now rewrite (write_try_block_absorbs _ _ _ _ H).
Qed.

Lemma mkdir_goes_on_after_failure fuel p e (t t' : ReplicatorTarget) :
  let target_path := join (tgt_dir_path t) p in
  tgt_call (isdir target_path) t = (Exn e, t') \/
  (exists t0, tgt_call (isdir target_path) t = (Val false, t0) /\
              tgt_call (removefile target_path) t0 = (Exn e, t')) ->
  handle_request cwd fuel (MkDir p) t = mkdir_tail target_path t'.
Proof.
  intros tp H. rewrite mkdir_from_try_block. fold tp.
  now rewrite (mkdir_try_block_absorbs _ _ _ _ H).
Qed.

End Absorbed.

(** *** The claim on failures, handler by handler *)

(** A failure that the environment injects makes the call raise it, and
    leaves everything as it was. *)
Definition faults_raise (e : exn) : Prop :=
  (forall (t : ReplicatorTarget) (p : string),
      (fs_faults (tgt_fs t) OpExists p = Some e -> tgt_call (exists_ p) t = (Exn e, t)) /\
      (fs_faults (tgt_fs t) OpMakedirs p = Some e -> tgt_call (makedirs p) t = (Exn e, t)) /\
      (fs_faults (tgt_fs t) OpIsdir p = Some e -> tgt_call (isdir p) t = (Exn e, t)) /\
      (fs_faults (tgt_fs t) OpListdir p = Some e -> tgt_call (listdir p) t = (Exn e, t)) /\
      (fs_faults (tgt_fs t) OpReadfile p = Some e -> tgt_call (readfile p) t = (Exn e, t)) /\
      (forall c, fs_faults (tgt_fs t) OpWritefile p = Some e ->
                 tgt_call (writefile p c) t = (Exn e, t)) /\
      (fs_faults (tgt_fs t) OpRemovefile p = Some e ->
       tgt_call (removefile p) t = (Exn e, t)) /\
      (fs_faults (tgt_fs t) OpRemovedir p = Some e ->
       tgt_call (removedir p) t = (Exn e, t))) /\
  (forall (R : Type) (s : ReplicatorSource R) (p : string),
      (fs_faults (src_fs s) OpIsdir p = Some e -> src_call (isdir p) s = (Exn e, s)) /\
      (fs_faults (src_fs s) OpListdir p = Some e -> src_call (listdir p) s = (Exn e, s)) /\
      (fs_faults (src_fs s) OpReadfile p = Some e -> src_call (readfile p) s = (Exn e, s)) /\
      (fs_faults (src_fs s) OpWatchdir p = Some e -> src_call (watchdir p) s = (Exn e, s)) /\
      (fs_faults (src_fs s) OpUnwatchdir p = Some e ->
       src_call (unwatchdir p) s = (Exn e, s))).

(** [handle_event]: the calls of the branches for an added and for a
    modified path.  Each line reads: the calls before it returned, this one
    raises [e], so the handler raises [e], in the state the call left. *)
Definition event_failures_propagate {R : Type} (cwd : string)
    (rpc_handle : request -> M R unit) (fuel : nat) (e : exn) : Prop :=
  forall (s s' : ReplicatorSource R) (p : string),
    let added := handle_event cwd rpc_handle fuel (mkEvent FILE_OR_SUBDIR_ADDED p) s in
    let modified := handle_event cwd rpc_handle fuel (mkEvent FILE_MODIFIED p) s in
    (p <> "" ->
     (fs_faults (src_fs s) OpReadfile p = Some e -> modified = (Exn e, s)) /\
     (fs_faults (src_fs s) OpIsdir p = Some e -> added = (Exn e, s))) /\
    (forall rel, relpath cwd p (src_dir_path s) = Some rel ->
       (src_call (isdir p) s = (Exn e, s') -> added = (Exn e, s')) /\
       (forall s1, src_call (isdir p) s = (Val false, s1) ->
          (src_call (readfile p) s1 = (Exn e, s') -> added = (Exn e, s')) /\
          (forall c s2, src_call (readfile p) s1 = (Val c, s2) ->
                        rpc rpc_handle (Write rel c) s2 = (Exn e, s') ->
                        added = (Exn e, s'))) /\
       (forall s1, src_call (isdir p) s = (Val true, s1) ->
          let s2 := snd (watch_dirs_add rel s1) in
          (src_call (watchdir p) s2 = (Exn e, s') -> added = (Exn e, s')) /\
          (forall s3, src_call (watchdir p) s2 = (Val tt, s3) ->
             (replicate_directory cwd rpc_handle fuel p s3 = (Exn e, s') ->
              added = (Exn e, s')) /\
             (forall s4, replicate_directory cwd rpc_handle fuel p s3 = (Val tt, s4) ->
                         rpc rpc_handle (MkDir rel) s4 = (Exn e, s') ->
                         added = (Exn e, s')))) /\
       (src_call (readfile p) s = (Exn e, s') -> modified = (Exn e, s')) /\
       (forall c s1, src_call (readfile p) s = (Val c, s1) ->
                     rpc rpc_handle (Write rel c) s1 = (Exn e, s') ->
                     modified = (Exn e, s'))).

(** [_replicate_directory], at any directory [current_path] and any entry
    [n] of its listing. *)
Definition walk_failures_propagate {R : Type} (cwd : string)
    (rpc_handle : request -> M R unit) (fuel : nat) (e : exn) : Prop :=
  forall (s s' : ReplicatorSource R) (current_path : string),
    let walk := replicate_directory cwd rpc_handle (S fuel) current_path s in
    (src_call (listdir current_path) s = (Exn e, s') -> walk = (Exn e, s')) /\
    (forall n s1 rel,
       let item_path := join current_path n in
       walk_reaches cwd rpc_handle fuel current_path s n s1 ->
       relpath cwd item_path (src_dir_path s) = Some rel ->
       (src_call (isdir item_path) s1 = (Exn e, s') -> walk = (Exn e, s')) /\
       (forall s2, src_call (isdir item_path) s1 = (Val false, s2) ->
          (src_call (readfile item_path) s2 = (Exn e, s') -> walk = (Exn e, s')) /\
          (forall c s3, src_call (readfile item_path) s2 = (Val c, s3) ->
                        rpc rpc_handle (Write rel c) s3 = (Exn e, s') ->
                        walk = (Exn e, s'))) /\
       (forall s2, src_call (isdir item_path) s1 = (Val true, s2) ->
          (rpc rpc_handle (MkDir rel) s2 = (Exn e, s') -> walk = (Exn e, s')) /\
          (forall s3, rpc rpc_handle (MkDir rel) s2 = (Val tt, s3) ->
             let s4 := snd (watch_dirs_add rel s3) in
             (src_call (watchdir item_path) s4 = (Exn e, s') -> walk = (Exn e, s')) /\
             (forall s5, src_call (watchdir item_path) s4 = (Val tt, s5) ->
                replicate_directory cwd rpc_handle fuel item_path s5 = (Exn e, s') ->
                walk = (Exn e, s'))))).

(** [handle_request], [Write]: the calls outside the [try] block. *)
Definition write_failures_propagate (cwd : string) (fuel : nat) (e : exn) : Prop :=
  forall (t t' : ReplicatorTarget) (p c : string),
    let target_path := join (tgt_dir_path t) p in
    let target_dir := dirname target_path in
    let write := handle_request cwd fuel (Write p c) t in
    (fs_faults (tgt_fs t) OpExists target_dir = Some e -> write = (Exn e, t)) /\
    (tgt_call (exists_ target_dir) t = (Exn e, t') -> write = (Exn e, t')) /\
    (forall t1, tgt_call (exists_ target_dir) t = (Val false, t1) ->
                tgt_call (makedirs target_dir) t1 = (Exn e, t') ->
                write = (Exn e, t')) /\
    (forall t1, parent_ready target_dir t t1 ->
       let t2 := snd (write_try_block target_path t1) in
       (tgt_call (exists_ target_path) t2 = (Exn e, t') -> write = (Exn e, t')) /\
       (forall t3, tgt_call (exists_ target_path) t2 = (Val true, t3) ->
          (tgt_call (readfile target_path) t3 = (Exn e, t') -> write = (Exn e, t')) /\
          (forall old t4, tgt_call (readfile target_path) t3 = (Val old, t4) ->
                          old <> c ->
                          tgt_call (writefile target_path c) t4 = (Exn e, t') ->
                          write = (Exn e, t'))) /\
       (forall t3, tgt_call (exists_ target_path) t2 = (Val false, t3) ->
                   tgt_call (writefile target_path c) t3 = (Exn e, t') ->
                   write = (Exn e, t'))).

(** [handle_request], [MkDir]: the calls after the [try] block. *)
Definition mkdir_failures_propagate (cwd : string) (fuel : nat) (e : exn) : Prop :=
  forall (t t' : ReplicatorTarget) (p : string),
    let target_path := join (tgt_dir_path t) p in
    let mkdir := handle_request cwd fuel (MkDir p) t in
    let t1 := snd (mkdir_try_block target_path t) in
    (fs_faults (tgt_fs t) OpExists target_path = Some e -> fst mkdir = Exn e) /\
    (tgt_call (exists_ target_path) t1 = (Exn e, t') -> mkdir = (Exn e, t')) /\
    (forall t2, tgt_call (exists_ target_path) t1 = (Val false, t2) ->
                tgt_call (makedirs target_path) t2 = (Exn e, t') ->
                mkdir = (Exn e, t')).

(** [handle_request], [Remove]. *)
Definition remove_failures_propagate (cwd : string) (fuel : nat) (e : exn) : Prop :=
  forall (t t' : ReplicatorTarget) (p : string),
    let target_path := join (tgt_dir_path t) p in
    let remove := handle_request cwd fuel (Remove p) t in
    (fs_faults (tgt_fs t) OpExists target_path = Some e -> remove = (Exn e, t)) /\
    (tgt_call (exists_ target_path) t = (Exn e, t') -> remove = (Exn e, t')) /\
    (forall t1, tgt_call (exists_ target_path) t = (Val true, t1) ->
       (tgt_call (isdir target_path) t1 = (Exn e, t') -> remove = (Exn e, t')) /\
       (forall t2, tgt_call (isdir target_path) t1 = (Val true, t2) ->
                   tgt_call (removedir target_path) t2 = (Exn e, t') ->
                   remove = (Exn e, t')) /\
       (forall t2, tgt_call (isdir target_path) t1 = (Val false, t2) ->
                   tgt_call (removefile target_path) t2 = (Exn e, t') ->
                   remove = (Exn e, t'))).

(** [handle_request], [Sync]: the request runs [_sync_directory] at the
    root, and a failure in [_sync_directory] leaves it at any directory
    [current_path] and any entry [n] of its listing, a failure of the call
    on a subdirectory included. *)
Definition sync_failures_propagate (cwd : string) (fuel : nat) (e : exn) : Prop :=
  forall (t t' : ReplicatorTarget) (dirs files : gset string),
    (forall p, handle_request cwd (S fuel) (Sync dirs files p) t =
               sync_directory cwd (S fuel) (tgt_dir_path t) dirs files t) /\
    (forall p, fs_faults (tgt_fs t) OpListdir (tgt_dir_path t) = Some e ->
               handle_request cwd (S fuel) (Sync dirs files p) t = (Exn e, t)) /\
    (forall current_path,
       let sync := sync_directory cwd (S fuel) current_path dirs files t in
       (tgt_call (listdir current_path) t = (Exn e, t') -> sync = (Exn e, t')) /\
       (forall n t1 rel,
          let item_path := join current_path n in
          sync_reaches cwd fuel current_path dirs files t n t1 ->
          relpath cwd item_path (tgt_dir_path t) = Some rel ->
          (tgt_call (isdir item_path) t1 = (Exn e, t') -> sync = (Exn e, t')) /\
          (forall t2, tgt_call (isdir item_path) t1 = (Val true, t2) ->
             (rel ∉ dirs -> tgt_call (removedir item_path) t2 = (Exn e, t') ->
              sync = (Exn e, t')) /\
             (rel ∈ dirs ->
              sync_directory cwd fuel item_path dirs files t2 = (Exn e, t') ->
              sync = (Exn e, t'))) /\
          (forall t2, tgt_call (isdir item_path) t1 = (Val false, t2) ->
                      rel ∉ files ->
                      tgt_call (removefile item_path) t2 = (Exn e, t') ->
                      sync = (Exn e, t')))).

(** The three [try] blocks.  The removal branch of [handle_event] ends as
    its [rpc_handle] call ends, whatever [unwatchdir] did.  [Write] and
    [MkDir] go on with the statements after the block, from the state in
    which the failure was raised; so they return normally when nothing is
    left to do. *)
Definition try_blocks_absorb (cwd : string) (fuel : nat) (e : exn) : Prop :=
  (forall (R : Type) (rpc_handle : request -> M R unit) (s : ReplicatorSource R)
          (p rel : string),
      relpath cwd p (src_dir_path s) = Some rel ->
      fst (handle_event cwd rpc_handle fuel (mkEvent FILE_OR_SUBDIR_REMOVED p) s) =
        fst (rpc_handle (Remove rel) (src_peer s))) /\
  (forall (t t' : ReplicatorTarget) (p : string),
      let target_path := join (tgt_dir_path t) p in
      (forall c t1,
          parent_ready (dirname target_path) t t1 ->
          tgt_call (isdir target_path) t1 = (Exn e, t') \/
          (exists t0, tgt_call (isdir target_path) t1 = (Val true, t0) /\
                      tgt_call (removedir target_path) t0 = (Exn e, t')) ->
          handle_request cwd fuel (Write p c) t = write_tail target_path c t') /\
      (tgt_call (isdir target_path) t = (Exn e, t') \/
       (exists t0, tgt_call (isdir target_path) t = (Val false, t0) /\
                   tgt_call (removefile target_path) t0 = (Exn e, t')) ->
       handle_request cwd fuel (MkDir p) t = mkdir_tail target_path t') /\
      (forall c n, fs_faults (tgt_fs t) OpExists (dirname target_path) = None ->
                   at_path (tgt_fs t) (dirname target_path) = Some n ->
                   fs_faults (tgt_fs t) OpIsdir target_path = Some e ->
                   fs_faults (tgt_fs t) OpExists target_path = None ->
                   at_path (tgt_fs t) target_path = Some (File c) ->
                   fs_faults (tgt_fs t) OpReadfile target_path = None ->
                   handle_request cwd fuel (Write p c) t = (Val tt, t)) /\
      (forall n, fs_faults (tgt_fs t) OpIsdir target_path = Some e ->
                 fs_faults (tgt_fs t) OpExists target_path = None ->
                 at_path (tgt_fs t) target_path = Some n ->
                 handle_request cwd fuel (MkDir p) t = (Val tt, t)) /\
      (forall c, fs_faults (tgt_fs t) OpIsdir target_path = None ->
                 at_path (tgt_fs t) target_path = Some (File c) ->
                 fs_faults (tgt_fs t) OpRemovefile target_path = Some e ->
                 fs_faults (tgt_fs t) OpExists target_path = None ->
                 handle_request cwd fuel (MkDir p) t = (Val tt, t))).

Lemma src_call_fault_raises {R A} op p (body : M FileSystem A) (s : ReplicatorSource R) e :
  fs_faults (src_fs s) op p = Some e -> src_call (call op p body) s = (Exn e, s).
Proof.
  intros H. unfold src_call, zoom. rewrite (call_fault_raises _ _ _ _ _ H).
  now destruct s.
Qed.

Lemma faults_raise_holds e : faults_raise e.
Proof.
  split.
  - intros t p. repeat split; intros; now apply tgt_call_fault_raises.
  - intros R s p. repeat split; intros; now apply src_call_fault_raises.
Qed.

(** ** Well-formedness and height under the actions *)

Section EntriesShape.

Lemma in_assoc_set e n v es :
  In e (assoc_set n v es) -> e = (n, v) \/ In e es.
Proof.
  induction es as [| [m c] es IH]; cbn [assoc_set].
  - intros [<- | []]. now left.
  - destruct (String.eqb_spec n m) as [-> | Hne].
    + intros [<- | H]; [now left | right; now right].
    + intros [<- | H]; [right; now left |]. destruct (IH H); [now left | right; now right].
Qed.

Lemma in_assoc_del e n es : In e (assoc_del n es) -> In e es /\ fst e <> n.
Proof.
  induction es as [| [m c] es IH]; cbn [assoc_del]; [contradiction |].
  destruct (String.eqb_spec n m) as [-> | Hne].
  - intros H. destruct (IH H). split; [now right | assumption].
  - intros [<- | H]; [split; [now left | cbn; congruence] |].
    destruct (IH H). split; [now right | assumption].
Qed.

Lemma names_assoc_set n v es :
  map fst (assoc_set n v es) =
    match assoc n es with Some _ => map fst es | None => map fst es ++ [n] end.
Proof.
  induction es as [| [m c] es IH]; cbn [assoc_set assoc map fst app]; [reflexivity |].
  destruct (String.eqb_spec n m) as [-> | Hne]; [reflexivity |].
  cbn [map fst]. rewrite IH. now destruct (assoc n es).
Qed.

Lemma distinct_snoc l n : distinct l = true -> ~ In n l -> distinct (l ++ [n]) = true.
Proof.
  induction l as [| a l IH]; intros Hd Hn; [reflexivity |].
  apply distinct_cons in Hd as [Ha Hd]. cbn [app]. apply distinct_cons. split.
  - rewrite in_app_iff. intros [H | [<- | []]]; [contradiction |]. apply Hn. now left.
  - apply IH; [assumption |]. intros H. apply Hn. now right.
Qed.

Lemma names_assoc_del_incl n es m : In m (map fst (assoc_del n es)) -> In m (map fst es).
Proof.
  intros H. apply in_map_iff in H as (e & <- & He). apply in_assoc_del in He as [He _].
  now apply in_map.
Qed.

Lemma distinct_assoc_del n es :
  distinct (map fst es) = true -> distinct (map fst (assoc_del n es)) = true.
Proof.
  induction es as [| [m c] es IH]; intros Hd; [reflexivity |].
  cbn [map fst] in Hd. apply distinct_cons in Hd as [Hm Hd]. cbn [assoc_del].
  destruct (String.eqb n m); [now apply IH |].
  cbn [map fst]. apply distinct_cons. split; [| now apply IH].
  intros H. apply Hm. now apply names_assoc_del_incl in H.
Qed.

Lemma wf_dir_intro es :
  valid_names (map fst es) = true -> distinct (map fst es) = true ->
  (forall e, In e es -> wf (snd e) = true) -> wf (Dir es) = true.
Proof.
  intros H1 H2 H3. cbn [wf]. rewrite H1, H2. cbn [andb]. now apply forallb_forall.
Qed.

Lemma valid_names_forall l : valid_names l = true <-> forall n, In n l -> valid_name n = true.
Proof. unfold valid_names. apply forallb_forall. Qed.

Lemma wf_assoc_set n v es :
  wf (Dir es) = true -> valid_name n = true -> wf v = true ->
  wf (Dir (assoc_set n v es)) = true.
Proof.
  intros Hwf Hn Hv. destruct (wf_dir_inv _ Hwf) as (Hnames & Hdist & Hsub).
  apply wf_dir_intro.
  - rewrite names_assoc_set. destruct (assoc n es); [assumption |].
    apply valid_names_app. split; [assumption |]. now apply valid_names_cons.
  - rewrite names_assoc_set. destruct (assoc n es) eqn:E; [assumption |].
    apply distinct_snoc; [assumption |]. now apply assoc_None.
  - intros e He. apply in_assoc_set in He as [-> | He]; [exact Hv | now apply Hsub].
Qed.

Lemma wf_assoc_del n es : wf (Dir es) = true -> wf (Dir (assoc_del n es)) = true.
Proof.
  intros Hwf. destruct (wf_dir_inv _ Hwf) as (Hnames & Hdist & Hsub).
  apply wf_dir_intro.
  - apply valid_names_forall. intros m Hm. apply names_assoc_del_incl in Hm.
    now apply (valid_names_In _ _ Hnames).
  - now apply distinct_assoc_del.
  - intros e He. apply in_assoc_del in He as [He _]. now apply Hsub.
Qed.

Lemma wf_write_entry n content es :
  wf (Dir es) = true -> valid_name n = true -> wf (Dir (write_entry n content es)) = true.
Proof.
  intros Hwf Hn. unfold write_entry.
  destruct (assoc n es) as [[] |]; apply wf_assoc_set; try assumption; try reflexivity.
  now apply wf_assoc_del.
Qed.

Lemma wf_mkdir_entry n es :
  wf (Dir es) = true -> valid_name n = true -> wf (Dir (mkdir_entry n es)) = true.
Proof.
  intros Hwf Hn. unfold mkdir_entry.
  destruct (assoc n es) as [[] |]; try assumption;
    apply wf_assoc_set; try assumption; try reflexivity.
  now apply wf_assoc_del.
Qed.

Lemma wf_entries_of n es : wf (Dir es) = true -> wf (Dir (entries_of (assoc n es))) = true.
Proof.
  intros Hwf. destruct (wf_dir_inv _ Hwf) as (_ & _ & Hsub).
  destruct (assoc n es) as [[c | sub] |] eqn:E; try reflexivity.
  apply (Hsub (n, Dir sub)). now apply assoc_In.
Qed.

(** The overlay of a well-formed directory on a well-formed directory is
    well-formed. *)
Lemma wf_overlay src : forall tes,
  wf src = true -> wf (Dir tes) = true -> wf (Dir (overlay src tes)) = true.
Proof.
  induction src as [c | ses IH] using node_ind; intros tes Hs Ht; [exact Ht |].
  destruct (wf_dir_inv _ Hs) as (Hnames & _ & Hsub). clear Hs.
  revert tes Ht. induction ses as [| [n c] ses IHses]; intros tes Ht; [exact Ht |].
  apply valid_names_cons in Hnames as [Hn Hnames].
  inversion IH as [| ? ? IHc IHrest]; subst.
  rewrite overlay_cons. apply IHses; try assumption.
  - intros e He. apply Hsub. now right.
  - destruct c as [content | sub].
    + now apply wf_write_entry.
    + apply wf_assoc_set; [now apply wf_mkdir_entry | assumption |].
      apply IHc; [apply (Hsub (n, Dir sub)); now left |].
      apply wf_entries_of. now apply wf_mkdir_entry.
Qed.

End EntriesShape.

Section EntriesHeight.

Lemma height_dir_le es k :
  height (Dir es) <= S k <-> forall e, In e es -> height (snd e) <= k.
Proof.
  cbn [height]. rewrite <- Nat.succ_le_mono, list_max_le, List.Forall_forall. split.
  - intros H e He. apply H. now apply (in_map (fun e => height (snd e))).
  - intros H x Hx. apply in_map_iff in Hx as (e & <- & He). now apply H.
Qed.

Lemma height_dir_pos es : 1 <= height (Dir es).
Proof. cbn [height]. lia. Qed.

Lemma height_assoc_set n v es k :
  height v <= k -> height (Dir es) <= S k -> height (Dir (assoc_set n v es)) <= S k.
Proof.
  intros Hv Hes. apply height_dir_le. intros e He.
  apply in_assoc_set in He as [-> | He]; [exact Hv |].
  now apply (proj1 (height_dir_le es k) Hes).
Qed.

Lemma height_assoc_del n es k :
  height (Dir es) <= S k -> height (Dir (assoc_del n es)) <= S k.
Proof.
  intros Hes. apply height_dir_le. intros e He. apply in_assoc_del in He as [He _].
  now apply (proj1 (height_dir_le es k) Hes).
Qed.

Lemma height_write_entry n content es k :
  height (Dir es) <= S k -> height (Dir (write_entry n content es)) <= S k.
Proof.
  intros Hes. unfold write_entry.
  destruct (assoc n es) as [[] |]; apply height_assoc_set; cbn [height]; try lia;
    try assumption.
  now apply height_assoc_del.
Qed.

Lemma height_mkdir_entry n es k :
  1 <= k -> height (Dir es) <= S k -> height (Dir (mkdir_entry n es)) <= S k.
Proof.
  intros Hk Hes. unfold mkdir_entry.
  destruct (assoc n es) as [[] |]; try assumption;
    apply height_assoc_set; try exact Hk; try assumption.
  now apply height_assoc_del.
Qed.

Lemma height_entries_of n es k :
  1 <= k -> height (Dir es) <= S k -> height (Dir (entries_of (assoc n es))) <= k.
Proof.
  intros Hk Hes. destruct (assoc n es) as [[content | sub] |] eqn:E; cbn [entries_of].
  - exact Hk.
  - apply (proj1 (height_dir_le es k) Hes (n, Dir sub)). now apply assoc_In.
  - exact Hk.
Qed.

(** The overlay is no deeper than the deeper of the two trees. *)
Lemma height_overlay src : forall tes k,
  height src <= k -> height (Dir tes) <= k -> height (Dir (overlay src tes)) <= k.
Proof.
  induction src as [c | ses IH] using node_ind; intros tes k Hs Ht; [exact Ht |].
  destruct k as [| k]; [pose proof (height_dir_pos tes); lia |].
  pose proof (proj1 (height_dir_le ses k) Hs) as Hsub. clear Hs.
  revert tes Ht. induction ses as [| [n c] ses IHses]; intros tes Ht; [exact Ht |].
  inversion IH as [| ? ? IHc IHrest]; subst.
  rewrite overlay_cons. apply IHses; try assumption.
  - intros e He. apply Hsub. now right.
  - destruct c as [content | sub].
    + now apply height_write_entry.
    + assert (Hc : height (Dir sub) <= k) by (apply (Hsub (n, Dir sub)); now left).
      assert (Hk : 1 <= k) by (pose proof (height_dir_pos sub); lia).
      apply height_assoc_set; [| now apply height_mkdir_entry].
      apply IHc; [exact Hc |]. apply height_entries_of; [assumption |].
      now apply height_mkdir_entry.
Qed.

End EntriesHeight.

(** ** The paths of a tree and what stands at them *)

Section PathsAndLookups.

Lemma lookup_nonempty_file q content : q <> [] -> lookup q (File content) = None.
Proof. now destruct q. Qed.

Lemma lookup_in_dir_paths q : forall t rel es,
  q <> [] -> lookup q t = Some (Dir es) -> In (rel ++ q) (dir_paths rel t).
Proof.
  induction q as [| n q IH]; intros t rel es Hne H; [contradiction |].
  apply lookup_cons_inv in H as (es0 & c & -> & Hn & Hq).
  cbn [dir_paths]. apply in_flat_map. exists (n, c). split; [now apply assoc_In |].
  cbn [fst snd]. destruct q as [| m q].
  - injection Hq as ->. now left.
  - destruct c as [content | sub]; [discriminate |]. right.
    replace (rel ++ n :: m :: q) with ((rel ++ [n]) ++ m :: q) by now rewrite <- app_assoc.
    now apply IH with es.
Qed.

Lemma lookup_in_file_paths q : forall t rel content,
  q <> [] -> lookup q t = Some (File content) -> In (rel ++ q) (file_paths rel t).
Proof.
  induction q as [| n q IH]; intros t rel content Hne H; [contradiction |].
  apply lookup_cons_inv in H as (es0 & c & -> & Hn & Hq).
  cbn [file_paths]. apply in_flat_map. exists (n, c). split; [now apply assoc_In |].
  cbn [fst snd]. destruct q as [| m q].
  - injection Hq as ->. now left.
  - destruct c as [content' | sub]; [discriminate |].
    replace (rel ++ n :: m :: q) with ((rel ++ [n]) ++ m :: q) by now rewrite <- app_assoc.
    now apply IH with content.
Qed.

Lemma dir_paths_lookup t : forall rel q,
  wf t = true -> In q (dir_paths rel t) ->
  exists q', q = rel ++ q' /\ q' <> [] /\ valid_names q' = true /\
             exists es, lookup q' t = Some (Dir es).
Proof.
  induction t as [c | es0 IH] using node_ind; intros rel q Hwf Hin; [contradiction |].
  destruct (wf_dir_inv _ Hwf) as (Hnames & Hdist & Hsub).
  cbn [dir_paths] in Hin. apply in_flat_map in Hin as ([n c] & He & Hq).
  cbn [fst snd] in Hq. rewrite List.Forall_forall in IH.
  assert (Hn : valid_name n = true).
  { apply (valid_names_In _ _ Hnames). now apply (in_map fst _ (n, c)). }
  destruct c as [content | sub]; [contradiction |].
  destruct Hq as [<- | Hq].
  - exists [n]. split; [reflexivity | split; [discriminate | split]].
    + now apply valid_names_cons.
    + exists sub. cbn [lookup]. now rewrite (assoc_distinct _ _ _ Hdist He).
  - destruct (IH (n, Dir sub) He _ _ (Hsub _ He) Hq) as (q'' & -> & Hne & Hv & es & Hl).
    exists (n :: q''). split; [now rewrite <- app_assoc | split; [discriminate | split]].
    + now apply valid_names_cons.
    + exists es. cbn [lookup]. now rewrite (assoc_distinct _ _ _ Hdist He).
Qed.

Lemma file_paths_lookup t : forall rel q,
  wf t = true -> In q (file_paths rel t) ->
  exists q', q = rel ++ q' /\ q' <> [] /\ valid_names q' = true /\
             exists content, lookup q' t = Some (File content).
Proof.
  induction t as [c | es0 IH] using node_ind; intros rel q Hwf Hin; [contradiction |].
  destruct (wf_dir_inv _ Hwf) as (Hnames & Hdist & Hsub).
  cbn [file_paths] in Hin. apply in_flat_map in Hin as ([n c] & He & Hq).
  cbn [fst snd] in Hq. rewrite List.Forall_forall in IH.
  assert (Hn : valid_name n = true).
  { apply (valid_names_In _ _ Hnames). now apply (in_map fst _ (n, c)). }
  destruct c as [content | sub].
  - destruct Hq as [<- | []].
    exists [n]. split; [reflexivity | split; [discriminate | split]].
    + now apply valid_names_cons.
    + exists content. cbn [lookup]. now rewrite (assoc_distinct _ _ _ Hdist He).
  - destruct (IH (n, Dir sub) He _ _ (Hsub _ He) Hq) as (q'' & -> & Hne & Hv & content & Hl).
    exists (n :: q''). split; [now rewrite <- app_assoc | split; [discriminate | split]].
    + now apply valid_names_cons.
    + exists content. cbn [lookup]. now rewrite (assoc_distinct _ _ _ Hdist He).
Qed.

Variables (dirs files : gset string).

(** Whatever [prune] keeps was there and is advertised. *)
Lemma dir_paths_prune t : forall rel q,
  In q (dir_paths rel (prune dirs files rel t)) ->
  rel_path q ∈ dirs /\ In q (dir_paths rel t).
Proof.
  induction t as [c | es IH] using node_ind; intros rel q Hin; [contradiction |].
  change (prune dirs files rel (Dir es)) with (Dir (prune_entries dirs files rel es)) in Hin.
  induction es as [| [n c] es IHes]; [contradiction |].
  inversion IH as [| ? ? IHc IHrest]; subst.
  rewrite prune_entries_cons in Hin. rewrite dir_paths_cons.
  assert (Rest : In q (dir_paths rel (Dir (prune_entries dirs files rel es))) ->
                 rel_path q ∈ dirs /\
                 In q ((match c with
                        | Dir _ => (rel ++ [n]) :: dir_paths (rel ++ [n]) c
                        | File _ => []
                        end) ++ dir_paths rel (Dir es))).
  { intros H. destruct (IHes IHrest H) as [Hd Hi]. split; [assumption |].
    apply in_or_app. now right. }
  destruct c as [content | sub].
  - destruct (bool_decide (rel_path (rel ++ [n]) ∈ files)); [| now apply Rest].
    rewrite dir_paths_cons in Hin. now apply Rest.
  - destruct (bool_decide (rel_path (rel ++ [n]) ∈ dirs)) eqn:Eb; [| now apply Rest].
    rewrite dir_paths_cons in Hin. apply in_app_or in Hin as [Hin | Hin]; [| now apply Rest].
    destruct Hin as [<- | Hin].
    + split; [now apply bool_decide_eq_true in Eb | now left].
    + destruct (IHc (rel ++ [n]) q Hin) as [Hd Hi]. split; [assumption |].
      apply in_or_app. left. now right.
Qed.

Lemma file_paths_prune t : forall rel q,
  In q (file_paths rel (prune dirs files rel t)) ->
  rel_path q ∈ files /\ In q (file_paths rel t).
Proof.
  induction t as [c | es IH] using node_ind; intros rel q Hin; [contradiction |].
  change (prune dirs files rel (Dir es)) with (Dir (prune_entries dirs files rel es)) in Hin.
  induction es as [| [n c] es IHes]; [contradiction |].
  inversion IH as [| ? ? IHc IHrest]; subst.
  rewrite prune_entries_cons in Hin. rewrite file_paths_cons.
  assert (Rest : In q (file_paths rel (Dir (prune_entries dirs files rel es))) ->
                 rel_path q ∈ files /\
                 In q ((match c with
                        | Dir _ => file_paths (rel ++ [n]) c
                        | File _ => [rel ++ [n]]
                        end) ++ file_paths rel (Dir es))).
  { intros H. destruct (IHes IHrest H) as [Hd Hi]. split; [assumption |].
    apply in_or_app. now right. }
  destruct c as [content | sub].
  - destruct (bool_decide (rel_path (rel ++ [n]) ∈ files)) eqn:Eb; [| now apply Rest].
    rewrite file_paths_cons in Hin. apply in_app_or in Hin as [Hin | Hin]; [| now apply Rest].
    destruct Hin as [<- | []].
    split; [now apply bool_decide_eq_true in Eb | now left].
  - destruct (bool_decide (rel_path (rel ++ [n]) ∈ dirs)) eqn:Eb; [| now apply Rest].
    rewrite file_paths_cons in Hin. apply in_app_or in Hin as [Hin | Hin]; [| now apply Rest].
    destruct (IHc (rel ++ [n]) q Hin) as [Hd Hi]. split; [assumption |].
    apply in_or_app. now left.
Qed.

End PathsAndLookups.

(** ** What stands in the overlay *)

Section OverlayLookup.

Lemma write_entry_other n m content es : n <> m -> assoc m (write_entry n content es) = assoc m es.
Proof.
  intros Hne. unfold write_entry.
  destruct (assoc n es) as [[] |]; rewrite assoc_set_other by assumption;
    try reflexivity. now apply assoc_del_other.
Qed.

Lemma mkdir_entry_other n m es : n <> m -> assoc m (mkdir_entry n es) = assoc m es.
Proof.
  intros Hne. unfold mkdir_entry.
  destruct (assoc n es) as [[] |]; try reflexivity; rewrite assoc_set_other by assumption;
    try reflexivity. now apply assoc_del_other.
Qed.

(** The overlay leaves alone the entries that the source does not have. *)
Lemma overlay_other n ses : forall tes,
  ~ In n (map fst ses) -> assoc n (overlay (Dir ses) tes) = assoc n tes.
Proof.
  induction ses as [| [m c] ses IH]; intros tes Hn; [reflexivity |].
  cbn [map fst In] in Hn. rewrite overlay_cons, IH by tauto.
  assert (Hne : m <> n) by tauto.
  destruct c as [content | sub].
  - now apply write_entry_other.
  - rewrite assoc_set_other by assumption. now apply mkdir_entry_other.
Qed.

(** An entry of the source stands in the overlay: a file as it is, a
    directory overlaid in turn. *)
Lemma overlay_assoc n c ses : forall tes,
  distinct (map fst ses) = true -> assoc n ses = Some c ->
  exists c', assoc n (overlay (Dir ses) tes) = Some c' /\
             match c with
             | File content => c' = File content
             | Dir _ => exists sub, c' = Dir (overlay c sub)
             end.
Proof.
  induction ses as [| [m d] ses IH]; intros tes Hd Hn; [discriminate |].
  cbn [map fst] in Hd. apply distinct_cons in Hd as [Hm Hd].
  rewrite overlay_cons. cbn [assoc] in Hn.
  destruct (String.eqb_spec n m) as [-> | Hne].
  - injection Hn as ->. rewrite (overlay_other _ _ _ Hm).
    destruct c as [content | sub].
    + exists (File content). split; [apply write_entry_written | reflexivity].
    + eexists. split; [apply assoc_set_same |]. now eexists.
  - now apply IH.
Qed.

Lemma overlay_lookup q : forall src tes c,
  wf src = true -> q <> [] -> lookup q src = Some c ->
  exists c', lookup q (Dir (overlay src tes)) = Some c' /\
             match c with
             | File content => c' = File content
             | Dir _ => is_dir c' = true
             end.
Proof.
  induction q as [| n q IH]; intros src tes c Hwf Hne H; [contradiction |].
  apply lookup_cons_inv in H as (ses & c0 & -> & Hn & Hq).
  destruct (wf_dir_inv _ Hwf) as (_ & Hdist & Hsub).
  destruct (overlay_assoc n c0 ses tes Hdist Hn) as (c0' & Hov & Hkind).
  cbn [lookup]. rewrite Hov. destruct q as [| m q].
  - injection Hq as ->. exists c0'. split; [reflexivity |].
    destruct c as [content | sub]; [assumption |]. now destruct Hkind as [sub' ->].
  - destruct c0 as [content | sub]; [discriminate |].
    destruct Hkind as [sub' ->].
    apply IH; [| discriminate | assumption].
    apply (Hsub (n, Dir sub)). now apply assoc_In.
Qed.

End OverlayLookup.

(** ** Overlay, then prune: the source tree *)

Section MirrorPaths.

Variables (ses tes : entries) (dirs files : gset string).
Hypothesis Hses : wf (Dir ses) = true.
Hypothesis Htes : wf (Dir tes) = true.
(** The advertised sets are the paths of the source, as far as relative
    paths go. *)
Hypothesis Hdirs : forall q, valid_names q = true -> q <> [] ->
  (rel_path q ∈ dirs <-> In q (dir_paths [] (Dir ses))).
Hypothesis Hfiles : forall q, valid_names q = true -> q <> [] ->
  (rel_path q ∈ files <-> In q (file_paths [] (Dir ses))).

Lemma wf_ov : wf (Dir (overlay (Dir ses) tes)) = true.
Proof. now apply wf_overlay. Qed.

Lemma covered_by_source q c :
  valid_names q = true -> q <> [] -> lookup q (Dir ses) = Some c ->
  covered dirs files [] q (Dir (overlay (Dir ses) tes)) = true.
Proof.
  intros Hv Hne Hl. apply covered_spec. intros q1 q2 E Hne1. subst q.
  apply valid_names_app in Hv as [Hv1 _].
  rewrite lookup_app in Hl.
  destruct (lookup q1 (Dir ses)) as [c1 |] eqn:E1; [| discriminate].
  destruct (overlay_lookup q1 (Dir ses) tes c1 Hses Hne1 E1) as (v & Hv & Hkind).
  exists v. split; [exact Hv |]. cbn [app].
  destruct c1 as [content | sub].
  - subst v. cbn [advertised]. apply bool_decide_eq_true.
    apply (Hfiles q1 Hv1 Hne1). now apply (lookup_in_file_paths q1 (Dir ses) [] content).
  - destruct v as [content | sub']; [discriminate |].
    cbn [advertised]. apply bool_decide_eq_true.
    apply (Hdirs q1 Hv1 Hne1). now apply (lookup_in_dir_paths q1 (Dir ses) [] sub).
Qed.

(** After the actions of the walk and the reconciliation, the directories
    of the target are those of the source. *)
Lemma mirror_dir_paths q :
  In q (dir_paths [] (prune dirs files [] (Dir (overlay (Dir ses) tes)))) <->
  In q (dir_paths [] (Dir ses)).
Proof.
  split; intros H.
  - apply dir_paths_prune in H as [Hd Hi].
    apply (dir_paths_lookup _ _ _ wf_ov) in Hi as (q' & -> & Hne & Hv & _).
    cbn [app] in *. now apply Hdirs.
  - apply (dir_paths_lookup _ _ _ Hses) in H as (q' & -> & Hne & Hv & es & Hl).
    cbn [app].
    destruct (overlay_lookup q' (Dir ses) tes _ Hses Hne Hl) as (v & Hov & Hkind).
    destruct v as [content | sub]; [discriminate |].
    apply (lookup_in_dir_paths q' _ [] (prune_entries dirs files ([] ++ q') sub) Hne).
    rewrite (lookup_prune dirs files q' [] _ wf_ov).
    now rewrite (covered_by_source q' _ Hv Hne Hl), Hov.
Qed.

(** And the files of the target are those of the source. *)
Lemma mirror_file_paths q :
  In q (file_paths [] (prune dirs files [] (Dir (overlay (Dir ses) tes)))) <->
  In q (file_paths [] (Dir ses)).
Proof.
  split; intros H.
  - apply file_paths_prune in H as [Hd Hi].
    apply (file_paths_lookup _ _ _ wf_ov) in Hi as (q' & -> & Hne & Hv & _).
    cbn [app] in *. now apply Hfiles.
  - apply (file_paths_lookup _ _ _ Hses) in H as (q' & -> & Hne & Hv & content & Hl).
    cbn [app].
    destruct (overlay_lookup q' (Dir ses) tes _ Hses Hne Hl) as (v & Hov & ->).
    apply (lookup_in_file_paths q' _ [] content Hne).
    rewrite (lookup_prune dirs files q' [] _ wf_ov).
    now rewrite (covered_by_source q' _ Hv Hne Hl), Hov.
Qed.

End MirrorPaths.

(** ** The two sides after the constructor *)

Section Mirror.

Lemma paths_in_strings (paths : list (list string)) (extra : gset string) q :
  (forall p, In p paths -> valid_names p = true) ->
  (forall x, x ∈ extra -> forall p, valid_names p = true -> x <> rel_path p) ->
  valid_names q = true ->
  (rel_path q ∈ extra ∪ list_to_set (map rel_path paths) <-> In q paths).
Proof.
  intros Hpaths Hextra Hq. rewrite elem_of_union, elem_of_list_to_set, list_elem_of_In, in_map_iff.
  split.
  - intros [Hx | (p & E & Hp)]; [now destruct (Hextra _ Hx q Hq) |].
    apply rel_path_inj in E; [now subst | now apply Hpaths | assumption].
  - intros H. right. now exists q.
Qed.

Lemma dir_paths_valid t q : wf t = true -> In q (dir_paths [] t) -> valid_names q = true.
Proof. intros Hwf H. now apply (dir_paths_lookup _ _ _ Hwf) in H as (q' & -> & _ & Hv & _). Qed.

Lemma file_paths_valid t q : wf t = true -> In q (file_paths [] t) -> valid_names q = true.
Proof. intros Hwf H. now apply (file_paths_lookup _ _ _ Hwf) in H as (q' & -> & _ & Hv & _). Qed.

Lemma target_dirs_at base troot x w faults es wr :
  lookup (troot ++ []) base = Some x -> valid_names troot = true ->
  target_dirs (target_at base troot [] w faults es wr) =
    list_to_set (map rel_path (dir_paths [] (Dir es))).
Proof.
  intros Hbase Hroot. unfold target_dirs, target_at. cbn [tgt_fs tgt_dir_path].
  rewrite app_nil_r in *. now rewrite (focused_dir base troot x w faults Hbase Hroot).
Qed.

Lemma target_files_at base troot x w faults es wr :
  lookup (troot ++ []) base = Some x -> valid_names troot = true ->
  target_files (target_at base troot [] w faults es wr) =
    list_to_set (map rel_path (file_paths [] (Dir es))).
Proof.
  intros Hbase Hroot. unfold target_files, target_at. cbn [tgt_fs tgt_dir_path].
  rewrite app_nil_r in *. now rewrite (focused_dir base troot x w faults Hbase Hroot).
Qed.

Lemma strings_of_paths_eq (l1 l2 : list (list string)) :
  (forall q, In q l1 <-> In q l2) ->
  (list_to_set (map rel_path l1) : gset string) = list_to_set (map rel_path l2).
Proof.
  intros H. apply set_eq. intros x.
  rewrite !elem_of_list_to_set, !list_elem_of_In, !in_map_iff.
  split; intros (q & E & Hq); exists q; (split; [assumption | now apply H]).
Qed.

(** The constructor, connected to a target: it returns, and the target then
    holds the directories and the files of the source, and no other. *)
Lemma construct_mirrors cwd sfuel tfuel sfs tfs sroot troot ses tes :
  quiet_fs sfs -> quiet_fs tfs ->
  valid_names sroot = true -> valid_names troot = true ->
  lookup sroot (fs_tree sfs) = Some (Dir ses) -> wf (Dir ses) = true ->
  lookup troot (fs_tree tfs) = Some (Dir tes) -> wf (Dir tes) = true ->
  height (Dir ses) <= sfuel -> height (Dir ses) <= tfuel -> height (Dir tes) <= tfuel ->
  exists s',
    construct cwd (handle_request cwd tfuel) sfuel sfs (abs_path sroot)
      (mkTarget tfs (abs_path troot)) = (Val tt, s') /\
    src_watch_dirs s' =
      {[abs_path sroot]} ∪ list_to_set (map rel_path (dir_paths [] (Dir ses))) /\
    src_watch_files s' = list_to_set (map rel_path (file_paths [] (Dir ses))) /\
    target_dirs (src_peer s') = list_to_set (map rel_path (dir_paths [] (Dir ses))) /\
    target_files (src_peer s') = list_to_set (map rel_path (file_paths [] (Dir ses))).
Proof.
  intros Hsq Htq Hsroot Htroot Hses Hswf Htes Htwf Hsfuel Htfuel1 Htfuel2.
  destruct tfs as [ttree tw twr tfaults]. cbn [fs_tree] in Htes.
  assert (Htquiet : forall op p, tfaults op p = None) by exact Htq.
  assert (Htes' : lookup (troot ++ []) ttree = Some (Dir tes)) by now rewrite app_nil_r.
  assert (Hses' : lookup (sroot ++ []) (fs_tree sfs) = Some (Dir ses)) by now rewrite app_nil_r.
  assert (Hpeer0 : mkTarget (mkFileSystem ttree tw twr tfaults) (abs_path troot) =
                   target_at ttree troot [] tw tfaults tes twr).
  { unfold target_at, focused. now rewrite (put_id _ _ _ Htes'). }
  set (s1 := mkSource sfs (abs_path sroot) ({[abs_path sroot]} ∪ ∅) ∅
               (mkTarget (mkFileSystem ttree tw twr tfaults) (abs_path troot))).
  assert (Hs1 : settled sroot (fs_tree sfs) s1) by now repeat split.
  destruct (src_watchdir_run sroot (fs_tree sfs) s1 sroot ses Hs1 Hsroot Hses)
    as (s2 & H2 & Hs2 & Hp2).
  pose proof (src_call_keeps_sets _ _ _ _ H2) as (Ed2 & Ef2 & _).
  cbn [src_peer s1] in Hp2. rewrite Hpeer0 in Hp2.
  destruct (walk_mirrors cwd tfuel sroot (fs_tree sfs) troot tw tfaults Hsroot Htroot Htquiet
              (Dir ses) ses eq_refl Hswf [] s2 ttree (Dir tes) tes twr eq_refl Hs2 Hses'
              Htes' Hp2) as (s3 & twr3 & H3 & Hs3 & Hp3).
  pose proof (walk_sets _ _ _ _ _ _ H3) as [Ed3 Ef3].
  rewrite Ed2 in Ed3. rewrite Ef2 in Ef3. cbn [src_watch_dirs src_watch_files s1] in Ed3, Ef3.
  set (ov := overlay (Dir ses) tes) in *.
  assert (Hov : wf (Dir ov) = true) by now apply wf_overlay.
  assert (Hhov : height (Dir ov) <= tfuel) by now apply height_overlay.
  set (D := src_watch_dirs s3) in *. set (F := src_watch_files s3) in *.
  pose proof (sync_directory_prunes cwd troot tw tfaults D F Htroot Htquiet (Dir ov) ov
                eq_refl Hov tfuel [] ttree (Dir tes) twr3 Hhov Htes' eq_refl) as H4.
  rewrite app_nil_r in H4.
  exists (with_peer s3 (target_at ttree troot [] tw tfaults (prune_entries D F [] ov) twr3)).
  split; [| split; [| split; [| split]]].
  - unfold construct, init. rewrite bind_get. cbv beta. cbn [new_source src_dir_path].
    erewrite bind_val; [| reflexivity]. fold s1.
    rewrite (bind_val _ _ _ _ _ H2).
    pose proof (replicate_directory_is_walk cwd (handle_request cwd tfuel) sroot (fs_tree sfs)
                  Hsroot (Dir ses) ses eq_refl Hswf sfuel [] s2 Hsfuel eq_refl Hs2 Hses')
      as Hwalk.
    rewrite app_nil_r in Hwalk.
    erewrite bind_val; [| rewrite Hwalk; exact H3].
    cbv beta. rewrite bind_get. cbv beta.
    apply rpc_run. rewrite Hp3. unfold handle_request. rewrite bind_get. cbv beta iota.
    cbn [tgt_dir_path target_at]. exact H4.
  - cbn [with_peer src_watch_dirs]. fold D. rewrite Ed3. set_solver.
  - cbn [with_peer src_watch_files]. fold F. rewrite Ef3. set_solver.
  - cbn [with_peer src_peer].
    rewrite (target_dirs_at ttree troot (Dir tes) tw tfaults _ twr3 Htes' Htroot).
    apply strings_of_paths_eq.
    apply (mirror_dir_paths ses tes D F Hswf Htwf).
    + intros q Hq _. rewrite Ed3. apply paths_in_strings; [| | assumption].
      * intros p. now apply dir_paths_valid.
      * intros x Hx p Hp. assert (x = abs_path sroot) as -> by set_solver.
        apply not_eq_sym. now apply rel_path_not_abs.
    + intros q Hq _. rewrite Ef3. apply paths_in_strings; [| | assumption].
      * intros p. now apply file_paths_valid.
      * intros x Hx. set_solver.
  - cbn [with_peer src_peer].
    rewrite (target_files_at ttree troot (Dir tes) tw tfaults _ twr3 Htes' Htroot).
    apply strings_of_paths_eq.
    apply (mirror_file_paths ses tes D F Hswf Htwf).
    + intros q Hq _. rewrite Ed3. apply paths_in_strings; [| | assumption].
      * intros p. now apply dir_paths_valid.
      * intros x Hx p Hp. assert (x = abs_path sroot) as -> by set_solver.
        apply not_eq_sym. now apply rel_path_not_abs.
    + intros q Hq _. rewrite Ef3. apply paths_in_strings; [| | assumption].
      * intros p. now apply file_paths_valid.
      * intros x Hx. set_solver.
Qed.

End Mirror.

(** ** The claims about the event handler and about failures *)

Import Scenario.

(** C2 (run of the code at the failing input).  The source watches [/src],
    [a] and [ab]; the directory [a] is removed.  The handler returns
    normally and also drops the sibling [ab] from the watched directories,
    because it compares with [str.startswith]: the string ["a"] starts the
    string ["ab"], although [a] is no ancestor of [ab]. *)
Theorem removed_drops_sibling_with_common_string_prefix :
  let s := env_change siblings_after
             (snd (construct "/" recorder 3 (quiet siblings) "/src" [])) in
  let r := handle_event "/" recorder 3 (mkEvent FILE_OR_SUBDIR_REMOVED "/src/a") s in
  src_watch_dirs s = {["/src"; "a"; "ab"]} /\
  fst r = Val tt /\
  src_watch_dirs (snd r) = {["/src"]} /\
  "ab" ∉ src_watch_dirs (snd r).
Proof.
  cbv zeta. split; [| split; [| split]].
  - vm_compute. reflexivity.
  - vm_compute. reflexivity.
  - vm_compute. reflexivity.
  - refine (proj1 (bool_decide_eq_false _) _). vm_compute. reflexivity.
Qed.

(** C3 (run of the code at the failing input).  The directory [docs], which
    holds the file [a.txt], is added under the watched root.  The requests
    reach the target in the order [Write docs/a.txt], [MkDir docs]: the
    handler sends its own [MkDir] after the walker has sent the actions for
    the contents. *)
Theorem added_directory_sends_mkdir_after_contents :
  let s := env_change docs_src
             (snd (construct "/" recorder 3 (quiet empty_src) "/src" [])) in
  let r := handle_event "/" recorder 3 (mkEvent FILE_OR_SUBDIR_ADDED "/src/docs")
             (mkSource (src_fs s) (src_dir_path s) (src_watch_dirs s) (src_watch_files s) []) in
  fst r = Val tt /\
  src_peer (snd r) = [Write "docs/a.txt" "hello"; MkDir "docs"].
Proof. cbv zeta. split; vm_compute; reflexivity. Qed.

(** C5 (counterexample).  An [Added] event arrives for [/src/gone], which no
    longer exists: the handler does not return normally, the not-found
    error leaves it. *)
Lemma added_vanished_path_does_not_return :
  let s := snd (construct "/" recorder 3 (quiet empty_src) "/src" []) in
  at_path (src_fs s) "/src/gone" = None /\
  handle_event "/" recorder 3 (mkEvent FILE_OR_SUBDIR_ADDED "/src/gone") s = (Exn NotFound, s) /\
  ~ exists s', handle_event "/" recorder 3 (mkEvent FILE_OR_SUBDIR_ADDED "/src/gone") s
               = (Val tt, s').
Proof.
  cbv zeta. split; [vm_compute; reflexivity |].
  assert (E : handle_event "/" recorder 3 (mkEvent FILE_OR_SUBDIR_ADDED "/src/gone")
                (snd (construct "/" recorder 3 (quiet empty_src) "/src" []))
              = (Exn NotFound, snd (construct "/" recorder 3 (quiet empty_src) "/src" [])))
    by (vm_compute; reflexivity).
  split; [exact E |]. intros [s' H]. rewrite E in H. discriminate.
Qed.

(** C5 (amended).  For every [Added] event whose path no longer exists when
    it is inspected, [handle_event] sends no action and changes nothing in
    the source, and the error raised by the inspection (not-found, unless
    the environment makes the inspection itself fail otherwise) propagates
    to the caller. *)
Theorem added_vanished_path_raises :
  forall (R : Type) (cwd : string) (rpc_handle : request -> M R unit) (fuel : nat)
         (s : ReplicatorSource R) (p : string),
    at_path (src_fs s) p = None ->
    handle_event cwd rpc_handle fuel (mkEvent FILE_OR_SUBDIR_ADDED p) s =
      (Exn (match fs_faults (src_fs s) OpIsdir p with Some e => e | None => NotFound end), s).
Proof. intros. now apply added_vanished_raises. Qed.

Lemma added_vanished_path_raises_witness :
  let s := new_source (quiet empty_src) "/src" ([] : list request) in
  at_path (src_fs s) "/src/gone" = None /\
  handle_event "/" recorder 3 (mkEvent FILE_OR_SUBDIR_ADDED "/src/gone") s = (Exn NotFound, s).
Proof.
  cbv zeta. split; [reflexivity |].
  exact (added_vanished_path_raises _ "/" recorder 3
           (new_source (quiet empty_src) "/src" []) "/src/gone" eq_refl).
Defined.

(** C9 (counterexample).  The target holds the file [p] and the environment
    refuses every [removefile].  [MkDir p] calls [removefile], which raises
    the permission error; the handler absorbs it and returns normally,
    leaving [p] a file. *)
Lemma permission_error_absorbed_by_mkdir :
  let fs := mkFileSystem file_p ∅ [] deny_removefile in
  removefile "/t/p" fs = (Exn PermissionDenied, fs) /\
  handle_request "/" 3 (MkDir "p") (mkTarget fs "/t") = (Val tt, mkTarget fs "/t").
Proof. cbv zeta. split; vm_compute; reflexivity. Qed.

(** C9 (amended).  A failure [e] of any kind, raised by any call that stands
    outside the three [try] blocks, leaves the handler: in [handle_event]
    the calls [isdir], [readfile], [watchdir] and [rpc_handle] of the
    branches for an added and a modified path, and every [listdir],
    [isdir], [readfile], [watchdir] and [rpc_handle] of
    [_replicate_directory], at any depth and any entry; in [handle_request]
    the calls [exists], [makedirs], [readfile] and [writefile] of [Write],
    [exists] and [makedirs] of [MkDir], [exists], [isdir], [removedir] and
    [removefile] of [Remove], and every [listdir], [isdir], [removedir] and
    [removefile] of [_sync_directory], at any depth and any entry.  A failure
    raised inside a [try] block is absorbed whatever its kind: the removal
    branch of [handle_event] ends as its [rpc_handle] call ends, and [Write]
    and [MkDir] go on with the statements after the block. *)
Theorem failures_outside_try_blocks_propagate :
  forall (cwd : string) (fuel : nat) (e : exn),
    faults_raise e /\
    (forall (R : Type) (rpc_handle : request -> M R unit),
        event_failures_propagate cwd rpc_handle fuel e /\
        walk_failures_propagate cwd rpc_handle fuel e) /\
    write_failures_propagate cwd fuel e /\
    mkdir_failures_propagate cwd fuel e /\
    remove_failures_propagate cwd fuel e /\
    sync_failures_propagate cwd fuel e /\
    try_blocks_absorb cwd fuel e.
Proof.
  intros cwd fuel e.
  split; [apply faults_raise_holds |].
  split; [intros R rpc_handle; split |].
  - intros s s' p added modified. subst added modified. split.
    + intros Hp. split.
      * now apply modified_read_failure_propagates.
      * now apply added_isdir_failure_propagates.
    + intros rel Hrel. split; [| split; [| split; [| split]]].
      * eapply added_site_isdir; eassumption.
      * intros s1 H1. split.
        -- eapply added_site_readfile; eassumption.
        -- intros c s2 H2. eapply added_site_write; eassumption.
      * intros s1 H1 s2. subst s2. split.
        -- eapply added_site_watchdir; eassumption.
        -- intros s3 H3. split.
           ++ eapply added_site_walk; eassumption.
           ++ intros s4 H4. eapply added_site_mkdir; eassumption.
      * eapply modified_site_readfile; eassumption.
      * intros c s1 H1. eapply modified_site_write; eassumption.
  - intros s s' cp walk. subst walk. split.
    + apply walk_site_listdir.
    + intros n s1 rel ip Hreach Hrel. subst ip. split; [| split].
      * eapply walk_site_isdir; eassumption.
      * intros s2 H2. split.
        -- eapply walk_site_readfile; eassumption.
        -- intros c s3 H3. eapply walk_site_write; eassumption.
      * intros s2 H2. split.
        -- eapply walk_site_mkdir; eassumption.
        -- intros s3 H3 s4. subst s4. split.
           ++ eapply walk_site_watchdir; eassumption.
           ++ intros s5 H5. eapply walk_site_nested; eassumption.
  - split; [| split; [| split; [| split]]].
    + intros t t' p c tp td write. subst tp td write.
      split; [apply write_exists_failure_propagates |].
      split; [apply write_site_exists_parent |].
      split; [intros t1; apply write_site_makedirs |].
      intros t1 Hready t2. subst t2. split; [| split].
      * eapply write_site_exists; eassumption.
      * intros t3 H3. split.
        -- eapply write_site_readfile; eassumption.
        -- intros old t4 H4 Hne. eapply write_site_writefile_changed; eassumption.
      * intros t3 H3. eapply write_site_writefile_new; eassumption.
    + intros t t' p tp mkdir t1. subst tp mkdir t1.
      split; [apply mkdir_exists_failure_propagates |].
      split; [apply mkdir_site_exists |].
      intros t2. apply mkdir_site_makedirs.
    + intros t t' p tp remove. subst tp remove.
      split; [apply remove_exists_failure_propagates |].
      split; [apply remove_site_exists |].
      intros t1 H1. split; [| split].
      * eapply remove_site_isdir; eassumption.
      * intros t2 H2. eapply remove_site_removedir; eassumption.
      * intros t2 H2. eapply remove_site_removefile; eassumption.
    + intros t t' dirs files. split; [| split].
      * intros p. apply sync_request_is_the_walk.
      * intros p. apply sync_listdir_failure_propagates.
      * intros cp sync. subst sync. split; [apply sync_site_listdir |].
        intros n t1 rel ip Hreach Hrel. subst ip. split; [| split].
        -- eapply sync_site_isdir; eassumption.
        -- intros t2 H2. split.
           ++ intros Hout. eapply sync_site_removedir; eassumption.
           ++ intros Hin. eapply sync_site_nested; eassumption.
        -- intros t2 H2 Hout. eapply sync_site_removefile; eassumption.
    + split.
      * intros R rpc_handle s p rel. apply removed_outcome_is_rpc_outcome.
      * intros t t' p tp. subst tp. split; [| split; [| split; [| split]]].
        -- intros c t1. apply write_goes_on_after_failure.
        -- apply mkdir_goes_on_after_failure.
        -- intros c n. apply write_isdir_failure_absorbed.
        -- intros n. apply mkdir_isdir_failure_absorbed.
        -- intros c. apply mkdir_removefile_failure_absorbed.
Qed.

Lemma failures_outside_try_blocks_propagate_witness :
  let full := mkFileSystem empty_tgt ∅ [] disk_full in
  let deny := mkFileSystem file_p ∅ [] deny_isdir in
  handle_request "/" 3 (Write "p" "x") (mkTarget full "/t")
    = (Exn DiskFull, mkTarget full "/t") /\
  handle_event "/" recorder 3 (mkEvent FILE_OR_SUBDIR_ADDED "/t/p")
    (new_source deny "/t" []) = (Exn PermissionDenied, new_source deny "/t" []) /\
  handle_request "/" 3 (MkDir "p") (mkTarget deny "/t") = (Val tt, mkTarget deny "/t").
Proof.
  cbv zeta.
  pose proof (failures_outside_try_blocks_propagate "/" 3 DiskFull)
    as (_ & _ & Hwrite & _).
  pose proof (failures_outside_try_blocks_propagate "/" 3 PermissionDenied)
    as (_ & Hsrc & _ & _ & _ & _ & _ & Htgt).
  split; [| split].
  - set (t := mkTarget (mkFileSystem empty_tgt ∅ [] disk_full) "/t").
    destruct (Hwrite t t "p" "x") as (_ & _ & _ & H).
    assert (Hready : parent_ready (dirname (join (tgt_dir_path t) "p")) t t)
      by (left; reflexivity).
    destruct (H t Hready) as (_ & _ & Hnew).
    apply (Hnew t); reflexivity.
  - assert (Hp : "/t/p" <> "") by discriminate.
    destruct (Hsrc _ recorder) as [Hev _].
    destruct (Hev (new_source (mkFileSystem file_p ∅ [] deny_isdir) "/t" [])
                (new_source (mkFileSystem file_p ∅ [] deny_isdir) "/t" []) "/t/p")
      as [H _].
    destruct (H Hp) as [_ Hadded]. apply Hadded. reflexivity.
  - destruct (Htgt (mkTarget (mkFileSystem file_p ∅ [] deny_isdir) "/t")
                (mkTarget (mkFileSystem file_p ∅ [] deny_isdir) "/t") "p")
      as (_ & _ & _ & H & _).
    apply (H (File "x")); reflexivity.
Defined.

(** C10.  For every [Added] event whose path is a directory, when
    [handle_event] returns the relative path of the directory is in the
    watched files as well as in the watched directories, so that a [Sync]
    request built from the watch sets advertises it in both. *)
Theorem added_directory_enters_both_watch_sets :
  forall (R : Type) (cwd : string) (rpc_handle : request -> M R unit) (fuel : nat)
         (s s' : ReplicatorSource R) (p rel : string) (es : entries),
    relpath cwd p (src_dir_path s) = Some rel ->
    at_path (src_fs s) p = Some (Dir es) ->
    handle_event cwd rpc_handle fuel (mkEvent FILE_OR_SUBDIR_ADDED p) s = (Val tt, s') ->
    rel ∈ src_watch_dirs s' /\ rel ∈ src_watch_files s' /\
    exists dirs files, sync_request s' = Sync dirs files "" /\ rel ∈ dirs /\ rel ∈ files.
Proof.
  intros R cwd rpc_handle fuel s s' p rel es Hrel Hdir H.
  destruct (added_directory_sets cwd rpc_handle fuel p rel s s' es Hrel Hdir H) as [Hd Hf].
  split; [assumption | split; [assumption |]].
  exists (src_watch_dirs s'), (src_watch_files s'). auto.
Qed.

Lemma added_directory_enters_both_watch_sets_witness :
  let s := new_source (quiet docs_src) "/src" ([] : list request) in
  let s' := snd (handle_event "/" recorder 3 (mkEvent FILE_OR_SUBDIR_ADDED "/src/docs") s) in
  "docs" ∈ src_watch_dirs s' /\ "docs" ∈ src_watch_files s' /\
  exists dirs files, sync_request s' = Sync dirs files "" /\ "docs" ∈ dirs /\ "docs" ∈ files.
Proof.
  cbv zeta.
  refine (added_directory_enters_both_watch_sets _ "/" recorder 3
            (new_source (quiet docs_src) "/src" []) _ "/src/docs" "docs"
            [("a.txt", File "hello")] _ _ _).
  - vm_compute. reflexivity.
  - vm_compute. reflexivity.
  - vm_compute. reflexivity.
Defined.

(** ** The claims about single actions on the target *)

(** C7.  When the target already holds the file [p] with exactly the
    content [c], [Write p c] returns without calling [writefile]: the
    target, with its log of physical writes, is unchanged.  Hence whenever
    a first [Write p c] returns, a second one returns too, changes nothing,
    and the two together have written at most once. *)
Theorem write_twice_writes_once :
  forall (cwd : string) (fuel : nat) (t : ReplicatorTarget)
         (troot q : list string) (n c : string),
    canonical_target t troot -> valid_names q = true -> valid_name n = true ->
    let p := rel_path (q ++ [n]) in
    (target_entry t p = Some (File c) ->
     handle_request cwd fuel (Write p c) t = (Val tt, t)) /\
    (forall t1, handle_request cwd fuel (Write p c) t = (Val tt, t1) ->
                handle_request cwd fuel (Write p c) t1 = (Val tt, t1) /\
                List.length (fs_written (tgt_fs t1)) <= S (List.length (fs_written (tgt_fs t)))).
Proof.
  intros cwd fuel t troot q n c (Hd & Hroot & Hquiet) Hq Hn p.
  assert (Focus : forall base x w faults es wr t1,
             lookup (troot ++ q) base = Some x -> (forall op p, faults op p = None) ->
             handle_request cwd fuel (Write p c) (target_at base troot q w faults es wr)
               = (Val tt, t1) ->
             handle_request cwd fuel (Write p c) t1 = (Val tt, t1) /\
             List.length (fs_written (tgt_fs t1)) <= S (List.length wr)).
  { intros base x w faults es wr t1 Hbase Hf H1. unfold p in *.
    rewrite (write_focus cwd base troot q x w faults Hbase Hroot Hq Hf) in H1 by assumption.
    inversion H1; subst t1; clear H1.
    rewrite (write_focus cwd base troot q x w faults Hbase Hroot Hq Hf) by assumption.
    destruct (write_entry_twice n c es) as [-> ->]. split; [reflexivity |].
    cbn [target_at tgt_fs focused fs_written]. destruct (write_needed n c es); cbn; lia. }
  split.
  - intros He. unfold p in *.
    rewrite (target_entry_lookup t troot q n Hd Hroot Hq Hn), lookup_snoc in He.
    destruct (lookup (troot ++ q) (fs_tree (tgt_fs t))) as [[f | es] |] eqn:HP;
      try discriminate.
    rewrite (target_refocus t troot q es Hd HP) at 1.
    rewrite (write_focus cwd _ troot q _ _ _ HP Hroot Hq Hquiet) by assumption.
    unfold write_entry, write_needed. rewrite He, String.eqb_refl, (assoc_set_id _ _ _ He).
    cbn [negb]. now rewrite <- (target_refocus t troot q es Hd HP).
  - intros t1 H1.
    destruct t as [[tree w wr faults] dp]. cbn [tgt_dir_path tgt_fs fs_written] in *. subst dp.
    destruct (lookup (troot ++ q) tree) as [[f | es] |] eqn:HP.
    + unfold p in H1. rewrite (write_parent_file cwd fuel troot q n c tree w wr faults f) in H1
        by assumption. discriminate.
    + apply (Focus tree (Dir es) w faults es wr t1 HP Hquiet).
      unfold target_at, focused. now rewrite (put_id _ _ _ HP).
    + destruct (blocked (troot ++ q) tree) eqn:Hb.
      * unfold p in H1. rewrite (write_parent_blocked cwd fuel troot q n c tree w wr faults) in H1
          by assumption. discriminate.
      * unfold p in H1.
        rewrite (write_parent_created cwd fuel troot q n c tree w wr faults) in H1 by assumption.
        destruct (mkchain_makes_dir _ _ Hb) as [es Hes].
        apply (Focus (mkchain (troot ++ q) tree) (Dir es) w faults es wr t1 Hes Hquiet).
        unfold target_at, focused. now rewrite (put_id _ _ _ Hes).
Qed.

Lemma write_twice_writes_once_witness :
  let t := mkTarget (Scenario.quiet Scenario.file_p) "/t" in
  let t1 := snd (handle_request "/" 3 (Write "p" "y") t) in
  handle_request "/" 3 (Write "p" "x") t = (Val tt, t) /\
  handle_request "/" 3 (Write "p" "y") t1 = (Val tt, t1) /\
  List.length (fs_written (tgt_fs t1)) <= S (List.length (fs_written (tgt_fs t))).
Proof.
  cbv zeta.
  assert (Hc : canonical_target (mkTarget (Scenario.quiet Scenario.file_p) "/t") ["t"]).
  { split; [reflexivity | split; [reflexivity | intros op p; reflexivity]]. }
  split.
  - apply (proj1 (write_twice_writes_once "/" 3 _ ["t"] [] "p" "x" Hc eq_refl eq_refl)).
    reflexivity.
  - apply (proj2 (write_twice_writes_once "/" 3 _ ["t"] [] "p" "y" Hc eq_refl eq_refl)).
    vm_compute. reflexivity.
Defined.



(** ** The claim about reconciliation *)

(** C6 (counterexample).  The target holds the directory [a/b] and the
    advertised directories are [{"a/b"}]: the relative path of [a/b] is in
    the advertised set, yet [Sync] deletes it, because its parent [a] is not
    advertised and goes with all it holds. *)
Lemma sync_deletes_advertised_entry_below_orphan :
  let t := mkTarget (Scenario.quiet Scenario.drifted) "/t" in
  let t' := snd (handle_request "/" 5 (Sync {["a/b"]} ∅ "") t) in
  "a/b" ∈ ({["a/b"]} : gset string) /\
  target_entry t "a/b" = Some (Dir []) /\
  fst (handle_request "/" 5 (Sync {["a/b"]} ∅ "") t) = Val tt /\
  target_entry t' "a/b" = None.
Proof.
  cbv zeta. split; [set_solver |]. split; [reflexivity |].
  split; vm_compute; reflexivity.
Qed.

(** C6 (amended).  On a target whose root is a well-formed directory,
    [Sync] returns and creates nothing; what stands at a path [q] below the
    root afterwards is what stood there before, pruned in turn, when [q] is
    covered, and nothing otherwise.  A path is covered exactly when every
    entry on the way down to it, itself included, exists and is advertised
    for what it is: in [dirs] for a directory, in [files] for a file.  So a
    directory that is not advertised goes with all it holds, whatever is
    advertised below it. *)
Theorem sync_keeps_exactly_the_covered :
  forall (cwd : string) (fuel : nat) (t : ReplicatorTarget) (troot : list string)
         (dirs files : gset string) (rp : string) (es : entries),
    canonical_target t troot ->
    lookup troot (fs_tree (tgt_fs t)) = Some (Dir es) ->
    wf (Dir es) = true ->
    height (Dir es) <= fuel ->
    exists t',
      handle_request cwd fuel (Sync dirs files rp) t = (Val tt, t') /\
      (forall q,
         lookup (troot ++ q) (fs_tree (tgt_fs t')) =
           if covered dirs files [] q (Dir es)
           then option_map (prune dirs files q) (lookup (troot ++ q) (fs_tree (tgt_fs t)))
           else None) /\
      (forall q,
         covered dirs files [] q (Dir es) = true <->
         (forall q1 q2, q = q1 ++ q2 -> q1 <> [] ->
            exists v, lookup (troot ++ q1) (fs_tree (tgt_fs t)) = Some v /\
                      advertised dirs files q1 v = true)).
Proof.
  intros cwd fuel t troot dirs files rp es (Hd & Hroot & Hquiet) Hes Hwf Hfuel.
  destruct t as [[tree w wr faults] dp].
  cbn [tgt_dir_path tgt_fs fs_tree] in *. subst dp.
  assert (Hes' : lookup (troot ++ []) tree = Some (Dir es)) by now rewrite app_nil_r.
  exists (target_at tree troot [] w faults (prune_entries dirs files [] es) wr).
  split; [| split].
  - unfold handle_request. rewrite bind_get. cbv beta iota. cbn [tgt_dir_path].
    replace (mkTarget (mkFileSystem tree w wr faults) (abs_path troot))
      with (target_at tree troot [] w faults es wr)
      by (unfold target_at, focused; now rewrite (put_id _ _ _ Hes')).
    rewrite <- (app_nil_r troot) at 1.
    apply (sync_directory_prunes cwd troot w faults dirs files Hroot Hquiet (Dir es) es
             eq_refl Hwf fuel [] tree (Dir es) wr Hfuel Hes' eq_refl).
  - intros q. cbn [target_at tgt_fs focused fs_tree]. rewrite app_nil_r.
    rewrite (lookup_put _ _ _ _ _ Hes), lookup_app, Hes.
    change (Dir (prune_entries dirs files [] es)) with (prune dirs files [] (Dir es)).
    now rewrite (lookup_prune dirs files q [] (Dir es) Hwf).
  - intros q. rewrite covered_spec. split; intros H q1 q2 E Hne.
    + destruct (H q1 q2 E Hne) as (v & Hv & Ha). exists v. now rewrite lookup_app, Hes.
    + destruct (H q1 q2 E Hne) as (v & Hv & Ha). exists v. now rewrite lookup_app, Hes in Hv.
Qed.

Lemma sync_keeps_exactly_the_covered_witness :
  let t := mkTarget (Scenario.quiet Scenario.drifted) "/t" in
  exists t',
    handle_request "/" 5 (Sync {["a"; "a/b"]} {["a/keep.txt"]} "") t = (Val tt, t') /\
    lookup ["t"; "a"; "keep.txt"] (fs_tree (tgt_fs t')) = Some (File "k") /\
    lookup ["t"; "a"; "extra.txt"] (fs_tree (tgt_fs t')) = None /\
    lookup ["t"; "x"] (fs_tree (tgt_fs t')) = None.
Proof.
  cbv zeta.
  destruct (sync_keeps_exactly_the_covered "/" 5
              (mkTarget (Scenario.quiet Scenario.drifted) "/t") ["t"]
              {["a"; "a/b"]} {["a/keep.txt"]} ""
              [("a", Dir [("b", Dir []); ("keep.txt", File "k"); ("extra.txt", File "e")]);
               ("x", Dir [("y", File "1")])])
    as (t' & Hrun & Hlook & _).
  - split; [reflexivity | split; [reflexivity | intros op p; reflexivity]].
  - reflexivity.
  - reflexivity.
  - vm_compute. lia.
  - exists t'. split; [exact Hrun |]. split; [| split].
    + pose proof (Hlook ["a"; "keep.txt"]) as H. cbn [app] in H. rewrite H.
      vm_compute. reflexivity.
    + pose proof (Hlook ["a"; "extra.txt"]) as H. cbn [app] in H. rewrite H.
      vm_compute. reflexivity.
    + pose proof (Hlook ["x"]) as H. cbn [app] in H. rewrite H.
      vm_compute. reflexivity.
Defined.

(** ** The claim about the watched tree *)




(** ** The claim about mirror equivalence *)

(** C1 (counterexample).  The source root [/src] and the target root [/t]
    are both empty.  After the constructor has walked and sent [Sync], no
    directory stands below the target root, while the watched directories of
    the source are [{"/src"}]: the two sets differ by the entry that the
    source keeps for its own root. *)
Lemma mirror_sets_differ_by_root_entry :
  let r := construct "/" (handle_request "/" 3) 3 (Scenario.quiet Scenario.empty_src) "/src"
             (mkTarget (Scenario.quiet Scenario.empty_tgt) "/t") in
  fst r = Val tt /\
  target_dirs (src_peer (snd r)) = ∅ /\
  src_watch_dirs (snd r) = {["/src"]} /\
  target_dirs (src_peer (snd r)) <> src_watch_dirs (snd r).
Proof.
  cbv zeta.
  assert (E1 : target_dirs (src_peer (snd (construct "/" (handle_request "/" 3) 3
                 (Scenario.quiet Scenario.empty_src) "/src"
                 (mkTarget (Scenario.quiet Scenario.empty_tgt) "/t")))) = ∅)
    by (vm_compute; reflexivity).
  assert (E2 : src_watch_dirs (snd (construct "/" (handle_request "/" 3) 3
                 (Scenario.quiet Scenario.empty_src) "/src"
                 (mkTarget (Scenario.quiet Scenario.empty_tgt) "/t"))) = {["/src"]})
    by (vm_compute; reflexivity).
  split; [vm_compute; reflexivity |]. split; [exact E1 |]. split; [exact E2 |].
  rewrite E1, E2. intros H. assert (Hin : "/src" ∈ (∅ : gset string)) by (rewrite H; set_solver).
  set_solver.
Qed.

(** The entry for the root is told apart from the relative paths only when
    [dir_path] is absolute.  With the relative root [src], which holds a
    directory [src], the root and its child have the same entry ["src"] in
    the watched directories: the target gets the directory [src], and the
    watched directories less the entry for the root are empty. *)
Lemma relative_root_entry_collides :
  let r := construct "/" (handle_request "/" 5) 5
             (Scenario.quiet (Dir [("src", Dir [("src", Dir [])])])) "src"
             (mkTarget (Scenario.quiet Scenario.empty_tgt) "/t") in
  fst r = Val tt /\
  src_watch_dirs (snd r) = {["src"]} /\
  target_dirs (src_peer (snd r)) = {["src"]} /\
  target_dirs (src_peer (snd r)) <> src_watch_dirs (snd r) ∖ {["src"]}.
Proof.
  cbv zeta.
  assert (E1 : target_dirs (src_peer (snd (construct "/" (handle_request "/" 5) 5
                 (Scenario.quiet (Dir [("src", Dir [("src", Dir [])])])) "src"
                 (mkTarget (Scenario.quiet Scenario.empty_tgt) "/t")))) = {["src"]})
    by (vm_compute; reflexivity).
  assert (E2 : src_watch_dirs (snd (construct "/" (handle_request "/" 5) 5
                 (Scenario.quiet (Dir [("src", Dir [("src", Dir [])])])) "src"
                 (mkTarget (Scenario.quiet Scenario.empty_tgt) "/t"))) = {["src"]})
    by (vm_compute; reflexivity).
  split; [vm_compute; reflexivity |]. split; [exact E2 |]. split; [exact E1 |].
  rewrite E1, E2. intros H.
  assert (Hin : "src" ∈ ({["src"]} : gset string)) by now apply elem_of_singleton.
  pose proof Hin as Hout. rewrite H in Hout.
  apply elem_of_difference in Hout as [_ Hout]. exact (Hout Hin).
Qed.

(** C1 (amended).  The source and the target are each given their root as
    an absolute normalised path, [/n1/.../nk] with entry names [n1 ... nk],
    of an existing directory whose tree is well formed; the environment
    makes no call fail, and the recursion budget covers the depth of the two
    trees.  Then the constructor returns, and once it has walked and sent
    [Sync] the set of the file paths below the target root is the set of the
    watched files of the source, and the set of the directory paths below
    the target root is the set of the watched directories of the source less
    the one entry that stands for the root, which the source keeps as its
    [dir_path] and which is no path below the target root. *)
Theorem mirror_up_to_root_entry :
  forall (cwd : string) (sfuel tfuel : nat) (sfs tfs : FileSystem)
         (sroot troot : list string) (ses tes : entries),
    quiet_fs sfs -> quiet_fs tfs ->
    valid_names sroot = true -> valid_names troot = true ->
    lookup sroot (fs_tree sfs) = Some (Dir ses) -> wf (Dir ses) = true ->
    lookup troot (fs_tree tfs) = Some (Dir tes) -> wf (Dir tes) = true ->
    height (Dir ses) <= sfuel -> height (Dir ses) <= tfuel -> height (Dir tes) <= tfuel ->
    exists s',
      construct cwd (handle_request cwd tfuel) sfuel sfs (abs_path sroot)
        (mkTarget tfs (abs_path troot)) = (Val tt, s') /\
      abs_path sroot ∈ src_watch_dirs s' /\
      (abs_path sroot ∉ target_dirs (src_peer s')) /\
      target_dirs (src_peer s') = src_watch_dirs s' ∖ {[abs_path sroot]} /\
      target_files (src_peer s') = src_watch_files s'.
Proof.
  intros cwd sfuel tfuel sfs tfs sroot troot ses tes
    Hsq Htq Hsroot Htroot Hses Hswf Htes Htwf Hsfuel Htfuel1 Htfuel2.
  destruct (construct_mirrors cwd sfuel tfuel sfs tfs sroot troot ses tes
              Hsq Htq Hsroot Htroot Hses Hswf Htes Htwf Hsfuel Htfuel1 Htfuel2)
    as (s' & Hrun & Hd & Hf & Htd & Htf).
  exists s'. split; [exact Hrun |]. rewrite Hd, Hf, Htd, Htf.
  assert (Hroot : abs_path sroot ∉
                  (list_to_set (map rel_path (dir_paths [] (Dir ses))) : gset string)).
  { rewrite elem_of_list_to_set, list_elem_of_In, in_map_iff. intros (q & E & Hq).
    apply (rel_path_not_abs q sroot); [| exact E]. now apply (dir_paths_valid (Dir ses)). }
  split; [set_solver | split; [exact Hroot | split; [| reflexivity]]].
  set_solver.
Qed.

Lemma mirror_up_to_root_entry_witness :
  exists s',
    construct "/" (handle_request "/" 5) 5 (Scenario.quiet Scenario.docs_src) "/src"
      (mkTarget (Scenario.quiet Scenario.drifted) "/t") = (Val tt, s') /\
    "/src" ∈ src_watch_dirs s' /\
    ("/src" ∉ target_dirs (src_peer s')) /\
    target_dirs (src_peer s') = src_watch_dirs s' ∖ {["/src"]} /\
    target_files (src_peer s') = src_watch_files s'.
Proof.
  apply (mirror_up_to_root_entry "/" 5 5 (Scenario.quiet Scenario.docs_src)
           (Scenario.quiet Scenario.drifted) ["src"] ["t"]
           [("docs", Dir [("a.txt", File "hello")])]
           [("a", Dir [("b", Dir []); ("keep.txt", File "k"); ("extra.txt", File "e")]);
            ("x", Dir [("y", File "1")])]).
  - intros op p. reflexivity.
  - intros op p. reflexivity.
  - reflexivity.
  - reflexivity.
  - reflexivity.
  - reflexivity.
  - reflexivity.
  - reflexivity.
  - vm_compute. lia.
  - vm_compute. lia.
  - vm_compute. lia.
Defined.
(** * Further properties of the code

    What the two classes do beyond the claims of the specification: what
    each request leaves behind on the target and what it never touches, the
    fixed points of the reconciliation, the stream of requests of the
    constructor and of the event handler, what the source leaves alone, and
    how an event of the source reaches a connected target. *)

(** ** More about the monad *)

Lemma bind_div {S A B} (m : M S A) (k : A -> M S B) s s' :
  m s = (Diverge, s') -> bind m k s = (Diverge, s').
Proof. intros H. unfold bind. now rewrite H. Qed.

Lemma bind_assoc {S A B C} (m : M S A) (k1 : A -> M S B) (k2 : B -> M S C) s :
  bind (bind m k1) k2 s = bind m (fun a => bind (k1 a) k2) s.
Proof. unfold bind. now destruct (m s) as [[a | e |] s1]. Qed.

Lemma for_each_app {S A} (l1 l2 : list A) (body : A -> M S unit) s :
  for_each (l1 ++ l2) body s = (for_each l1 body >> for_each l2 body) s.
Proof.
  revert s. induction l1 as [| x l1 IH]; intros s; [reflexivity |].
  cbn [app for_each]. rewrite bind_assoc. unfold bind.
  destruct (body x s) as [[[] | e |] s1]; [| reflexivity | reflexivity].
  exact (IH s1).
Qed.

Lemma recorder_records (l sent : list request) :
  for_each l recorder sent = (Val tt, sent ++ l).
Proof.
  revert sent. induction l as [| x l IH]; intros sent.
  - cbn. unfold ret. now rewrite app_nil_r.
  - cbn [for_each]. unfold bind, recorder at 1, modify. rewrite IH.
    now rewrite <- app_assoc.
Qed.

(** ** The target: what each action leaves behind *)

Section TargetActions.

Variable cwd : string.

Lemma blocked_at_file p c : blocked p (File c) = true.
Proof. now destruct p. Qed.


Lemma blocked_none_app p r : forall t, lookup p t = None -> blocked (p ++ r) t = blocked p t.
Proof.
  induction p as [| n p IH]; intros [c | es] H; rewrite ?blocked_at_file;
    cbn [app blocked lookup] in *; try reflexivity; try discriminate.
  destruct (assoc n es) as [c |]; [now apply IH | reflexivity].
Qed.


Lemma blocked_file p : forall t c, lookup p t = Some (File c) -> blocked p t = true.
Proof.
  induction p as [| n p IH]; intros [c0 | es0] c H; cbn [blocked lookup] in *;
    try discriminate; try reflexivity.
  destruct (assoc n es0) as [c1 |]; [now apply IH with c | discriminate].
Qed.

Lemma mkchain_fresh p : forall t,
  lookup p t = None -> blocked p t = false -> lookup p (mkchain p t) = Some (Dir []).
Proof.
  induction p as [| n p IH]; intros [c | es] Hl Hb; cbn [mkchain lookup blocked] in *;
    try discriminate.
  rewrite assoc_set_same.
  destruct (assoc n es) as [c |]; [now apply IH |].
  destruct p as [| m p]; [reflexivity |]. now apply IH.
Qed.

Lemma mkchain_prefix p r : forall t, mkchain (p ++ r) t = mkchain (p ++ r) (mkchain p t).
Proof.
  induction p as [| n p IH]; intros [c | es]; cbn [app mkchain]; try reflexivity.
  rewrite assoc_set_same, assoc_set_set. f_equal. f_equal. apply IH.
Qed.

Lemma exists_quiet path fs :
  quiet_fs fs ->
  exists_ path fs = (Val (match at_path fs path with Some _ => true | None => false end), fs).
Proof. intros Hq. unfold exists_, call. now rewrite Hq. Qed.

(** Where no file stands in the way of the parent directory [troot ++ q],
    [Write] and [MkDir] of an entry of that directory behave as on a target
    whose tree [base] has the parent, with the entries [es]: the parent as
    it is, or the chain of empty directories that [makedirs] creates. *)
Lemma parent_made (t : ReplicatorTarget) troot q :
  canonical_target t troot -> valid_names q = true ->
  blocked (troot ++ q) (fs_tree (tgt_fs t)) = false ->
  exists base es,
    lookup (troot ++ q) base = Some (Dir es) /\
    (forall m, assoc m es = lookup ((troot ++ q) ++ [m]) (fs_tree (tgt_fs t))) /\
    (forall es0, lookup (troot ++ q) (fs_tree (tgt_fs t)) = Some (Dir es0) ->
       base = fs_tree (tgt_fs t) /\ es = es0) /\
    (forall fuel n c, valid_name n = true ->
       handle_request cwd fuel (Write (rel_path (q ++ [n])) c) t =
       handle_request cwd fuel (Write (rel_path (q ++ [n])) c)
         (target_at base troot q (fs_watched (tgt_fs t)) (fs_faults (tgt_fs t)) es
            (fs_written (tgt_fs t)))) /\
    (forall fuel n, valid_name n = true ->
       handle_request cwd fuel (MkDir (rel_path (q ++ [n]))) t =
       handle_request cwd fuel (MkDir (rel_path (q ++ [n])))
         (target_at base troot q (fs_watched (tgt_fs t)) (fs_faults (tgt_fs t)) es
            (fs_written (tgt_fs t)))).
Proof.
  intros (Hd & Hroot & Hquiet) Hq Hb.
  assert (HP : valid_names (troot ++ q) = true) by now apply valid_names_app.
  destruct (lookup (troot ++ q) (fs_tree (tgt_fs t))) as [[f | es] |] eqn:Hl.
  - rewrite (blocked_file _ _ _ Hl) in Hb. discriminate.
  - exists (fs_tree (tgt_fs t)), es. split; [assumption |]. split.
    { intros m. now rewrite lookup_snoc, Hl. }
    split. { intros es0 E. now inversion E. }
    split; intros; now rewrite <- (target_refocus t troot q es Hd Hl).
  - pose proof (mkchain_fresh _ _ Hl Hb) as Hnew.
    exists (mkchain (troot ++ q) (fs_tree (tgt_fs t))), []. split; [assumption |]. split.
    { intros m. now rewrite lookup_snoc, Hl. }
    split. { intros es0 E. discriminate. }
    destruct t as [[tree w wr faults] dp].
    cbn [tgt_dir_path tgt_fs fs_tree fs_watched fs_written fs_faults] in *. subst dp.
    assert (Hsame : target_at (mkchain (troot ++ q) tree) troot q w faults [] wr =
                    mkTarget (mkFileSystem (mkchain (troot ++ q) tree) w wr faults)
                      (abs_path troot)).
    { unfold target_at, focused. now rewrite (put_id _ _ _ Hnew). }
    split.
    + intros fuel n c Hn. rewrite Hsame. now apply write_parent_created.
    + intros fuel n Hn.
      rewrite (mkdir_focus cwd _ troot q _ w faults Hnew Hroot Hq Hquiet fuel n [] wr Hn).
      assert (Hfull : valid_names ((troot ++ q) ++ [n]) = true).
      { apply valid_names_app. split; [assumption |]. now apply valid_names_cons. }
      assert (Hnone : lookup ((troot ++ q) ++ [n]) tree = None) by now rewrite lookup_snoc, Hl.
      assert (Hnb : blocked ((troot ++ q) ++ [n]) tree = false)
        by now rewrite (blocked_none_app _ _ _ Hl).
      unfold handle_request. rewrite !bind_get. cbv beta.
      cbn [request_relative_path tgt_dir_path].
      rewrite (join_root_entry troot q n Hroot Hq Hn).
      unfold bind, try_pass, tgt_call, zoom, exists_, isdir, makedirs, call, at_path, ret.
      cbn [tgt_fs fs_faults fs_tree tgt_dir_path]. rewrite !Hquiet, !resolve_abs_path by assumption.
      rewrite Hnone. cbn [negb tgt_fs fs_faults fs_tree tgt_dir_path].
      rewrite !Hquiet, Hnone. cbn [negb tgt_fs fs_faults fs_tree tgt_dir_path].
      rewrite !Hquiet, Hnone, Hnb. unfold set_tree, target_at, focused.
      cbn [fs_tree fs_watched fs_written fs_faults].
      rewrite (mkchain_prefix (troot ++ q) [n] tree), (mkchain_snoc _ n _ [] Hnew).
      reflexivity.
Qed.

End TargetActions.

(** X1.  [Write p c] on a target where no file stands in the way of the
    parent directory of [p] returns; afterwards [p] is a regular file with
    the content [c] and its parent is a directory (created, with its missing
    ancestors, when it did not exist); the other entries of the parent are
    what they were; [writefile] was called once, for this path and this
    content, unless [p] already was a file with the content [c], in which
    case it was not called at all. *)
Theorem write_postcondition :
  forall (cwd : string) (fuel : nat) (t : ReplicatorTarget)
         (troot q : list string) (n c : string),
    canonical_target t troot -> valid_names q = true -> valid_name n = true ->
    blocked (troot ++ q) (fs_tree (tgt_fs t)) = false ->
    let p := rel_path (q ++ [n]) in
    exists t',
      handle_request cwd fuel (Write p c) t = (Val tt, t') /\
      target_entry t' p = Some (File c) /\
      (exists es, lookup (troot ++ q) (fs_tree (tgt_fs t')) = Some (Dir es)) /\
      (forall m, valid_name m = true -> m <> n ->
         target_entry t' (rel_path (q ++ [m])) = target_entry t (rel_path (q ++ [m]))) /\
      fs_written (tgt_fs t') =
        match target_entry t p with
        | Some (File old) =>
            if String.eqb old c then fs_written (tgt_fs t)
            else (abs_path ((troot ++ q) ++ [n]), c) :: fs_written (tgt_fs t)
        | _ => (abs_path ((troot ++ q) ++ [n]), c) :: fs_written (tgt_fs t)
        end.
Proof.
  intros cwd fuel t troot q n c Hc Hq Hn Hb p. unfold p.
  destruct (parent_made cwd t troot q Hc Hq Hb) as (base & es & Hbase & Hes & _ & HW & _).
  destruct Hc as (Hd & Hroot & Hquiet).
  rewrite (HW fuel n c Hn).
  rewrite (write_focus cwd base troot q _ _ _ Hbase Hroot Hq Hquiet fuel n c es _ Hn).
  eexists. split; [reflexivity |]. split; [| split; [| split]].
  - rewrite (target_entry_focus base troot q _ _ _ _ _ n Hbase Hroot Hq Hn).
    apply write_entry_written.
  - exists (write_entry n c es). unfold target_at, focused. cbn [tgt_fs fs_tree].
    now apply lookup_put_same with (Dir es).
  - intros m Hm Hmn.
    rewrite (target_entry_focus base troot q _ _ _ _ _ m Hbase Hroot Hq Hm).
    rewrite (target_entry_lookup t troot q m Hd Hroot Hq Hm), <- Hes.
    apply write_entry_other. congruence.
  - rewrite (target_entry_lookup t troot q n Hd Hroot Hq Hn), <- Hes.
    unfold target_at, focused. cbn [tgt_fs fs_written]. unfold write_needed.
    destruct (assoc n es) as [[old | sub] |]; try reflexivity.
    now destruct (String.eqb old c).
Qed.

Lemma write_postcondition_witness :
  exists t',
    handle_request "/" 3 (Write "a/new.txt" "v") (mkTarget (quiet empty_tgt) "/t") = (Val tt, t') /\
    target_entry t' "a/new.txt" = Some (File "v") /\
    (exists es, lookup ["t"; "a"] (fs_tree (tgt_fs t')) = Some (Dir es)) /\
    (forall m, valid_name m = true -> m <> "new.txt" ->
       target_entry t' (rel_path (["a"] ++ [m])) =
       target_entry (mkTarget (quiet empty_tgt) "/t") (rel_path (["a"] ++ [m]))) /\
    fs_written (tgt_fs t') =
      match target_entry (mkTarget (quiet empty_tgt) "/t") "a/new.txt" with
      | Some (File old) =>
          if String.eqb old "v" then fs_written (tgt_fs (mkTarget (quiet empty_tgt) "/t"))
          else (abs_path ((["t"] ++ ["a"]) ++ ["new.txt"]), "v")
                 :: fs_written (tgt_fs (mkTarget (quiet empty_tgt) "/t"))
      | _ => (abs_path ((["t"] ++ ["a"]) ++ ["new.txt"]), "v")
               :: fs_written (tgt_fs (mkTarget (quiet empty_tgt) "/t"))
      end.
Proof.
  apply (write_postcondition "/" 3 (mkTarget (quiet empty_tgt) "/t") ["t"] ["a"] "new.txt" "v").
  - split; [reflexivity | split; [reflexivity | intros op p; reflexivity]].
  - reflexivity.
  - reflexivity.
  - reflexivity.
Defined.



(** What [Remove] leaves behind. *)
Lemma remove_runs :
  forall (cwd : string) (fuel : nat) (t : ReplicatorTarget)
         (troot q : list string) (n : string),
    canonical_target t troot -> valid_names q = true -> valid_name n = true ->
    let p := rel_path (q ++ [n]) in
    exists t',
      handle_request cwd fuel (Remove p) t = (Val tt, t') /\
      target_entry t' p = None /\
      (target_entry t p = None -> t' = t) /\
      (forall m, valid_name m = true -> m <> n ->
         target_entry t' (rel_path (q ++ [m])) = target_entry t (rel_path (q ++ [m]))) /\
      fs_written (tgt_fs t') = fs_written (tgt_fs t).
Proof.
  intros cwd fuel t troot q n (Hd & Hroot & Hquiet) Hq Hn p. unfold p.
  assert (HP : valid_names (troot ++ q) = true) by now apply valid_names_app.
  assert (Hfull : valid_names ((troot ++ q) ++ [n]) = true).
  { apply valid_names_app. split; [assumption |]. now apply valid_names_cons. }
  destruct (lookup (troot ++ q) (fs_tree (tgt_fs t))) as [[f | es] |] eqn:Hl.
  2: { pose proof (remove_focus cwd _ troot q _ (fs_watched (tgt_fs t)) _ Hl Hroot Hq Hquiet
                     fuel n es (fs_written (tgt_fs t)) Hn) as Hrun.
       rewrite <- (target_refocus t troot q es Hd Hl) in Hrun.
       eexists. split; [exact Hrun |]. split; [| split; [| split]].
       - rewrite (target_entry_focus _ troot q _ _ _ _ _ n Hl Hroot Hq Hn).
         unfold remove_entry. destruct (assoc n es) eqn:E; [apply assoc_del_same | exact E].
       - rewrite (target_entry_lookup t troot q n Hd Hroot Hq Hn), lookup_snoc, Hl.
         intros E. unfold remove_entry. rewrite E. symmetry. now apply target_refocus.
       - intros m Hm Hmn.
         rewrite (target_entry_focus _ troot q _ _ _ _ _ m Hl Hroot Hq Hm).
         rewrite (target_entry_lookup t troot q m Hd Hroot Hq Hm), lookup_snoc, Hl.
         unfold remove_entry. destruct (assoc n es); [| reflexivity].
         apply assoc_del_other. congruence.
       - reflexivity. }
  all: assert (Hnone : lookup ((troot ++ q) ++ [n]) (fs_tree (tgt_fs t)) = None)
         by now rewrite lookup_snoc, Hl.
  all: assert (Hrun : handle_request cwd fuel (Remove (rel_path (q ++ [n]))) t = (Val tt, t)).
  1, 3: unfold handle_request; rewrite bind_get; cbv beta;
        cbn [request_relative_path]; rewrite Hd, (join_root_entry troot q n Hroot Hq Hn);
        unfold bind, tgt_call, zoom; rewrite (exists_quiet _ _ Hquiet); unfold at_path;
        rewrite resolve_abs_path, Hnone by assumption; unfold ret; now destruct t.
  all: exists t; split; [exact Hrun |];
       rewrite (target_entry_lookup t troot q n Hd Hroot Hq Hn), Hnone; auto.
Qed.

(** X3.  [Remove p] returns on every target rooted at a canonical path:
    afterwards nothing stands at [p] (a directory went with all it held),
    the other entries of the parent are what they were and [writefile] was
    not called; when nothing stood at [p] the target is unchanged, so that
    a second [Remove p] is harmless. *)
Theorem remove_postcondition :
  forall (cwd : string) (fuel : nat) (t : ReplicatorTarget)
         (troot q : list string) (n : string),
    canonical_target t troot -> valid_names q = true -> valid_name n = true ->
    let p := rel_path (q ++ [n]) in
    exists t',
      handle_request cwd fuel (Remove p) t = (Val tt, t') /\
      target_entry t' p = None /\
      (target_entry t p = None -> t' = t) /\
      (forall m, valid_name m = true -> m <> n ->
         target_entry t' (rel_path (q ++ [m])) = target_entry t (rel_path (q ++ [m]))) /\
      fs_written (tgt_fs t') = fs_written (tgt_fs t).
Proof.
  intros cwd fuel t troot q n Hc Hq Hn.
  exact (remove_runs cwd fuel t troot q n Hc Hq Hn).
Qed.

Lemma remove_postcondition_witness :
  exists t',
    handle_request "/" 3 (Remove "p") (mkTarget (quiet dir_p) "/t") = (Val tt, t') /\
    target_entry t' "p" = None.
Proof.
  destruct (remove_postcondition "/" 3 (mkTarget (quiet dir_p) "/t") ["t"] [] "p")
    as (t' & H1 & H2 & _).
  - split; [reflexivity | split; [reflexivity | intros op p; reflexivity]].
  - reflexivity.
  - reflexivity.
  - exists t'. split; [exact H1 | exact H2].
Defined.



(** ** The target: what no request touches *)

Section TargetFrame.

Variable cwd : string.

(** The watch registry and the log of physical writes are what they were. *)
Definition fs_keeps (fs fs' : FileSystem) : Prop :=
  fs_watched fs' = fs_watched fs /\ fs_written fs' = fs_written fs.

Definition tgt_keeps (t t' : ReplicatorTarget) : Prop :=
  tgt_dir_path t' = tgt_dir_path t /\ fs_keeps (tgt_fs t) (tgt_fs t').

(** As [tgt_keeps], but the log may have grown by the one entry [x]. *)
Definition tgt_logs (x : string * string) (t t' : ReplicatorTarget) : Prop :=
  tgt_dir_path t' = tgt_dir_path t /\
  fs_watched (tgt_fs t') = fs_watched (tgt_fs t) /\
  (fs_written (tgt_fs t') = fs_written (tgt_fs t) \/
   fs_written (tgt_fs t') = x :: fs_written (tgt_fs t)).

Lemma tgt_keeps_refl t : tgt_keeps t t.
Proof. now unfold tgt_keeps, fs_keeps. Qed.

Lemma tgt_keeps_trans t1 t2 t3 : tgt_keeps t1 t2 -> tgt_keeps t2 t3 -> tgt_keeps t1 t3.
Proof.
  unfold tgt_keeps, fs_keeps. intros (D1 & W1 & L1) (D2 & W2 & L2).
  now rewrite D2, W2, L2.
Qed.

Lemma tgt_logs_refl x t : tgt_logs x t t.
Proof. unfold tgt_logs. auto. Qed.

Lemma tgt_keeps_logs x t1 t2 t3 : tgt_keeps t1 t2 -> tgt_logs x t2 t3 -> tgt_logs x t1 t3.
Proof.
  unfold tgt_keeps, fs_keeps, tgt_logs. intros (D1 & W1 & L1) (D2 & W2 & L2).
  now rewrite D2, W2, <- L1, <- D1.
Qed.

Lemma preserves_bind_absorb {S A B} (P Q : S -> S -> Prop) (m : M S A) (k : A -> M S B) :
  (forall s1 s2 s3, P s1 s2 -> Q s2 s3 -> Q s1 s3) ->
  (forall s1 s2, P s1 s2 -> Q s1 s2) ->
  preserves P m -> (forall a, preserves Q (k a)) -> preserves Q (bind m k).
Proof.
  intros Habs Hincl Hm Hk s r s'. unfold bind.
  destruct (m s) as [[a | e |] s1] eqn:E; intros H.
  - eapply Habs; [eapply Hm, E | eapply Hk, H].
  - inversion H; subst. eapply Hincl, Hm, E.
  - inversion H; subst. eapply Hincl, Hm, E.
Qed.

Lemma tgt_call_keeps {A} (m : M FileSystem A) :
  preserves fs_keeps m -> preserves tgt_keeps (tgt_call m).
Proof.
  intros Hm t r t'. unfold tgt_call, zoom. destruct (m (tgt_fs t)) as [r0 fs'] eqn:E.
  intros H; inversion H; subst. split; [reflexivity | exact (Hm _ _ _ E)].
Qed.

Lemma exists_keeps p : preserves fs_keeps (exists_ p).
Proof.
  intros fs r fs'. unfold exists_, call.
  destruct (fs_faults fs OpExists p); intros H; inversion H; subst; now unfold fs_keeps.
Qed.

Lemma isdir_keeps p : preserves fs_keeps (isdir p).
Proof.
  intros fs r fs'. unfold isdir, call.
  destruct (fs_faults fs OpIsdir p); [| destruct (at_path fs p) as [[] |]];
    intros H; inversion H; subst; now unfold fs_keeps.
Qed.

Lemma listdir_keeps p : preserves fs_keeps (listdir p).
Proof.
  intros fs r fs'. unfold listdir, call.
  destruct (fs_faults fs OpListdir p); [| destruct (at_path fs p) as [[] |]];
    intros H; inversion H; subst; now unfold fs_keeps.
Qed.

Lemma readfile_keeps p : preserves fs_keeps (readfile p).
Proof.
  intros fs r fs'. unfold readfile, call.
  destruct (fs_faults fs OpReadfile p); [| destruct (at_path fs p) as [[] |]];
    intros H; inversion H; subst; now unfold fs_keeps.
Qed.

Lemma removefile_keeps p : preserves fs_keeps (removefile p).
Proof.
  intros fs r fs'. unfold removefile, call.
  destruct (fs_faults fs OpRemovefile p); [| destruct (at_path fs p) as [[] |]];
    intros H; inversion H; subst; now unfold fs_keeps.
Qed.

Lemma removedir_keeps p : preserves fs_keeps (removedir p).
Proof.
  intros fs r fs'. unfold removedir, call.
  destruct (fs_faults fs OpRemovedir p); [| destruct (at_path fs p) as [[] |]];
    intros H; inversion H; subst; now unfold fs_keeps.
Qed.

Lemma makedirs_keeps p : preserves fs_keeps (makedirs p).
Proof.
  intros fs r fs'. unfold makedirs, call.
  destruct (fs_faults fs OpMakedirs p);
    [| destruct (at_path fs p); [| destruct (blocked (resolve p) (fs_tree fs))]];
    intros H; inversion H; subst; now unfold fs_keeps.
Qed.

Lemma writefile_logs p c : preserves (tgt_logs (p, c)) (tgt_call (writefile p c)).
Proof.
  intros t r t'. unfold tgt_call, zoom, writefile, call.
  destruct (fs_faults (tgt_fs t) OpWritefile p).
  { intros H; inversion H; subst. unfold tgt_logs; cbn; auto. }
  destruct (lookup (resolve p) (fs_tree (tgt_fs t))) as [[] |];
    [| intros H; inversion H; subst; unfold tgt_logs; cbn; auto |];
    destruct (lookup (removelast (resolve p)) (fs_tree (tgt_fs t))) as [[] |];
    intros H; inversion H; subst; unfold tgt_logs; cbn; auto.
Qed.

Lemma relpath_or_raise_keeps a b : preserves tgt_keeps (relpath_or_raise cwd a b).
Proof.
  unfold relpath_or_raise. destruct (relpath cwd a b).
  - apply preserves_ret, tgt_keeps_refl.
  - apply preserves_raise, tgt_keeps_refl.
Qed.

Create HintDb keeps.
Local Hint Resolve tgt_keeps_refl tgt_keeps_trans tgt_call_keeps exists_keeps isdir_keeps
  listdir_keeps readfile_keeps removefile_keeps removedir_keeps makedirs_keeps
  relpath_or_raise_keeps : keeps.

Ltac keeps_step :=
  first
    [ apply preserves_ret; apply tgt_keeps_refl
    | apply preserves_get; apply tgt_keeps_refl
    | apply preserves_try_pass
    | apply preserves_bind; [exact tgt_keeps_trans | | intros ?]
    | match goal with
      | |- preserves _ (if ?b then _ else _) => destruct b
      end
    | solve [eauto with keeps] ].

Lemma sync_directory_keeps fuel : forall current_path dirs files,
  preserves tgt_keeps (sync_directory cwd fuel current_path dirs files).
Proof.
  induction fuel as [| fuel IH]; intros current_path dirs files; simpl.
  - apply preserves_diverge, tgt_keeps_refl.
  - apply preserves_bind; [exact tgt_keeps_trans | apply preserves_get, tgt_keeps_refl |].
    intros self. apply preserves_bind; [exact tgt_keeps_trans | eauto with keeps |].
    intros items. apply preserves_for_each; [exact tgt_keeps_refl | exact tgt_keeps_trans |].
    intros item. repeat keeps_step.
Qed.

Lemma handle_request_keeps fuel req :
  (forall p c, req <> Write p c) -> preserves tgt_keeps (handle_request cwd fuel req).
Proof.
  intros Hreq. unfold handle_request.
  apply preserves_bind; [exact tgt_keeps_trans | apply preserves_get, tgt_keeps_refl |].
  intros self. destruct req as [p c | p | p | dirs files p].
  - now destruct (Hreq p c).
  - repeat keeps_step.
  - repeat keeps_step.
  - apply sync_directory_keeps.
Qed.

Lemma handle_write_logs fuel p c t r t' :
  handle_request cwd fuel (Write p c) t = (r, t') ->
  tgt_logs (join (tgt_dir_path t) p, c) t t'.
Proof.
  unfold handle_request. rewrite bind_get. cbv beta. cbn [request_relative_path].
  remember (tgt_dir_path t) as dp eqn:Hdp. clear Hdp. revert t r t'.
  match goal with
  | |- forall t r t', ?m t = _ -> _ => change (preserves (tgt_logs (join dp p, c)) m)
  end.
  assert (Hincl : forall x s1 s2, tgt_keeps s1 s2 -> tgt_logs x s1 s2).
  { intros x s1 s2 (D & W & L). unfold tgt_logs. auto. }
  repeat (apply preserves_bind_absorb with (P := tgt_keeps);
          [apply tgt_keeps_logs | apply Hincl | repeat keeps_step | intros ?]).
  match goal with |- preserves _ (if ?b then _ else _) => destruct b end.
  - apply writefile_logs.
  - apply preserves_ret, tgt_logs_refl.
Qed.

End TargetFrame.

(** X5.  Whatever the request, the state of the target and the outcome --
    the request may fail half-way --, [handle_request] leaves the root path
    of the target and the registry of watches as they were, and it writes a
    file only for a [Write]: at most once, at the path of the request joined
    to the root and with the content of the request.  [MkDir], [Remove] and
    [Sync] write no file. *)
Theorem target_touches_only_the_tree :
  forall (cwd : string) (fuel : nat) (req : request) (t : ReplicatorTarget),
    let t' := snd (handle_request cwd fuel req t) in
    tgt_dir_path t' = tgt_dir_path t /\
    fs_watched (tgt_fs t') = fs_watched (tgt_fs t) /\
    match req with
    | Write p c =>
        fs_written (tgt_fs t') = fs_written (tgt_fs t) \/
        fs_written (tgt_fs t') = (join (tgt_dir_path t) p, c) :: fs_written (tgt_fs t)
    | _ => fs_written (tgt_fs t') = fs_written (tgt_fs t)
    end.
Proof.
  intros cwd fuel req t t'.
  destruct (handle_request cwd fuel req t) as [r t1] eqn:E. subst t'. cbn [snd].
  assert (Hother : (forall p c, req <> Write p c) ->
                   tgt_dir_path t1 = tgt_dir_path t /\
                   fs_watched (tgt_fs t1) = fs_watched (tgt_fs t) /\
                   fs_written (tgt_fs t1) = fs_written (tgt_fs t)).
  { intros Hreq. exact (handle_request_keeps cwd fuel req Hreq _ _ _ E). }
  destruct req as [p c | p | p | dirs files p]; try (apply Hother; discriminate).
  exact (handle_write_logs cwd fuel p c t r t1 E).
Qed.

(** ** Reconciliation: fixed points *)

Section SyncFacts.

Variable cwd : string.
Variables (dirs files : gset string).

Lemma prune_dir rel es : prune dirs files rel (Dir es) = Dir (prune_entries dirs files rel es).
Proof. reflexivity. Qed.

(** [prune] keeps a tree all of whose paths are advertised. *)
Lemma prune_fixed t : forall rel,
  (forall q, In q (dir_paths rel t) -> rel_path q ∈ dirs) ->
  (forall q, In q (file_paths rel t) -> rel_path q ∈ files) ->
  prune dirs files rel t = t.
Proof.
  induction t as [c | es IH] using node_ind; intros rel Hd Hf; [reflexivity |].
  rewrite prune_dir. f_equal.
  induction es as [| [n c] es IHes]; [reflexivity |].
  rewrite prune_entries_cons.
  inversion IH as [| ? ? IHc IHrest]; subst. cbn [snd] in IHc.
  assert (Hrest : prune_entries dirs files rel es = es).
  { apply IHes; [assumption | |].
    - intros q Hq. apply Hd. rewrite dir_paths_cons. apply in_or_app. now right.
    - intros q Hq. apply Hf. rewrite file_paths_cons. apply in_or_app. now right. }
  destruct c as [content | sub].
  - rewrite bool_decide_eq_true_2, Hrest; [reflexivity |].
    apply Hf. rewrite file_paths_cons. apply in_or_app. left. now left.
  - rewrite bool_decide_eq_true_2.
    2: { apply Hd. rewrite dir_paths_cons. apply in_or_app. left. now left. }
    rewrite Hrest.
    assert (E : prune dirs files (rel ++ [n]) (Dir sub) = Dir sub).
    { apply IHc.
      - intros q Hq. apply Hd. rewrite dir_paths_cons. apply in_or_app. left. now right.
      - intros q Hq. apply Hf. rewrite file_paths_cons. apply in_or_app. now left. }
    rewrite prune_dir in E. congruence.
Qed.

Lemma prune_idem t rel :
  prune dirs files rel (prune dirs files rel t) = prune dirs files rel t.
Proof.
  apply prune_fixed.
  - intros q Hq. now apply (dir_paths_prune dirs files t rel q).
  - intros q Hq. now apply (file_paths_prune dirs files t rel q).
Qed.

Lemma prune_entries_incl rel es e :
  In e (prune_entries dirs files rel es) ->
  exists c, In (fst e, c) es /\ snd e = prune dirs files (rel ++ [fst e]) c.
Proof.
  induction es as [| [n c] es IH]; [intros [] |].
  rewrite prune_entries_cons.
  assert (Hrest : In e (prune_entries dirs files rel es) ->
                  exists c0, In (fst e, c0) ((n, c) :: es) /\
                             snd e = prune dirs files (rel ++ [fst e]) c0).
  { intros H. destruct (IH H) as (c0 & Hin & E). exists c0. split; [now right | exact E]. }
  destruct c as [content | sub].
  - destruct (bool_decide _); [| exact Hrest].
    intros [<- | H]; [| now apply Hrest]. exists (File content). split; [now left | reflexivity].
  - destruct (bool_decide _); [| exact Hrest].
    intros [<- | H]; [| now apply Hrest]. exists (Dir sub). split; [now left | reflexivity].
Qed.

Lemma distinct_prune_entries rel es :
  distinct (map fst es) = true -> distinct (map fst (prune_entries dirs files rel es)) = true.
Proof.
  induction es as [| [n c] es IH]; [reflexivity |].
  cbn [map fst]. rewrite distinct_cons. intros [Hn Hd].
  assert (Hkeep : distinct (n :: map fst (prune_entries dirs files rel es)) = true).
  { apply distinct_cons. split; [| now apply IH].
    intros Hin. apply Hn. apply in_map_iff in Hin. destruct Hin as (e & <- & He).
    destruct (prune_entries_incl _ _ _ He) as (c0 & Hin & _).
    apply in_map_iff. now exists (fst e, c0). }
  rewrite prune_entries_cons.
  destruct c as [content | sub]; destruct (bool_decide _); cbn [map fst];
    try exact Hkeep; now apply IH.
Qed.

Lemma wf_prune t : forall rel, wf t = true -> wf (prune dirs files rel t) = true.
Proof.
  induction t as [c | es IH] using node_ind; intros rel Hwf; [reflexivity |].
  rewrite prune_dir. destruct (wf_dir_inv _ Hwf) as (Hv & Hd & Hsub).
  apply wf_dir_intro.
  - apply valid_names_forall. intros n Hn. apply in_map_iff in Hn.
    destruct Hn as (e & <- & He). destruct (prune_entries_incl _ _ _ He) as (c0 & Hin & _).
    apply (proj1 (valid_names_forall _) Hv). apply in_map_iff. now exists (fst e, c0).
  - now apply distinct_prune_entries.
  - intros e He. destruct (prune_entries_incl _ _ _ He) as (c0 & Hin & ->).
    rewrite List.Forall_forall in IH. apply (IH _ Hin). apply (Hsub _ Hin).
Qed.

Lemma height_prune t : forall rel, height (prune dirs files rel t) <= height t.
Proof.
  induction t as [c | es IH] using node_ind; intros rel; [reflexivity |].
  rewrite prune_dir. destruct (height (Dir es)) as [| k] eqn:Hk; [discriminate |].
  apply height_dir_le. intros e He.
  destruct (prune_entries_incl _ _ _ He) as (c0 & Hin & ->).
  rewrite List.Forall_forall in IH. etransitivity; [apply (IH _ Hin) |].
  assert (Hle : height (Dir es) <= S k) by lia.
  exact (proj1 (height_dir_le es k) Hle _ Hin).
Qed.

(** [Sync] on a target whose root is a well-formed directory. *)
Lemma sync_request_prunes fuel troot tree w wr faults rp es :
  valid_names troot = true -> (forall op p, faults op p = None) ->
  lookup troot tree = Some (Dir es) -> wf (Dir es) = true -> height (Dir es) <= fuel ->
  handle_request cwd fuel (Sync dirs files rp)
    (mkTarget (mkFileSystem tree w wr faults) (abs_path troot)) =
  (Val tt,
   mkTarget (mkFileSystem (put troot (prune dirs files [] (Dir es)) tree) w wr faults)
     (abs_path troot)).
Proof.
  intros Hroot Hquiet Hes Hwf Hfuel.
  assert (Hes' : lookup (troot ++ []) tree = Some (Dir es)) by now rewrite app_nil_r.
  unfold handle_request. rewrite bind_get. cbv beta iota. cbn [tgt_dir_path].
  replace (mkTarget (mkFileSystem tree w wr faults) (abs_path troot))
    with (target_at tree troot [] w faults es wr)
    by (unfold target_at, focused; now rewrite (put_id _ _ _ Hes')).
  rewrite <- (app_nil_r troot) at 1.
  rewrite (sync_directory_prunes cwd troot w faults dirs files Hroot Hquiet (Dir es) es
             eq_refl Hwf fuel [] tree (Dir es) wr Hfuel Hes' eq_refl).
  unfold target_at, focused. now rewrite app_nil_r.
Qed.

End SyncFacts.

Lemma target_sets_root (t : ReplicatorTarget) troot root :
  tgt_dir_path t = abs_path troot -> valid_names troot = true ->
  lookup troot (fs_tree (tgt_fs t)) = Some root ->
  target_dirs t = list_to_set (map rel_path (dir_paths [] root)) /\
  target_files t = list_to_set (map rel_path (file_paths [] root)).
Proof.
  intros Hd Hroot Hl. unfold target_dirs, target_files, at_path.
  now rewrite Hd, resolve_abs_path, Hl.
Qed.

(** X6.  [Sync] on a target whose root is a well-formed directory returns
    and leaves only what was advertised and was already there: every
    directory below the root is in [dirs] and every file is in [files], and
    none of them is new.  The result is a fixed point: the same [Sync]
    applied again returns and changes nothing. *)
Theorem sync_result_is_advertised_and_stable :
  forall (cwd : string) (fuel : nat) (t : ReplicatorTarget) (troot : list string)
         (dirs files : gset string) (rp : string) (es : entries),
    canonical_target t troot ->
    lookup troot (fs_tree (tgt_fs t)) = Some (Dir es) ->
    wf (Dir es) = true ->
    height (Dir es) <= fuel ->
    exists t',
      handle_request cwd fuel (Sync dirs files rp) t = (Val tt, t') /\
      target_dirs t' ⊆ dirs ∩ target_dirs t /\
      target_files t' ⊆ files ∩ target_files t /\
      handle_request cwd fuel (Sync dirs files rp) t' = (Val tt, t').
Proof.
  intros cwd fuel t troot dirs files rp es (Hd & Hroot & Hquiet) Hes Hwf Hfuel.
  destruct (target_sets_root t troot (Dir es) Hd Hroot Hes) as [HD HF].
  destruct t as [[tree w wr faults] dp].
  cbn [tgt_dir_path tgt_fs fs_tree fs_faults] in *. subst dp.
  rewrite (sync_request_prunes cwd dirs files fuel troot tree w wr faults rp es)
    by assumption.
  eexists. split; [reflexivity |].
  assert (Hl' : lookup troot (put troot (prune dirs files [] (Dir es)) tree) =
                Some (prune dirs files [] (Dir es))) by now apply lookup_put_same with (Dir es).
  destruct (target_sets_root
              (mkTarget (mkFileSystem (put troot (prune dirs files [] (Dir es)) tree) w wr faults)
                 (abs_path troot)) troot _ eq_refl Hroot Hl') as [HD' HF'].
  split; [| split].
  - rewrite HD', HD. intros x Hx.
    apply elem_of_list_to_set, list_elem_of_In, in_map_iff in Hx. destruct Hx as (q & <- & Hq).
    destruct (dir_paths_prune dirs files _ _ _ Hq) as [Ha Hin].
    apply elem_of_intersection. split; [exact Ha |].
    apply elem_of_list_to_set, list_elem_of_In, in_map_iff. now exists q.
  - rewrite HF', HF. intros x Hx.
    apply elem_of_list_to_set, list_elem_of_In, in_map_iff in Hx. destruct Hx as (q & <- & Hq).
    destruct (file_paths_prune dirs files _ _ _ Hq) as [Ha Hin].
    apply elem_of_intersection. split; [exact Ha |].
    apply elem_of_list_to_set, list_elem_of_In, in_map_iff. now exists q.
  - rewrite (sync_request_prunes cwd dirs files fuel troot _ w wr faults rp
               (prune_entries dirs files [] es)); try assumption.
    + change (Dir (prune_entries dirs files [] es)) with (prune dirs files [] (Dir es)).
      rewrite prune_idem. now rewrite (put_put _ _ _ _ _ Hes).
    + change (Dir (prune_entries dirs files [] es)) with (prune dirs files [] (Dir es)).
      now apply wf_prune.
    + change (Dir (prune_entries dirs files [] es)) with (prune dirs files [] (Dir es)).
      etransitivity; [apply height_prune | exact Hfuel].
Qed.

Lemma sync_result_is_advertised_and_stable_witness :
  exists t',
    handle_request "/" 5 (Sync {["a"]} {["a/keep.txt"]} "") (mkTarget (quiet drifted) "/t") =
      (Val tt, t') /\
    target_dirs t' ⊆ {["a"]} ∩ target_dirs (mkTarget (quiet drifted) "/t") /\
    target_files t' ⊆ {["a/keep.txt"]} ∩ target_files (mkTarget (quiet drifted) "/t") /\
    handle_request "/" 5 (Sync {["a"]} {["a/keep.txt"]} "") t' = (Val tt, t').
Proof.
  apply (sync_result_is_advertised_and_stable "/" 5 (mkTarget (quiet drifted) "/t") ["t"]
           {["a"]} {["a/keep.txt"]} ""
           [("a", Dir [("b", Dir []); ("keep.txt", File "k"); ("extra.txt", File "e")]);
            ("x", Dir [("y", File "1")])]).
  - split; [reflexivity | split; [reflexivity | intros op p; reflexivity]].
  - reflexivity.
  - reflexivity.
  - vm_compute. lia.
Defined.

(** X7.  [Sync] changes nothing on a target all of whose directories are in
    [dirs] and all of whose files are in [files]: it returns and the target
    is what it was. *)
Theorem sync_keeps_an_advertised_target :
  forall (cwd : string) (fuel : nat) (t : ReplicatorTarget) (troot : list string)
         (dirs files : gset string) (rp : string) (es : entries),
    canonical_target t troot ->
    lookup troot (fs_tree (tgt_fs t)) = Some (Dir es) ->
    wf (Dir es) = true ->
    height (Dir es) <= fuel ->
    target_dirs t ⊆ dirs -> target_files t ⊆ files ->
    handle_request cwd fuel (Sync dirs files rp) t = (Val tt, t).
Proof.
  intros cwd fuel t troot dirs files rp es (Hd & Hroot & Hquiet) Hes Hwf Hfuel HsubD HsubF.
  destruct (target_sets_root t troot (Dir es) Hd Hroot Hes) as [HD HF].
  rewrite HD in HsubD. rewrite HF in HsubF.
  destruct t as [[tree w wr faults] dp].
  cbn [tgt_dir_path tgt_fs fs_tree fs_faults] in *. subst dp.
  rewrite (sync_request_prunes cwd dirs files fuel troot tree w wr faults rp es)
    by assumption.
  rewrite prune_fixed.
  - now rewrite (put_id _ _ _ Hes).
  - intros q Hq. apply HsubD.
    apply elem_of_list_to_set, list_elem_of_In, in_map_iff. now exists q.
  - intros q Hq. apply HsubF.
    apply elem_of_list_to_set, list_elem_of_In, in_map_iff. now exists q.
Qed.

Lemma sync_keeps_an_advertised_target_witness :
  handle_request "/" 5 (Sync {["p"; "other"]} {["p/inner"]} "") (mkTarget (quiet dir_p) "/t") =
    (Val tt, mkTarget (quiet dir_p) "/t").
Proof.
  apply (sync_keeps_an_advertised_target "/" 5 (mkTarget (quiet dir_p) "/t") ["t"]
           {["p"; "other"]} {["p/inner"]} "" [("p", Dir [("inner", File "z")])]).
  - split; [reflexivity | split; [reflexivity | intros op p; reflexivity]].
  - reflexivity.
  - reflexivity.
  - vm_compute. lia.
  - refine (proj1 (bool_decide_eq_true _) _). vm_compute. reflexivity.
  - refine (proj1 (bool_decide_eq_true _) _). vm_compute. reflexivity.
Defined.

(** ** The source: the requests of a walk *)

(** The requests that the walk of the directory [t] hands to the transport,
    in the order in which it does; [rel] are the components of the relative
    path of [t]. *)
Fixpoint walk_requests (rel : list string) (t : node) : list request :=
  match t with
  | File _ => []
  | Dir es =>
      flat_map (fun e => match snd e with
                         | Dir _ => MkDir (rel_path (rel ++ [fst e]))
                                    :: walk_requests (rel ++ [fst e]) (snd e)
                         | File content => [Write (rel_path (rel ++ [fst e])) content]
                         end) es
  end.

Lemma walk_requests_cons rel n c es :
  walk_requests rel (Dir ((n, c) :: es)) =
    (match c with
     | Dir _ => MkDir (rel_path (rel ++ [n])) :: walk_requests (rel ++ [n]) c
     | File content => [Write (rel_path (rel ++ [n])) content]
     end) ++ walk_requests rel (Dir es).
Proof. reflexivity. Qed.

Section WalkSends.

Context {R : Type}.
Variable rpc_handle : request -> M R unit.
Variables (sroot : list string) (T : node).
Hypothesis Hsroot : valid_names sroot = true.

(** In a settled source, [m] hands exactly the requests [reqs] to the
    transport, in this order and up to the first one that does not return;
    its outcome is the outcome of the last request handed over; when all
    return, [m] has registered a watch on the directories [ws]. *)
Definition performs (m : M (ReplicatorSource R) unit) (reqs : list request)
    (ws : list (list string)) : Prop :=
  forall s, settled sroot T s ->
    exists s',
      m s = (fst (for_each reqs rpc_handle (src_peer s)), s') /\
      src_peer s' = snd (for_each reqs rpc_handle (src_peer s)) /\
      settled sroot T s' /\
      (fst (for_each reqs rpc_handle (src_peer s)) = Val tt ->
       fs_watched (src_fs s') = list_to_set ws ∪ fs_watched (src_fs s)).

Lemma performs_ext m m' reqs ws :
  (forall s, settled sroot T s -> m s = m' s) -> performs m' reqs ws -> performs m reqs ws.
Proof. intros E H s Hs. rewrite (E s Hs). now apply H. Qed.

Lemma performs_app m1 m2 l1 l2 w1 w2 :
  performs m1 l1 w1 -> performs m2 l2 w2 -> performs (m1 >> m2) (l1 ++ l2) (w1 ++ w2).
Proof.
  intros H1 H2 s Hs. destruct (H1 s Hs) as (s1 & E1 & P1 & S1 & W1).
  rewrite for_each_app. unfold bind. rewrite E1.
  destruct (for_each l1 rpc_handle (src_peer s)) as [[[] | e |] p1]; cbn [fst snd] in *.
  - destruct (H2 s1 S1) as (s2 & E2 & P2 & S2 & W2). rewrite P1 in *.
    exists s2. split; [exact E2 |]. split; [exact P2 |]. split; [exact S2 |].
    intros Hv. rewrite (W2 Hv), (W1 eq_refl), list_to_set_app_L. set_solver.
  - exists s1. split; [reflexivity |]. split; [exact P1 |]. split; [exact S1 | discriminate].
  - exists s1. split; [reflexivity |]. split; [exact P1 |]. split; [exact S1 | discriminate].
Qed.

Lemma performs_rpc req : performs (rpc rpc_handle req) [req] [].
Proof.
  intros s (Ht & Hq & Hd). cbn [for_each]. unfold rpc, zoom, bind.
  destruct (rpc_handle req (src_peer s)) as [[[] | e |] p1]; cbn [fst snd ret];
    eexists; (split; [reflexivity |]); (split; [reflexivity |]);
    (split; [split; [exact Ht | split; [exact Hq | exact Hd]] |]); intros _; cbn; set_solver.
Qed.

Lemma performs_silent (m : M (ReplicatorSource R) unit) ws :
  (forall s, settled sroot T s ->
     exists s', m s = (Val tt, s') /\ src_peer s' = src_peer s /\ settled sroot T s' /\
                fs_watched (src_fs s') = list_to_set ws ∪ fs_watched (src_fs s)) ->
  performs m [] ws.
Proof.
  intros H s Hs. destruct (H s Hs) as (s' & E & P & S' & W).
  exists s'. cbn. split; [exact E |]. split; [exact P |]. split; [exact S' |]. intros _. exact W.
Qed.

Lemma performs_dirs_add p : performs (watch_dirs_add p) [] [].
Proof.
  apply performs_silent. intros s (Ht & Hq & Hd). eexists. split; [reflexivity |].
  cbn. split; [reflexivity |]. split; [split; [exact Ht | split; [exact Hq | exact Hd]] |].
  set_solver.
Qed.

Lemma performs_files_add p : performs (watch_files_add p) [] [].
Proof.
  apply performs_silent. intros s (Ht & Hq & Hd). eexists. split; [reflexivity |].
  cbn. split; [reflexivity |]. split; [split; [exact Ht | split; [exact Hq | exact Hd]] |].
  set_solver.
Qed.

Lemma performs_watchdir l es :
  valid_names l = true -> lookup l T = Some (Dir es) ->
  performs (src_call (watchdir (abs_path l))) [] [l].
Proof.
  intros Hl H. apply performs_silent. intros s (Ht & Hq & Hd).
  unfold src_call, zoom, watchdir, call, at_path.
  rewrite Hq, resolve_abs_path, Ht, H by assumption. cbv beta iota.
  eexists. split; [reflexivity |]. cbn.
  split; [reflexivity |]. split; [split; [exact Ht | split; [exact Hq | exact Hd]] |].
  set_solver.
Qed.

(** The walk of a well-formed directory of the source hands over the
    requests [walk_requests] and registers a watch on every directory
    below. *)
Lemma walk_performs t :
  forall ses, t = Dir ses -> wf t = true ->
  forall q, valid_names q = true -> lookup (sroot ++ q) T = Some t ->
    performs (walk rpc_handle sroot q t) (walk_requests q t)
      (map (app sroot) (dir_paths q t)).
Proof.
  induction t as [c | ses IH] using node_ind; intros ses0 Et Hwf q Hq Ht; [discriminate |].
  injection Et as <-.
  destruct (wf_dir_inv _ Hwf) as (Hnames & Hdist & Hsub).
  assert (Hdir : valid_names (sroot ++ q) = true) by now apply valid_names_app.
  assert (Loop : forall rest,
             (forall e, In e rest -> In e ses) ->
             performs (walk rpc_handle sroot q (Dir rest)) (walk_requests q (Dir rest))
               (map (app sroot) (dir_paths q (Dir rest)))).
  2:{ now apply (Loop ses). }
  induction rest as [| [n c] rest IHrest]; intros Hsub'.
  { apply performs_silent. intros s Hs. exists s. cbn.
    split; [reflexivity |]. split; [reflexivity |]. split; [exact Hs | set_solver]. }
  assert (Hin : In (n, c) ses) by (apply Hsub'; now left).
  assert (Hn : valid_name n = true).
  { apply (valid_names_In _ _ Hnames). now apply (in_map fst _ (n, c)). }
  assert (Hc : lookup ((sroot ++ q) ++ [n]) T = Some c).
  { rewrite lookup_snoc, Ht. now apply assoc_distinct. }
  assert (Hfull : valid_names ((sroot ++ q) ++ [n]) = true).
  { apply valid_names_app. split; [assumption |]. now apply valid_names_cons. }
  rewrite walk_cons, walk_requests_cons, dir_paths_cons, map_app.
  apply performs_app; [| apply IHrest; intros e He; apply Hsub'; now right].
  destruct c as [content | sub]; cbn [walk_entry].
  - change [Write (rel_path (q ++ [n])) content]
      with ([Write (rel_path (q ++ [n])) content] ++ []).
    change (map (app sroot) []) with (([] : list (list string)) ++ []).
    apply performs_app; [apply performs_rpc | apply performs_files_add].
  - change (MkDir (rel_path (q ++ [n])) :: walk_requests (q ++ [n]) (Dir sub))
      with ([MkDir (rel_path (q ++ [n]))] ++ [] ++ [] ++ walk_requests (q ++ [n]) (Dir sub)).
    change (map (app sroot) ((q ++ [n]) :: dir_paths (q ++ [n]) (Dir sub)))
      with ([] ++ [] ++ [sroot ++ q ++ [n]] ++ map (app sroot) (dir_paths (q ++ [n]) (Dir sub))).
    apply performs_app; [apply performs_rpc |].
    apply performs_app; [apply performs_dirs_add |].
    apply performs_app.
    + rewrite app_assoc. now apply performs_watchdir with sub.
    + rewrite List.Forall_forall in IH.
      apply (IH (n, Dir sub) Hin sub eq_refl (Hsub (n, Dir sub) Hin)).
      * apply valid_names_app. split; [assumption |]. now apply valid_names_cons.
      * now rewrite app_assoc.
Qed.

End WalkSends.

(** The constructor in an environment that makes no call fail. *)
Lemma constructor_trace :
  forall (R : Type) (cwd : string) (rpc_handle : request -> M R unit) (fuel : nat)
         (fs : FileSystem) (sroot : list string) (peer : R) (es : entries),
    quiet_fs fs -> valid_names sroot = true ->
    lookup sroot (fs_tree fs) = Some (Dir es) -> wf (Dir es) = true ->
    height (Dir es) <= fuel ->
    let dirs : gset string :=
      {[abs_path sroot]} ∪ list_to_set (map rel_path (dir_paths [] (Dir es))) in
    let files : gset string := list_to_set (map rel_path (file_paths [] (Dir es))) in
    let sent :=
      for_each (walk_requests [] (Dir es) ++ [Sync dirs files ""]) rpc_handle peer in
    exists s',
      construct cwd rpc_handle fuel fs (abs_path sroot) peer = (fst sent, s') /\
      src_peer s' = snd sent /\
      (fst sent = Val tt ->
       src_watch_dirs s' = dirs /\ src_watch_files s' = files /\
       fs_watched (src_fs s') =
         {[sroot]} ∪ list_to_set (map (app sroot) (dir_paths [] (Dir es))) ∪ fs_watched fs).
Proof.
  intros R cwd rpc_handle fuel fs sroot peer es Hquiet Hsroot Hes Hwf Hfuel dirs files sent.
  set (T := fs_tree fs).
  assert (Hes0 : lookup (sroot ++ []) T = Some (Dir es)) by now rewrite app_nil_r.
  unfold construct, init. rewrite bind_get. cbv beta. cbn [new_source src_dir_path].
  erewrite bind_val; [| reflexivity]. cbv beta.
  set (sa := mkSource fs (abs_path sroot) ({[abs_path sroot]} ∪ ∅) ∅ peer).
  assert (Hsa : settled sroot T sa) by (split; [reflexivity | split; [exact Hquiet | reflexivity]]).
  destruct (performs_watchdir rpc_handle sroot T Hsroot sroot es Hsroot Hes sa Hsa)
    as (sb & Eb & Pb & Sb & Wb).
  cbn [for_each ret fst snd] in Eb, Pb, Wb. specialize (Wb eq_refl).
  rewrite (bind_val _ _ _ _ _ Eb). cbv beta.
  pose proof (replicate_directory_is_walk cwd rpc_handle sroot T Hsroot (Dir es) es eq_refl Hwf
                fuel [] sb Hfuel eq_refl Sb Hes0) as Ewalk.
  rewrite app_nil_r in Ewalk.
  destruct (walk_performs rpc_handle sroot T Hsroot (Dir es) es eq_refl Hwf [] eq_refl Hes0
              sb Sb) as (s1 & E1 & P1 & S1 & W1).
  rewrite <- Ewalk, Pb in E1. rewrite Pb in P1, W1. cbn [src_peer sa] in E1, P1, W1.
  unfold sent. rewrite for_each_app.
  change ((for_each (walk_requests [] (Dir es)) rpc_handle >>
           for_each [Sync dirs files ""] rpc_handle) peer)
    with (match for_each (walk_requests [] (Dir es)) rpc_handle peer with
          | (Val _, p) => for_each [Sync dirs files ""] rpc_handle p
          | (Exn e, p) => (Exn e, p)
          | (Diverge, p) => (Diverge, p)
          end).
  destruct (for_each (walk_requests [] (Dir es)) rpc_handle peer) as [[[] | e |] p1] eqn:EX;
    cbn [fst snd] in *.
  - rewrite (bind_val _ _ _ _ _ E1). cbv beta. rewrite bind_get. cbv beta.
    rewrite Ewalk in E1. destruct (walk_sets _ _ _ _ _ _ E1) as [Hd Hf].
    assert (Hdb : src_watch_dirs sb = {[abs_path sroot]} /\ src_watch_files sb = ∅).
    { apply src_call_keeps_sets in Eb as (D & F & _). cbn in D, F. rewrite D, F.
      split; [set_solver | reflexivity]. }
    destruct Hdb as [Hdb Hfb]. rewrite Hdb in Hd. rewrite Hfb in Hf.
    assert (Hd' : src_watch_dirs s1 = dirs) by exact Hd.
    assert (Hf' : src_watch_files s1 = files) by (rewrite Hf; unfold files; set_solver).
    rewrite Hd', Hf'. unfold rpc, zoom. rewrite P1. cbn [for_each]. unfold bind.
    destruct (rpc_handle (Sync dirs files "") p1) as [[[] | e |] p2]; cbn [fst snd ret];
      eexists; (split; [reflexivity |]); (split; [reflexivity |]);
      try discriminate.
    intros _. cbn [src_watch_dirs src_watch_files src_fs].
    split; [exact Hd' | split; [exact Hf' |]].
    rewrite (W1 eq_refl), Wb. cbn [sa src_fs]. set_solver.
  - rewrite (bind_exn _ _ _ _ _ E1). exists s1. split; [reflexivity |].
    split; [exact P1 | discriminate].
  - rewrite (bind_div _ _ _ _ E1). exists s1. split; [reflexivity |].
    split; [exact P1 | discriminate].
Qed.

(** X8.  In an environment that makes no call fail, the constructor run on
    a well-formed source tree hands to the transport the requests of the
    walk of the root, in walk order -- for every directory its [MkDir], then
    the requests of what it holds; for every file its [Write] with the
    content read -- and then one [Sync] that carries the two watch sets.  It
    stops at the first request that the transport does not answer normally,
    and its outcome is the outcome of the last request handed over.  When
    all return, the watched directories are the root path and the relative
    paths of all directories below, the watched files are the relative paths
    of all files, and a watch is registered on the root and on every
    directory below it. *)
Theorem constructor_sends_walk_then_sync :
  forall (R : Type) (cwd : string) (rpc_handle : request -> M R unit) (fuel : nat)
         (fs : FileSystem) (sroot : list string) (peer : R) (es : entries),
    quiet_fs fs -> valid_names sroot = true ->
    lookup sroot (fs_tree fs) = Some (Dir es) -> wf (Dir es) = true ->
    height (Dir es) <= fuel ->
    let dirs : gset string :=
      {[abs_path sroot]} ∪ list_to_set (map rel_path (dir_paths [] (Dir es))) in
    let files : gset string := list_to_set (map rel_path (file_paths [] (Dir es))) in
    let sent :=
      for_each (walk_requests [] (Dir es) ++ [Sync dirs files ""]) rpc_handle peer in
    exists s',
      construct cwd rpc_handle fuel fs (abs_path sroot) peer = (fst sent, s') /\
      src_peer s' = snd sent /\
      (fst sent = Val tt ->
       src_watch_dirs s' = dirs /\ src_watch_files s' = files /\
       fs_watched (src_fs s') =
         {[sroot]} ∪ list_to_set (map (app sroot) (dir_paths [] (Dir es))) ∪ fs_watched fs).
Proof.
  intros R cwd rpc_handle fuel fs sroot peer es Hquiet Hsroot Hes Hwf Hfuel.
  exact (constructor_trace R cwd rpc_handle fuel fs sroot peer es Hquiet Hsroot Hes Hwf Hfuel).
Qed.

Lemma constructor_sends_walk_then_sync_witness :
  exists s',
    construct "/" recorder 3 (quiet docs_src) "/src" [] = (Val tt, s') /\
    src_peer s' =
      [MkDir "docs"; Write "docs/a.txt" "hello"; Sync {["/src"; "docs"]} {["docs/a.txt"]} ""].
Proof.
  destruct (constructor_sends_walk_then_sync (list request) "/" recorder 3 (quiet docs_src)
              ["src"] [] [("docs", Dir [("a.txt", File "hello")])])
    as (s' & E & P & _).
  - intros op p. reflexivity.
  - reflexivity.
  - reflexivity.
  - reflexivity.
  - vm_compute. lia.
  - exists s'. rewrite recorder_records in E, P. cbn [fst snd] in E, P.
    split; [exact E |]. rewrite P. reflexivity.
Defined.

(** ** The order of the requests of a walk *)

(** [a] stands before [b] in [l]. *)
Definition before {A} (a b : A) (l : list A) : Prop :=
  exists l1 l2 l3, l = l1 ++ a :: l2 ++ b :: l3.

Section WalkOrder.

Lemma before_app_l {A} (a b : A) l r : before a b l -> before a b (l ++ r).
Proof.
  intros (l1 & l2 & l3 & ->). exists l1, l2, (l3 ++ r).
  now rewrite <- !app_assoc, <- !app_comm_cons, <- app_assoc.
Qed.

Lemma before_app_r {A} (a b : A) l r : before a b l -> before a b (r ++ l).
Proof. intros (l1 & l2 & l3 & ->). exists (r ++ l1), l2, l3. now rewrite <- app_assoc. Qed.

Lemma before_head {A} (a b : A) l : In b l -> before a b (a :: l).
Proof. intros H. apply in_split in H as (l2 & l3 & ->). now exists [], l2, l3. Qed.

(** Every request of the walk of [t] bears the relative path of an entry
    below [t]. *)
Lemma walk_requests_paths t : forall rel r,
  wf t = true -> In r (walk_requests rel t) ->
  exists q, q <> [] /\ valid_names q = true /\ request_relative_path r = rel_path (rel ++ q).
Proof.
  induction t as [c | es IH] using node_ind; intros rel r Hwf Hr; [destruct Hr |].
  destruct (wf_dir_inv _ Hwf) as (Hnames & _ & Hsub).
  cbn [walk_requests] in Hr. apply in_flat_map in Hr as ([n c] & Hin & Hr). cbn [fst snd] in Hr.
  assert (Hn : valid_name n = true).
  { apply (valid_names_In _ _ Hnames). now apply (in_map fst _ (n, c)). }
  assert (Hone : valid_names [n] = true) by now apply valid_names_cons.
  destruct c as [content | sub].
  - destruct Hr as [<- | []]. exists [n]. now repeat split.
  - destruct Hr as [<- | Hr]; [exists [n]; now repeat split |].
    rewrite List.Forall_forall in IH.
    destruct (IH (n, Dir sub) Hin (rel ++ [n]) r (Hsub _ Hin) Hr) as (q & Hq & Hv & E).
    exists (n :: q). split; [discriminate |]. split.
    + now apply valid_names_cons.
    + now rewrite E, <- app_assoc.
Qed.

(** In the requests of a walk, the [MkDir] of a directory stands before
    every request for a path below that directory. *)
Lemma walk_requests_parents_first t : forall rel r q1 q2,
  wf t = true -> valid_names rel = true ->
  In r (walk_requests rel t) ->
  valid_names q1 = true -> valid_names q2 = true -> q1 <> [] -> q2 <> [] ->
  request_relative_path r = rel_path (rel ++ q1 ++ q2) ->
  before (MkDir (rel_path (rel ++ q1))) r (walk_requests rel t).
Proof.
  induction t as [c | es IH] using node_ind;
    intros rel r q1 q2 Hwf Hrel Hr Hq1 Hq2 Hne1 Hne2 Hpath; [destruct Hr |].
  destruct (wf_dir_inv _ Hwf) as (Hnames & _ & Hsub).
  cbn [walk_requests] in *. apply in_flat_map in Hr as ([n c] & Hin & Hr).
  destruct (in_split _ _ Hin) as (A & B & ->).
  rewrite flat_map_app. apply before_app_r. cbn [flat_map]. apply before_app_l.
  cbn [fst snd] in *.
  assert (Hn : valid_name n = true).
  { apply (valid_names_In _ _ Hnames). now apply (in_map fst _ (n, c)). }
  assert (Hv12 : valid_names (rel ++ q1 ++ q2) = true).
  { apply valid_names_app. split; [assumption |]. now apply valid_names_app. }
  assert (Hshort : forall q, valid_names q = true ->
             rel_path (rel ++ q) = rel_path (rel ++ q1 ++ q2) -> q = q1 ++ q2).
  { intros q Hq E. apply rel_path_inj in E; [now apply app_inv_head in E | | assumption].
    now apply valid_names_app. }
  assert (Hlong : [n] <> q1 ++ q2).
  { destruct q1 as [| a [| b q1]]; [congruence | | discriminate].
    destruct q2; [congruence | discriminate]. }
  destruct c as [content | sub].
  - destruct Hr as [<- | []]. cbn [request_relative_path] in Hpath.
    apply Hshort in Hpath; [contradiction | now apply valid_names_cons].
  - destruct Hr as [<- | Hr].
    { cbn [request_relative_path] in Hpath.
      apply Hshort in Hpath; [contradiction | now apply valid_names_cons]. }
    destruct (walk_requests_paths _ _ _ (Hsub _ Hin) Hr) as (q & Hq & Hv & E).
    rewrite <- app_assoc in E. rewrite E in Hpath.
    apply Hshort in Hpath; [| now apply valid_names_cons].
    destruct q1 as [| a q1]; [congruence |]. cbn [app] in Hpath.
    injection Hpath as <- ->.
    destruct q1 as [| b q1].
    + now apply before_head.
    + apply (before_app_r _ _ _ [MkDir (rel_path (rel ++ [n]))]).
      replace (rel ++ n :: b :: q1) with ((rel ++ [n]) ++ b :: q1) by now rewrite <- app_assoc.
      rewrite List.Forall_forall in IH.
      apply (IH (n, Dir sub) Hin (rel ++ [n]) r (b :: q1) q2); try assumption.
      * apply (Hsub _ Hin).
      * apply valid_names_app. split; [assumption |]. now apply valid_names_cons.
      * apply valid_names_cons in Hq1 as [_ Hq1]. exact Hq1.
      * discriminate.
      * now rewrite E, <- app_assoc.
Qed.

End WalkOrder.

(** X9.  In the stream of requests that the constructor sends, run on a
    well-formed source tree in an environment that makes no call fail, the
    [MkDir] of a directory stands before every request that bears a path
    below that directory. *)
Theorem constructor_makes_directories_first :
  forall (cwd : string) (fuel : nat) (fs : FileSystem) (sroot : list string) (es : entries),
    quiet_fs fs -> valid_names sroot = true ->
    lookup sroot (fs_tree fs) = Some (Dir es) -> wf (Dir es) = true ->
    height (Dir es) <= fuel ->
    exists s',
      construct cwd recorder fuel fs (abs_path sroot) [] = (Val tt, s') /\
      forall r q1 q2,
        In r (src_peer s') ->
        valid_names q1 = true -> valid_names q2 = true -> q1 <> [] -> q2 <> [] ->
        request_relative_path r = rel_path (q1 ++ q2) ->
        before (MkDir (rel_path q1)) r (src_peer s').
Proof.
  intros cwd fuel fs sroot es Hquiet Hsroot Hes Hwf Hfuel.
  destruct (constructor_trace (list request) cwd recorder fuel fs sroot [] es
              Hquiet Hsroot Hes Hwf Hfuel) as (s' & E & P & _).
  rewrite recorder_records in E, P. cbn [fst snd app] in E, P.
  exists s'. split; [exact E |]. rewrite P.
  intros r q1 q2 Hr Hq1 Hq2 Hne1 Hne2 Hpath.
  apply before_app_l. apply in_app_or in Hr as [Hr | [<- | []]].
  - now apply (walk_requests_parents_first (Dir es) [] r q1 q2).
  - exfalso. cbn [request_relative_path] in Hpath.
    assert (Hv : valid_names (q1 ++ q2) = true) by now apply valid_names_app.
    destruct (q1 ++ q2) as [| a l] eqn:E12.
    + apply app_eq_nil in E12 as [-> _]. congruence.
    + symmetry in Hpath. revert Hpath. now apply sep_join_nonempty.
Qed.

Lemma constructor_makes_directories_first_witness :
  exists s',
    construct "/" recorder 3 (quiet docs_src) "/src" [] = (Val tt, s') /\
    before (MkDir "docs") (Write "docs/a.txt" "hello") (src_peer s').
Proof.
  destruct (constructor_makes_directories_first "/" 3 (quiet docs_src) ["src"]
              [("docs", Dir [("a.txt", File "hello")])]) as (s' & E & H).
  - intros op p. reflexivity.
  - reflexivity.
  - reflexivity.
  - reflexivity.
  - vm_compute. lia.
  - exists s'. split; [exact E |].
    apply (H (Write "docs/a.txt" "hello") ["docs"] ["a.txt"]);
      try reflexivity; try discriminate.
    pose proof (f_equal snd E) as Es. cbn [snd] in Es. rewrite <- Es.
    vm_compute. right. left. reflexivity.
Defined.

(** X10.  An [Added] event for a directory, handled in an environment that
    makes no call fail: the handler hands to the transport the requests of
    the walk of the new directory and, after them, the [MkDir] of the
    directory itself; it stops at the first request that the transport does
    not answer normally, and its outcome is the outcome of the last request
    handed over.  When all return, the relative path of the directory and
    those of all directories below it have joined the watched directories,
    the relative path of the directory and those of all files below it have
    joined the watched files, and a watch is registered on the directory and
    on every directory below it. *)
Theorem added_directory_walks_then_makes :
  forall (R : Type) (cwd : string) (rpc_handle : request -> M R unit) (fuel : nat)
         (s : ReplicatorSource R) (sroot q : list string) (es : entries),
    quiet_fs (src_fs s) -> src_dir_path s = abs_path sroot ->
    valid_names sroot = true -> valid_names q = true -> q <> [] ->
    lookup (sroot ++ q) (fs_tree (src_fs s)) = Some (Dir es) -> wf (Dir es) = true ->
    height (Dir es) <= fuel ->
    let rel := rel_path q in
    let sent :=
      for_each (walk_requests q (Dir es) ++ [MkDir rel]) rpc_handle (src_peer s) in
    exists s',
      handle_event cwd rpc_handle fuel (mkEvent FILE_OR_SUBDIR_ADDED (abs_path (sroot ++ q))) s =
        (fst sent, s') /\
      src_peer s' = snd sent /\
      (fst sent = Val tt ->
       src_watch_dirs s' =
         {[rel]} ∪ src_watch_dirs s ∪ list_to_set (map rel_path (dir_paths q (Dir es))) /\
       src_watch_files s' =
         {[rel]} ∪ src_watch_files s ∪ list_to_set (map rel_path (file_paths q (Dir es))) /\
       fs_watched (src_fs s') =
         {[sroot ++ q]} ∪ list_to_set (map (app sroot) (dir_paths q (Dir es)))
           ∪ fs_watched (src_fs s)).
Proof.
  intros R cwd rpc_handle fuel s sroot q es Hquiet Hdp Hsroot Hq Hne Hes Hwf Hfuel rel sent.
  set (T := fs_tree (src_fs s)).
  assert (Hs : settled sroot T s) by (split; [reflexivity | split; assumption]).
  assert (Hfull : valid_names (sroot ++ q) = true) by now apply valid_names_app.
  unfold handle_event. rewrite bind_get. cbv beta.
  unfold relpath_or_raise. cbn [event_type path].
  rewrite Hdp, (relpath_abs_path cwd sroot q Hsroot Hq), bind_ret. cbv beta iota.
  rewrite (bind_val _ _ _ _ _ (src_isdir_run sroot T s (sroot ++ q) (Dir es) Hs Hfull Hes)).
  cbn [is_dir]. cbv beta iota.
  rewrite bind_assoc. erewrite bind_val; [| reflexivity]. cbv beta.
  set (sa := mkSource (src_fs s) (src_dir_path s) ({[rel_path q]} ∪ src_watch_dirs s)
               (src_watch_files s) (src_peer s)).
  assert (Hsa : settled sroot T sa) by (destruct Hs as (? & ? & ?); now repeat split).
  destruct (performs_watchdir rpc_handle sroot T Hsroot (sroot ++ q) es Hfull Hes sa Hsa)
    as (sb & Eb & Pb & Sb & Wb).
  cbn [for_each ret fst snd] in Eb, Pb, Wb. specialize (Wb eq_refl).
  rewrite bind_assoc, (bind_val _ _ _ _ _ Eb). cbv beta.
  pose proof (replicate_directory_is_walk cwd rpc_handle sroot T Hsroot (Dir es) es eq_refl Hwf
                fuel q sb Hfuel Hq Sb Hes) as Ewalk.
  destruct (walk_performs rpc_handle sroot T Hsroot (Dir es) es eq_refl Hwf q Hq Hes
              sb Sb) as (s1 & E1 & P1 & S1 & W1).
  rewrite <- Ewalk, Pb in E1. rewrite Pb in P1, W1. cbn [src_peer sa] in E1, P1, W1.
  unfold sent. rewrite for_each_app.
  change ((for_each (walk_requests q (Dir es)) rpc_handle >>
           for_each [MkDir rel] rpc_handle) (src_peer s))
    with (match for_each (walk_requests q (Dir es)) rpc_handle (src_peer s) with
          | (Val _, p) => for_each [MkDir rel] rpc_handle p
          | (Exn e, p) => (Exn e, p)
          | (Diverge, p) => (Diverge, p)
          end).
  rewrite bind_assoc.
  destruct (for_each (walk_requests q (Dir es)) rpc_handle (src_peer s))
    as [[[] | e |] p1] eqn:EX; cbn [fst snd] in *.
  - rewrite (bind_val _ _ _ _ _ E1). cbv beta. rewrite bind_ret. cbv beta.
    rewrite Ewalk in E1. destruct (walk_sets _ _ _ _ _ _ E1) as [Hd Hf].
    assert (Hdb : src_watch_dirs sb = {[rel]} ∪ src_watch_dirs s /\
                  src_watch_files sb = src_watch_files s).
    { apply src_call_keeps_sets in Eb as (D & F & _). cbn in D, F. now rewrite D, F. }
    destruct Hdb as [Hdb Hfb]. rewrite Hdb in Hd. rewrite Hfb in Hf.
    unfold bind, rpc, zoom. rewrite P1. cbn [for_each]. unfold bind. fold rel.
    destruct (rpc_handle (MkDir rel) p1) as [[[] | e |] p2]; cbn [fst snd ret];
      eexists; (split; [reflexivity |]); (split; [reflexivity |]);
      try discriminate.
    intros _. cbn [src_watch_dirs src_watch_files src_fs].
    split; [exact Hd | split].
    + rewrite Hf. set_solver.
    + rewrite (W1 eq_refl), Wb. cbn [sa src_fs]. set_solver.
  - rewrite (bind_exn _ _ _ _ _ E1). exists s1. split; [reflexivity |].
    split; [exact P1 | discriminate].
  - rewrite (bind_div _ _ _ _ E1). exists s1. split; [reflexivity |].
    split; [exact P1 | discriminate].
Qed.

Lemma added_directory_walks_then_makes_witness :
  exists s',
    handle_event "/" recorder 3 (mkEvent FILE_OR_SUBDIR_ADDED "/src/docs")
      (new_source (quiet docs_src) "/src" []) = (Val tt, s') /\
    src_peer s' = [Write "docs/a.txt" "hello"; MkDir "docs"] /\
    src_watch_dirs s' = {["docs"]} /\
    src_watch_files s' = {["docs"; "docs/a.txt"]}.
Proof.
  destruct (added_directory_walks_then_makes (list request) "/" recorder 3
              (new_source (quiet docs_src) "/src" []) ["src"] ["docs"]
              [("a.txt", File "hello")]) as (s' & E & P & H).
  - intros op p. reflexivity.
  - reflexivity.
  - reflexivity.
  - reflexivity.
  - discriminate.
  - reflexivity.
  - reflexivity.
  - vm_compute. lia.
  - rewrite recorder_records in E, P, H. cbn [fst snd] in E, P, H.
    destruct (H eq_refl) as (Hd & Hf & _).
    exists s'. split; [exact E |]. split; [exact P |].
    split; [rewrite Hd | rewrite Hf]; apply set_eq; intros x; cbn; set_solver.
Defined.

(** ** The event handler: one event, one request *)

Section FileEvents.

Context {R : Type}.
Variable cwd : string.
Variable rpc_handle : request -> M R unit.

Lemma src_readfile_at (s : ReplicatorSource R) p c :
  fs_faults (src_fs s) OpReadfile p = None -> at_path (src_fs s) p = Some (File c) ->
  src_call (readfile p) s = (Val c, s).
Proof.
  intros Hf H. unfold src_call, zoom, readfile, call. rewrite Hf, H. now rewrite source_eta.
Qed.

Lemma src_isdir_at (s : ReplicatorSource R) p n :
  fs_faults (src_fs s) OpIsdir p = None -> at_path (src_fs s) p = Some n ->
  src_call (isdir p) s = (Val (is_dir n), s).
Proof.
  intros Hf H. unfold src_call, zoom, isdir, call. rewrite Hf, H.
  destruct n; now rewrite source_eta.
Qed.

Lemma modified_run fuel p rel c (s : ReplicatorSource R) :
  relpath cwd p (src_dir_path s) = Some rel ->
  fs_faults (src_fs s) OpReadfile p = None -> at_path (src_fs s) p = Some (File c) ->
  handle_event cwd rpc_handle fuel (mkEvent FILE_MODIFIED p) s =
    (fst (rpc_handle (Write rel c) (src_peer s)),
     mkSource (src_fs s) (src_dir_path s) (src_watch_dirs s) (src_watch_files s)
       (snd (rpc_handle (Write rel c) (src_peer s)))).
Proof.
  intros Hrel Hf H. unfold handle_event. rewrite bind_get. cbv beta.
  unfold relpath_or_raise. cbn [event_type path]. rewrite Hrel, bind_ret. cbv beta iota.
  rewrite (bind_val _ _ _ _ _ (src_readfile_at s p c Hf H)). cbv beta.
  unfold rpc, zoom. now destruct (rpc_handle (Write rel c) (src_peer s)).
Qed.

Lemma added_file_run fuel p rel c (s : ReplicatorSource R) :
  relpath cwd p (src_dir_path s) = Some rel ->
  fs_faults (src_fs s) OpIsdir p = None ->
  fs_faults (src_fs s) OpReadfile p = None -> at_path (src_fs s) p = Some (File c) ->
  handle_event cwd rpc_handle fuel (mkEvent FILE_OR_SUBDIR_ADDED p) s =
    (fst (rpc_handle (Write rel c) (src_peer s)),
     mkSource (src_fs s) (src_dir_path s) (src_watch_dirs s)
       (match fst (rpc_handle (Write rel c) (src_peer s)) with
        | Val _ => {[rel]} ∪ src_watch_files s
        | _ => src_watch_files s
        end)
       (snd (rpc_handle (Write rel c) (src_peer s)))).
Proof.
  intros Hrel Hi Hf H. unfold handle_event. rewrite bind_get. cbv beta.
  unfold relpath_or_raise. cbn [event_type path]. rewrite Hrel, bind_ret. cbv beta iota.
  rewrite (bind_val _ _ _ _ _ (src_isdir_at s p (File c) Hi H)). cbn [is_dir]. cbv beta iota.
  rewrite bind_assoc, (bind_val _ _ _ _ _ (src_readfile_at s p c Hf H)). cbv beta.
  rewrite bind_ret. cbv beta.
  unfold bind, rpc, zoom, watch_files_add, modify.
  now destruct (rpc_handle (Write rel c) (src_peer s)) as [[[] | e |] p1].
Qed.

End FileEvents.

(** X11.  An event for a path that is a regular file when the event is
    handled: [FILE_MODIFIED] hands to the transport exactly one request,
    the [Write] of the relative path with the content read at that moment,
    and leaves the watch sets alone -- whether or not the path was watched;
    [FILE_OR_SUBDIR_ADDED] hands over the same request and then records the
    relative path among the watched files, but only when the transport has
    returned normally.  In both cases the outcome of the handler is the
    outcome of the transport. *)
Theorem file_event_sends_one_write :
  forall (R : Type) (cwd : string) (rpc_handle : request -> M R unit) (fuel : nat)
         (s : ReplicatorSource R) (p rel c : string),
    relpath cwd p (src_dir_path s) = Some rel ->
    fs_faults (src_fs s) OpIsdir p = None ->
    fs_faults (src_fs s) OpReadfile p = None ->
    at_path (src_fs s) p = Some (File c) ->
    let sent := rpc_handle (Write rel c) (src_peer s) in
    handle_event cwd rpc_handle fuel (mkEvent FILE_MODIFIED p) s =
      (fst sent,
       mkSource (src_fs s) (src_dir_path s) (src_watch_dirs s) (src_watch_files s) (snd sent)) /\
    handle_event cwd rpc_handle fuel (mkEvent FILE_OR_SUBDIR_ADDED p) s =
      (fst sent,
       mkSource (src_fs s) (src_dir_path s) (src_watch_dirs s)
         (match fst sent with
          | Val _ => {[rel]} ∪ src_watch_files s
          | _ => src_watch_files s
          end)
         (snd sent)).
Proof.
  intros R cwd rpc_handle fuel s p rel c Hrel Hi Hf H sent. split.
  - now apply modified_run.
  - now apply added_file_run.
Qed.

Lemma file_event_sends_one_write_witness :
  let s := new_source (quiet docs_src) "/src" ([] : list request) in
  handle_event "/" recorder 3 (mkEvent FILE_MODIFIED "/src/docs/a.txt") s =
    (Val tt, mkSource (quiet docs_src) "/src" ∅ ∅ [Write "docs/a.txt" "hello"]) /\
  handle_event "/" recorder 3 (mkEvent FILE_OR_SUBDIR_ADDED "/src/docs/a.txt") s =
    (Val tt, mkSource (quiet docs_src) "/src" ∅ ({["docs/a.txt"]} ∪ ∅)
               [Write "docs/a.txt" "hello"]).
Proof.
  apply (file_event_sends_one_write (list request) "/" recorder 3
           (new_source (quiet docs_src) "/src" []) "/src/docs/a.txt" "docs/a.txt" "hello");
    reflexivity.
Defined.

(** X12.  A [FILE_OR_SUBDIR_REMOVED] event, whatever the state of the
    source and whatever the cancellation of a watch raises: the handler
    hands to the transport exactly one request, the [Remove] of the relative
    path, and its outcome is the outcome of the transport.  Before that, and
    so even when the transport fails, it has taken out of the watched
    directories every path that starts, as a string, with the relative path,
    and out of the watched files the relative path itself and nothing
    else.  It registers no watch. *)
Theorem removed_event_effect :
  forall (R : Type) (cwd : string) (rpc_handle : request -> M R unit) (fuel : nat)
         (s : ReplicatorSource R) (p rel : string),
    relpath cwd p (src_dir_path s) = Some rel ->
    let r := handle_event cwd rpc_handle fuel (mkEvent FILE_OR_SUBDIR_REMOVED p) s in
    let sent := rpc_handle (Remove rel) (src_peer s) in
    fst r = fst sent /\
    src_peer (snd r) = snd sent /\
    src_watch_dirs (snd r) = filter (fun d => startswith rel d = false) (src_watch_dirs s) /\
    src_watch_files (snd r) = src_watch_files s ∖ {[rel]}.
Proof.
  intros R cwd rpc_handle fuel s p rel Hrel r sent. subst r sent.
  destruct (handle_event cwd rpc_handle fuel _ s) as [r s'] eqn:E.
  destruct (handle_event_removed_sets cwd rpc_handle fuel p rel s r s' Hrel E)
    as (Hd & Hf & _ & _ & H).
  cbn [fst snd]. rewrite <- H. cbn [fst snd]. auto.
Qed.

Lemma removed_event_effect_witness :
  let s := mkSource (quiet empty_src) "/src" {["/src"; "docs"; "docs/img"; "other"]}
             {["docs"; "docs/a.txt"]} ([] : list request) in
  let r := handle_event "/" recorder 3 (mkEvent FILE_OR_SUBDIR_REMOVED "/src/docs") s in
  fst r = Val tt /\
  src_peer (snd r) = [Remove "docs"] /\
  src_watch_dirs (snd r) = {["/src"; "other"]} /\
  src_watch_files (snd r) = {["docs/a.txt"]}.
Proof.
  cbv zeta.
  destruct (removed_event_effect (list request) "/" recorder 3
              (mkSource (quiet empty_src) "/src" {["/src"; "docs"; "docs/img"; "other"]}
                 {["docs"; "docs/a.txt"]} []) "/src/docs" "docs" eq_refl)
    as (H1 & H2 & H3 & H4).
  split; [exact H1 | split; [exact H2 | split]].
  - rewrite H3. apply (proj1 (bool_decide_eq_true _)). vm_compute. reflexivity.
  - rewrite H4. apply (proj1 (bool_decide_eq_true _)). vm_compute. reflexivity.
Defined.

(** ** The event handler: what a removal takes out *)

Lemma prefix_app (a b : string) : String.prefix a (a +:+ b) = true.
Proof.
  induction a as [| c a IH]; simpl.
  - now destruct b.
  - destruct (ascii_dec c c); [exact IH | contradiction].
Qed.

Lemma startswith_below q q' :
  q <> [] -> startswith (rel_path q) (rel_path (q ++ q')) = true.
Proof.
  intros Hq. unfold startswith.
  assert (E : rel_path (q ++ q') = (rel_path q +:+ match q' with
                                                  | [] => ""
                                                  | _ => String "/" (sep_join q')
                                                  end)%string).
  { destruct q' as [| a q'].
    - now rewrite app_nil_r, string_app_nil_r.
    - destruct q as [| b q]; [congruence |]. cbn [app rel_path].
      change (b :: q ++ a :: q') with ((b :: q) ++ a :: q').
      now rewrite sep_join_app. }
  rewrite E. apply prefix_app.
Qed.

(** X13.  After a [FILE_OR_SUBDIR_REMOVED] event for the path with the
    components [q] below the root, neither that path nor any path below it
    is a watched directory any more, whatever the outcome of the handler;
    the watched files lose the path itself only, so that a file that was
    watched below a removed directory stays among the watched files. *)
Theorem removed_directory_is_unwatched_with_all_below :
  forall (R : Type) (cwd : string) (rpc_handle : request -> M R unit) (fuel : nat)
         (s : ReplicatorSource R) (sroot q : list string),
    src_dir_path s = abs_path sroot ->
    valid_names sroot = true -> valid_names q = true -> q <> [] ->
    let s' := snd (handle_event cwd rpc_handle fuel
                     (mkEvent FILE_OR_SUBDIR_REMOVED (abs_path (sroot ++ q))) s) in
    (forall q', rel_path (q ++ q') ∉ src_watch_dirs s') /\
    (forall f, f <> rel_path q -> f ∈ src_watch_files s' <-> f ∈ src_watch_files s).
Proof.
  intros R cwd rpc_handle fuel s sroot q Hdp Hsroot Hq Hne s'. subst s'.
  destruct (handle_event cwd rpc_handle fuel _ s) as [r s'] eqn:E. cbn [snd].
  assert (Hrel : relpath cwd (abs_path (sroot ++ q)) (src_dir_path s) = Some (rel_path q))
    by (rewrite Hdp; now apply relpath_abs_path).
  destruct (handle_event_removed_sets cwd rpc_handle fuel _ _ s r s' Hrel E)
    as (Hd & Hf & _).
  split.
  - intros q'. rewrite Hd, elem_of_filter, (startswith_below q q' Hne).
    intros [Hfalse _]. discriminate.
  - intros f Hneq. rewrite Hf. set_solver.
Qed.

Lemma removed_directory_is_unwatched_with_all_below_witness :
  let s := mkSource (quiet empty_src) "/src" {["/src"; "docs"; "docs/img"]}
             {["docs/a.txt"]} ([] : list request) in
  let s' := snd (handle_event "/" recorder 3 (mkEvent FILE_OR_SUBDIR_REMOVED "/src/docs") s) in
  ("docs" ∉ src_watch_dirs s') /\ ("docs/img" ∉ src_watch_dirs s') /\
  ("docs/a.txt" ∈ src_watch_files s').
Proof.
  cbv zeta.
  destruct (removed_directory_is_unwatched_with_all_below (list request) "/" recorder 3
              (mkSource (quiet empty_src) "/src" {["/src"; "docs"; "docs/img"]}
                 {["docs/a.txt"]} []) ["src"] ["docs"] eq_refl eq_refl eq_refl)
    as (Hd & Hf); [discriminate |].
  split; [exact (Hd []) | split; [exact (Hd ["img"]) |]].
  apply (Hf "docs/a.txt"); [discriminate |].
  apply (proj1 (bool_decide_eq_true _)). vm_compute. reflexivity.
Defined.

(** ** The source: what no step touches *)

Section SourceNever.

Context {R : Type}.
Variable cwd : string.
Variable rpc_handle : request -> M R unit.

Lemma unwatchdir_stable p : preserves fs_stable (unwatchdir p).
Proof.
  intros fs r fs'. unfold unwatchdir, call.
  destruct (fs_faults fs OpUnwatchdir p); [| destruct (bool_decide _)];
    intros H; inversion H; subst; now unfold fs_stable.
Qed.

Lemma watch_dirs_discard_stable p : preserves (@src_stable R) (watch_dirs_discard p).
Proof. intros s r s' H; inversion H; subst. now unfold src_stable. Qed.

Lemma watch_files_discard_stable p : preserves (@src_stable R) (watch_files_discard p).
Proof. intros s r s' H; inversion H; subst. now unfold src_stable. Qed.

Ltac stable_step :=
  first
    [ apply preserves_ret; apply src_stable_refl
    | apply preserves_get; apply src_stable_refl
    | apply preserves_try_pass
    | apply preserves_bind; [exact src_stable_trans | | intros ?]
    | apply relpath_or_raise_stable
    | apply rpc_stable
    | apply watch_dirs_add_stable
    | apply watch_files_add_stable
    | apply watch_dirs_discard_stable
    | apply watch_files_discard_stable
    | apply replicate_directory_stable
    | apply src_call_stable;
      first [apply listdir_stable | apply isdir_stable | apply readfile_stable
            | apply watchdir_stable | apply unwatchdir_stable]
    | match goal with
      | |- preserves _ (if ?b then _ else _) => destruct b
      | |- preserves _ (match ?o with Some _ => _ | None => _ end) => destruct o
      end ].

Lemma unwatch_prefixed_stable dir_path relative_path l : forall acc,
  preserves src_stable (unwatch_prefixed (R := R) dir_path relative_path l acc).
Proof.
  induction l as [| p l IH]; intros acc; cbn [unwatch_prefixed].
  - apply preserves_ret, src_stable_refl.
  - destruct (startswith relative_path p); [| apply IH].
    repeat stable_step. apply IH.
Qed.

Lemma handle_event_stable fuel ev :
  preserves src_stable (handle_event cwd rpc_handle fuel ev).
Proof.
  unfold handle_event.
  apply preserves_bind; [exact src_stable_trans | apply preserves_get, src_stable_refl |].
  intros self.
  apply preserves_bind; [exact src_stable_trans | apply relpath_or_raise_stable |].
  intros rel. destruct (event_type ev).
  - repeat stable_step.
  - repeat stable_step.
  - apply preserves_bind; [exact src_stable_trans | apply unwatch_prefixed_stable |].
    intros remove_paths.
    apply preserves_bind; [exact src_stable_trans | |].
    + apply preserves_for_each; [exact src_stable_refl | exact src_stable_trans |].
      intros x. apply watch_dirs_discard_stable.
    + intros _. repeat stable_step.
Qed.

Lemma init_stable fuel : preserves src_stable (init cwd rpc_handle fuel).
Proof. unfold init. repeat stable_step. Qed.

Ltac grows_step :=
  first
    [ apply preserves_ret; apply src_grows_refl
    | apply preserves_get; apply src_grows_refl
    | apply preserves_bind; [exact src_grows_trans | | intros ?]
    | apply relpath_or_raise_grows
    | apply rpc_grows
    | apply watch_dirs_add_grows
    | apply watch_files_add_grows
    | apply replicate_directory_grows
    | apply src_call_grows
    | match goal with
      | |- preserves _ (if ?b then _ else _) => destruct b
      end ].

Lemma handle_event_grows fuel ev :
  event_type ev <> FILE_OR_SUBDIR_REMOVED ->
  preserves src_grows (handle_event cwd rpc_handle fuel ev).
Proof.
  intros Hev. unfold handle_event.
  apply preserves_bind; [exact src_grows_trans | apply preserves_get, src_grows_refl |].
  intros self.
  apply preserves_bind; [exact src_grows_trans | apply relpath_or_raise_grows |].
  intros rel. destruct (event_type ev); [| | contradiction]; repeat grows_step.
Qed.

Lemma init_grows fuel : preserves src_grows (init cwd rpc_handle fuel).
Proof. unfold init. repeat grows_step. Qed.

End SourceNever.

(** X14.  The source only reads: whatever the event, the state of the
    source and the outcome, [handle_event] leaves the tree of the source
    file system and the root path of the source as they were, and so does
    the constructor. *)
Theorem source_only_reads :
  forall (R : Type) (cwd : string) (rpc_handle : request -> M R unit) (fuel : nat)
         (s : ReplicatorSource R) (ev : FileSystemEvent),
    (let s' := snd (handle_event cwd rpc_handle fuel ev s) in
     fs_tree (src_fs s') = fs_tree (src_fs s) /\ src_dir_path s' = src_dir_path s) /\
    (let s' := snd (init cwd rpc_handle fuel s) in
     fs_tree (src_fs s') = fs_tree (src_fs s) /\ src_dir_path s' = src_dir_path s).
Proof.
  intros R cwd rpc_handle fuel s ev. split.
  - destruct (handle_event cwd rpc_handle fuel ev s) as [r s'] eqn:E. cbn [snd].
    destruct (handle_event_stable cwd rpc_handle fuel ev _ _ _ E) as (Ht & _ & Hd). auto.
  - destruct (init cwd rpc_handle fuel s) as [r s'] eqn:E. cbn [snd].
    destruct (init_stable cwd rpc_handle fuel _ _ _ E) as (Ht & _ & Hd). auto.
Qed.

(** X15.  Only a removal takes a path out of the watch sets: whatever the
    outcome, after the constructor and after the handling of an event that
    is not a [FILE_OR_SUBDIR_REMOVED], every path that was in the watched
    directories, or in the watched files, still is. *)
Theorem watch_sets_shrink_only_on_removal :
  forall (R : Type) (cwd : string) (rpc_handle : request -> M R unit) (fuel : nat)
         (s : ReplicatorSource R) (ev : FileSystemEvent),
    event_type ev <> FILE_OR_SUBDIR_REMOVED ->
    (let s' := snd (handle_event cwd rpc_handle fuel ev s) in
     src_watch_dirs s ⊆ src_watch_dirs s' /\ src_watch_files s ⊆ src_watch_files s') /\
    (let s' := snd (init cwd rpc_handle fuel s) in
     src_watch_dirs s ⊆ src_watch_dirs s' /\ src_watch_files s ⊆ src_watch_files s').
Proof.
  intros R cwd rpc_handle fuel s ev Hev. split.
  - destruct (handle_event cwd rpc_handle fuel ev s) as [r s'] eqn:E. cbn [snd].
    destruct (handle_event_grows cwd rpc_handle fuel ev Hev _ _ _ E) as (_ & Hd & Hf). auto.
  - destruct (init cwd rpc_handle fuel s) as [r s'] eqn:E. cbn [snd].
    destruct (init_grows cwd rpc_handle fuel _ _ _ E) as (_ & Hd & Hf). auto.
Qed.

Lemma watch_sets_shrink_only_on_removal_witness :
  let s := mkSource (quiet docs_src) "/src" {["/src"; "gone"]} {["old.txt"]}
             ([] : list request) in
  let s' := snd (handle_event "/" recorder 3 (mkEvent FILE_OR_SUBDIR_ADDED "/src/docs") s) in
  src_watch_dirs s ⊆ src_watch_dirs s' /\ src_watch_files s ⊆ src_watch_files s'.
Proof.
  cbv zeta.
  refine (proj1 (watch_sets_shrink_only_on_removal (list request) "/" recorder 3
                   (mkSource (quiet docs_src) "/src" {["/src"; "gone"]} {["old.txt"]} [])
                   (mkEvent FILE_OR_SUBDIR_ADDED "/src/docs") _)).
  discriminate.
Defined.

(** ** The two sides connected: an event reaches the target *)

(** X16.  With the request handler of a target as the transport: an event
    that reports a regular file of the source as modified or added leaves,
    on the target, a regular file with the same content at the same
    relative path, provided no file stands in the way of its parent
    directory there; an event that reports a path as removed leaves nothing
    at that relative path on the target.  In each case the handler returns
    normally. *)
Theorem event_reaches_the_target :
  forall (cwd : string) (sfuel tfuel : nat) (s : ReplicatorSource ReplicatorTarget)
         (sroot troot q : list string) (n : string),
    src_dir_path s = abs_path sroot -> valid_names sroot = true ->
    canonical_target (src_peer s) troot ->
    valid_names q = true -> valid_name n = true ->
    let p := abs_path (sroot ++ q ++ [n]) in
    let rel := rel_path (q ++ [n]) in
    (forall c ty,
       fs_faults (src_fs s) OpIsdir p = None -> fs_faults (src_fs s) OpReadfile p = None ->
       lookup (sroot ++ q ++ [n]) (fs_tree (src_fs s)) = Some (File c) ->
       blocked (troot ++ q) (fs_tree (tgt_fs (src_peer s))) = false ->
       ty <> FILE_OR_SUBDIR_REMOVED ->
       exists s',
         handle_event cwd (handle_request cwd tfuel) sfuel (mkEvent ty p) s = (Val tt, s') /\
         target_entry (src_peer s') rel = Some (File c)) /\
    (exists s',
       handle_event cwd (handle_request cwd tfuel) sfuel (mkEvent FILE_OR_SUBDIR_REMOVED p) s =
         (Val tt, s') /\
       target_entry (src_peer s') rel = None).
Proof.
  intros cwd sfuel tfuel s sroot troot q n Hdp Hsroot Hc Hq Hn p rel.
  assert (Hqn : valid_names (q ++ [n]) = true).
  { apply valid_names_app. split; [assumption |]. now apply valid_names_cons. }
  assert (Hrel : relpath cwd p (src_dir_path s) = Some rel).
  { unfold p, rel. rewrite Hdp. now apply relpath_abs_path. }
  split.
  - intros c ty Hi Hf Hfile Hb Hty.
    assert (Hat : at_path (src_fs s) p = Some (File c)).
    { unfold at_path, p. rewrite resolve_abs_path; [exact Hfile |].
      now apply valid_names_app. }
    destruct (parent_made cwd (src_peer s) troot q Hc Hq Hb)
      as (base & es & Hbase & _ & _ & HW & _).
    destruct Hc as (Hd & Hroot & Hquiet).
    assert (Hsent : handle_request cwd tfuel (Write rel c) (src_peer s) =
                    (Val tt,
                     target_at base troot q (fs_watched (tgt_fs (src_peer s)))
                       (fs_faults (tgt_fs (src_peer s))) (write_entry n c es)
                       (if write_needed n c es
                        then (abs_path ((troot ++ q) ++ [n]), c) :: fs_written (tgt_fs (src_peer s))
                        else fs_written (tgt_fs (src_peer s))))).
    { unfold rel. rewrite (HW tfuel n c Hn).
      now apply (write_focus cwd base troot q _ _ _ Hbase Hroot Hq Hquiet). }
    assert (Hentry : forall wr,
               target_entry (target_at base troot q (fs_watched (tgt_fs (src_peer s)))
                               (fs_faults (tgt_fs (src_peer s))) (write_entry n c es) wr) rel =
               Some (File c)).
    { intros wr. unfold rel.
      rewrite (target_entry_focus base troot q _ _ _ _ _ n Hbase Hroot Hq Hn).
      apply write_entry_written. }
    destruct ty; [| | contradiction].
    + rewrite (added_file_run cwd _ sfuel p rel c s Hrel Hi Hf Hat), Hsent. cbn [fst snd].
      eexists. split; [reflexivity |]. cbn [src_peer]. apply Hentry.
    + rewrite (modified_run cwd _ sfuel p rel c s Hrel Hf Hat), Hsent. cbn [fst snd].
      eexists. split; [reflexivity |]. cbn [src_peer]. apply Hentry.
  - destruct (remove_runs cwd tfuel (src_peer s) troot q n Hc Hq Hn) as (t' & Hrun & Hgone & _).
    destruct (handle_event cwd (handle_request cwd tfuel) sfuel
                (mkEvent FILE_OR_SUBDIR_REMOVED p) s) as [r s'] eqn:E.
    destruct (handle_event_removed_sets cwd _ sfuel p rel s r s' Hrel E) as (_ & _ & _ & _ & H).
    fold rel in Hrun. rewrite Hrun in H. inversion H; subst.
    exists s'. split; [reflexivity | exact Hgone].
Qed.

Lemma event_reaches_the_target_witness :
  let s := new_source (quiet docs_src) "/src" (mkTarget (quiet empty_tgt) "/t") in
  exists s',
    handle_event "/" (handle_request "/" 3) 3 (mkEvent FILE_MODIFIED "/src/docs/a.txt") s =
      (Val tt, s') /\
    target_entry (src_peer s') "docs/a.txt" = Some (File "hello").
Proof.
  cbv zeta.
  apply (proj1 (event_reaches_the_target "/" 3 3
                  (new_source (quiet docs_src) "/src" (mkTarget (quiet empty_tgt) "/t"))
                  ["src"] ["t"] ["docs"] "a.txt" eq_refl eq_refl
                  (conj eq_refl (conj eq_refl (fun _ _ => eq_refl))) eq_refl eq_refl)
           "hello" FILE_MODIFIED); try reflexivity.
  discriminate.
Defined.

(** ** Relative paths, from one side to the other *)

Section RelativePaths.

Lemma split_sep_join_app l r :
  valid_names l = true -> l <> [] ->
  split (sep_join l +:+ String "/" r) = l ++ split r.
Proof.
  induction l as [| a l IH]; intros Hl Hne; [congruence |].
  apply valid_names_cons in Hl as [Ha Hl].
  destruct (valid_name_inv _ Ha) as (_ & Hsep & _).
  destruct l as [| b l].
  - cbn [sep_join String.concat app]. now apply split_app_sep.
  - rewrite sep_join_cons2.
    replace ((a +:+ String "/" (sep_join (b :: l))) +:+ String "/" r)
      with (a +:+ String "/" (sep_join (b :: l) +:+ String "/" r)).
    2:{ rewrite string_app_assoc. reflexivity. }
    rewrite (split_app_sep a _ Hsep), IH; [reflexivity | assumption | discriminate].
Qed.

Lemma split_sep_cons r : split (String "/" r) = "" :: split r.
Proof. reflexivity. Qed.

Lemma resolve_root_dot troot :
  valid_names troot = true -> resolve (join (abs_path troot) ".") = troot.
Proof.
  intros Hroot. destruct troot as [| a l]; [reflexivity |].
  assert (Hj : join (abs_path (a :: l)) "." = (abs_path (a :: l) +:+ "/.")%string).
  { unfold join. change (startswith "/" ".") with false. cbv iota.
    rewrite (endswith_sep_abs_path _ Hroot). reflexivity. }
  rewrite Hj. unfold resolve, abs_path.
  change (String "/" (sep_join (a :: l)) +:+ "/.")%string
    with (String "/" (sep_join (a :: l) +:+ String "/" ".")).
  rewrite split_sep_cons, split_sep_join_app by (assumption || discriminate).
  rewrite norm_comps_skip. unfold norm_comps.
  rewrite fold_left_app, (fold_norm_step_valid 1 (a :: l) [] Hroot), app_nil_r.
  change (split ".") with ["."]. cbn [fold_left].
  change (norm_step 1 (rev (a :: l)) ".") with (rev (a :: l)).
  apply rev_involutive.
Qed.

End RelativePaths.

(** X17.  The relative path that the source computes for a path below its
    root, joined by the target to its own root, designates the same
    components below the root of the target -- the root itself, for which
    the relative path is ["."], included. *)
Theorem relative_path_designates_the_same_place :
  forall (cwd : string) (sroot troot q : list string),
    valid_names sroot = true -> valid_names troot = true -> valid_names q = true ->
    exists rel,
      relpath cwd (abs_path (sroot ++ q)) (abs_path sroot) = Some rel /\
      resolve (join (abs_path troot) rel) = troot ++ q.
Proof.
  intros cwd sroot troot q Hsroot Htroot Hq.
  exists (rel_path q). split; [now apply relpath_abs_path |].
  destruct q as [| a q].
  - rewrite app_nil_r. now apply resolve_root_dot.
  - rewrite join_abs_path_rel by (assumption || discriminate).
    apply resolve_abs_path. now apply valid_names_app.
Qed.

Lemma relative_path_designates_the_same_place_witness :
  exists rel,
    relpath "/" "/data/src/docs/a.txt" "/data/src" = Some rel /\
    resolve (join "/mnt/t" rel) = ["mnt"; "t"; "docs"; "a.txt"].
Proof.
  apply (relative_path_designates_the_same_place "/" ["data"; "src"] ["mnt"; "t"]
           ["docs"; "a.txt"]); reflexivity.
Defined.

(** X18.  The target does not confine a request to its root: the
    [relative_path] of a request is joined to the root with
    [posixpath.join], so that a [Write] whose [relative_path] is an absolute
    path writes the file where that path points, whatever the root of the
    target is. *)
Theorem absolute_relative_path_leaves_the_root :
  forall (cwd : string) (fuel : nat) (fs : FileSystem) (dir_path : string)
         (q : list string) (n c : string) (es : entries),
    quiet_fs fs -> valid_names q = true -> valid_name n = true ->
    lookup q (fs_tree fs) = Some (Dir es) -> assoc n es = None ->
    handle_request cwd fuel (Write (abs_path (q ++ [n])) c) (mkTarget fs dir_path) =
      (Val tt,
       mkTarget (mkFileSystem (put (q ++ [n]) (File c) (fs_tree fs)) (fs_watched fs)
                   ((abs_path (q ++ [n]), c) :: fs_written fs) (fs_faults fs))
         dir_path).
Proof.
  intros cwd fuel fs dir_path q n c es Hquiet Hq Hn Hl Ha.
  assert (Hfull : valid_names (q ++ [n]) = true).
  { apply valid_names_app. split; [assumption |]. now apply valid_names_cons. }
  assert (Hnone : lookup (q ++ [n]) (fs_tree fs) = None) by now rewrite lookup_snoc, Hl.
  unfold handle_request. rewrite !bind_get. cbv beta.
  cbn [request_relative_path tgt_dir_path].
  rewrite join_abs_path_abs, (dirname_abs_path _ _ Hq Hn).
  unfold bind, try_pass, tgt_call, zoom, exists_, isdir, writefile, call, at_path, ret.
  cbn [tgt_fs tgt_dir_path]. rewrite !Hquiet, !resolve_abs_path by assumption.
  rewrite Hl. cbn [negb tgt_fs tgt_dir_path].
  rewrite !Hquiet, Hnone. cbn [negb tgt_fs tgt_dir_path].
  rewrite !Hquiet, Hnone. cbn [negb tgt_fs tgt_dir_path].
  rewrite !Hquiet, Hnone, removelast_last, Hl. reflexivity.
Qed.

Lemma absolute_relative_path_leaves_the_root_witness :
  handle_request "/" 3 (Write "/src/stray.txt" "v") (mkTarget (quiet empty_src) "/t") =
    (Val tt,
     mkTarget (mkFileSystem (Dir [("src", Dir [("stray.txt", File "v")])]) ∅
                 [("/src/stray.txt", "v")] no_faults) "/t").
Proof.
  apply (absolute_relative_path_leaves_the_root "/" 3 (quiet empty_src) "/t" ["src"]
           "stray.txt" "v" []); try reflexivity.
  intros op p. reflexivity.
Defined.

(** ** Round trips on the target *)

Lemma assoc_del_set_fresh n v es : assoc n es = None -> assoc_del n (assoc_set n v es) = es.
Proof.
  induction es as [| [m c] es IH]; cbn [assoc assoc_set assoc_del]; intros H.
  - now rewrite String.eqb_refl.
  - destruct (String.eqb n m) eqn:E; [discriminate |].
    cbn [assoc_del]. rewrite E. now rewrite IH.
Qed.

(** X19.  [Remove] undoes a [Write] or a [MkDir] of a path at which nothing
    stood, in a directory that exists: after the two requests the tree of
    the target is what it was before the first -- after [MkDir] and [Remove]
    the whole target is. *)
Theorem remove_undoes_write_and_mkdir :
  forall (cwd : string) (fuel : nat) (t : ReplicatorTarget)
         (troot q : list string) (n c : string) (es : entries),
    canonical_target t troot -> valid_names q = true -> valid_name n = true ->
    lookup (troot ++ q) (fs_tree (tgt_fs t)) = Some (Dir es) ->
    let p := rel_path (q ++ [n]) in
    target_entry t p = None ->
    (exists t1 t2,
       handle_request cwd fuel (Write p c) t = (Val tt, t1) /\
       target_entry t1 p = Some (File c) /\
       handle_request cwd fuel (Remove p) t1 = (Val tt, t2) /\
       fs_tree (tgt_fs t2) = fs_tree (tgt_fs t)) /\
    (exists t1,
       handle_request cwd fuel (MkDir p) t = (Val tt, t1) /\
       target_entry t1 p = Some (Dir []) /\
       handle_request cwd fuel (Remove p) t1 = (Val tt, t)).
Proof.
  intros cwd fuel t troot q n c es (Hd & Hroot & Hquiet) Hq Hn Hl p Hnone. unfold p in *.
  rewrite (target_entry_lookup t troot q n Hd Hroot Hq Hn), lookup_snoc, Hl in Hnone.
  pose proof (target_refocus t troot q es Hd Hl) as Ht.
  set (w := fs_watched (tgt_fs t)) in *. set (faults := fs_faults (tgt_fs t)) in *.
  set (wr := fs_written (tgt_fs t)) in *. set (tree := fs_tree (tgt_fs t)) in *.
  split.
  - exists (target_at tree troot q w faults (assoc_set n (File c) es)
              ((abs_path ((troot ++ q) ++ [n]), c) :: wr)),
           (target_at tree troot q w faults es ((abs_path ((troot ++ q) ++ [n]), c) :: wr)).
    split; [| split; [| split]].
    + rewrite Ht at 1.
      rewrite (write_focus cwd tree troot q _ w faults Hl Hroot Hq Hquiet fuel n c es wr Hn).
      unfold write_entry, write_needed. now rewrite Hnone.
    + rewrite (target_entry_focus tree troot q _ _ _ _ _ n Hl Hroot Hq Hn).
      apply assoc_set_same.
    + rewrite (remove_focus cwd tree troot q _ w faults Hl Hroot Hq Hquiet fuel n _ _ Hn).
      unfold remove_entry. rewrite assoc_set_same. now rewrite (assoc_del_set_fresh _ _ _ Hnone).
    + unfold target_at, focused. cbn [tgt_fs fs_tree]. now apply put_id.
  - exists (target_at tree troot q w faults (assoc_set n (Dir []) es) wr).
    split; [| split].
    + rewrite Ht at 1.
      rewrite (mkdir_focus cwd tree troot q _ w faults Hl Hroot Hq Hquiet fuel n es wr Hn).
      unfold mkdir_entry. now rewrite Hnone.
    + rewrite (target_entry_focus tree troot q _ _ _ _ _ n Hl Hroot Hq Hn).
      apply assoc_set_same.
    + rewrite (remove_focus cwd tree troot q _ w faults Hl Hroot Hq Hquiet fuel n _ _ Hn).
      unfold remove_entry. rewrite assoc_set_same, (assoc_del_set_fresh _ _ _ Hnone).
      now rewrite <- Ht.
Qed.

Lemma remove_undoes_write_and_mkdir_witness :
  exists t1,
    handle_request "/" 3 (MkDir "q") (mkTarget (quiet file_p) "/t") = (Val tt, t1) /\
    target_entry t1 "q" = Some (Dir []) /\
    handle_request "/" 3 (Remove "q") t1 = (Val tt, mkTarget (quiet file_p) "/t").
Proof.
  apply (proj2 (remove_undoes_write_and_mkdir "/" 3 (mkTarget (quiet file_p) "/t") ["t"] []
                  "q" "" [("p", File "x")]
                  (conj eq_refl (conj eq_refl (fun _ _ => eq_refl)))
                  eq_refl eq_refl eq_refl eq_refl)).
Defined.

(** ** The two sides connected: the same event twice *)

(** X20.  With the request handler of a target as the transport, handling
    twice the event that reports a regular file as modified or added is
    harmless: when the file of the source has not changed in between, the
    second handling returns and leaves the source and the target -- the log
    of physical writes included -- exactly as the first left them. *)
Theorem repeated_file_event_changes_nothing :
  forall (cwd : string) (sfuel tfuel : nat) (s : ReplicatorSource ReplicatorTarget)
         (sroot troot q : list string) (n c : string) (ty : FileSystemEventType),
    src_dir_path s = abs_path sroot -> valid_names sroot = true ->
    canonical_target (src_peer s) troot ->
    valid_names q = true -> valid_name n = true ->
    let ev := mkEvent ty (abs_path (sroot ++ q ++ [n])) in
    fs_faults (src_fs s) OpIsdir (path ev) = None ->
    fs_faults (src_fs s) OpReadfile (path ev) = None ->
    lookup (sroot ++ q ++ [n]) (fs_tree (src_fs s)) = Some (File c) ->
    blocked (troot ++ q) (fs_tree (tgt_fs (src_peer s))) = false ->
    ty <> FILE_OR_SUBDIR_REMOVED ->
    exists s1,
      handle_event cwd (handle_request cwd tfuel) sfuel ev s = (Val tt, s1) /\
      handle_event cwd (handle_request cwd tfuel) sfuel ev s1 = (Val tt, s1).
Proof.
  intros cwd sfuel tfuel s sroot troot q n c ty Hdp Hsroot Hc Hq Hn ev Hi Hf Hfile Hb Hty.
  unfold ev in *. cbn [path] in Hi, Hf.
  set (p := abs_path (sroot ++ q ++ [n])) in *. set (rel := rel_path (q ++ [n])).
  assert (Hqn : valid_names (q ++ [n]) = true).
  { apply valid_names_app. split; [assumption |]. now apply valid_names_cons. }
  assert (Hrel : relpath cwd p (src_dir_path s) = Some rel).
  { unfold p, rel. rewrite Hdp. now apply relpath_abs_path. }
  assert (Hat : at_path (src_fs s) p = Some (File c)).
  { unfold at_path, p. rewrite resolve_abs_path; [exact Hfile |]. now apply valid_names_app. }
  destruct (parent_made cwd (src_peer s) troot q Hc Hq Hb)
    as (base & es & Hbase & _ & _ & HW & _).
  destruct Hc as (Hd & Hroot & Hquiet).
  set (w := fs_watched (tgt_fs (src_peer s))) in *.
  set (faults := fs_faults (tgt_fs (src_peer s))) in *.
  set (wr1 := if write_needed n c es
              then (abs_path ((troot ++ q) ++ [n]), c) :: fs_written (tgt_fs (src_peer s))
              else fs_written (tgt_fs (src_peer s))).
  set (t1 := target_at base troot q w faults (write_entry n c es) wr1).
  assert (Hsent : handle_request cwd tfuel (Write rel c) (src_peer s) = (Val tt, t1)).
  { unfold rel. rewrite (HW tfuel n c Hn).
    now apply (write_focus cwd base troot q _ _ _ Hbase Hroot Hq Hquiet). }
  assert (Hagain : handle_request cwd tfuel (Write rel c) t1 = (Val tt, t1)).
  { unfold rel, t1.
    rewrite (write_focus cwd base troot q _ _ _ Hbase Hroot Hq Hquiet tfuel n c _ _ Hn).
    now destruct (write_entry_twice n c es) as [-> ->]. }
  destruct ty; [| | contradiction].
  - set (s1 := mkSource (src_fs s) (src_dir_path s) (src_watch_dirs s)
                  ({[rel]} ∪ src_watch_files s) t1).
    exists s1. split.
    + rewrite (added_file_run cwd _ sfuel p rel c s Hrel Hi Hf Hat), Hsent. reflexivity.
    + rewrite (added_file_run cwd _ sfuel p rel c s1 Hrel Hi Hf Hat). cbn [src_peer s1].
      rewrite Hagain. cbn [fst snd src_fs src_dir_path src_watch_dirs src_watch_files].
      unfold s1. f_equal. f_equal. set_solver.
  - set (s1 := mkSource (src_fs s) (src_dir_path s) (src_watch_dirs s) (src_watch_files s) t1).
    exists s1. split.
    + rewrite (modified_run cwd _ sfuel p rel c s Hrel Hf Hat), Hsent. reflexivity.
    + rewrite (modified_run cwd _ sfuel p rel c s1 Hrel Hf Hat). cbn [src_peer s1].
      rewrite Hagain. reflexivity.
Qed.

Lemma repeated_file_event_changes_nothing_witness :
  let s := new_source (quiet docs_src) "/src" (mkTarget (quiet empty_tgt) "/t") in
  let ev := mkEvent FILE_OR_SUBDIR_ADDED "/src/docs/a.txt" in
  exists s1,
    handle_event "/" (handle_request "/" 3) 3 ev s = (Val tt, s1) /\
    handle_event "/" (handle_request "/" 3) 3 ev s1 = (Val tt, s1).
Proof.
  cbv zeta.
  apply (repeated_file_event_changes_nothing "/" 3 3
           (new_source (quiet docs_src) "/src" (mkTarget (quiet empty_tgt) "/t"))
           ["src"] ["t"] ["docs"] "a.txt" "hello" FILE_OR_SUBDIR_ADDED eq_refl eq_refl
           (conj eq_refl (conj eq_refl (fun _ _ => eq_refl))) eq_refl eq_refl);
    try reflexivity.
  discriminate.
Defined.

(** ** The event handler: the watches a removal cancels *)

Section RemovedWatches.

Context {R : Type}.
Variable cwd : string.
Variable rpc_handle : request -> M R unit.

(** The file system of the source is what it was. *)
Definition same_fs (s s' : ReplicatorSource R) : Prop := src_fs s' = src_fs s.

Lemma same_fs_refl s : same_fs s s.
Proof. reflexivity. Qed.

Lemma same_fs_trans s1 s2 s3 : same_fs s1 s2 -> same_fs s2 s3 -> same_fs s1 s3.
Proof. unfold same_fs. congruence. Qed.

Lemma rpc_same_fs req : preserves same_fs (rpc rpc_handle req).
Proof.
  intros s r s'. unfold rpc, zoom. destruct (rpc_handle req (src_peer s)).
  intros H; inversion H; subst. reflexivity.
Qed.

Lemma watch_dirs_discard_same_fs p : preserves same_fs (watch_dirs_discard (R := R) p).
Proof. intros s r s' H; inversion H; subst. reflexivity. Qed.

Lemma watch_files_discard_same_fs p : preserves same_fs (watch_files_discard (R := R) p).
Proof. intros s r s' H; inversion H; subst. reflexivity. Qed.

(** In an environment that makes no call fail, cancelling a watch inside
    [try ... except: pass] leaves the registry without that directory,
    whether or not a watch was registered on it. *)
Lemma try_unwatch_quiet b (s : ReplicatorSource R) :
  quiet_fs (src_fs s) ->
  try_pass (src_call (unwatchdir b)) s =
    (Val tt,
     mkSource (set_watched (fs_watched (src_fs s) ∖ {[resolve b]}) (src_fs s))
       (src_dir_path s) (src_watch_dirs s) (src_watch_files s) (src_peer s)).
Proof.
  intros Hq. unfold try_pass, src_call, zoom, unwatchdir, call. rewrite Hq.
  destruct (bool_decide (resolve b ∈ fs_watched (src_fs s))) eqn:E; [reflexivity |].
  apply bool_decide_eq_false in E.
  replace (fs_watched (src_fs s) ∖ {[resolve b]}) with (fs_watched (src_fs s)) by set_solver.
  destruct s as [[tree w wr faults] dp dirs files peer]. reflexivity.
Qed.

Lemma unwatch_prefixed_quiet dir_path relative_path l : forall acc (s : ReplicatorSource R),
  quiet_fs (src_fs s) ->
  unwatch_prefixed dir_path relative_path l acc s =
    (Val (acc ++ List.filter (startswith relative_path) l),
     mkSource
       (set_watched
          (fs_watched (src_fs s) ∖
             list_to_set (map (fun d => resolve (join dir_path d))
                            (List.filter (startswith relative_path) l)))
          (src_fs s))
       (src_dir_path s) (src_watch_dirs s) (src_watch_files s) (src_peer s)).
Proof.
  induction l as [| p l IH]; intros acc s Hq; cbn [unwatch_prefixed List.filter].
  - unfold ret. rewrite app_nil_r. cbn [map list_to_set].
    replace (fs_watched (src_fs s) ∖ ∅) with (fs_watched (src_fs s)) by set_solver.
    destruct s as [[tree w wr faults] dp dirs files peer]. reflexivity.
  - destruct (startswith relative_path p); [| now apply IH].
    rewrite (bind_val _ _ _ _ _ (try_unwatch_quiet (join dir_path p) s Hq)). cbv beta.
    rewrite IH by exact Hq.
    cbn [src_fs src_dir_path src_watch_dirs src_watch_files src_peer set_watched
         fs_tree fs_watched fs_written fs_faults map list_to_set].
    rewrite <- app_assoc. cbn [app]. f_equal. f_equal. unfold set_watched.
    cbn [fs_tree fs_watched fs_written fs_faults]. f_equal. set_solver.
Qed.

Lemma removed_fs fuel p rel (s : ReplicatorSource R) :
  relpath cwd p (src_dir_path s) = Some rel -> quiet_fs (src_fs s) ->
  src_fs (snd (handle_event cwd rpc_handle fuel (mkEvent FILE_OR_SUBDIR_REMOVED p) s)) =
    set_watched
      (fs_watched (src_fs s) ∖
         list_to_set (map (fun d => resolve (join (src_dir_path s) d))
                        (List.filter (startswith rel) (elements (src_watch_dirs s)))))
      (src_fs s).
Proof.
  intros Hrel Hq. unfold handle_event. rewrite bind_get. cbv beta.
  unfold relpath_or_raise. cbn [event_type path]. rewrite Hrel, bind_ret. cbv beta iota.
  rewrite (bind_val _ _ _ _ _ (unwatch_prefixed_quiet _ rel _ [] s Hq)). cbv beta.
  match goal with
  | |- src_fs (snd (?m ?s1)) = _ =>
      assert (Hrest : preserves same_fs m); [| destruct (m s1) as [r s'] eqn:E;
                                               exact (Hrest _ _ _ E)]
  end.
  apply preserves_bind; [exact same_fs_trans | |].
  - apply preserves_for_each; [exact same_fs_refl | exact same_fs_trans |].
    intros x. apply watch_dirs_discard_same_fs.
  - intros _. apply preserves_bind; [exact same_fs_trans | | intros _; apply rpc_same_fs].
    destruct (find _ _); [apply watch_files_discard_same_fs |].
    apply preserves_ret, same_fs_refl.
Qed.

End RemovedWatches.

(** X21.  A [FILE_OR_SUBDIR_REMOVED] event handled in an environment that
    makes no call fail registers no watch and cancels, whatever the outcome
    of the transport, the watch of the removed directory and of every
    directory below it that was among the watched directories. *)
Theorem removed_event_cancels_the_watches :
  forall (R : Type) (cwd : string) (rpc_handle : request -> M R unit) (fuel : nat)
         (s : ReplicatorSource R) (sroot q : list string),
    quiet_fs (src_fs s) -> src_dir_path s = abs_path sroot ->
    valid_names sroot = true -> valid_names q = true -> q <> [] ->
    let s' := snd (handle_event cwd rpc_handle fuel
                     (mkEvent FILE_OR_SUBDIR_REMOVED (abs_path (sroot ++ q))) s) in
    fs_watched (src_fs s') ⊆ fs_watched (src_fs s) /\
    (forall q', valid_names q' = true -> rel_path (q ++ q') ∈ src_watch_dirs s ->
                sroot ++ q ++ q' ∉ fs_watched (src_fs s')).
Proof.
  intros R cwd rpc_handle fuel s sroot q Hquiet Hdp Hsroot Hq Hne s'. subst s'.
  assert (Hrel : relpath cwd (abs_path (sroot ++ q)) (src_dir_path s) = Some (rel_path q))
    by (rewrite Hdp; now apply relpath_abs_path).
  rewrite (removed_fs cwd rpc_handle fuel _ _ s Hrel Hquiet). cbn [set_watched fs_watched].
  split; [set_solver |].
  intros q' Hq' Hin Hw. apply elem_of_difference in Hw as [_ Hw]. apply Hw.
  apply elem_of_list_to_set, list_elem_of_In, in_map_iff.
  exists (rel_path (q ++ q')). split.
  - rewrite Hdp, join_abs_path_rel.
    + apply resolve_abs_path. apply valid_names_app. split; [assumption |].
      now apply valid_names_app.
    + assumption.
    + now apply valid_names_app.
    + destruct q; [congruence | discriminate].
  - apply filter_In. split.
    + now apply list_elem_of_In, elem_of_elements.
    + now apply startswith_below.
Qed.

Lemma removed_event_cancels_the_watches_witness :
  let s := env_change empty_src (snd (construct "/" recorder 3 (quiet docs_src) "/src" [])) in
  let s' := snd (handle_event "/" recorder 3 (mkEvent FILE_OR_SUBDIR_REMOVED "/src/docs") s) in
  (["src"; "docs"] ∈ fs_watched (src_fs s)) /\ (["src"; "docs"] ∉ fs_watched (src_fs s')).
Proof.
  cbv zeta. split.
  - apply (proj1 (bool_decide_eq_true _)). vm_compute. reflexivity.
  - refine (proj2 (removed_event_cancels_the_watches (list request) "/" recorder 3
                     (env_change empty_src
                        (snd (construct "/" recorder 3 (quiet docs_src) "/src" [])))
                     ["src"] ["docs"] _ _ _ _ _) [] _ _).
    + intros op p. reflexivity.
    + reflexivity.
    + reflexivity.
    + reflexivity.
    + discriminate.
    + reflexivity.
    + apply (proj1 (bool_decide_eq_true _)). vm_compute. reflexivity.
Defined.

(** ** Trees: looking up beside a put *)

(** What stands at a path: a directory, a file or nothing. *)
Definition shape (o : option node) : option bool :=
  match o with
  | Some (Dir _) => Some true
  | Some (File _) => Some false
  | None => None
  end.

Section PutLookups.

(** Two paths: one continues the other, or they part at some component. *)
Lemma paths_compare (l p : list string) :
  (exists r, l = p ++ r) \/
  (exists r, r <> [] /\ p = l ++ r) \/
  (exists c a b l' p', a <> b /\ l = c ++ a :: l' /\ p = c ++ b :: p').
Proof.
  revert p. induction l as [| a l IH]; intros [| b p].
  - left. now exists [].
  - right. left. exists (b :: p). split; [discriminate | reflexivity].
  - left. now exists (a :: l).
  - destruct (string_dec a b) as [<- | Hab].
    + destruct (IH p) as [(r & ->) | [(r & Hr & ->) | (c & x & y & l' & p' & Hxy & -> & ->)]].
      * left. now exists r.
      * right. left. now exists r.
      * right. right. exists (a :: c), x, y, l', p'. now repeat split.
    + right. right. exists [], a, b, l, p. now repeat split.
Qed.

Lemma put_dir p v es : p <> [] -> exists es', put p v (Dir es) = Dir es'.
Proof.
  destruct p as [| n p]; [congruence |]. intros _. cbn [put].
  destruct p; [eauto |]. destruct (assoc n es); eauto.
Qed.

(** Above the place of a put, one sees the put. *)
Lemma lookup_put_under l : forall r v t x,
  lookup (l ++ r) t = Some x ->
  lookup l (put (l ++ r) v t) = option_map (put r v) (lookup l t).
Proof.
  induction l as [| a l IH]; intros r v t x H; [reflexivity |].
  cbn [app] in *. destruct (lookup_cons_inv _ _ _ _ H) as (es & c & -> & Ha & Hc).
  rewrite (put_cons _ _ _ _ _ Ha). cbn [lookup]. rewrite assoc_set_same, Ha.
  now apply IH with x.
Qed.

(** Beside the place of a put, nothing changes. *)
Lemma lookup_put_apart c a b l' p' v t x :
  a <> b -> lookup (c ++ b :: p') t = Some x ->
  lookup (c ++ a :: l') (put (c ++ b :: p') v t) = lookup (c ++ a :: l') t.
Proof.
  intros Hab H. rewrite !lookup_app, (lookup_put_under c (b :: p') v t x H).
  rewrite lookup_app in H. destruct (lookup c t) as [tc |]; [| discriminate].
  cbn [option_map]. destruct (lookup_cons_inv _ _ _ _ H) as (es & c0 & -> & Hb & _).
  rewrite (put_cons _ _ _ _ _ Hb). cbn [lookup]. rewrite assoc_set_other by congruence.
  reflexivity.
Qed.

Lemma wf_put p : forall v t x,
  lookup p t = Some x -> wf t = true -> wf v = true -> wf (put p v t) = true.
Proof.
  induction p as [| a p IH]; intros v t x H Hwf Hv; [exact Hv |].
  destruct (lookup_cons_inv _ _ _ _ H) as (es & c & -> & Ha & Hc).
  rewrite (put_cons _ _ _ _ _ Ha).
  destruct (wf_dir_inv _ Hwf) as (Hnames & _ & Hsub).
  pose proof (assoc_In _ _ _ Ha) as Hin.
  apply wf_assoc_set; [assumption | |].
  - apply (valid_names_In _ _ Hnames). now apply (in_map fst _ (a, c)).
  - apply IH with x; [assumption | exact (Hsub _ Hin) | assumption].
Qed.

Lemma in_file_paths_iff t l :
  wf t = true ->
  (In l (file_paths [] t) <-> l <> [] /\ shape (lookup l t) = Some false).
Proof.
  intros Hwf. split.
  - intros H. destruct (file_paths_lookup _ _ _ Hwf H) as (q' & -> & Hne & _ & c & Hc).
    cbn [app]. now rewrite Hc.
  - intros (Hne & H). destruct (lookup l t) as [[content | es] |] eqn:E; try discriminate.
    now apply (lookup_in_file_paths l t [] content).
Qed.

Lemma in_dir_paths_iff t l :
  wf t = true ->
  (In l (dir_paths [] t) <-> l <> [] /\ shape (lookup l t) = Some true).
Proof.
  intros Hwf. split.
  - intros H. destruct (dir_paths_lookup _ _ _ Hwf H) as (q' & -> & Hne & _ & es & Hc).
    cbn [app]. now rewrite Hc.
  - intros (Hne & H). destruct (lookup l t) as [[content | es] |] eqn:E; try discriminate.
    now apply (lookup_in_dir_paths l t [] es).
Qed.

(** After the entry [n] of the directory at [q], which was no directory,
    has become a file, the path [q ++ [n]] is a file and every other path
    is what it was: a file, a directory or nothing. *)
Lemma shape_after_write q n content root es l :
  lookup q root = Some (Dir es) ->
  (forall sub, assoc n es <> Some (Dir sub)) ->
  shape (lookup l (put q (Dir (write_entry n content es)) root)) =
    if bool_decide (l = q ++ [n]) then Some false else shape (lookup l root).
Proof.
  intros Hq Hnd.
  destruct (paths_compare l q) as [(r & ->) | [(r & Hr & ->) | (c & a & b & l' & p' & Hab & -> & ->)]].
  - rewrite (lookup_put _ _ _ _ _ Hq), lookup_app, Hq.
    destruct r as [| m r].
    + rewrite bool_decide_eq_false_2; [reflexivity |].
      intros E. apply (f_equal (@List.length string)) in E.
      rewrite !length_app in E. cbn in E. lia.
    + cbn [lookup]. destruct (string_dec m n) as [-> | Hmn].
      * rewrite write_entry_written.
        destruct r as [| m' r].
        -- now rewrite bool_decide_eq_true_2.
        -- rewrite bool_decide_eq_false_2.
           2:{ intros E. apply app_inv_head in E. discriminate. }
           cbn [lookup]. destruct (assoc n es) as [[old | sub] |] eqn:E; try reflexivity.
           now destruct (Hnd sub).
      * rewrite bool_decide_eq_false_2.
        2:{ intros E. apply app_inv_head in E. congruence. }
        now rewrite write_entry_other by congruence.
  - rewrite bool_decide_eq_false_2.
    2:{ intros E. apply (f_equal (@List.length string)) in E.
        rewrite !length_app in E. cbn in E. lia. }
    rewrite (lookup_put_under l r _ root (Dir es) Hq).
    rewrite lookup_app in Hq. destruct (lookup l root) as [[old | sub] |]; try discriminate.
    + destruct r; [congruence | discriminate].
    + cbn [option_map]. destruct (put_dir r (Dir (write_entry n content es)) sub Hr) as [es' E].
      now rewrite E.
  - rewrite (lookup_put_apart c a b l' p' _ root (Dir es) Hab Hq).
    rewrite bool_decide_eq_false_2; [reflexivity |].
    rewrite <- app_assoc. intros E. apply app_inv_head in E. cbn in E. congruence.
Qed.

End PutLookups.

(** ** The mirror sets under a write *)

Section WriteSets.

Variable cwd : string.

Lemma wf_lookup p : forall t x, wf t = true -> lookup p t = Some x -> wf x = true.
Proof.
  induction p as [| a p IH]; intros t x Hwf H.
  - cbn in H. now inversion H; subst.
  - destruct (lookup_cons_inv _ _ _ _ H) as (es & c & -> & Ha & Hc).
    destruct (wf_dir_inv _ Hwf) as (_ & _ & Hsub).
    apply (IH c x); [| assumption]. exact (Hsub _ (assoc_In _ _ _ Ha)).
Qed.

(** [Write] of the entry [n], which is no directory, of the directory at
    [q] of a well-formed target: the files of the target gain the path of
    the entry, the directories of the target are what they were. *)
Lemma write_target_sets fuel (t : ReplicatorTarget) troot q n c tes es :
  canonical_target t troot -> valid_names q = true -> valid_name n = true ->
  lookup troot (fs_tree (tgt_fs t)) = Some (Dir tes) -> wf (Dir tes) = true ->
  lookup (troot ++ q) (fs_tree (tgt_fs t)) = Some (Dir es) ->
  (forall sub, assoc n es <> Some (Dir sub)) ->
  exists t',
    handle_request cwd fuel (Write (rel_path (q ++ [n])) c) t = (Val tt, t') /\
    target_entry t' (rel_path (q ++ [n])) = Some (File c) /\
    target_files t' = {[rel_path (q ++ [n])]} ∪ target_files t /\
    target_dirs t' = target_dirs t.
Proof.
  intros (Hd & Hroot & Hquiet) Hq Hn Htes Hwf Hes Hnd.
  pose proof (target_refocus t troot q es Hd Hes) as Ht.
  set (w := fs_watched (tgt_fs t)) in *. set (faults := fs_faults (tgt_fs t)) in *.
  set (wr := fs_written (tgt_fs t)) in *. set (tree := fs_tree (tgt_fs t)) in *.
  pose proof (write_focus cwd tree troot q _ w faults Hes Hroot Hq Hquiet fuel n c es wr Hn)
    as Hrun.
  rewrite <- Ht in Hrun. eexists. split; [exact Hrun |].
  split.
  { rewrite (target_entry_focus tree troot q _ _ _ _ _ n Hes Hroot Hq Hn).
    apply write_entry_written. }
  assert (Hq0 : lookup q (Dir tes) = Some (Dir es)) by now rewrite lookup_app, Htes in Hes.
  set (root' := put q (Dir (write_entry n c es)) (Dir tes)).
  assert (Hroot' : lookup troot (put (troot ++ q) (Dir (write_entry n c es)) tree) = Some root').
  { rewrite (lookup_put_under troot q _ tree (Dir es) Hes). now rewrite Htes. }
  assert (Hwf' : wf root' = true).
  { apply wf_put with (Dir es); [assumption | assumption |].
    apply wf_write_entry; [| assumption]. now apply (wf_lookup q (Dir tes)). }
  destruct (target_sets_root t troot (Dir tes) Hd Hroot Htes) as [HD HF].
  destruct (target_sets_root
              (target_at tree troot q w faults (write_entry n c es)
                 (if write_needed n c es then (abs_path ((troot ++ q) ++ [n]), c) :: wr else wr))
              troot root' eq_refl Hroot Hroot') as [HD' HF'].
  rewrite HD', HF', HD, HF.
  assert (Hshape : forall l,
             shape (lookup l root') =
               if bool_decide (l = q ++ [n]) then Some false else shape (lookup l (Dir tes))).
  { intros l. now apply shape_after_write. }
  split.
  - change ({[rel_path (q ++ [n])]} ∪ list_to_set (map rel_path (file_paths [] (Dir tes))))
      with (list_to_set (C := gset string)
              (map rel_path ((q ++ [n]) :: file_paths [] (Dir tes)))).
    apply strings_of_paths_eq. intros l.
    rewrite (in_file_paths_iff root' l Hwf'), Hshape. cbn [In].
    rewrite (in_file_paths_iff (Dir tes) l Hwf).
    destruct (bool_decide (l = q ++ [n])) eqn:E.
    + apply bool_decide_eq_true in E. subst l. split; [auto |].
      intros _. split; [| reflexivity]. now destruct q.
    + apply bool_decide_eq_false in E. split; [auto |].
      intros [E' | H]; [congruence | exact H].
  - apply strings_of_paths_eq. intros l.
    rewrite (in_dir_paths_iff root' l Hwf'), Hshape, (in_dir_paths_iff (Dir tes) l Hwf).
    destruct (bool_decide (l = q ++ [n])) eqn:E; [| reflexivity].
    apply bool_decide_eq_true in E. subst l. rewrite lookup_snoc, Hq0.
    split; [intros [_ H]; discriminate |].
    intros [_ H]. destruct (assoc n es) as [[old | sub] |] eqn:Ea; try discriminate.
    now destruct (Hnd sub).
Qed.

End WriteSets.

(** X22.  [Write{p, c}] into an existing directory of a well-formed target,
    where [p] is not a directory: the request returns, the set of file
    paths below the root of the target gains [p] and nothing else, and the
    set of directory paths below the root is what it was. *)
Theorem write_adds_one_file_path :
  forall (cwd : string) (fuel : nat) (t : ReplicatorTarget) (troot q : list string)
         (n c : string) (tes es : entries),
    canonical_target t troot -> valid_names q = true -> valid_name n = true ->
    lookup troot (fs_tree (tgt_fs t)) = Some (Dir tes) -> wf (Dir tes) = true ->
    lookup (troot ++ q) (fs_tree (tgt_fs t)) = Some (Dir es) ->
    (forall sub, assoc n es <> Some (Dir sub)) ->
    exists t',
      handle_request cwd fuel (Write (rel_path (q ++ [n])) c) t = (Val tt, t') /\
      target_entry t' (rel_path (q ++ [n])) = Some (File c) /\
      target_files t' = {[rel_path (q ++ [n])]} ∪ target_files t /\
      target_dirs t' = target_dirs t.
Proof.
  intros cwd fuel t troot q n c tes es Hc Hq Hn Htes Hwf Hes Hnd.
  exact (write_target_sets cwd fuel t troot q n c tes es Hc Hq Hn Htes Hwf Hes Hnd).
Qed.

Lemma write_adds_one_file_path_witness :
  exists t',
    handle_request "/" 3 (Write "a/new.txt" "v") (mkTarget (quiet drifted) "/t") = (Val tt, t') /\
    target_entry t' "a/new.txt" = Some (File "v") /\
    target_files t' = {["a/new.txt"]} ∪ target_files (mkTarget (quiet drifted) "/t") /\
    target_dirs t' = target_dirs (mkTarget (quiet drifted) "/t").
Proof.
  apply (write_adds_one_file_path "/" 3 (mkTarget (quiet drifted) "/t") ["t"] ["a"]
           "new.txt" "v"
           [("a", Dir [("b", Dir []); ("keep.txt", File "k"); ("extra.txt", File "e")]);
            ("x", Dir [("y", File "1")])]
           [("b", Dir []); ("keep.txt", File "k"); ("extra.txt", File "e")]).
  - split; [reflexivity | split; [reflexivity | intros op p; reflexivity]].
  - reflexivity.
  - reflexivity.
  - reflexivity.
  - reflexivity.
  - reflexivity.
  - intros sub. discriminate.
Defined.

(** X23.  File events keep the mirror.  With the request handler of a
    target as the transport, suppose the file paths below the root of the
    target are exactly the watched files of the source.  Then after the
    handling of an event that reports a regular file of the source as added,
    or as modified when it is a watched file, they still are; the set of
    directory paths of the target and the watched directories of the source
    are what they were.  (The directory that holds the file is supposed to
    exist on the target, which is well formed, and the path not to be a
    directory there.) *)
Theorem file_event_keeps_the_mirror :
  forall (cwd : string) (sfuel tfuel : nat) (s : ReplicatorSource ReplicatorTarget)
         (sroot troot q : list string) (n c : string) (ty : FileSystemEventType)
         (tes es : entries),
    src_dir_path s = abs_path sroot -> valid_names sroot = true ->
    canonical_target (src_peer s) troot ->
    valid_names q = true -> valid_name n = true ->
    let p := abs_path (sroot ++ q ++ [n]) in
    let rel := rel_path (q ++ [n]) in
    fs_faults (src_fs s) OpIsdir p = None -> fs_faults (src_fs s) OpReadfile p = None ->
    lookup (sroot ++ q ++ [n]) (fs_tree (src_fs s)) = Some (File c) ->
    lookup troot (fs_tree (tgt_fs (src_peer s))) = Some (Dir tes) -> wf (Dir tes) = true ->
    lookup (troot ++ q) (fs_tree (tgt_fs (src_peer s))) = Some (Dir es) ->
    (forall sub, assoc n es <> Some (Dir sub)) ->
    target_files (src_peer s) = src_watch_files s ->
    ty = FILE_OR_SUBDIR_ADDED \/ (ty = FILE_MODIFIED /\ rel ∈ src_watch_files s) ->
    exists s',
      handle_event cwd (handle_request cwd tfuel) sfuel (mkEvent ty p) s = (Val tt, s') /\
      target_files (src_peer s') = src_watch_files s' /\
      target_dirs (src_peer s') = target_dirs (src_peer s) /\
      src_watch_dirs s' = src_watch_dirs s.
Proof.
  intros cwd sfuel tfuel s sroot troot q n c ty tes es Hdp Hsroot Hc Hq Hn p rel
    Hi Hf Hfile Htes Hwf Hes Hnd Hmirror Hty.
  assert (Hqn : valid_names (q ++ [n]) = true).
  { apply valid_names_app. split; [assumption |]. now apply valid_names_cons. }
  assert (Hrel : relpath cwd p (src_dir_path s) = Some rel).
  { unfold p, rel. rewrite Hdp. now apply relpath_abs_path. }
  assert (Hat : at_path (src_fs s) p = Some (File c)).
  { unfold at_path, p. rewrite resolve_abs_path; [exact Hfile |]. now apply valid_names_app. }
  destruct (write_target_sets cwd tfuel (src_peer s) troot q n c tes es Hc Hq Hn Htes Hwf Hes Hnd)
    as (t' & Hrun & _ & HF & HD).
  fold rel in Hrun, HF.
  destruct Hty as [-> | [-> Hin]].
  - rewrite (added_file_run cwd _ sfuel p rel c s Hrel Hi Hf Hat), Hrun. cbn [fst snd].
    eexists. split; [reflexivity |].
    cbn [src_peer src_watch_files src_watch_dirs]. rewrite HF, Hmirror. auto.
  - rewrite (modified_run cwd _ sfuel p rel c s Hrel Hf Hat), Hrun. cbn [fst snd].
    eexists. split; [reflexivity |].
    cbn [src_peer src_watch_files src_watch_dirs]. rewrite HF, Hmirror.
    split; [set_solver | auto].
Qed.

Lemma file_event_keeps_the_mirror_witness :
  let s := snd (construct "/" (handle_request "/" 5) 5 (quiet docs_src) "/src"
                  (mkTarget (quiet drifted) "/t")) in
  exists s',
    handle_event "/" (handle_request "/" 5) 5 (mkEvent FILE_MODIFIED "/src/docs/a.txt") s =
      (Val tt, s') /\
    target_files (src_peer s') = src_watch_files s' /\
    target_dirs (src_peer s') = target_dirs (src_peer s) /\
    src_watch_dirs s' = src_watch_dirs s.
Proof.
  cbv zeta.
  apply (file_event_keeps_the_mirror "/" 5 5
           (snd (construct "/" (handle_request "/" 5) 5 (quiet docs_src) "/src"
                   (mkTarget (quiet drifted) "/t")))
           ["src"] ["t"] ["docs"] "a.txt" "hello" FILE_MODIFIED
           [("docs", Dir [("a.txt", File "hello")])] [("a.txt", File "hello")]).
  - reflexivity.
  - reflexivity.
  - split; [reflexivity | split; [reflexivity | intros op p; reflexivity]].
  - reflexivity.
  - reflexivity.
  - reflexivity.
  - reflexivity.
  - reflexivity.
  - vm_compute. reflexivity.
  - reflexivity.
  - vm_compute. reflexivity.
  - intros sub. vm_compute. discriminate.
  - apply (proj1 (bool_decide_eq_true _)). vm_compute. reflexivity.
  - right. split; [reflexivity |].
    apply (proj1 (bool_decide_eq_true _)). vm_compute. reflexivity.
Defined.
